(* ===== verification/_CoqProject ===== *)
-Q . S2P
Prelude.v
GoStd.v
GoTime.v
Util.v
Model.v
Externals.v
Sim.v
Distribute.v
Dealing.v
Dealer.v
Arg.v
Configure.v
Client.v
Fsm.v
Sharing.v
Store.v
Replication.v
Url.v
Http.v
Service.v
Writing.v
Joining.v
Jobs.v
Logging.v
LogAdapters.v
Ticker.v
Start.v
Demo.v
