(* ===== verification/Prelude.v ===== *)
(** * Verification of hraftd

    hraftd is a key-value store replicated with hashicorp/raft and reached over
    HTTP.  A client sends a key change to any node; the node's HTTP service
    ([src/service*.go]) hands it to the leader, whose store ([src/store.go]) proposes
    it to raft as an encoded command; raft commits it and calls every node's
    [Apply] with it, which changes the node's map.  Nodes join by asking the leader
    over HTTP, which changes the raft configuration and keeps it in peers.json.  Next
    to that the program distributes jobs over the nodes ([src/distribute.go],
    [src/job.go]), logs, and runs a ticker while it leads.

    ** How the program is modelled

    A Go function becomes a Rocq function of the same name (with its type in front
    where two methods share a name: [RaftStore_Join], [Arg_Join], [NodeID_Fix]; [Set_]
    because [Set] is a keyword).  A function that only computes is pure; one that
    changes something is in the monad [M W] of this file, which passes the state
    [W] on and ends in [Ret] or [Panic] - the changes made before a panic stay.
    Errors are values of [error].  Go strings are byte strings; Go ints are [Z], with
    the 64-bit range written out where it is reached ([Atoi], [itoa]); a Go map is a
    [gmap], and where the order of its traversal shows, the order is a parameter
    that is some permutation of the map.  (Where a map is shared, Sharing.v has it behind an
    address.)

    Code outside the repository is a class over the state of the world (Externals.v;
    [Reflect] in Dealer.v, [Host] in Arg.v, [Proxy] and [Dial] in Http.v, [Listening] in Start.v, [Generators]
    and [LogSink] in Demo.v, [io_Writer] in Logging.v, [Logrus] in LogAdapters.v): raft,
    json-iterator, the HTTP client, the file system, name lookup, sockets, writers.
    What a theorem needs to know of it is a class of laws with its documented behaviour
    ([RaftMembership], [CodecLaws], [FileSystemLaws], [RaftNames], [FileSystemFrame],
    [RaftFrame], [LogrusNames]); of a call that failed no law says anything.  Sim.v instantiates them with executable functions
    and proves the laws there, so every theorem has a run it speaks of.

    The interfaces of the program itself are classes with a contract: [StoreI] with
    [StoreContract] between the HTTP service and the store (Service.v), [Logger] with
    [LoggerContract] between the logger and its adapters (Logging.v).  Clients are
    proved against the contract, implementations discharge it, and logrus is shown
    not to.

    ** The files

    - Prelude: results, errors, the monad, counters, lemmas on lists.
    - GoStd: the standard library functions the program computes with: strings,
      [net.SplitHostPort], [strconv.Atoi], [filepath.Join].
    - Url: the parsing, escaping and printing of URLs ([net/url]).
    - GoTime: [FormatTime] and [ParseTime] of [util.go], with the calendar under them.
    - Util: constants and helpers of [util.go], [const.go], [proxy.go].
    - Model: [NodeID] ([arg.go]) and the data types of [model.go].
    - Externals: the classes of the code outside, and [http.go] on top of them.
    - Sim: a concrete wire format and a simulated node, for the witnesses.
    - Distribute: [distribute.go], the sticky distribution of items over peers.
    - Dealing: a reference for it without counters, and the proof that they agree.
    - Dealer: [job.go] and [logdealer.go], registered functions called by name.
    - Arg: [arg.go], the arguments, the steps of [Fix], and the flags.
    - Configure: the configuration [Fix] derives, as a pure function.
    - Client: the calls to other nodes: [Join], [Cluster], the search for a leader
      ([arg.go], [store.go]) and [DistributeJob] ([peerjob.go]).
    - Fsm: the state machine of a node: [Apply], [Intercept], [Snapshot], [Persist],
      [Restore], and the abstract store [kv_apply] they implement.
    - Sharing: the same operations over a heap of maps, for what a snapshot shares with
      the store.
    - Store: the rest of [store.go]: proposals, membership, views, peers.json,
      opening, and the two waiting loops.
    - Replication: a cluster of such nodes over one committed log, as a step relation.
    - Http: requests, the write-once response, the director of the reverse proxy and
      its dialer ([proxy.go]), and how a URL given to a client becomes a request at the
      server.
    - Service: the interface of [storei.go] with its contract, the handlers of
      [service.go], [service_key.go], [service_raft.go] and [job.go], and the proof
      that [RaftStore] keeps the contract.
    - Writing, Joining, Jobs: two nodes in one model - a write through the proxy to the
      log and back out of the replicas, a join from the client to the configuration
      and back, a job from the caller to the dealer of a peer and back.
    - Logging: [logger.go], the logger that writes lines and the interface it implements.
    - LogAdapters: [stdlog.go], [logrus.go] and the hclog adapter of [store.go].
    - Ticker: [ticker.go], [listenLeaderCh] and [leaderChanging] of [cmd/hraftd/main.go].
    - Start: [Create], [StartAll], [GoStartHTTP], [StartRaft], [Close] of [service.go].
    - Demo: the rest of [cmd/hraftd/main.go]: [main] from its flags on, what the leader
      does at every tick, the dealers and the interceptor.

    ** What is shown

    The replicated state.  [Apply] does to the map what the abstract store says, on
    every branch ([Fsm.Apply_spec]); snapshots carry the map over
    ([Fsm.snapshot_restore]) and are isolated from what is applied before they are written
    ([Sharing.snapshot_isolated]); a set on the leader arrives at every replica that
    applies it in time ([Store.Set_reaches_replicas]); nodes that have applied
    equally far agree if they judge the age of commands alike
    ([Replication.replicas_agree]) - and need not agree otherwise, as [Apply] reads
    the clock ([Replication.replicas_diverge]); and a node that is behind gets to the end of
    the log unless an entry does not decode or a dealer panics
    ([Replication.replica_catches_up]).  The age test is characterised exactly
    ([Fsm.set_fresh_iff]); it loses every set made west of UTC
    ([Fsm.set_west_of_utc_lost]).

    Membership.  A successful [Join] keeps ids and addresses distinct and leaves exactly the
    servers it should; a failed one is traced to the call of raft that failed, of whose
    effect nothing is known ([Store.Join_membership]).  What a change leaves is recorded
    in peers.json ([Store.membership_recorded]), which reads back
    ([Store.peers_json_roundtrip]); [Open] bootstraps exactly when it should, after all it
    needs was made ([Store.Open_spec]); the view of the cluster is a view of the
    configuration ([Store.Cluster_view]); the waiting loops end as they promise, or get
    stuck in a request ([Store.WaitForLeader_spec]).  From the other side, a join that
    reports success was accepted and is visible ([Client.Join_succeeds]), and the leader
    search reports what the nodes it asks say ([Client.findLeader_spec]); both sides
    together, a join makes the node a member under the host it was seen at, and succeeds
    exactly when the configuration it was told lists its own name
    ([Joining.join_end_to_end]).

    The service.  A node that does not lead serves no write but forwards it
    ([Service.follower_forwards_writes]), and never a second time
    ([Service.forward_at_most_once]); the requests that are no writes call no writing
    operation of the store ([Service.other_requests_only_read]).  A write from end to end: what is posted to such a
    node is proposed by the leader, key by key until one fails, and served by every
    replica that applies it in time ([Writing.write_end_to_end]).  What each endpoint
    answers is stated for the leader, for reads, for joins and for jobs; the handlers
    rely on the store only through [StoreContract].

    Jobs.  [Distribute] sends every item once, keeps it where it was while it can,
    balances the load within one, is stable when repeated, and does what the deal
    without counters does ([Dealing.Distribute_deals]).  A job that was handed out is a
    call of the peer's dealer of the name as a URL spells it ([Jobs.job_end_to_end]), and
    a dealer is called with a value of its type unless it is variadic
    ([Dealer.Invoke_type_safe]).  In the demo, the items of a
    tick reach the log dealer of the nodes they name ([Demo.rig_items_delivered]).

    Start and configuration.  [Fix] computes a well-formed configuration or refuses a
    port, and is idempotent ([Configure.Fix_configures]); starting comes to an end if the
    searches for a leader do ([Start.StartAll_returns]).

    The rest: what a log call writes, byte by byte ([Logging.Logf_spec]); what becomes
    of a line of Go's own logger ([LogAdapters.stdlog_Write_spec]) and of the warn level
    behind logrus ([LogAdapters.LogrusAdapter_breaks_contract]); the ticker's
    goroutines ([Ticker.leaderChanging_panics]).

    ** Fuel and bounds

    [GoStd.dec] divides by ten and has one round per bit; the month search of GoTime
    has 11 rounds for 11 month ends; [trim_front] and [replace_go] have the length of
    the string, off which every round takes a byte;
    [itoa_loop] has 21 rounds for a buffer of 20 bytes, whose bound check ends it
    first.  Each has a lemma that the fuel is enough, or a result that does not depend
    on it.  The waiting loops run over the list of events their [select] receives and
    say when that list leaves them blocked; a tick whose work never ends is one of the
    events ([hang]).

    ** What is not modelled

    Requests that never come back, but for the wait for a leader: the HTTP client has no
    timeout, so any call of it can block its caller for ever, and [client_Get] and
    [client_Post] are the answers of those that do come back.  What raft does to its
    configuration when a change of it fails.  Raft itself, its transport and its stores; the HTTP server, TLS and sockets beyond
    their calls; how the requests of a node interleave (each operation on the map, under
    its mutex, is one step, as is a log call); the formatting of log operands, [Sprintf];
    the text of most log lines; the profiler behind its routes; the parsing of the
    command line, the setup of logrus and the wait for the interrupt around [main]. *)

From stdpp Require Import prelude gmap strings.

(** ** Go results

    A Go call either returns or panics.  A panic unwinds the goroutine, but the
    mutations made before it stay, so stateful code returns the state next to
    the [outcome]. *)

Inductive outcome (A : Type) : Type :=
| Ret (a : A)
| Panic (msg : string).
Arguments Ret {A} a.
Arguments Panic {A} msg.

Lemma Ret_inj {A} (a b : A) : Ret a = Ret b → a = b.
Proof. congruence. Qed.

(** Go [error] values, as far as the program can tell them apart: the four
    sentinels it compares with, texts it makes with [errors.New] and
    [fmt.Errorf], a wrapped error ([%w]) and the errors of code outside the
    repository, known by their text. *)
Inductive error : Type :=
| ErrNotLeader
| ErrOpenTimeout
| ErrDealerNoExists
| ErrDealerContinue
| ErrText (s : string)
| ErrWrap (prefix : string) (e : error)
| ErrExt (s : string).

#[export] Instance error_eq_dec : EqDecision error.
Proof. solve_decision. Defined.

(** The text of an error, [err.Error()]. *)
Fixpoint Error (e : error) : string :=
  match e with
  | ErrNotLeader => "not leader"
  | ErrOpenTimeout => "timeout waiting for initial logs application"
  | ErrDealerNoExists => "dealer does not exist"
  | ErrDealerContinue => "dealer bypass and should continue"
  | ErrText s => s
  | ErrWrap p e => p +:+ Error e
  | ErrExt s => s
  end.

(** [errors.Is]: the error or one it wraps is the target. *)
Fixpoint errors_Is (e target : error) : bool :=
  bool_decide (e = target) ||
  match e with
  | ErrWrap _ e' => errors_Is e' target
  | _ => false
  end.

(** Go types, as far as the reflective code looks at them. *)
Inductive gotype : Type :=
| TPtr (t : gotype)
| TSlice (t : gotype)
| TNamed (name : string).

#[export] Instance gotype_eq_dec : EqDecision gotype.
Proof. solve_decision. Defined.

(** ** The state and panic monad *)

Definition M (W A : Type) : Type := W → W * outcome A.

#[export] Instance M_ret W : MRet (M W) := λ A a w, (w, Ret a).
#[export] Instance M_bind W : MBind (M W) := λ A B k m w,
  match m w with
  | (w', Ret a) => k a w'
  | (w', Panic msg) => (w', Panic msg)
  end.
Definition panic {W A} (msg : string) : M W A := λ w, (w, Panic msg).
Definition gets {W A} (f : W → A) : M W A := λ w, (w, Ret (f w)).
Definition modify {W} (f : W → W) : M W unit := λ w, (f w, Ret tt).

(** A statement that only writes to the log has no effect on the state. *)
Definition log {W} : M W unit := mret tt.

Section monad_laws.
Context {W : Type}.

Lemma bind_ret_l {A B} (a : A) (k : A → M W B) w : (mret a ≫= k) w = k a w.
Proof. done. Qed.

Lemma bind_ret_r {A} (m : M W A) w : (m ≫= mret) w = m w.
Proof. unfold mbind, M_bind, mret, M_ret. by destruct (m w) as [? []]. Qed.

Lemma bind_assoc {A B C} (m : M W A) (k : A → M W B) (h : B → M W C) w :
  ((m ≫= k) ≫= h) w = (m ≫= λ a, k a ≫= h) w.
Proof. unfold mbind, M_bind. by destruct (m w) as [? []]. Qed.

Lemma bind_Ret_inv {A B} (m : M W A) (k : A → M W B) w w' b :
  (m ≫= k) w = (w', Ret b) → ∃ w1 a, m w = (w1, Ret a) ∧ k a w1 = (w', Ret b).
Proof. unfold mbind, M_bind. destruct (m w) as [w1 [a|]]; naive_solver. Qed.
End monad_laws.

(** *** What a computation leaves alone

    [keeps P f]: the predicate [P] of the state survives a run of [f], a panicking one
    included.  The rules follow the statements; [keeps] searches with them. *)
Definition keeps {W A} (P : W → Prop) (f : M W A) : Prop := ∀ w, P w → P (f w).1.

Section keeps.
Context {W : Type} (P : W → Prop).

Lemma keeps_ret {A} (a : A) : keeps P (mret a).
Proof. by intros w. Qed.
Lemma keeps_panic {A} msg : keeps P (panic (A := A) msg).
Proof. by intros w. Qed.
Lemma keeps_gets {A} (f : W → A) : keeps P (gets f).
Proof. by intros w. Qed.
Lemma keeps_bind {A B} (f : M W A) (k : A → M W B) :
  keeps P f → (∀ a, keeps P (k a)) → keeps P (f ≫= k).
Proof.
  intros Hf Hk w Hw. unfold mbind, M_bind. specialize (Hf w Hw).
  destruct (f w) as [w' [a|msg]]; [by apply Hk|done].
Qed.
End keeps.

Create HintDb keeps.
#[export] Hint Resolve keeps_ret keeps_panic keeps_gets : keeps.
Ltac keeps :=
  repeat first
    [ progress intros
    | solve [eauto with keeps]
    | match goal with |- keeps _ (mbind _ _) => apply keeps_bind end
    | case_decide | case_match ].

(** ** Integer counters held in a map

    A Go [map[K]int] reads a missing key as 0. *)

Section counters.
Context `{Countable K}.
Implicit Types (m : gmap K Z) (k : K).

Definition get0 (m : gmap K Z) (k : K) : Z := default 0%Z (m !! k).
Definition add0 (k : K) (d : Z) (m : gmap K Z) : gmap K Z := <[k := (get0 m k + d)%Z]> m.

Lemma get0_add0 m k k' d :
  get0 (add0 k d m) k' = (get0 m k' + if decide (k = k') then d else 0)%Z.
Proof.
  unfold get0, add0. rewrite lookup_insert.
  case_decide; subst; simpl; [done|]. by rewrite Z.add_0_r.
Qed.

Lemma get0_empty k : get0 ∅ k = 0%Z.
Proof. unfold get0. by rewrite lookup_empty. Qed.
End counters.

(** ** Lists *)

Lemma filter_all {A} (P : A → Prop) `{∀ x, Decision (P x)} (l : list A) :
  (∀ x, x ∈ l → P x) → filter P l = l.
Proof.
  induction l as [|x l IH]; intros H'; [done|]. rewrite filter_cons, decide_True by set_solver.
  f_equal. apply IH. set_solver.
Qed.

Lemma filter_none {A} (P : A → Prop) `{∀ x, Decision (P x)} (l : list A) :
  (∀ x, x ∈ l → ¬ P x) → filter P l = [].
Proof.
  induction l as [|x l IH]; intros H'; [done|]. rewrite filter_cons, decide_False by set_solver.
  apply IH. set_solver.
Qed.

Lemma filter_iff_in {A} (P Q : A → Prop) `{∀ x, Decision (P x), ∀ x, Decision (Q x)} (l : list A) :
  (∀ x, x ∈ l → P x ↔ Q x) → filter P l = filter Q l.
Proof.
  induction l as [|x l IH]; intros Hi; [done|]. rewrite !filter_cons.
  specialize (IH (λ y Hy, Hi y (list_elem_of_further _ _ _ Hy))).
  destruct (Hi x (list_elem_of_here _ _)) as [H1 H2]. repeat case_decide; try tauto; by rewrite ?IH.
Qed.

(** A list without duplicate [f] has at most one element with a given [f]. *)
Lemma NoDup_fmap_inj_in {A B} (f : A → B) (l : list A) x y :
  NoDup (f <$> l) → x ∈ l → y ∈ l → f x = f y → x = y.
Proof.
  intros Hn Hx Hy E. destruct (list_elem_of_lookup_1 _ _ Hx) as [i Hi].
  destruct (list_elem_of_lookup_1 _ _ Hy) as [j Hj].
  assert (i = j) as ->.
  { eapply NoDup_lookup; [exact Hn| |]; rewrite list_lookup_fmap.
    - by rewrite Hi.
    - rewrite Hj. simpl. by rewrite E. }
  congruence.
Qed.

(** ** Sums over lists *)

Definition sum_Z (l : list Z) : Z := foldr Z.add 0%Z l.

Lemma sum_Z_app l1 l2 : sum_Z (l1 ++ l2) = (sum_Z l1 + sum_Z l2)%Z.
Proof. induction l1; simpl; [done|]. rewrite IHl1. lia. Qed.

Lemma sum_Z_nonneg l : Forall (λ z, 0 ≤ z)%Z l → (0 ≤ sum_Z l)%Z.
Proof. induction 1; simpl; lia. Qed.

Lemma sum_Z_pos_exists l : (0 < sum_Z l)%Z → Exists (λ z, 0 < z)%Z l.
Proof.
  induction l as [|z l IH]; simpl; [lia|]. intros Hs.
  destruct (decide (0 < z)%Z); [by left|right; apply IH; lia].
Qed.

Lemma sum_Z_zero l : Forall (λ z, 0 ≤ z)%Z l → sum_Z l = 0%Z → Forall (λ z, z = 0%Z) l.
Proof.
  induction 1 as [|z l Hz Hl IH]; simpl; [by constructor|]. intros Hs.
  pose proof (sum_Z_nonneg l Hl). constructor; [lia|]. apply IH. lia.
Qed.

(** ** Tactics *)

(** Case on every [decide] and [if] in sight, then clean up. *)
Ltac cases :=
  repeat (case_decide || case_match; simplify_eq/=); try done.

Create Rewrite HintDb go_rw.
#[export] Hint Rewrite @get0_add0 @get0_empty : go_rw.
