(* ===== verification/GoStd.v ===== *)
(** * The part of Go's standard library the program computes with

    Go strings are byte sequences, here [string] (a list of [ascii] bytes).
    This file models, for the calls made under [src/]: [strings] (HasPrefix,
    TrimPrefix, TrimSpace, TrimRight, Split), [net.SplitHostPort],
    [strconv.Atoi] on a 64-bit [int], and the [%d] verb.  Nothing here is code
    of the repository; the other files build on it. *)

From Stdlib Require Import Ascii.
From stdpp Require Import prelude strings.
From S2P Require Import Prelude.

(** ** Bytes *)

Definition byte_val (c : ascii) : Z := Z.of_N (N_of_ascii c).
Definition byte_of (z : Z) : ascii := ascii_of_N (Z.to_N (z `mod` 256)).

Lemma byte_val_range c : (0 ≤ byte_val c < 256)%Z.
Proof.
  unfold byte_val. pose proof (N_ascii_bounded c). lia.
Qed.

Lemma byte_val_of z : (0 ≤ z < 256)%Z → byte_val (byte_of z) = z.
Proof.
  intros ?. unfold byte_val, byte_of. rewrite Z.mod_small by lia.
  rewrite N_ascii_embedding by lia. lia.
Qed.

(** ** Concatenation *)

Lemma str_app_nil_l (s : string) : "" +:+ s = s.
Proof. done. Qed.
Lemma str_app_cons c (s t : string) : String c s +:+ t = String c (s +:+ t).
Proof. done. Qed.
Lemma str_app_nil_r (s : string) : s +:+ "" = s.
Proof. induction s as [|c s IH]; [done|]. by rewrite str_app_cons, IH. Qed.
Lemma str_app_assoc (s t u : string) : (s +:+ t) +:+ u = s +:+ (t +:+ u).
Proof. induction s as [|c s IH]; [done|]. by rewrite !str_app_cons, IH. Qed.
Lemma str_length_app (s t : string) :
  String.length (s +:+ t) = String.length s + String.length t.
Proof. induction s as [|c s IH]; [done|]. rewrite str_app_cons; simpl; lia. Qed.
Lemma str_app_inj_l (s t u : string) : s +:+ t = s +:+ u → t = u.
Proof.
  induction s as [|c s IH]; [done|]. rewrite !str_app_cons. intros [= ?]; auto.
Qed.
Lemma str_app_eq_nil (s t : string) : s +:+ t = "" ↔ s = "" ∧ t = "".
Proof. split; [destruct s; [done|by rewrite str_app_cons]|by intros [-> ->]]. Qed.

Create Rewrite HintDb str.
#[export] Hint Rewrite str_app_nil_l str_app_cons str_app_nil_r str_app_assoc : str.

(** ** Prefixes *)

(** The rest of [s] after the prefix [p], if [s] starts with it. *)
Fixpoint strip (p s : string) : option string :=
  match p, s with
  | EmptyString, _ => Some s
  | String a p', String b s' => if decide (a = b) then strip p' s' else None
  | String _ _, EmptyString => None
  end.

(** [strings.HasPrefix] and [strings.TrimPrefix]. *)
Definition HasPrefix (s p : string) : bool :=
  match strip p s with Some _ => true | None => false end.
Definition TrimPrefix (s p : string) : string := default s (strip p s).

Lemma strip_spec p s t : strip p s = Some t ↔ s = p +:+ t.
Proof.
  revert s. induction p as [|a p IH]; intros s; simpl.
  { rewrite str_app_nil_l. naive_solver. }
  rewrite str_app_cons. destruct s as [|b s]; [done|].
  case_decide; subst; [rewrite IH|]; clear IH; naive_solver.
Qed.

Lemma strip_app p t : strip p (p +:+ t) = Some t.
Proof. by apply strip_spec. Qed.
Lemma TrimPrefix_app p t : TrimPrefix (p +:+ t) p = t.
Proof. unfold TrimPrefix. by rewrite strip_app. Qed.
Lemma HasPrefix_spec s p : HasPrefix s p = true ↔ ∃ t, s = p +:+ t.
Proof.
  unfold HasPrefix. destruct (strip p s) eqn:E.
  - apply strip_spec in E. naive_solver.
  - split; [done|]. intros [t ->]. by rewrite strip_app in E.
Qed.
Lemma TrimPrefix_no s p : HasPrefix s p = false → TrimPrefix s p = s.
Proof. unfold HasPrefix, TrimPrefix. by destruct (strip p s). Qed.

#[export] Hint Rewrite strip_app TrimPrefix_app : str.

(** [strings.ReplaceAll] for a pattern that is not empty: every round takes at least one
    byte off the string, so its length is enough fuel. *)
Fixpoint replace_go (fuel : nat) (old new s : string) : string :=
  match fuel with
  | O => s
  | S fuel =>
      match s with
      | EmptyString => ""
      | String c r =>
          match strip old s with
          | Some rest => new +:+ replace_go fuel old new rest
          | None => String c (replace_go fuel old new r)
          end
      end
  end.
Definition ReplaceAll (old new s : string) : string := replace_go (String.length s) old new s.
Definition dquote : ascii := "034".
Definition backslash : ascii := "\".

(** ** Searching for one byte *)

Fixpoint contains (c : ascii) (s : string) : bool :=
  match s with
  | EmptyString => false
  | String a r => bool_decide (a = c) || contains c r
  end.

(** Taking a byte out leaves none of it. *)
Lemma ReplaceAll_byte c s : contains c (ReplaceAll (String c "") "" s) = false.
Proof.
  unfold ReplaceAll. induction s as [|a s IH]; [done|]. cbn [String.length replace_go strip].
  case_decide as Hc; [by rewrite str_app_nil_l|].
  cbn [contains]. rewrite bool_decide_false by congruence. exact IH.
Qed.

(** The parts around the first and around the last occurrence of [c]. *)
Fixpoint cut_first (c : ascii) (s : string) : option (string * string) :=
  match s with
  | EmptyString => None
  | String a r =>
      if decide (a = c) then Some ("", r)
      else match cut_first c r with
           | Some (h, t) => Some (String a h, t)
           | None => None
           end
  end.
Fixpoint cut_last (c : ascii) (s : string) : option (string * string) :=
  match s with
  | EmptyString => None
  | String a r =>
      match cut_last c r with
      | Some (h, t) => Some (String a h, t)
      | None => if decide (a = c) then Some ("", r) else None
      end
  end.

(** [strings.Split] (and [SplitN] with [n = -1]) at a one-byte separator. *)
Fixpoint Split (c : ascii) (s : string) : list string :=
  match s with
  | EmptyString => [""]
  | String a r =>
      if decide (a = c) then "" :: Split c r
      else match Split c r with
           | x :: xs => String a x :: xs
           | [] => [String a ""]
           end
  end.

Lemma contains_app c s t : contains c (s +:+ t) = contains c s || contains c t.
Proof.
  induction s as [|a s IH]; [done|]. rewrite str_app_cons; simpl.
  by rewrite IH, orb_assoc.
Qed.
Lemma contains_cons c a s : contains c (String a s) = bool_decide (a = c) || contains c s.
Proof. done. Qed.

Lemma cut_last_none c s : contains c s = false → cut_last c s = None.
Proof.
  induction s as [|a s IH]; [done|]; simpl. intros [Ha Hs]%orb_false_iff.
  apply bool_decide_eq_false in Ha. rewrite (IH Hs). by case_decide.
Qed.
Lemma cut_last_app c s t : contains c t = false →
  cut_last c (s +:+ String c t) = Some (s, t).
Proof.
  intros Ht. induction s as [|a s IH].
  - rewrite str_app_nil_l; simpl. rewrite cut_last_none by done. by case_decide.
  - rewrite str_app_cons; simpl. by rewrite IH.
Qed.
Lemma cut_last_Some c s h t : cut_last c s = Some (h, t) →
  s = h +:+ String c t ∧ contains c t = false.
Proof.
  revert h. induction s as [|a s IH]; intros h; [done|]; simpl.
  destruct (cut_last c s) as [[h' t']|] eqn:E; intros ?; simplify_eq.
  - destruct (IH _ eq_refl) as [-> ?]. by rewrite str_app_cons.
  - case_decide; simplify_eq. split; [done|].
    clear IH. induction t as [|b t IHt]; [done|]; simpl in *.
    destruct (cut_last c t) as [[]|]; [done|]. case_decide; [done|].
    rewrite bool_decide_false by done. by apply IHt.
Qed.
Lemma cut_last_None c s : cut_last c s = None → contains c s = false.
Proof.
  induction s as [|a s IH]; [done|]; simpl.
  destruct (cut_last c s) as [[]|]; [done|]. case_decide; [done|]. intros _.
  rewrite bool_decide_false by done. auto.
Qed.

Lemma cut_first_none c s : contains c s = false → cut_first c s = None.
Proof.
  induction s as [|a s IH]; [done|]; simpl. intros [Ha Hs]%orb_false_iff.
  apply bool_decide_eq_false in Ha. rewrite (IH Hs). by case_decide.
Qed.
Lemma cut_first_app c s t : contains c s = false →
  cut_first c (s +:+ String c t) = Some (s, t).
Proof.
  induction s as [|a s IH]; intros Hs.
  - rewrite str_app_nil_l; simpl. by case_decide.
  - simpl in Hs. apply orb_false_iff in Hs as [Ha Hs].
    apply bool_decide_eq_false in Ha. rewrite str_app_cons; simpl.
    rewrite (IH Hs). by case_decide.
Qed.
Lemma cut_first_Some c s h t : cut_first c s = Some (h, t) →
  s = h +:+ String c t ∧ contains c h = false.
Proof.
  revert h. induction s as [|a s IH]; intros h; [done|]; simpl.
  case_decide as Ha; [intros; simplify_eq; done|].
  destruct (cut_first c s) as [[h' t']|] eqn:E; intros ?; simplify_eq.
  destruct (IH _ eq_refl) as [-> ?]. rewrite str_app_cons; simpl.
  by rewrite bool_decide_false.
Qed.

Lemma Split_nonempty c s : Split c s ≠ [].
Proof. destruct s as [|a s]; simpl; [done|]. case_decide; [done|]. by destruct (Split c s). Qed.
Lemma Split_none c s : contains c s = false → Split c s = [s].
Proof.
  induction s as [|a s IH]; [done|]; simpl. intros [Ha Hs]%orb_false_iff.
  apply bool_decide_eq_false in Ha. rewrite (IH Hs). by case_decide.
Qed.
Lemma Split_app c s t : contains c s = false →
  Split c (s +:+ String c t) = s :: Split c t.
Proof.
  induction s as [|a s IH]; intros Hs.
  - rewrite str_app_nil_l; simpl. by case_decide.
  - simpl in Hs. apply orb_false_iff in Hs as [Ha Hs].
    apply bool_decide_eq_false in Ha. rewrite str_app_cons; simpl.
    rewrite (IH Hs). by case_decide.
Qed.

(** ** net.SplitHostPort

    Returns the host, the port and the error; on an error host and port are
    empty, which the callers that drop the error rely on. *)

Definition colon : ascii := ":".
Definition lbracket : ascii := "[".
Definition rbracket : ascii := "]".

Definition addrErr (why addr : string) : string * string * option error :=
  ("", "", Some (ErrExt ("address " +:+ addr +:+ ": " +:+ why))).

Definition SplitHostPort (hostport : string) : string * string * option error :=
  match cut_last colon hostport with
  | None => addrErr "missing port in address" hostport
  | Some (before, port) =>
      match hostport with
      | String c rest =>
          if decide (c = lbracket) then
            (* the first ']' has to sit just before the last ':' *)
            match cut_first rbracket rest with
            | None => addrErr "missing ']' in address" hostport
            | Some (host, after) =>
                if decide (String.length (String lbracket host) + 1 = String.length before) then
                  if contains lbracket rest then addrErr "unexpected '[' in address" hostport
                  else if contains rbracket after then addrErr "unexpected ']' in address" hostport
                  else (host, port, None)
                else
                  match after with
                  | String a _ =>
                      if decide (a = colon) then addrErr "too many colons in address" hostport
                      else addrErr "missing port in address" hostport
                  | EmptyString => addrErr "missing port in address" hostport
                  end
            end
          else if contains colon before then addrErr "too many colons in address" hostport
          else if contains lbracket hostport then addrErr "unexpected '[' in address" hostport
          else if contains rbracket hostport then addrErr "unexpected ']' in address" hostport
          else (before, port, None)
      | EmptyString => addrErr "missing port in address" hostport
      end
  end.

(** A string that [SplitHostPort] takes literally: no colon and no bracket. *)
Definition plain (s : string) : bool :=
  negb (contains colon s) && negb (contains lbracket s) && negb (contains rbracket s).

Definition joinHP (host port : string) : string := host +:+ String colon port.

Lemma plain_spec s : plain s = true ↔
  contains colon s = false ∧ contains lbracket s = false ∧ contains rbracket s = false.
Proof. unfold plain. rewrite !andb_true_iff, !negb_true_iff. tauto. Qed.

Lemma SplitHostPort_join host port :
  plain host = true → plain port = true → SplitHostPort (joinHP host port) = (host, port, None).
Proof.
  rewrite !plain_spec. intros (Hc & Hl & Hr) (Pc & Pl & Pr).
  unfold SplitHostPort, joinHP. rewrite cut_last_app by done.
  destruct (host +:+ String colon port) as [|c rest] eqn:E.
  { by apply str_app_eq_nil in E as [_ ?]. }
  rewrite <-E. case_decide as Hcl.
  - subst c. destruct host as [|a host]; [by rewrite str_app_nil_l in E|].
    rewrite str_app_cons in E. injection E as -> _. simpl in Hl. done.
  - rewrite Hc, !contains_app, !contains_cons, Hl, Hr, Pl, Pr. done.
Qed.

Lemma SplitHostPort_ok s host port : SplitHostPort s = (host, port, None) →
  contains colon port = false ∧
  (s = joinHP host port ∨ s = joinHP (String lbracket (host +:+ "]")) port).
Proof.
  unfold SplitHostPort, addrErr. destruct (cut_last colon s) as [[b p]|] eqn:E; [|done].
  apply cut_last_Some in E as [Es Hp].
  destruct s as [|c rest]; [done|]. case_decide as Hc.
  - subst c. destruct (cut_first rbracket rest) as [[h a]|] eqn:Ec; [|done].
    case_decide as Hlen; [|destruct a as [|? ?]; [done|]; by case_decide].
    destruct (contains lbracket rest); [done|]. destruct (contains rbracket a); [done|].
    intros [= -> ->]. split; [done|right].
    apply cut_first_Some in Ec as [-> _]. destruct b as [|b0 b]; [done|].
    rewrite str_app_cons in Es. injection Es as <- Es. simpl in Hlen.
    unfold joinHP. rewrite str_app_cons, str_app_assoc. f_equal. rewrite Es.
    assert (host +:+ "]" = b) as <-; [|by rewrite str_app_assoc].
    clear -Es Hlen. revert b Es Hlen. induction host as [|x host IH]; intros [|y b].
    + simpl; lia.
    + rewrite str_app_nil_l, str_app_cons. intros [= <- _]. simpl.
      destruct b; simpl; [done|lia].
    + simpl; lia.
    + rewrite !str_app_cons. intros [= <- Es] Hl. f_equal. apply (IH b Es). simpl in *; lia.
  - destruct (contains colon b); [done|].
    destruct (contains lbracket _); [done|]. destruct (contains rbracket _); [done|].
    intros [= -> ->]. split; [done|by left].
Qed.

Example SplitHostPort_v4 : SplitHostPort "127.0.0.1:11000" = ("127.0.0.1", "11000", None).
Proof. reflexivity. Qed.
Example SplitHostPort_v6 : SplitHostPort "[::1]:80" = ("::1", "80", None).
Proof. reflexivity. Qed.
Example SplitHostPort_bare6 : (SplitHostPort "::1:80").1 = ("", "").
Proof. reflexivity. Qed.

(** ** Decimal numbers *)

Definition zero_byte : ascii := "0".
Definition digit_char (d : Z) : ascii := byte_of (48 + d).
Definition is_digit (c : ascii) : bool := (48 <=? byte_val c)%Z && (byte_val c <=? 57)%Z.
Definition digit_val (c : ascii) : Z := byte_val c - 48.

Fixpoint all_digits (s : string) : bool :=
  match s with
  | EmptyString => true
  | String c r => is_digit c && all_digits r
  end.

(** The number the digits [s] continue [a] to. *)
Fixpoint dec_value (a : Z) (s : string) : Z :=
  match s with
  | EmptyString => a
  | String c r => dec_value (10 * a + digit_val c) r
  end.

(** Decimal digits of [n], most significant first, in front of [acc]. *)
Fixpoint dec_go (fuel : nat) (n : Z) (acc : string) : string :=
  match fuel with
  | O => acc
  | S fuel =>
      let acc := String (digit_char (n `mod` 10)) acc in
      if (n <? 10)%Z then acc else dec_go fuel (n / 10) acc
  end.
Definition dec_fuel (n : Z) : nat := S (Z.to_nat (Z.log2 n)).
Definition dec (n : Z) : string := dec_go (dec_fuel n) n "".

(** The verb [%d] on an [int]. *)
Definition fmt_d (z : Z) : string :=
  if (z <? 0)%Z then String "-" (dec (- z)) else dec z.

Lemma digit_char_val d : (0 ≤ d < 10)%Z → digit_val (digit_char d) = d.
Proof. intros ?. unfold digit_val, digit_char. rewrite byte_val_of by lia. lia. Qed.
Lemma digit_char_is d : (0 ≤ d < 10)%Z → is_digit (digit_char d) = true.
Proof. intros ?. unfold is_digit, digit_char. rewrite byte_val_of by lia. lia. Qed.
Lemma is_digit_range c : is_digit c = true → (0 ≤ digit_val c < 10)%Z.
Proof. unfold is_digit, digit_val. lia. Qed.
Lemma is_digit_not c d : is_digit d = true → is_digit c = false → d ≠ c.
Proof. intros ?? ->. congruence. Qed.

Lemma dec_go_value fuel n acc : (0 ≤ n < 10 ^ Z.of_nat fuel)%Z →
  (0 < fuel) → dec_value 0 (dec_go fuel n acc) = dec_value n acc.
Proof.
  revert n acc. induction fuel as [|f IH]; intros n acc Hn Hf; [lia|].
  pose proof (Z.mod_pos_bound n 10 ltac:(lia)). cbn [dec_go].
  case_match eqn:E.
  - cbn [dec_value]. rewrite digit_char_val by done. f_equal. rewrite Z.mod_small; lia.
  - rewrite Nat2Z.inj_succ, Z.pow_succ_r in Hn by lia.
    destruct f as [|f]; [simpl in Hn; lia|].
    rewrite IH; [|split; [apply Z.div_pos; lia|apply Z.div_lt_upper_bound; lia]|lia].
    cbn [dec_value]. rewrite digit_char_val by done. f_equal.
    pose proof (Z.div_mod n 10). lia.
Qed.

Lemma dec_fuel_enough n : (0 ≤ n)%Z → (n < 10 ^ Z.of_nat (dec_fuel n))%Z.
Proof.
  intros Hn. unfold dec_fuel. rewrite Nat2Z.inj_succ.
  rewrite Z2Nat.id by apply Z.log2_nonneg.
  destruct (decide (n = 0)%Z) as [->|]; [reflexivity|].
  destruct (Z.log2_spec n) as [_ Hu]; [lia|].
  eapply Z.lt_le_trans; [exact Hu|]. apply Z.pow_le_mono_l. lia.
Qed.

Lemma dec_value_dec n : (0 ≤ n)%Z → dec_value 0 (dec n) = n.
Proof.
  intros ?. unfold dec. rewrite dec_go_value; [done| |unfold dec_fuel; lia].
  split; [done|]. by apply dec_fuel_enough.
Qed.

Lemma dec_go_digits fuel n acc : all_digits acc = true → all_digits (dec_go fuel n acc) = true.
Proof.
  revert n acc. induction fuel as [|f IH]; intros n acc Ha; [done|]; cbn [dec_go].
  pose proof (Z.mod_pos_bound n 10 ltac:(lia)).
  assert (all_digits (String (digit_char (n `mod` 10)) acc) = true).
  { simpl. by rewrite digit_char_is. }
  case_match; auto.
Qed.
Lemma dec_digits n : all_digits (dec n) = true.
Proof. by apply dec_go_digits. Qed.

Lemma dec_go_nonempty fuel n acc : acc ≠ "" → dec_go fuel n acc ≠ "".
Proof.
  revert n acc. induction fuel as [|f IH]; intros n acc ?; [done|]; cbn [dec_go].
  case_match; [done|]. by apply IH.
Qed.
Lemma dec_nonempty n : dec n ≠ "".
Proof.
  unfold dec, dec_fuel; cbn [dec_go]. case_match; [done|]. by apply dec_go_nonempty.
Qed.

Lemma all_digits_contains c s : is_digit c = false → all_digits s = true → contains c s = false.
Proof.
  intros Hc. induction s as [|a s IH]; [done|]; simpl. intros [Ha Hs]%andb_true_iff.
  rewrite bool_decide_false by (by apply is_digit_not). auto.
Qed.

Lemma dec_plain n : plain (dec n) = true.
Proof.
  apply plain_spec.
  repeat split; apply all_digits_contains; try reflexivity; apply dec_digits.
Qed.

(** ** strconv.Atoi

    [ParseUint] walks the digits on a 64-bit accumulator and stops at the first
    byte that is no digit or that overflows; [ParseInt] applies the sign and
    clamps.  On a syntax error the value is 0, on a range error the nearest
    bound. *)

Definition maxUint64 : Z := 18446744073709551615.
Definition maxInt64 : Z := 9223372036854775807.
Definition minInt64 : Z := -9223372036854775808.

Inductive num_error : Type := ErrSyntax | ErrRange.

Fixpoint ParseUint_loop (n : Z) (s : string) : Z * option num_error :=
  match s with
  | EmptyString => (n, None)
  | String c r =>
      if negb (is_digit c) then (0%Z, Some ErrSyntax)
      else if (maxUint64 / 10 + 1 <=? n)%Z then (maxUint64, Some ErrRange)
      else
        let n10 := (n * 10)%Z in
        let n1 := ((n10 + digit_val c) `mod` (maxUint64 + 1))%Z in
        if (n1 <? n10)%Z then (maxUint64, Some ErrRange) else ParseUint_loop n1 r
  end.
Definition ParseUint (s : string) : Z * option num_error :=
  match s with
  | EmptyString => (0%Z, Some ErrSyntax)
  | _ => ParseUint_loop 0 s
  end.

Definition clampInt (neg : bool) (r : Z * option num_error) : Z * option num_error :=
  match r with
  | (_, Some ErrSyntax) => (0%Z, Some ErrSyntax)
  | (un, _) =>
      if negb neg && (maxInt64 + 1 <=? un)%Z then (maxInt64, Some ErrRange)
      else if neg && (maxInt64 + 1 <? un)%Z then (minInt64, Some ErrRange)
      else (if neg then (- un)%Z else un, None)
  end.

Definition minus_byte : ascii := "-".
Definition plus_byte : ascii := "+".

Definition Atoi (s : string) : Z * option num_error :=
  match s with
  | String c r =>
      if decide (c = minus_byte) then clampInt true (ParseUint r)
      else if decide (c = plus_byte) then clampInt false (ParseUint r)
      else clampInt false (ParseUint s)
  | EmptyString => (0%Z, Some ErrSyntax)
  end.

Lemma dec_value_mono a s : all_digits s = true → (0 ≤ a)%Z → (a ≤ dec_value a s)%Z.
Proof.
  revert a. induction s as [|c s IH]; intros a; simpl; [lia|].
  intros [Hc Hs]%andb_true_iff Ha. apply is_digit_range in Hc.
  specialize (IH (10 * a + digit_val c)%Z Hs). lia.
Qed.

Lemma ParseUint_loop_ok s n : all_digits s = true → (0 ≤ n)%Z →
  (dec_value n s ≤ maxUint64)%Z → ParseUint_loop n s = (dec_value n s, None).
Proof.
  revert n. induction s as [|c s IH]; intros n; [done|]; cbn [all_digits dec_value ParseUint_loop].
  intros [Hc Hs]%andb_true_iff Hn Hv. rewrite Hc; simpl.
  pose proof (is_digit_range _ Hc).
  pose proof (dec_value_mono (10 * n + digit_val c) s Hs ltac:(lia)).
  assert (maxUint64 = 18446744073709551615)%Z as HM by done.
  rewrite HM in *.
  replace (18446744073709551615 `div` 10 + 1)%Z with 1844674407370955162%Z by done.
  rewrite Z.mod_small by lia.
  case_match; [lia|]. case_match; [lia|].
  replace (n * 10 + digit_val c)%Z with (10 * n + digit_val c)%Z by lia.
  apply IH; [done|lia|lia].
Qed.

Lemma ParseUint_dec n : (0 ≤ n ≤ maxUint64)%Z → ParseUint (dec n) = (n, None).
Proof.
  intros ?. unfold ParseUint. destruct (dec n) eqn:E; [by apply dec_nonempty in E|].
  rewrite <-E, ParseUint_loop_ok;
    [by rewrite dec_value_dec by lia|apply dec_digits|lia|rewrite dec_value_dec; lia].
Qed.

Lemma dec_head n c r : dec n = String c r → is_digit c = true.
Proof.
  intros E. pose proof (dec_digits n) as Hd. rewrite E in Hd; simpl in Hd.
  by apply andb_true_iff in Hd as [? _].
Qed.

Lemma Atoi_fmt_d z : (minInt64 ≤ z ≤ maxInt64)%Z → Atoi (fmt_d z) = (z, None).
Proof.
  unfold minInt64, maxInt64. intros ?. unfold fmt_d. case_match eqn:E.
  - unfold Atoi. rewrite decide_True by done.
    rewrite ParseUint_dec by (unfold maxUint64; lia). cbn [clampInt negb andb].
    unfold maxInt64. case_match; [lia|]. f_equal. lia.
  - unfold Atoi. destruct (dec z) as [|c r] eqn:Ed; [by apply dec_nonempty in Ed|].
    pose proof (dec_head _ _ _ Ed) as Hc.
    rewrite !decide_False by (intros ->; discriminate Hc).
    rewrite <-Ed, ParseUint_dec by (unfold maxUint64; lia). cbn [clampInt negb andb].
    unfold maxInt64. case_match; [lia|done].
Qed.

Example Atoi_overflow : Atoi "99999999999999999999x" = (maxInt64, Some ErrRange).
Proof. vm_compute. reflexivity. Qed.
Example Atoi_bad : Atoi "80a" = (0%Z, Some ErrSyntax).
Proof. vm_compute. reflexivity. Qed.

(** ** Trimming *)

Definition string_of_bytes (l : list Z) : string :=
  foldr (λ z s, String (byte_of z) s) "" l.

(** [strings.TrimSpace]: [unicode.IsSpace] runes in their UTF-8 encoding. *)
Definition space_encodings : list string := string_of_bytes <$>
  [[9]; [10]; [11]; [12]; [13]; [32]; [194; 133]; [194; 160]; [225; 154; 128];
   [226; 128; 128]; [226; 128; 129]; [226; 128; 130]; [226; 128; 131]; [226; 128; 132];
   [226; 128; 133]; [226; 128; 134]; [226; 128; 135]; [226; 128; 136]; [226; 128; 137];
   [226; 128; 138]; [226; 128; 168]; [226; 128; 169]; [226; 128; 175]; [226; 129; 159];
   [227; 128; 128]]%Z.

(** Strip one of the [pats] off the front, as often as possible. *)
Fixpoint strip_any (pats : list string) (s : string) : option string :=
  match pats with
  | [] => None
  | p :: ps => match strip p s with Some r => Some r | None => strip_any ps s end
  end.
Fixpoint trim_front (fuel : nat) (pats : list string) (s : string) : string :=
  match fuel with
  | O => s
  | S fuel => match strip_any pats s with Some r => trim_front fuel pats r | None => s end
  end.
Definition TrimLeftPats (pats : list string) (s : string) : string :=
  trim_front (String.length s) pats s.
Definition TrimRightPats (pats : list string) (s : string) : string :=
  String.rev (TrimLeftPats (String.rev <$> pats) (String.rev s)).

Definition TrimSpace (s : string) : string :=
  TrimRightPats space_encodings (TrimLeftPats space_encodings s).

(** [bytes.TrimRight] with the cutset of the logger shim: blank, tab, newline. *)
Definition TrimRight_blank (s : string) : string :=
  TrimRightPats (string_of_bytes <$> [[32]; [9]; [10]]%Z) s.

Lemma rev_app_app s t : String.rev_app s t = String.rev_app s "" +:+ t.
Proof.
  revert t. induction s as [|c s IH]; intros t; cbn [String.rev_app]; [done|].
  by rewrite (IH (String c t)), (IH (String c "")), str_app_assoc, str_app_cons.
Qed.
Lemma rev_cons c s : String.rev (String c s) = String.rev s +:+ String c "".
Proof. exact (rev_app_app s (String c "")). Qed.
Lemma rev_app_distr s t : String.rev (s +:+ t) = String.rev t +:+ String.rev s.
Proof.
  induction s as [|c s IH]; [by rewrite str_app_nil_l, str_app_nil_r|].
  by rewrite str_app_cons, !rev_cons, IH, str_app_assoc.
Qed.
Lemma rev_involutive s : String.rev (String.rev s) = s.
Proof.
  induction s as [|c s IH]; [done|]. by rewrite rev_cons, rev_app_distr, IH.
Qed.

(** Trimming stops at a text that begins with none of the bytes cut. *)
Lemma trim_front_app fuel cs s t :
  strip_any ((λ c, String c "") <$> cs) t = None → (String.length s ≤ fuel)%nat →
  trim_front fuel ((λ c, String c "") <$> cs) (s +:+ t) =
    trim_front (String.length s) ((λ c, String c "") <$> cs) s +:+ t.
Proof.
  intros Ht. revert fuel. induction s as [|c s IH]; intros fuel Hf.
  { rewrite str_app_nil_l. destruct fuel; [done|]. cbn. by rewrite Ht. }
  destruct fuel as [|fuel]; cbn in Hf; [lia|]. rewrite str_app_cons. cbn [trim_front String.length].
  assert (∀ r, strip_any ((λ c, String c "") <$> cs) (String c r) =
    if decide (c ∈ cs) then Some r else None) as Hany.
  { intros r. clear. induction cs as [|d cs IH]; [done|]. cbn.
    destruct (decide (d = c)) as [->|Hd]; [by rewrite decide_True by set_solver|].
    rewrite IH. apply decide_ext. set_solver. }
  rewrite !Hany. case_decide; [|done]. apply IH. lia.
Qed.

(** A right trim leaves the text before a byte that is not cut as it is. *)
Lemma TrimRight_blank_app s c t : c ∉ ["032"; "009"; "010"]%char →
  TrimRight_blank (s +:+ String c t) = s +:+ String c (TrimRight_blank t).
Proof.
  intros Hc. unfold TrimRight_blank, TrimRightPats, TrimLeftPats.
  change (String.rev <$> _) with ((λ c, String c "") <$> ["032"; "009"; "010"]%char).
  change (String c t) with (String c "" +:+ t).
  rewrite !rev_app_distr, str_app_assoc, trim_front_app.
  - rewrite !rev_app_distr, rev_involutive. change (String.rev (String.rev (String c ""))) with (String c "").
    by rewrite str_app_assoc.
  - change (String.rev (String c "")) with (String c ""). rewrite str_app_cons. cbn.
    repeat (rewrite decide_False by set_solver). done.
  - rewrite str_length_app. lia.
Qed.

Lemma strip_any_spec pats s r : strip_any pats s = Some r → ∃ p, s = p +:+ r.
Proof.
  induction pats as [|p pats IH]; cbn; [done|]. destruct (strip p s) as [t|] eqn:E; [|done].
  intros [= ->]. exists p. by apply strip_spec.
Qed.
Lemma trim_front_suffix fuel pats s : ∃ p, s = p +:+ trim_front fuel pats s.
Proof.
  revert s. induction fuel as [|fuel IH]; intros s; [by exists ""|]. cbn.
  destruct (strip_any pats s) as [r|] eqn:E; [|by exists ""].
  apply strip_any_spec in E as [p ->]. destruct (IH r) as [q Hq]. exists (p +:+ q).
  by rewrite str_app_assoc, <-Hq.
Qed.
Lemma TrimRight_blank_prefix s : ∃ t, s = TrimRight_blank s +:+ t.
Proof.
  unfold TrimRight_blank, TrimRightPats, TrimLeftPats.
  set (x := trim_front _ _ _). assert (∃ p, String.rev s = p +:+ x) as [p Hp] by apply trim_front_suffix.
  exists (String.rev p). by rewrite <-rev_app_distr, <-Hp, rev_involutive.
Qed.

Example TrimSpace_ex : TrimSpace "  a b 	" = "a b".
Proof. vm_compute. reflexivity. Qed.

(** [s[n:]] panics when [n] is past the end. *)
Fixpoint slice_from (n : nat) (s : string) : outcome string :=
  match n, s with
  | O, _ => Ret s
  | S n, String _ r => slice_from n r
  | S _, EmptyString => Panic "slice bounds out of range"
  end.

(** ** filepath.Join *)

Definition slash : ascii := "/".

Fixpoint clean_components (rooted : bool) (l stack : list string) : list string :=
  match l with
  | [] => reverse stack
  | c :: l =>
      if decide (c = "" ∨ c = ".") then clean_components rooted l stack
      else if decide (c = "..") then
        match stack with
        | top :: stack' =>
            if decide (top = "..") then clean_components rooted l (c :: stack)
            else clean_components rooted l stack'
        | [] => clean_components rooted l (if rooted then [] else [c])
        end
      else clean_components rooted l (c :: stack)
  end.

Fixpoint join_with (sep : string) (l : list string) : string :=
  match l with
  | [] => ""
  | [x] => x
  | x :: l => x +:+ sep +:+ join_with sep l
  end.

(** [filepath.Clean] on a slash-separated system. *)
Definition filepath_Clean (p : string) : string :=
  let rooted := HasPrefix p "/" in
  let r := (if rooted then "/" else "") +:+
           join_with "/" (clean_components rooted (Split slash p) []) in
  if decide (r = "") then "." else r.

(** [filepath.Join]: the non-empty elements, joined and cleaned. *)
Definition filepath_Join (elems : list string) : string :=
  match filter (λ e, e ≠ "") elems with
  | [] => ""
  | l => filepath_Clean (join_with "/" l)
  end.

Example filepath_Join_ex : filepath_Join ["/home/me/../you/"; ".hraftd"; "x"] = "/home/you/.hraftd/x".
Proof. vm_compute. reflexivity. Qed.
Example filepath_Join_rel : filepath_Join ["./"; ".hraftd"; "../../y"] = "../y".
Proof. vm_compute. reflexivity. Qed.
