(* ===== verification/GoTime.v ===== *)
(** * Time: [FormatTime] and [ParseTime] of [util.go]

    An instant is a number of nanoseconds since 1970-01-01 00:00 UTC.  The
    program formats the local wall clock with the layout
    ["2006-01-02 15:04:05.000"], which names no zone, and parses it back with
    [time.Parse], which then takes UTC.  The calendar and the two layout
    interpreters of package [time] are modelled for this layout. *)

From Stdlib Require Import Ascii.
From stdpp Require Import prelude strings.
From S2P Require Import Prelude.
From S2P Require Import GoStd.

Local Open Scope Z_scope.

(** [lia] with division and remainder. *)
#[local] Ltac Zify.zify_post_hook ::= Z.to_euclidean_division_equations.

(** ** The proleptic Gregorian calendar *)

Definition isLeap (y : Z) : bool :=
  (y mod 4 =? 0) && (negb (y mod 100 =? 0) || (y mod 400 =? 0)).

Definition monthDays (leap : bool) (m : Z) : Z :=
  if m =? 2 then (if leap then 29 else 28)
  else if (m =? 4) || (m =? 6) || (m =? 9) || (m =? 11) then 30 else 31.
Definition daysIn (m y : Z) : Z := monthDays (isLeap y) m.

(** Days of the year before month [m]. *)
Fixpoint daysBefore_go (leap : bool) (k : nat) : Z :=
  match k with
  | O => 0
  | S k => daysBefore_go leap k + monthDays leap (Z.of_nat (S k))
  end.
Definition daysBefore (leap : bool) (m : Z) : Z := daysBefore_go leap (Z.to_nat (m - 1)).

(** Days from 1970-01-01 to January 1st of [y]. *)
Definition daysBeforeYear (y : Z) : Z :=
  365 * (y - 1970) + ((y - 1) / 4 - (y - 1) / 100 + (y - 1) / 400 - 477).

Definition unix_days (y m d : Z) : Z := daysBeforeYear y + daysBefore (isLeap y) m + (d - 1).

(** The inverse, as [absDate] computes it: 400-, 100-, 4- and 1-year cycles,
    counted from January 1st of year 1. *)
Definition year_yday (days : Z) : Z * Z :=
  let d := days + 719162 in
  let n400 := d / 146097 in
  let d := d - 146097 * n400 in
  let n100 := Z.min 3 (d / 36524) in
  let d := d - 36524 * n100 in
  let n4 := d / 1461 in
  let d := d - 1461 * n4 in
  let n1 := Z.min 3 (d / 365) in
  (1 + 400 * n400 + 100 * n100 + 4 * n4 + n1, d - 365 * n1).

Fixpoint month_day (fuel : nat) (leap : bool) (m yday : Z) : Z * Z :=
  match fuel with
  | O => (m, yday + 1)
  | S fuel =>
      if yday <? monthDays leap m then (m, yday + 1)
      else month_day fuel leap (m + 1) (yday - monthDays leap m)
  end.

Definition civil (days : Z) : Z * Z * Z :=
  let '(y, yday) := year_yday days in
  let '(m, d) := month_day 11 (isLeap y) 1 yday in (y, m, d).

Lemma year_yday_spec days y yday : year_yday days = (y, yday) →
  daysBeforeYear y + yday = days ∧ 0 ≤ yday < 365 + (if isLeap y then 1 else 0).
Proof.
  unfold year_yday, daysBeforeYear, isLeap. intros [= <- <-].
  set (D := days + 719162). set (a := D / 146097). set (r := D - 146097 * a).
  assert (0 ≤ r < 146097) as Hr by (unfold r, a; lia).
  set (b := Z.min 3 (r / 36524)). set (s := r - 36524 * b).
  assert (0 ≤ b ≤ 3 ∧ 0 ≤ s ∧ (b < 3 → s < 36524) ∧ s ≤ 36524) as (Hb & Hs & Hs' & Hs'')
    by (unfold s, b; lia).
  set (c := s / 1461). set (t := s - 1461 * c).
  assert (0 ≤ c ≤ 24 ∧ 0 ≤ t < 1461) as (Hc & Ht) by (unfold t, c; lia).
  assert (c = 24 → b < 3 → t < 1460) as Ht' by (unfold t in *; lia).
  assert (c = 24 → t ≤ 1460) as Ht'' by (unfold t in *; lia).
  set (e := Z.min 3 (t / 365)). set (u := t - 365 * e).
  assert (0 ≤ e ≤ 3 ∧ 0 ≤ u ∧ (e < 3 → u < 365) ∧ u ≤ 365) as (He & Hu & Hu' & Hu'')
    by (unfold u, e; lia).
  replace (1 + 400 * a + 100 * b + 4 * c + e - 1) with (400 * a + 100 * b + 4 * c + e) by lia.
  assert ((400 * a + 100 * b + 4 * c + e) / 4 = 100 * a + 25 * b + c) as -> by lia.
  assert ((400 * a + 100 * b + 4 * c + e) / 100 = 4 * a + b) as -> by lia.
  assert ((400 * a + 100 * b + 4 * c + e) / 400 = a) as -> by lia.
  split.
  { assert (D = 146097 * a + 36524 * b + 1461 * c + 365 * e + u) by (unfold u, t, s, r; lia).
    unfold D in *. lia. }
  split; [done|]. destruct (decide (e < 3)); [specialize (Hu' l); case_match; lia|].
  assert (e = 3) as He3 by lia.
  destruct (decide (u < 365)); [case_match; lia|].
  assert ((1 + 400 * a + 100 * b + 4 * c + e) mod 4 = 0) as -> by lia. simpl.
  assert (u = 365 ∧ t = 1460) as [-> Ht4] by (unfold u in *; lia).
  destruct (decide (c = 24)) as [Hc24|Hc24].
  - assert ((1 + 400 * a + 100 * b + 4 * c + e) mod 400 = 0) as -> by lia.
    rewrite orb_true_r. lia.
  - assert ((1 + 400 * a + 100 * b + 4 * c + e) mod 100 ≠ 0) as Hne by lia.
    apply Z.eqb_neq in Hne as ->. simpl. lia.
Qed.

Lemma daysBefore_S leap m : 1 ≤ m → daysBefore leap (m + 1) = daysBefore leap m + monthDays leap m.
Proof.
  intros Hm. unfold daysBefore.
  replace (Z.to_nat (m + 1 - 1)) with (S (Z.to_nat (m - 1))) by lia.
  cbn [daysBefore_go]. by replace (Z.of_nat (S (Z.to_nat (m - 1)))) with m by lia.
Qed.

Lemma month_day_spec fuel leap m yday m' d' :
  1 ≤ m → m + Z.of_nat fuel = 12 → 0 ≤ yday < daysBefore leap 13 - daysBefore leap m →
  month_day fuel leap m yday = (m', d') →
  daysBefore leap m' + (d' - 1) = daysBefore leap m + yday ∧
  m ≤ m' ≤ 12 ∧ 1 ≤ d' ≤ monthDays leap m'.
Proof.
  revert m yday. induction fuel as [|f IH]; intros m yday Hm Hf Hy; simpl.
  - intros [= <- <-]. assert (m = 12) as -> by lia.
    change 13 with (12 + 1) in Hy. rewrite daysBefore_S in Hy by lia. lia.
  - case_match eqn:E.
    + intros [= <- <-]. lia.
    + intros H%IH; [|lia|lia|rewrite daysBefore_S by lia; lia].
      rewrite daysBefore_S in H by lia. lia.
Qed.

Lemma daysBefore_13 leap : daysBefore leap 13 = 365 + (if leap then 1 else 0).
Proof. by destruct leap. Qed.

(** The calendar round trip. *)
Lemma civil_spec days y m d : civil days = (y, m, d) →
  unix_days y m d = days ∧ 1 ≤ m ≤ 12 ∧ 1 ≤ d ≤ daysIn m y.
Proof.
  unfold civil. destruct (year_yday days) as [y' yday] eqn:Ey.
  destruct (month_day 11 (isLeap y') 1 yday) as [m' d'] eqn:Em. intros [= <- <- <-].
  apply year_yday_spec in Ey as [Hd Hy].
  apply month_day_spec in Em as (Hm & ? & ?); [|lia|lia|].
  - unfold unix_days, daysIn. change (daysBefore (isLeap y') 1) with 0 in Hm. lia.
  - rewrite daysBefore_13. change (daysBefore (isLeap y') 1) with 0. lia.
Qed.

Lemma daysIn_le m y : daysIn m y ≤ 31.
Proof. unfold daysIn, monthDays. repeat case_match; lia. Qed.

Example civil_leap : civil (unix_days 2020 2 29) = (2020, 2, 29).
Proof. vm_compute. reflexivity. Qed.

(** ** Formatting *)

(** Decimal digits, padded with zeros on the left to [wid]. *)
Fixpoint pad_go (fuel : nat) (n wid : Z) (acc : string) : string :=
  match fuel with
  | O => acc
  | S fuel =>
      if (10 <=? n) || (1 <? wid)
      then pad_go fuel (n / 10) (wid - 1) (String (digit_char (n mod 10)) acc)
      else String (digit_char n) acc
  end.
Definition appendInt (x wid : Z) : string :=
  (if x <? 0 then "-" else "") +:+
  pad_go (Z.to_nat wid + dec_fuel (Z.abs x)) (Z.abs x) wid "".

Definition second : Z := 1000000000.
Definition millisecond : Z := 1000000.
Definition day_seconds : Z := 86400.

(** The wall clock [loc] (nanoseconds since the epoch, zone applied) in the
    layout ["2006-01-02 15:04:05.000"]; the milliseconds are truncated. *)
Definition format_wall (loc : Z) : string :=
  let secs := loc / second in
  let nsec := loc mod second in
  let sod := secs mod day_seconds in
  let '(y, m, d) := civil (secs / day_seconds) in
  appendInt y 4 +:+ "-" +:+ appendInt m 2 +:+ "-" +:+ appendInt d 2 +:+ " " +:+
  appendInt (sod / 3600) 2 +:+ ":" +:+ appendInt ((sod mod 3600) / 60) 2 +:+ ":" +:+
  appendInt (sod mod 60) 2 +:+ "." +:+ appendInt (nsec / millisecond) 3.

(** [FormatTime(t)] for the instant [t] in a zone [off] seconds east of UTC. *)
Definition FormatTime (t off : Z) : string := format_wall (t + off * second).

(** ** Parsing *)

Definition parser (A : Type) : Type := string → option (A * string).

Definition lit (c : ascii) : parser unit := λ s,
  match s with
  | String a r => if decide (a = c) then Some ((), r) else None
  | EmptyString => None
  end.

Fixpoint cutspace (s : string) : string :=
  match s with
  | String a r => if decide (a = " "%char) then cutspace r else s
  | EmptyString => s
  end.
(** A blank of the layout skips blanks, at least one unless the value is used up. *)
Definition blank : parser unit := λ s,
  match s with
  | String a _ => if decide (a = " "%char) then Some ((), cutspace s) else None
  | EmptyString => Some ((), "")
  end.

(** [getnum(s, fixed)]: two digits, or one unless [fixed]. *)
Definition getnum (fixed : bool) : parser Z := λ s,
  match s with
  | String a r =>
      if is_digit a then
        match r with
        | String b r' =>
            if is_digit b then Some (digit_val a * 10 + digit_val b, r')
            else if fixed then None else Some (digit_val a, r)
        | EmptyString => if fixed then None else Some (digit_val a, r)
        end
      else None
  | EmptyString => None
  end.

(** The long year: four bytes, all digits. *)
Definition getyear : parser Z := λ s,
  match s with
  | String a (String b (String c (String d r))) =>
      if is_digit a && is_digit b && is_digit c && is_digit d
      then Some (dec_value 0 (String a (String b (String c (String d "")))), r)
      else None
  | _ => None
  end.

(** [.000]: a point and three bytes, which may start with a sign. *)
Definition getmillis : parser Z := λ s,
  match s with
  | String p (String a (String b (String c r))) =>
      if negb (bool_decide (p = "."%char)) then None
      else if negb (is_digit b && is_digit c) then None
      else if is_digit a
      then Some (dec_value 0 (String a (String b (String c ""))), r)
      else if decide (a = plus_byte) then Some (dec_value 0 (String b (String c "")), r)
      else if decide (a = minus_byte) then
        let v := dec_value 0 (String b (String c "")) in
        if 0 <? v then None else Some (0, r)
      else None
  | _ => None
  end.

Definition within (lo hi : Z) (p : parser Z) : parser Z := λ s,
  match p s with
  | Some (v, r) => if (lo <=? v) && (v <=? hi) then Some (v, r) else None
  | None => None
  end.

(** [time.Date] in UTC. *)
Definition date_utc (y mo d h mi s ms : Z) : Z :=
  (unix_days y mo d * day_seconds + h * 3600 + mi * 60 + s) * second + ms * millisecond.

(** [ParseTime]: [None] for every error of [time.Parse]. *)
Definition ParseTime (v : string) : option Z :=
  '(y, v) ← getyear v;
  '(_, v) ← lit "-" v;
  '(mo, v) ← within 1 12 (getnum true) v;
  '(_, v) ← lit "-" v;
  '(d, v) ← getnum true v;
  '(_, v) ← blank v;
  '(h, v) ← within 0 23 (getnum false) v;
  '(_, v) ← lit ":" v;
  '(mi, v) ← within 0 59 (getnum true) v;
  '(_, v) ← lit ":" v;
  '(s, v) ← within 0 59 (getnum true) v;
  '(ms, v) ← getmillis v;
  if decide (v = "") then
    if (1 <=? d) && (d <=? daysIn mo y) then Some (date_utc y mo d h mi s ms) else None
  else None.

Example FormatTime_epoch : FormatTime 0 0 = "1970-01-01 00:00:00.000".
Proof. vm_compute. reflexivity. Qed.
Example FormatTime_zone : FormatTime 1600000000123456789 28800 = "2020-09-13 20:26:40.123".
Proof. vm_compute. reflexivity. Qed.
Example ParseTime_ok : ParseTime "2020-09-13 20:26:40.123" = Some 1600028800123000000.
Proof. vm_compute. reflexivity. Qed.
Example ParseTime_bad_day : ParseTime "2021-02-29 00:00:00.000" = None.
Proof. vm_compute. reflexivity. Qed.

(** ** The round trip *)

Lemma pad_go_wide fuel n wid acc : 1 < wid →
  pad_go (S fuel) n wid acc =
    pad_go fuel (n / 10) (wid - 1) (String (digit_char (n mod 10)) acc).
Proof. intros ?. cbn [pad_go]. assert ((1 <? wid) = true) as -> by lia. by rewrite orb_true_r. Qed.
Lemma pad_go_last fuel n wid acc : 0 ≤ n < 10 → wid ≤ 1 →
  pad_go (S fuel) n wid acc = String (digit_char n) acc.
Proof.
  intros ??. cbn [pad_go].
  assert ((10 <=? n) = false) as -> by lia. by assert ((1 <? wid) = false) as -> by lia.
Qed.

(** A non-negative number of at most [wid] digits, for the widths of the layout. *)
Ltac append_int :=
  unfold appendInt; rewrite Z.abs_eq by lia; case_match; [lia|];
  rewrite str_app_nil_l;
  match goal with |- context [Z.to_nat ?w] =>
    let k := eval vm_compute in (Z.to_nat w) in change (Z.to_nat w) with k end;
  cbn [Nat.add];
  repeat rewrite pad_go_wide by lia;
  rewrite pad_go_last by lia; done.

Lemma appendInt_2 n : 0 ≤ n < 100 →
  appendInt n 2 = String (digit_char (n / 10)) (String (digit_char (n mod 10)) "").
Proof. intros. append_int. Qed.
Lemma appendInt_3 n : 0 ≤ n < 1000 →
  appendInt n 3 = String (digit_char (n / 10 / 10))
    (String (digit_char ((n / 10) mod 10)) (String (digit_char (n mod 10)) "")).
Proof. intros. append_int. Qed.
Lemma appendInt_4 n : 0 ≤ n < 10000 →
  appendInt n 4 = String (digit_char (n / 10 / 10 / 10))
    (String (digit_char ((n / 10 / 10) mod 10))
      (String (digit_char ((n / 10) mod 10)) (String (digit_char (n mod 10)) ""))).
Proof. intros. append_int. Qed.

Lemma lit_ok c r : lit c (String c "" +:+ r) = Some ((), r).
Proof. rewrite str_app_cons, str_app_nil_l. simpl. by rewrite decide_True. Qed.

Lemma getnum_ok fixed n r : 0 ≤ n < 100 → getnum fixed (appendInt n 2 +:+ r) = Some (n, r).
Proof.
  intros Hn. rewrite appendInt_2 by done. rewrite !str_app_cons, str_app_nil_l. cbn [getnum].
  rewrite !digit_char_is, !digit_char_val by lia. f_equal. f_equal. lia.
Qed.

Lemma within_ok lo hi p n r v : lo ≤ n ≤ hi → p v = Some (n, r) → within lo hi p v = Some (n, r).
Proof.
  intros Hn Hp. unfold within. rewrite Hp.
  by assert (((lo <=? n) && (n <=? hi)) = true) as -> by lia.
Qed.

Lemma getyear_ok n r : 0 ≤ n < 10000 → getyear (appendInt n 4 +:+ r) = Some (n, r).
Proof.
  intros Hn. rewrite appendInt_4 by done. rewrite !str_app_cons, str_app_nil_l. cbn [getyear].
  rewrite !digit_char_is by lia. cbn [andb dec_value].
  rewrite !digit_char_val by lia. f_equal. f_equal. lia.
Qed.

Lemma getmillis_ok n r : 0 ≤ n < 1000 → getmillis ("." +:+ appendInt n 3 +:+ r) = Some (n, r).
Proof.
  intros Hn. rewrite appendInt_3 by done. rewrite !str_app_cons, !str_app_nil_l. cbn [getmillis].
  rewrite bool_decide_true by done. rewrite !digit_char_is by lia. cbn [andb negb dec_value].
  rewrite !digit_char_val by lia. f_equal. f_equal. lia.
Qed.

Lemma blank_digits n r : 0 ≤ n < 100 →
  blank (" " +:+ appendInt n 2 +:+ r) = Some ((), appendInt n 2 +:+ r).
Proof.
  intros Hn. rewrite appendInt_2 by done. rewrite !str_app_cons, !str_app_nil_l. simpl.
  case_decide as H; [|done]. apply (f_equal is_digit) in H.
  by rewrite digit_char_is in H by lia.
Qed.

(** The year of the wall clock [loc]; the layout has four digits for it. *)
Definition wall_year (loc : Z) : Z := (civil (loc / second / day_seconds)).1.1.

Lemma ParseTime_format_wall loc : 0 ≤ wall_year loc < 10000 →
  ParseTime (format_wall loc) = Some (loc - loc mod millisecond).
Proof.
  unfold wall_year, format_wall, ParseTime. set (secs := loc / second). set (days := secs / day_seconds).
  set (sod := secs mod day_seconds).
  destruct (civil days) as [[y m] d] eqn:E. cbn [fst]. intros Hy.
  apply civil_spec in E as (Hdays & Hm & Hd). pose proof (daysIn_le m y).
  assert (0 ≤ sod < 86400) as Hsod by (unfold sod, day_seconds; lia).
  assert (0 ≤ loc mod second / millisecond < 1000) as Hms by (unfold second, millisecond; lia).
  rewrite getyear_ok by done. cbn [mbind option_bind]. rewrite lit_ok. cbn [mbind option_bind].
  erewrite within_ok; [|exact Hm|by apply getnum_ok; lia]. cbn [mbind option_bind].
  rewrite lit_ok. cbn [mbind option_bind].
  rewrite getnum_ok by lia. cbn [mbind option_bind].
  rewrite blank_digits by lia. cbn [mbind option_bind].
  erewrite within_ok; [| |by apply getnum_ok; lia]; [|lia]. cbn [mbind option_bind].
  rewrite lit_ok. cbn [mbind option_bind].
  erewrite within_ok; [| |by apply getnum_ok; lia]; [|lia]. cbn [mbind option_bind].
  rewrite lit_ok. cbn [mbind option_bind].
  erewrite within_ok; [| |by apply getnum_ok; lia]; [|lia]. cbn [mbind option_bind].
  rewrite <-(str_app_nil_r (appendInt (loc mod second / millisecond) 3)).
  rewrite getmillis_ok by lia. cbn [mbind option_bind]. rewrite decide_True by done.
  assert (((1 <=? d) && (d <=? daysIn m y)) = true) as -> by lia.
  f_equal. unfold date_utc. rewrite Hdays. unfold days, sod, secs, second, millisecond, day_seconds.
  clear. lia.
Qed.

(** A formatted time reads back: for a local time in the years 0 to 9999, [ParseTime]
    of [FormatTime] is the local time cut to milliseconds.  The zone is not written,
    so a time of a zone [off] seconds east of UTC comes back [off] seconds later. *)
Theorem FormatTime_ParseTime t off : 0 ≤ wall_year (t + off * second) < 10000 →
  ParseTime (FormatTime t off) = Some (t + off * second - (t + off * second) mod millisecond).
Proof. intros Hy. by apply ParseTime_format_wall. Qed.

Lemma FormatTime_ParseTime_witness :
  ParseTime (FormatTime 1600000000123456789 28800) = Some 1600028800123000000.
Proof.
  refine (FormatTime_ParseTime 1600000000123456789 28800 _). vm_compute. split; congruence.
Defined.
