(* ===== verification/Util.v ===== *)
(** * Helpers and constants: [util.go], [const.go], [proxy.go], [http.go]

    The pure helpers of the program.  [JsonifyBytes] and the parsers next to it
    call json-iterator and are in [Externals]; [FormatTime] and [ParseTime] are
    in [GoTime]. *)

From Stdlib Require Import Ascii.
From stdpp Require Import prelude gmap strings.
From S2P Require Import Prelude.
From S2P Require Import GoStd.

(** ** Constants *)

Definition RaftPath : string := "/hraftd/raft".
Definition KeyPath : string := "/hraftd/key".
Definition DoJobPath : string := "/hraftd/dojob".
Definition XOriginRemoteAddr : string := "X-Origin-RemoteAddr".
Definition ContentTypeJSON : string := "application-type/json".

(** ** Choices on strings *)

Definition EmptyThen (s t : string) : string := if decide (s = "") then t else s.
Definition EqualsThen (s e t : string) : string := if decide (s = e) then t else s.
Definition If (i : bool) (s t : string) : string := if i then s else t.

(** ** CloneMap

    Go ranges over a map in an unspecified order, [order]; the clone is built
    by one assignment per pair. *)

Definition CloneMap (order : list (string * string)) : gmap string string :=
  foldl (λ o kv, <[kv.1 := kv.2]> o) ∅ order.

Lemma foldl_insert_lookup (l : list (string * string)) (o : gmap string string) k :
  NoDup l.*1 →
  foldl (λ o kv, <[kv.1 := kv.2]> o) o l !! k =
    match (list_to_map l : gmap string string) !! k with Some v => Some v | None => o !! k end.
Proof.
  revert o. induction l as [|[k' v'] l IH]; intros o; cbn.
  { by rewrite lookup_empty. }
  intros [Hk Hl]%NoDup_cons. rewrite IH by done.
  destruct (decide (k = k')) as [->|Hne].
  - rewrite lookup_insert_eq, not_elem_of_list_to_map_1 by done.
    by rewrite lookup_insert_eq.
  - rewrite lookup_insert_ne by done. by rewrite (lookup_insert_ne _ k') by done.
Qed.

(** Whatever the iteration order, the clone has the same entries. *)
Lemma CloneMap_same m order : order ≡ₚ map_to_list m → CloneMap order = m.
Proof.
  intros Hp. apply map_eq; intros k. unfold CloneMap. rewrite foldl_insert_lookup.
  - rewrite lookup_empty.
    rewrite (list_to_map_proper order (map_to_list m)); [|by rewrite Hp; apply NoDup_fst_map_to_list|done].
    rewrite list_to_map_to_list. by destruct (m !! k).
  - rewrite Hp. apply NoDup_fst_map_to_list.
Qed.

(** ** Prefix tests of the proxy *)

Fixpoint HasAnyPrefix (s : string) (p : list string) : bool :=
  match p with
  | [] => false
  | i :: p => if HasPrefix s i then true else HasAnyPrefix s p
  end.

Definition IsRelativeForward (statusCode : Z) (locationHeader : string) : bool :=
  if bool_decide (statusCode = 301)%Z || bool_decide (statusCode = 302)%Z
  then negb (HasAnyPrefix locationHeader ["http://"; "https://"])
  else false.

Lemma HasAnyPrefix_spec s p : HasAnyPrefix s p = true ↔ Exists (λ i, HasPrefix s i = true) p.
Proof.
  induction p as [|i p IH]; simpl; [split; [done|by intros ?%Exists_nil]|].
  rewrite Exists_cons, <-IH. destruct (HasPrefix s i); naive_solver.
Qed.
