(* ===== verification/Model.v ===== *)
(** * Node names and the data model: [model.go] and the [NodeID] part of [arg.go]

    A node is named ["httphost:httpport,rafthost:raftport"]; [HTTPAddr] and
    [RaftAddr] read the two halves back and [Fix] replaces both hosts. *)

From Stdlib Require Import Ascii.
From stdpp Require Import prelude gmap strings.
From S2P Require Import Prelude.
From S2P Require Import GoStd.
From S2P Require Import Util.

(** ** NodeID and BindAddr *)

Abbreviation NodeID := string.
Definition comma : ascii := ",".

(** [strings.SplitN(string(r), ",", -1)[0]]: [Split] never returns an empty slice. *)
Definition HTTPAddr (r : NodeID) : string := default "" (Split comma r !! 0).

(** [strings.SplitN(string(r), ",", -1)[1]]: without a comma the index is out of range. *)
Definition RaftAddr (r : NodeID) : outcome string :=
  match Split comma r !! 1 with
  | Some a => Ret a
  | None => Panic "index out of range [1] with length 1"
  end.

Definition BindAddr_URL (a path : string) : string :=
  let '(host, port, _) := SplitHostPort a in
  let path := TrimPrefix path "/" in
  "http://" +:+ host +:+ ":" +:+ port +:+ "/" +:+ path.

Definition NodeID_URL (r : NodeID) (relativePath : string) : string :=
  BindAddr_URL (HTTPAddr r) relativePath.
Definition URLRaftCluster (r : NodeID) : string := NodeID_URL r (RaftPath +:+ "/cluster").
Definition URLRaftState (r : NodeID) : string := NodeID_URL r (RaftPath +:+ "/state").
Definition NodeID_URLRaftJoin (r : NodeID) : string := NodeID_URL r (RaftPath +:+ "/join").
Definition BindAddr_URLRaftJoin (a : string) : string := BindAddr_URL a (RaftPath +:+ "/join").

(** The port of an address; [SplitHostPort]'s error is dropped by the callers. *)
Definition port_of (addr : string) : string := let '(_, port, _) := SplitHostPort addr in port.
Definition host_of (addr : string) : string := let '(host, _, _) := SplitHostPort addr in host.

(** The name with both hosts replaced, [Sprintf("%s:%s,%s:%s", host, hPort, host, rPort)]. *)
Definition mkNodeID (host hPort rPort : string) : NodeID :=
  host +:+ ":" +:+ hPort +:+ "," +:+ host +:+ ":" +:+ rPort.

Definition NodeID_Fix (r : NodeID) (host : string) : outcome NodeID :=
  match RaftAddr r with
  | Panic msg => Panic msg
  | Ret ra => Ret (mkNodeID host (port_of (HTTPAddr r)) (port_of ra))
  end.

(** A host or port that the node name keeps apart: no colon, bracket or comma. *)
Definition clean (s : string) : bool := plain s && negb (contains comma s).

Lemma clean_plain s : clean s = true → plain s = true.
Proof. unfold clean. by intros [? _]%andb_true_iff. Qed.
Lemma clean_comma s : clean s = true → contains comma s = false.
Proof. unfold clean. by intros [_ ?%negb_true_iff]%andb_true_iff. Qed.

Lemma dec_clean n : clean (dec n) = true.
Proof.
  unfold clean. rewrite dec_plain. simpl.
  rewrite (all_digits_contains comma); [done..|apply dec_digits].
Qed.

Lemma joinHP_eq h p : h +:+ ":" +:+ p = joinHP h p.
Proof. done. Qed.

Lemma port_of_join h p : plain h = true → plain p = true → port_of (joinHP h p) = p.
Proof. intros ??. unfold port_of. by rewrite SplitHostPort_join. Qed.
Lemma host_of_join h p : plain h = true → plain p = true → host_of (joinHP h p) = h.
Proof. intros ??. unfold host_of. by rewrite SplitHostPort_join. Qed.

Lemma joinHP_comma h p : clean h = true → clean p = true → contains comma (joinHP h p) = false.
Proof.
  intros Hh%clean_comma Hp%clean_comma. unfold joinHP.
  by rewrite contains_app, Hh, contains_cons, Hp.
Qed.

Lemma HTTPAddr_pair a b : contains comma a = false → HTTPAddr (a +:+ "," +:+ b) = a.
Proof. intros ?. unfold HTTPAddr. change ("," +:+ b) with (String comma b). by rewrite Split_app. Qed.
Lemma RaftAddr_pair a b : contains comma a = false → contains comma b = false →
  RaftAddr (a +:+ "," +:+ b) = Ret b.
Proof.
  intros ??. unfold RaftAddr. change ("," +:+ b) with (String comma b).
  by rewrite Split_app, Split_none.
Qed.

Lemma mkNodeID_pair h hp rp : mkNodeID h hp rp = joinHP h hp +:+ "," +:+ joinHP h rp.
Proof. unfold mkNodeID, joinHP. by rewrite !str_app_assoc. Qed.

(** Fixing the name [h1:hp,h2:rp] keeps the ports and replaces the hosts. *)
Lemma NodeID_Fix_pair h1 hp h2 rp host :
  clean h1 = true → clean hp = true → clean h2 = true → clean rp = true →
  NodeID_Fix (joinHP h1 hp +:+ "," +:+ joinHP h2 rp) host = Ret (mkNodeID host hp rp).
Proof.
  intros H1 H2 H3 H4. unfold NodeID_Fix.
  rewrite RaftAddr_pair, HTTPAddr_pair by auto using joinHP_comma.
  by rewrite !port_of_join by auto using clean_plain.
Qed.

Lemma NodeID_Fix_mk h hp rp host :
  clean h = true → clean hp = true → clean rp = true →
  NodeID_Fix (mkNodeID h hp rp) host = Ret (mkNodeID host hp rp).
Proof. intros. rewrite mkNodeID_pair. by apply NodeID_Fix_pair. Qed.

Lemma HTTPAddr_mk h hp rp : clean h = true → clean hp = true →
  HTTPAddr (mkNodeID h hp rp) = joinHP h hp.
Proof. intros. rewrite mkNodeID_pair. by apply HTTPAddr_pair, joinHP_comma. Qed.
Lemma RaftAddr_mk h hp rp : clean h = true → clean hp = true → clean rp = true →
  RaftAddr (mkNodeID h hp rp) = Ret (joinHP h rp).
Proof. intros. rewrite mkNodeID_pair. by apply RaftAddr_pair; apply joinHP_comma. Qed.

Lemma mkNodeID_inj_host h h' hp rp :
  mkNodeID h hp rp = mkNodeID h' hp rp → h = h'.
Proof.
  intros E. apply (f_equal String.length) in E as HL.
  unfold mkNodeID in E, HL. rewrite !str_length_app in HL. simpl in HL.
  assert (String.length h = String.length h') as Hl by lia. clear HL.
  revert h' E Hl. induction h as [|c h IH]; intros [|c' h'] E Hl; try done.
  rewrite !str_app_cons in E. injection E as -> E. f_equal.
  assert (∀ x y z w : string, String.length x = String.length y → x +:+ z = y +:+ w → x = y) as Hx.
  { clear. induction x as [|a x IH]; intros [|b y] z w; try done.
    rewrite !str_app_cons. intros [= Hl] [= -> E]. f_equal. by eapply IH. }
  simpl in Hl. eapply Hx; [|exact E]. lia.
Qed.

(** ** Peers and the cluster view *)

Definition StateLeader : string := "Leader".
Definition StateFollower : string := "Follower".

Record Peer : Type := mkPeer {
  Peer_Address : string;
  Peer_ID : NodeID;
  Peer_State : string;
  Peer_Suffrage : string
}.
Definition Peer0 : Peer := mkPeer "" "" "" "".

#[export] Instance Peer_eq_dec : EqDecision Peer.
Proof. solve_decision. Defined.

Record RaftCluster : Type := mkRaftCluster {
  Current : Peer;
  Leader : Peer;
  Servers : list Peer
}.
Definition RaftCluster0 : RaftCluster := mkRaftCluster Peer0 Peer0 [].

#[export] Instance RaftCluster_eq_dec : EqDecision RaftCluster.
Proof. solve_decision. Defined.

Fixpoint AnyStateOf (p : Peer) (states : list string) : bool :=
  match states with
  | [] => false
  | state :: states => if decide (Peer_State p = state) then true else AnyStateOf p states
  end.
Definition IsActive (p : Peer) : bool := AnyStateOf p [StateLeader; StateFollower].

Fixpoint ActivePeers_loop (servers actives : list Peer) : list Peer :=
  match servers with
  | [] => actives
  | server :: servers =>
      ActivePeers_loop servers (if IsActive server then actives ++ [server] else actives)
  end.
Definition ActivePeers (r : RaftCluster) : list Peer := ActivePeers_loop (Servers r) [].

Lemma AnyStateOf_spec p states : AnyStateOf p states = true ↔ Peer_State p ∈ states.
Proof.
  induction states as [|s l IH]; simpl; [set_solver|].
  case_decide; [set_solver|]. rewrite IH. set_solver.
Qed.

Lemma ActivePeers_filter r : ActivePeers r = filter (λ p, IsActive p = true) (Servers r).
Proof.
  unfold ActivePeers.
  assert (∀ l acc, ActivePeers_loop l acc = acc ++ filter (λ p, IsActive p = true) l) as H.
  { induction l as [|p l IH]; intros acc; cbn [ActivePeers_loop]; [by rewrite app_nil_r|].
    rewrite IH, filter_cons. destruct (IsActive p); case_decide; try done.
    by rewrite <-app_assoc. }
  by rewrite H.
Qed.

(** ** Requests, responses, commands *)

Record JoinRequest : Type := mkJoinRequest { Addr : string; JoinNodeID : NodeID }.

(** [Fix] writes the new address before [NodeID.Fix] can panic. *)
Definition JoinRequest_Fix (remoteAddr : string) : M JoinRequest unit := λ r,
  let remoteHost := host_of remoteAddr in
  let host := EqualsThen remoteHost "127.0.0.1" "" in
  let port := port_of (Addr r) in
  let r := mkJoinRequest (host +:+ ":" +:+ port) (JoinNodeID r) in
  match NodeID_Fix (JoinNodeID r) host with
  | Ret id => (mkJoinRequest (Addr r) id, Ret tt)
  | Panic msg => (r, Panic msg)
  end.

(** [Rsp]; [Data] is present for job responses only. *)
Record Rsp (D : Type) : Type := mkRsp { Rsp_OK : bool; Rsp_Msg : string; Rsp_Data : option D }.
Arguments mkRsp {D}.
Arguments Rsp_OK {D}.
Arguments Rsp_Msg {D}.
Arguments Rsp_Data {D}.

Record Command : Type := mkCommand {
  Op : string; Key : string; Value : string; Time : string
}.

#[export] Instance Command_eq_dec : EqDecision Command.
Proof. solve_decision. Defined.

(** [ConfigEntry]: one server in peers.json. *)
Record ConfigEntry : Type := mkConfigEntry {
  Entry_ID : string; Entry_Address : string; Entry_Suffrage : string
}.

(** ** Properties *)

(** Fixing a node name: the two hosts become the given one, the ports stay, the two
    addresses can be read off the new name, its URLs are at the new HTTP address, and
    fixing it again changes nothing. *)
Theorem NodeID_Fix_spec h1 hp h2 rp host path :
  clean h1 = true → clean hp = true → clean h2 = true → clean rp = true → clean host = true →
  ∃ id, NodeID_Fix (joinHP h1 hp +:+ "," +:+ joinHP h2 rp) host = Ret id ∧
    HTTPAddr id = joinHP host hp ∧ RaftAddr id = Ret (joinHP host rp) ∧
    NodeID_URL id path = "http://" +:+ joinHP host hp +:+ "/" +:+ TrimPrefix path "/" ∧
    NodeID_Fix id host = Ret id.
Proof.
  intros H1 H2 H3 H4 H5. exists (mkNodeID host hp rp). split_and!.
  - by apply NodeID_Fix_pair.
  - by apply HTTPAddr_mk.
  - by apply RaftAddr_mk.
  - unfold NodeID_URL, BindAddr_URL. rewrite HTTPAddr_mk by done.
    rewrite SplitHostPort_join by auto using clean_plain. unfold joinHP. by autorewrite with str.
  - by apply NodeID_Fix_mk.
Qed.

(** A joining node keeps its name only if it reaches the leader from the host in the
    name: the leader's fix of the request puts the host the request came from in the
    place of the node's own, and none for 127.0.0.1; the new name is the node's own
    exactly when the two hosts are equal.  A node that joins over the loopback is
    recorded under a name without a host, which is not its own. *)
Theorem JoinRequest_Fix_name host hp rp rh rport :
  clean host = true → clean hp = true → clean rp = true → plain rh = true → plain rport = true →
  let id := mkNodeID host hp rp in
  let host' := if decide (rh = "127.0.0.1") then "" else rh in
  JoinRequest_Fix (joinHP rh rport) (mkJoinRequest (joinHP host rp) id) =
    (mkJoinRequest (joinHP host' rp) (mkNodeID host' hp rp), Ret tt) ∧
  (mkNodeID host' hp rp = id ↔ host' = host) ∧
  (rh = "127.0.0.1" → host ≠ "" → mkNodeID host' hp rp ≠ id).
Proof.
  intros H1 H2 H3 H4 H5 id host'.
  assert (mkNodeID host' hp rp = id ↔ host' = host) as Hiff.
  { split; [|by intros ->]. intros E. by apply mkNodeID_inj_host in E. }
  split_and!; [|exact Hiff|].
  - unfold JoinRequest_Fix. rewrite host_of_join by done. cbn [Addr JoinNodeID].
    rewrite port_of_join by auto using clean_plain.
    replace (EqualsThen rh "127.0.0.1" "") with host' by (unfold host', EqualsThen; done).
    unfold id. rewrite NodeID_Fix_mk by done. by rewrite joinHP_eq.
  - intros Hl Hh E%Hiff. unfold host' in E. rewrite decide_True in E by done. congruence.
Qed.

Lemma NodeID_Fix_spec_witness :
  ∃ id, NodeID_Fix ":11000,:12000" "10.0.0.1" = Ret id ∧
    HTTPAddr id = "10.0.0.1:11000" ∧ RaftAddr id = Ret "10.0.0.1:12000" ∧
    NodeID_URL id "/hraftd/raft/state" = "http://10.0.0.1:11000/hraftd/raft/state" ∧
    NodeID_Fix id "10.0.0.1" = Ret id.
Proof.
  exact (NodeID_Fix_spec "" "11000" "" "12000" "10.0.0.1" "/hraftd/raft/state"
    eq_refl eq_refl eq_refl eq_refl eq_refl).
Defined.

Lemma JoinRequest_Fix_name_witness :
  let id := mkNodeID "10.0.0.1" "11000" "12000" in
  JoinRequest_Fix "127.0.0.1:5555" (mkJoinRequest "10.0.0.1:12000" id) =
    (mkJoinRequest ":12000" (mkNodeID "" "11000" "12000"), Ret tt) ∧
  (mkNodeID "" "11000" "12000" = id ↔ "" = "10.0.0.1") ∧
  ("127.0.0.1" = "127.0.0.1" → "10.0.0.1" ≠ "" → mkNodeID "" "11000" "12000" ≠ id).
Proof.
  exact (JoinRequest_Fix_name "10.0.0.1" "11000" "12000" "127.0.0.1" "5555"
    eq_refl eq_refl eq_refl eq_refl eq_refl).
Defined.
