(* ===== verification/Externals.v ===== *)
(** * The code outside the repository

    What the program calls and does not contain: hashicorp/raft, json-iterator,
    the HTTP client and the file system.  Each is a class over the state [W] of
    the world outside the program's own data; the documented behaviour a
    theorem relies on is a class of laws, assumed only where it is needed. *)

From Stdlib Require Import Ascii.
From stdpp Require Import prelude gmap strings.
From S2P Require Import Prelude.
From S2P Require Import GoStd.
From S2P Require Import Util.
From S2P Require Import Model.

(** ** hashicorp/raft *)

Inductive ServerSuffrage : Type := Voter | Nonvoter | Staging.
Inductive RaftState : Type := Follower | Candidate | RaftLeader | Shutdown.

#[export] Instance ServerSuffrage_eq_dec : EqDecision ServerSuffrage.
Proof. solve_decision. Defined.
#[export] Instance RaftState_eq_dec : EqDecision RaftState.
Proof. solve_decision. Defined.

(** [raft.Server]: the three fields of an entry of the configuration. *)
Record Server : Type := mkServer {
  Suffrage : ServerSuffrage;
  Server_ID : string;
  Server_Address : string
}.

#[export] Instance Server_eq_dec : EqDecision Server.
Proof. solve_decision. Defined.

(** The calls on [*raft.Raft].  A future is represented by the outcome of its
    [Error()], which the program always waits for at once. *)
Class Raft (W : Type) : Type := {
  raft_State : W → RaftState;
  raft_Leader : W → string;
  raft_Configuration : W → list Server;
  raft_ConfigurationError : W → option error;
  raft_RemoveServer : string → W → W * option error;
  raft_AddVoter : string → string → W → W * option error;
  raft_Apply : string → W → W * option error;
  raft_BootstrapCluster : list Server → W → W;
  raft_Stats : W → gmap string string;
  raft_LastIndex : W → Z;
  raft_AppliedIndex : W → Z;
  RaftState_String : RaftState → string;
  Suffrage_String : ServerSuffrage → string
}.

(** The names raft prints for its states and suffrages. *)
Class RaftNames (W : Type) `{Raft W} : Prop := {
  RaftState_String_Leader : RaftState_String RaftLeader = "Leader";
  RaftState_String_nonempty s : RaftState_String s ≠ "";
  Suffrage_String_Voter : Suffrage_String Voter = "Voter";
  Suffrage_String_Nonvoter : Suffrage_String Nonvoter = "Nonvoter";
  Suffrage_String_Staging : Suffrage_String Staging = "Staging"
}.

(** What a successful change of the configuration leaves in it, from the
    documentation of [RemoveServer] and [AddVoter]: the named server is gone; the
    named server is a voter at the given address, and the others stay.  Of a change
    that failed nothing is known: raft may have appended it before it lost the
    leadership, and its configuration counts uncommitted changes. *)
Class RaftMembership (W : Type) `{Raft W} : Prop := {
  RemoveServer_ok id w w' : raft_RemoveServer id w = (w', None) →
    raft_Configuration w' = filter (λ s, Server_ID s ≠ id) (raft_Configuration w);
  AddVoter_ok id addr w w' : raft_AddVoter id addr w = (w', None) →
    id ∉ Server_ID <$> raft_Configuration w →
    raft_Configuration w' ≡ₚ mkServer Voter id addr :: raft_Configuration w
}.

(** ** json-iterator

    [Unmarshal] fills the value it is given and may leave it half filled when it
    fails; [Decode] reads one value off a stream.  [Marshal] drops its error,
    as [JsonifyBytes] and [Jsonify] do. *)
Class Codec (A : Type) : Type := {
  Marshal : A → string;
  Unmarshal : A → string → A * option error;
  Decode : A → string → A * option error
}.

(** The round trip of the values that have one (for strings: valid UTF-8). *)
Class CodecLaws (A : Type) `{Codec A} (zero : A) (valid : A → Prop) : Prop := {
  Unmarshal_Marshal a : valid a → Unmarshal zero (Marshal a) = (a, None);
  Decode_Marshal a : valid a → Decode zero (Marshal a) = (a, None)
}.

(** [Jsonify] is [Marshal] into a string; for the log its quotes are taken out, the
    escaped ones first. *)
Definition Jsonify {A} `{Codec A} (v : A) : string := Marshal v.
Definition Jsonify4Print {A} `{Codec A} (v : A) : string :=
  ReplaceAll (String dquote "") "" (ReplaceAll (String backslash (String dquote "")) "" (Jsonify v)).

Lemma Jsonify4Print_no_quotes {A} `{Codec A} (v : A) : contains dquote (Jsonify4Print v) = false.
Proof. apply ReplaceAll_byte. Qed.

(** ** The HTTP client and the file system

    The two calls of the client give what a request that comes back comes back with.
    The client has no timeout (its field is commented out in [http.go]), so a request
    need not come back: then its caller never goes on, and neither does this model.
    Where a caller waits for several things at once that makes a difference, and the
    wait has an event for it ([hang] in Store.v). *)

Class Network (W : Type) : Type := {
  client_Get : string → W → W * (string + error);
  client_Post : string → string → W → W * (Z * string + error)
}.

Class FileSystem (W : Type) : Type := {
  (* the path and the mode; the program drops the error *)
  os_MkdirAll : string → Z → W → W;
  (* the error of a path; [os.IsNotExist] tells what kind of error it is *)
  os_Lstat : string → W → option error;
  os_IsNotExist : error → bool;
  (* the path, the data and the mode *)
  ioutil_WriteFile : string → string → Z → W → W * option error;
  ioutil_ReadFile : string → W → string + error
}.

(** [PathExists]: only a path that is known not to exist does not. *)
Definition PathExists {W} `{FileSystem W} (p : string) (w : W) : bool :=
  match os_Lstat p w with
  | Some err => negb (os_IsNotExist err)
  | None => true
  end.

(** [0o644], [0o600] and [os.ModePerm]. *)
Definition mode_644 : Z := 420.
Definition mode_600 : Z := 384.
Definition ModePerm : Z := 511.

(** A written file reads back, if its owner may read it. *)
Class FileSystemLaws (W : Type) `{FileSystem W} : Prop := {
  ReadFile_WriteFile path data mode w w' : Z.testbit mode 8 = true →
    ioutil_WriteFile path data mode w = (w', None) → ioutil_ReadFile path w' = inl data
}.

(** Writing files leaves the raft configuration alone. *)
Class FileSystemFrame (W : Type) `{Raft W} `{FileSystem W} : Prop := {
  MkdirAll_frame dir mode w : raft_Configuration (os_MkdirAll dir mode w) = raft_Configuration w;
  WriteFile_frame path data mode w :
    raft_Configuration (ioutil_WriteFile path data mode w).1 = raft_Configuration w
}.

(** A request to another node and the proposal of an entry leave the own raft
    configuration alone. *)
Class RaftFrame (W : Type) `{Raft W} `{Network W} : Prop := {
  client_Get_frame url w : raft_Configuration (client_Get url w).1 = raft_Configuration w;
  raft_Apply_frame data w : raft_Configuration (raft_Apply data w).1 = raft_Configuration w
}.

(** What [Open] creates: the stores, the transport (which knows its local address)
    and the raft node itself, from its configuration. *)
Record Config : Type := mkConfig {
  SnapshotInterval : Z; SnapshotThreshold : Z; TrailingLogs : Z; LocalID : string
}.
Class RaftCreation (W : Type) : Type := {
  NewBoltStore : string → W → W * option error;
  NewFileSnapshotStore : string → Z → W → W * option error;
  net_ResolveTCPAddr : string → W → W * option error;
  NewTCPTransport : string → W → W * (string + error);
  NewRaft : Config → W → W * option error
}.

(** A call of external code inside the panic monad. *)
Definition ext {W A} (f : W → W * A) : M W A := λ w, let '(w', a) := f w in (w', Ret a).

(** ** http.go *)

Section http.
Context {W : Type} `{Network W}.

(** The body is read to its end; [v == nil] is not used by the callers. *)
Definition parseRSP {A} `{Codec A} (rs : string) (v : A) : string * A * option error :=
  let '(v, err) := Unmarshal v rs in (rs, v, err).

Definition GetJSON {A} `{Codec A} (addr : string) (v : A) : M W (string * A * option error) :=
  resp ← ext (client_Get addr);
  match resp with
  | inr err => mret ("", v, Some err)
  | inl body => mret (parseRSP body v)
  end.

Definition PostJSON {B A} `{Codec B} `{Codec A} (addr : string) (body : B) (v : A)
    : M W (Z * string * A * option error) :=
  resp ← ext (client_Post addr (Marshal body));
  match resp with
  | inr err => mret (0%Z, "", v, Some err)
  | inl (status, rs) => let '(rsp, v, err) := parseRSP rs v in mret (status, rsp, v, err)
  end.
End http.
