(* ===== verification/Sim.v ===== *)
(** * A concrete environment

    Instances of the classes of [Externals] by executable functions: a wire
    format with round trips, a raft configuration that is edited in place, a file
    system and a table of HTTP answers.  The witnesses evaluate the program on
    it, and the laws hold of it, so no theorem assumes the impossible. *)

From Stdlib Require Import Ascii.
From stdpp Require Import prelude gmap strings.
From S2P Require Import Prelude.
From S2P Require Import GoStd.
From S2P Require Import Model.
From S2P Require Import Externals.

(** ** A wire format: strings with escaped bytes, in sequence *)

Definition more : ascii := "001".
Definition stop : ascii := "000".

Fixpoint put (s rest : string) : string :=
  match s with
  | EmptyString => String stop rest
  | String c s => String more (String c (put s rest))
  end.
Definition put_all (l : list string) : string := foldr put "" l.

Fixpoint take_all (s : string) (cur : string) : option (list string) :=
  match s with
  | EmptyString => if decide (cur = "") then Some [] else None
  | String a r =>
      if decide (a = more) then
        match r with String c r => take_all r (String c cur) | EmptyString => None end
      else if decide (a = stop) then
        match take_all r "" with Some l => Some (String.rev cur :: l) | None => None end
      else None
  end.

Lemma rev_app_rev s acc : String.rev_app s acc = String.rev s +:+ acc.
Proof.
  unfold String.rev. revert acc. induction s as [|a s IH]; intros acc; [done|].
  simpl. rewrite IH. rewrite (IH (String a "")). by rewrite str_app_assoc, str_app_cons, str_app_nil_l.
Qed.

Lemma take_all_put s l cur :
  take_all (put s l) cur =
    match take_all l "" with Some r => Some ((String.rev cur +:+ s) :: r) | None => None end.
Proof.
  revert cur. induction s as [|c s IH]; intros cur; simpl.
  - by rewrite str_app_nil_r.
  - rewrite IH. destruct (take_all l ""); [|done]. f_equal. f_equal.
    unfold String.rev. cbn [String.rev_app]. rewrite (rev_app_rev cur (String c "")).
    by rewrite str_app_assoc, str_app_cons, str_app_nil_l.
Qed.

Lemma take_all_put_all l : take_all (put_all l) "" = Some l.
Proof.
  induction l as [|s l IH]; [done|]. cbn [put_all foldr]. fold (put_all l).
  rewrite take_all_put. by rewrite IH.
Qed.

(** A type that is written as a sequence of strings. *)
Class Fields (A : Type) : Type := {
  to_fields : A → list string;
  of_fields : list string → option A;
  of_to_fields a : of_fields (to_fields a) = Some a
}.

Definition bad_json : error := ErrExt "invalid character".

(** The codec is only taken through named instances, not found for every type. *)
Definition Fields_codec {A} `{Fields A} : Codec A := {|
  Marshal a := put_all (to_fields a);
  Unmarshal z s :=
    match take_all s "" ≫= of_fields with Some a => (a, None) | None => (z, Some bad_json) end;
  Decode z s :=
    match take_all s "" ≫= of_fields with Some a => (a, None) | None => (z, Some bad_json) end
|}.

Lemma Fields_laws {A} `{Fields A} (z : A) : @CodecLaws A Fields_codec z (λ _, True).
Proof. split; intros a _; simpl; rewrite take_all_put_all; simpl; by rewrite of_to_fields. Qed.

#[export] Instance Command_fields : Fields Command.
Proof.
  refine {|
    to_fields c := [Op c; Key c; Value c; Time c];
    of_fields l := match l with [o; k; v; t] => Some (mkCommand o k v t) | _ => None end
  |}.
  by intros [].
Defined.

Fixpoint pairs_of (l : list string) : option (list (string * string)) :=
  match l with
  | [] => Some []
  | k :: v :: l => ((k, v) ::.) <$> pairs_of l
  | _ => None
  end.
Definition of_pairs (l : list (string * string)) : list string := l ≫= λ kv, [kv.1; kv.2].
Lemma pairs_of_pairs l : pairs_of (of_pairs l) = Some l.
Proof.
  induction l as [|[k v] l IH]; [done|]. unfold of_pairs. rewrite bind_cons. cbn [fst snd app pairs_of].
  fold (of_pairs l). by rewrite IH.
Qed.

#[export] Instance map_fields : Fields (gmap string string).
Proof.
  refine {|
    to_fields kv := of_pairs (map_to_list kv);
    of_fields l :=
      match pairs_of l with Some ps => Some (list_to_map ps : gmap string string) | None => None end
  |}.
  intros kv. by rewrite pairs_of_pairs, list_to_map_to_list.
Defined.

#[export] Instance JoinRequest_fields : Fields JoinRequest.
Proof.
  refine {|
    to_fields r := [Addr r; JoinNodeID r];
    of_fields l := match l with [a; i] => Some (mkJoinRequest a i) | _ => None end
  |}.
  by intros [].
Defined.

Definition bool_field (b : bool) : string := if b then "true" else "false".
#[export] Instance Rsp_fields : Fields (Rsp string).
Proof.
  refine {|
    to_fields r :=
      bool_field (Rsp_OK r) :: Rsp_Msg r :: match Rsp_Data r with Some d => [d] | None => [] end;
    of_fields l :=
      match l with
      | b :: msg :: d =>
          match d with
          | [] => Some (mkRsp (bool_decide (b = "true")) msg None)
          | [d] => Some (mkRsp (bool_decide (b = "true")) msg (Some d))
          | _ => None
          end
      | _ => None
      end
  |}.
  by intros [[] msg [d|]].
Defined.

(** Records of [n] fields, one after the other. *)
Fixpoint chunks4 (l : list string) : option (list Peer) :=
  match l with
  | [] => Some []
  | a :: i :: s :: f :: l => (mkPeer a i s f ::.) <$> chunks4 l
  | _ => None
  end.
Definition peer_fields (p : Peer) : list string :=
  [Peer_Address p; Peer_ID p; Peer_State p; Peer_Suffrage p].
Lemma chunks4_fields l : chunks4 (l ≫= peer_fields) = Some l.
Proof. induction l as [|[a i st f] l IH]; [done|]. rewrite bind_cons. cbn [peer_fields app chunks4 Peer_Address Peer_ID Peer_State Peer_Suffrage]. by rewrite IH. Qed.

#[export] Instance RaftCluster_fields : Fields RaftCluster.
Proof.
  refine {|
    to_fields r := peer_fields (Current r) ++ peer_fields (Leader r) ++ (Servers r ≫= peer_fields);
    of_fields l :=
      match chunks4 l with Some (c :: d :: s) => Some (mkRaftCluster c d s) | _ => None end
  |}.
  intros [[a1 a2 a3 a4] [b1 b2 b3 b4] s]. cbn [Current Leader Servers peer_fields Peer_Address Peer_ID Peer_State Peer_Suffrage app chunks4].
  by rewrite chunks4_fields.
Defined.

Fixpoint chunks3 (l : list string) : option (list ConfigEntry) :=
  match l with
  | [] => Some []
  | i :: a :: f :: l => (mkConfigEntry i a f ::.) <$> chunks3 l
  | _ => None
  end.
Definition entry_fields (e : ConfigEntry) : list string :=
  [Entry_ID e; Entry_Address e; Entry_Suffrage e].
#[export] Instance entries_fields : Fields (list ConfigEntry).
Proof.
  refine {|
    to_fields l := l ≫= entry_fields;
    of_fields := chunks3
  |}.
  intros l. induction l as [|[i a f] l IH]; [done|]. rewrite bind_cons. cbn [entry_fields app chunks3 Entry_ID Entry_Address Entry_Suffrage].
  by rewrite IH.
Defined.

Module Wire.
#[export] Instance command : Codec Command := Fields_codec.
#[export] Instance kv : Codec (gmap string string) := Fields_codec.
#[export] Instance join : Codec JoinRequest := Fields_codec.
#[export] Instance rsp : Codec (Rsp string) := Fields_codec.
#[export] Instance cluster : Codec RaftCluster := Fields_codec.
#[export] Instance entries : Codec (list ConfigEntry) := Fields_codec.
#[export] Instance command_laws : CodecLaws Command (mkCommand "" "" "" "") (λ _, True) := Fields_laws _.
#[export] Instance kv_laws : CodecLaws (gmap string string) ∅ (λ _, True) := Fields_laws _.
#[export] Instance join_laws z : CodecLaws JoinRequest z (λ _, True) := Fields_laws _.
#[export] Instance rsp_laws z : CodecLaws (Rsp string) z (λ _, True) := Fields_laws _.
#[export] Instance cluster_laws : CodecLaws RaftCluster RaftCluster0 (λ _, True) := Fields_laws _.
#[export] Instance entries_laws : CodecLaws (list ConfigEntry) [] (λ _, True) := Fields_laws _.
End Wire.

(** ** A simulated node *)

Record sim : Type := mkSim {
  sim_state : RaftState;
  sim_leader : string;
  sim_servers : list Server;
  sim_log : list string;
  sim_files : gmap string string;
  (* answers to GET and POST, by URL *)
  sim_get : gmap string string;
  sim_post : gmap string string
}.

Definition sim_set_servers (l : list Server) (w : sim) : sim :=
  mkSim (sim_state w) (sim_leader w) l (sim_log w) (sim_files w) (sim_get w) (sim_post w).

Module SimNode.
#[export] Instance raft : Raft sim := {
  raft_State := sim_state;
  raft_Leader := sim_leader;
  raft_Configuration := sim_servers;
  raft_ConfigurationError _ := None;
  raft_RemoveServer id w :=
    let l := filter (λ s, Server_ID s ≠ id) (sim_servers w) in
    if decide (l = []) then (w, Some (ErrExt "need at least one voter in configuration"))
    else (sim_set_servers l w, None);
  raft_AddVoter id addr w :=
    if decide (id ∈ Server_ID <$> sim_servers w) then (w, Some (ErrExt "found duplicate ID"))
    else (sim_set_servers (sim_servers w ++ [mkServer Voter id addr]) w, None);
  raft_Apply d w :=
    (mkSim (sim_state w) (sim_leader w) (sim_servers w) (sim_log w ++ [d]) (sim_files w)
       (sim_get w) (sim_post w), None);
  raft_BootstrapCluster := sim_set_servers;
  raft_Stats _ := ∅;
  raft_LastIndex w := Z.of_nat (length (sim_log w));
  raft_AppliedIndex w := Z.of_nat (length (sim_log w));
  RaftState_String s :=
    match s with
    | Follower => "Follower" | Candidate => "Candidate" | RaftLeader => "Leader" | Shutdown => "Shutdown"
    end;
  Suffrage_String s :=
    match s with Voter => "Voter" | Nonvoter => "Nonvoter" | Staging => "Staging" end
}.

#[export] Instance raft_names : RaftNames sim.
Proof. split; try done. by intros []. Qed.

#[export] Instance raft_membership : RaftMembership sim.
Proof.
  split; simpl.
  - intros id w w'. case_decide; [done|]. by intros [= <-].
  - intros id addr w w'. case_decide; [done|]. intros [= <-] _. simpl.
    by rewrite Permutation_app_comm.
Qed.

#[export] Instance network : Network sim := {
  client_Get url w :=
    (w, match sim_get w !! url with Some b => inl b | None => inr (ErrExt "connection refused") end);
  client_Post url _ w :=
    (w, match sim_post w !! url with
        | Some b => inl (200%Z, b) | None => inr (ErrExt "connection refused") end)
}.

#[export] Instance files : FileSystem sim := {
  os_MkdirAll _ _ w := w;
  os_Lstat p w := match sim_files w !! p with Some _ => None | None => Some (ErrExt "no such file") end;
  os_IsNotExist e := bool_decide (e = ErrExt "no such file");
  ioutil_WriteFile p d _ w :=
    (mkSim (sim_state w) (sim_leader w) (sim_servers w) (sim_log w) (<[p := d]> (sim_files w))
       (sim_get w) (sim_post w), None);
  ioutil_ReadFile p w :=
    match sim_files w !! p with Some d => inl d | None => inr (ErrExt "no such file") end
}.

#[export] Instance files_laws : FileSystemLaws sim.
Proof. split. intros p d mode w w' _ [= <-]. simpl. by rewrite lookup_insert_eq. Qed.
#[export] Instance files_frame : FileSystemFrame sim.
Proof. by split. Qed.

#[export] Instance raft_frame : RaftFrame sim.
Proof. by split. Qed.

#[export] Instance creation : RaftCreation sim := {
  NewBoltStore _ w := (w, None);
  NewFileSnapshotStore _ _ w := (w, None);
  net_ResolveTCPAddr a w := (w, if decide (a = "") then Some (ErrExt "missing address") else None);
  NewTCPTransport a w := (w, inl a);
  NewRaft _ w := (w, None)
}.
End SimNode.

(** A leader and a follower of a cluster of two. *)
Definition sim_server (id addr : string) : Server := mkServer Voter id addr.
Definition idA : NodeID := "10.0.0.1:11000,10.0.0.1:12000".
Definition idB : NodeID := "10.0.0.2:11000,10.0.0.2:12000".
Definition idC : NodeID := "10.0.0.3:11000,10.0.0.3:12000".
Definition sim_leader_node : sim :=
  mkSim RaftLeader "10.0.0.1:12000"
    [sim_server idA "10.0.0.1:12000"; sim_server idB "10.0.0.2:12000"] [] ∅ ∅ ∅.
Definition sim_follower_node : sim :=
  mkSim Follower "10.0.0.1:12000"
    [sim_server idA "10.0.0.1:12000"; sim_server idB "10.0.0.2:12000"] [] ∅ ∅ ∅.
