(* ===== verification/Distribute.v ===== *)
(** * The distributor: [distribute.go]

    [Distribute] spreads a slice of items over the peers: items that were placed
    before stay on their node (sticky), the others go to the first peer that
    still has capacity.  The capacities are dealt round robin before. *)

From stdpp Require Import prelude gmap strings.
From S2P Require Import Prelude.
From S2P Require Import Model.

Record Distributor : Type := mkDistributor { StickyMap : gmap string NodeID }.

Definition NewDistributor : Distributor := mkDistributor ∅.

Definition Put (d : Distributor) (id : string) (nodeID : NodeID) : Distributor :=
  mkDistributor (<[id := nodeID]> (StickyMap d)).

Definition CleanSticky (d : Distributor) : Distributor := mkDistributor ∅.

(** ** Peers and capacities *)

Definition peer_ids (peers : list Peer) : gset NodeID := list_to_set (Peer_ID <$> peers).

(** The loop deletes while it ranges over the map, in any order. *)
Definition cleanKeysNotIn (d : Distributor) (peers : list Peer) : Distributor :=
  let peersMap := peer_ids peers in
  mkDistributor
    (map_fold (λ id nodeID m, if decide (nodeID ∈ peersMap) then m else delete id m)
       (StickyMap d) (StickyMap d)).

(** [i%len(peers)] divides by zero when there is data and no peer. *)
Fixpoint makePeersMap_loop (peers : list Peer) (todo i : nat) (m : gmap NodeID Z)
    : outcome (gmap NodeID Z) :=
  match todo with
  | O => Ret m
  | S todo =>
      if decide (length peers = 0) then Panic "runtime error: integer divide by zero"
      else match peers !! (i `mod` length peers) with
           | Some p => makePeersMap_loop peers todo (S i) (add0 (Peer_ID p) 1 m)
           | None => Panic "runtime error: index out of range"
           end
  end.
Definition makePeersMap (peers : list Peer) (dataLen : nat) : outcome (gmap NodeID Z) :=
  makePeersMap_loop peers dataLen 0 ∅.

(** ** The reflective checks *)

Section distribute.
Context {Item R : Type}.
(** What the caller's types provide: the method sets, [ID], the zero value of
    the receiver type and the receiver's [Distribute] method. *)
Context (implApplier implIdentifier : gotype → bool).
Context (ID : Item → string) (zero : gotype → R) (receive : NodeID → Item → R → R).

(** A nil receiver has no type: [rt.Kind()] on a nil [reflect.Type]. *)
Definition checkReceiverType (emptyReceiver : option gotype) : outcome gotype :=
  match emptyReceiver with
  | None => Panic "invalid memory address or nil pointer dereference"
  | Some t =>
      let '(rt, rtPtr) := match t with TPtr e => (e, t) | _ => (t, TPtr t) end in
      if implApplier rtPtr then Ret rt
      else Panic "receiver type should implement *DistributedApplier"
  end.

(** The data: its dynamic type, and the elements when that is a slice. *)
Record any_slice : Type := mkSlice { dtype : option gotype; delems : list Item }.

Definition checkDataType (data : any_slice) : outcome (list Item) :=
  match dtype data with
  | None => Panic "reflect: call of reflect.Value.Type on zero Value"
  | Some (TSlice e) =>
      if implIdentifier e then Ret (delems data) else Panic "data should implements Identifier"
  | Some _ => Panic "data should be slice"
  end.

(** ** The two passes *)

(** [v := reflect.New(rt); a.Distribute(nodeID, item); v.Elem()] *)
Definition place (rt : gotype) (nodeID : NodeID) (item : Item) : R :=
  receive nodeID item (zero rt).

Definition sticky_node (sm : gmap string NodeID) (item : Item) : NodeID :=
  default "" (sm !! ID item).

Fixpoint keepSticky (sm : gmap string NodeID) (mk : NodeID → Item → R) (data : list Item)
    (nums : gmap NodeID Z) (distributed : list R) (newItems : list Item)
    : gmap NodeID Z * list R * list Item :=
  match data with
  | [] => (nums, distributed, newItems)
  | item :: data =>
      let nodeID := sticky_node sm item in
      if decide (nodeID ≠ "")
      then keepSticky sm mk data (add0 nodeID (-1) nums) (distributed ++ [mk nodeID item]) newItems
      else keepSticky sm mk data nums distributed (newItems ++ [item])
  end.

Fixpoint placeNew (mk : NodeID → Item → R) (peers : list Peer) (item : Item)
    (d : Distributor) (nums : gmap NodeID Z) (distributed : list R)
    : Distributor * gmap NodeID Z * list R :=
  match peers with
  | [] => (d, nums, distributed)
  | peer :: rest =>
      if (get0 nums (Peer_ID peer) <=? 0)%Z then placeNew mk rest item d nums distributed
      else (Put d (ID item) (Peer_ID peer), add0 (Peer_ID peer) (-1) nums,
            distributed ++ [mk (Peer_ID peer) item])
  end.

Fixpoint placeAllNew (mk : NodeID → Item → R) (peers : list Peer) (items : list Item)
    (d : Distributor) (nums : gmap NodeID Z) (distributed : list R) : Distributor * list R :=
  match items with
  | [] => (d, distributed)
  | item :: items =>
      let '(d, nums, distributed) := placeNew mk peers item d nums distributed in
      placeAllNew mk peers items d nums distributed
  end.

Definition Distribute (peers : list Peer) (data : any_slice) (emptyReceiver : option gotype)
    : M Distributor (list R) := λ d,
  match checkReceiverType emptyReceiver with
  | Panic msg => (d, Panic msg)
  | Ret rt =>
    match checkDataType data with
    | Panic msg => (d, Panic msg)
    | Ret dv =>
      let d := cleanKeysNotIn d peers in
      match makePeersMap peers (length dv) with
      | Panic msg => (d, Panic msg)
      | Ret nums =>
          let '(nums, distributed, newItems) :=
            keepSticky (StickyMap d) (place rt) dv nums [] [] in
          let '(d, distributed) := placeAllNew (place rt) peers newItems d nums distributed in
          (d, Ret distributed)
      end
    end
  end.
End distribute.
Arguments mkSlice {Item}.
Arguments dtype {Item}.
Arguments delems {Item}.

(** ** Placements

    A result is described by its placement: the pairs (node, item) in the order
    of the returned slice. *)

Section placements.
Context {Item : Type} (ID : Item → string).
Implicit Types (pl : list (NodeID * Item)) (n : NodeID) (nums : gmap NodeID Z).

(** How many items [pl] puts on [n]. *)
Definition load n pl : Z := Z.of_nat (length (filter (λ p, p.1 = n) pl)).

(** The placement of the sticky items, and the items left over. *)
Definition sticky_part (sm : gmap string NodeID) (data : list Item) : list (NodeID * Item) :=
  (λ i, (sticky_node ID sm i, i)) <$> filter (λ i, sticky_node ID sm i ≠ "") data.
Definition fresh_part (sm : gmap string NodeID) (data : list Item) : list Item :=
  filter (λ i, sticky_node ID sm i = "") data.

(** The capacity the peers have together. *)
Definition capacity (peers : list Peer) nums : Z :=
  sum_Z (get0 nums <$> remove_dups (Peer_ID <$> peers)).

(** The sticky map after the placement [pl] was recorded. *)
Definition record_placement (sm : gmap string NodeID) pl : gmap string NodeID :=
  foldl (λ m p, <[ID p.2 := p.1]> m) sm pl.

Lemma load_nil n : load n [] = 0%Z.
Proof. done. Qed.
Lemma load_cons n m i pl : load n ((m, i) :: pl) = ((if decide (m = n) then 1 else 0) + load n pl)%Z.
Proof.
  unfold load. rewrite filter_cons. simpl. destruct (decide (m = n)); [|done].
  cbn [length]. lia.
Qed.
Lemma load_app n pl1 pl2 : load n (pl1 ++ pl2) = (load n pl1 + load n pl2)%Z.
Proof. unfold load. rewrite filter_app, length_app. lia. Qed.
Lemma load_nonneg n pl : (0 ≤ load n pl)%Z.
Proof. unfold load. lia. Qed.

Lemma load_sticky n sm data : n ≠ "" →
  load n (sticky_part sm data) = Z.of_nat (length (filter (λ i, sticky_node ID sm i = n) data)).
Proof.
  intros Hn. unfold sticky_part. induction data as [|i data IH]; [done|].
  rewrite !filter_cons.
  destruct (decide (sticky_node ID sm i ≠ "")) as [Hs|Hs];
    destruct (decide (sticky_node ID sm i = n)) as [Hi|Hi]; try (exfalso; apply Hs; congruence).
  - rewrite fmap_cons, load_cons, IH, decide_True by done. cbn [length]. lia.
  - rewrite fmap_cons, load_cons, IH, decide_False by done. lia.
  - done.
Qed.

Lemma sticky_fresh_perm sm data : (sticky_part sm data).*2 ++ fresh_part sm data ≡ₚ data.
Proof.
  unfold sticky_part, fresh_part. rewrite <-list_fmap_compose.
  rewrite (list_fmap_ext _ id) by done. rewrite list_fmap_id.
  induction data as [|i data IH]; [done|]. rewrite !filter_cons.
  destruct (decide (sticky_node ID sm i = "")) as [E|E].
  - rewrite decide_False by tauto. by rewrite <-Permutation_middle, IH.
  - rewrite decide_True by done. simpl. by rewrite IH.
Qed.

Lemma sum_get0_add0 (l : list NodeID) nums k d : NoDup l →
  sum_Z (get0 (add0 k d nums) <$> l) =
    (sum_Z (get0 nums <$> l) + if decide (k ∈ l) then d else 0)%Z.
Proof.
  induction 1 as [|n l Hn Hl IH]; [done|]. rewrite !fmap_cons. simpl.
  rewrite IH, get0_add0. destruct (decide (k = n)) as [->|].
  - rewrite (decide_False (P := n ∈ l)), decide_True by set_solver. lia.
  - destruct (decide (k ∈ l)); [rewrite decide_True by set_solver|rewrite decide_False by set_solver]; lia.
Qed.

Lemma capacity_add0 peers nums k d : k ∈ Peer_ID <$> peers →
  capacity peers (add0 k d nums) = (capacity peers nums + d)%Z.
Proof.
  intros Hk. unfold capacity. rewrite sum_get0_add0 by apply NoDup_remove_dups.
  by rewrite decide_True by by apply elem_of_remove_dups.
Qed.

Lemma capacity_pos peers nums : (0 < capacity peers nums)%Z →
  Exists (λ p, 0 < get0 nums (Peer_ID p))%Z peers.
Proof.
  intros (z & Hz & Hpos)%sum_Z_pos_exists%Exists_exists.
  apply list_elem_of_fmap in Hz as (n & -> & Hn).
  apply elem_of_remove_dups, list_elem_of_fmap in Hn as (p & -> & Hp).
  apply Exists_exists. eauto.
Qed.

(** Removing the loads of a placement on the peers removes its size. *)
Lemma capacity_sub peers nums nums' pl :
  Forall (λ p, p.1 ∈ Peer_ID <$> peers) pl →
  (∀ n, get0 nums' n = get0 nums n - load n pl)%Z →
  capacity peers nums' = (capacity peers nums - Z.of_nat (length pl))%Z.
Proof.
  revert nums. induction pl as [|[m i] pl IH]; intros nums.
  - intros _ H. unfold capacity. f_equal. simpl. rewrite Z.sub_0_r. f_equal.
    apply list_fmap_ext. intros _ n _. rewrite H, load_nil. lia.
  - intros [Hm Hpl]%Forall_cons H. rewrite (IH (add0 m (-1) nums)); [|done|].
    + simpl in *. rewrite capacity_add0 by done. lia.
    + intros n. rewrite H, load_cons, get0_add0. case_decide; lia.
Qed.
End placements.

(** ** The steps, specified *)

Lemma elem_of_peer_ids peers n : n ∈ peer_ids peers ↔ n ∈ Peer_ID <$> peers.
Proof. unfold peer_ids. by rewrite elem_of_list_to_set. Qed.

Lemma cleanKeysNotIn_lookup d peers id n :
  StickyMap (cleanKeysNotIn d peers) !! id = Some n ↔
  StickyMap d !! id = Some n ∧ n ∈ Peer_ID <$> peers.
Proof.
  unfold cleanKeysNotIn; simpl.
  rewrite <-elem_of_peer_ids. generalize (peer_ids peers) as ids; intros ids.
  assert (∀ (m0 : gmap string NodeID) id n,
    map_fold (λ id nodeID m, if decide (nodeID ∈ ids) then m else delete id m) m0 (StickyMap d)
      !! id = Some n ↔
    m0 !! id = Some n ∧ (∀ n', StickyMap d !! id = Some n' → n' ∈ ids)) as Hfold.
  { intros m0. induction (StickyMap d) as [|k x m Hk Hf IH] using map_first_key_ind;
      intros id' n'.
    - rewrite map_fold_empty. naive_solver.
    - rewrite map_fold_insert_first_key by done.
      assert ((∀ n'' : NodeID, <[k:=x]> m !! id' = Some n'' → n'' ∈ ids) ↔
              (∀ n'', m !! id' = Some n'' → n'' ∈ ids) ∧ (k = id' → x ∈ ids)) as ->.
      { destruct (decide (k = id')) as [->|Hne].
        - rewrite lookup_insert_eq, Hk. naive_solver.
        - rewrite lookup_insert_ne by done. naive_solver. }
      case_decide as Hx; [rewrite IH; naive_solver|].
      destruct (decide (k = id')) as [->|Hne].
      + rewrite lookup_delete_eq. naive_solver.
      + rewrite lookup_delete_ne by done. rewrite IH. naive_solver. }
  rewrite Hfold. naive_solver.
Qed.

Lemma cleanKeysNotIn_id d peers :
  (∀ id n, StickyMap d !! id = Some n → n ∈ Peer_ID <$> peers) → cleanKeysNotIn d peers = d.
Proof.
  intros H. destruct d as [sm]. unfold cleanKeysNotIn at 1; simpl. f_equal.
  apply map_eq; intros id. apply option_eq; intros n.
  pose proof (cleanKeysNotIn_lookup (mkDistributor sm) peers id n) as Hl. simpl in Hl.
  rewrite Hl. naive_solver.
Qed.

Lemma sticky_node_clean {Item} (ID : Item → string) d peers i n : n ∈ Peer_ID <$> peers → n ≠ "" →
  sticky_node ID (StickyMap (cleanKeysNotIn d peers)) i = n ↔ sticky_node ID (StickyMap d) i = n.
Proof.
  intros Hn Hne. unfold sticky_node. pose proof (cleanKeysNotIn_lookup d peers (ID i)) as Hc.
  destruct (StickyMap (cleanKeysNotIn d peers) !! ID i) as [x|] eqn:E.
  - by destruct (proj1 (Hc x) eq_refl) as [-> _].
  - simpl. split; [congruence|]. destruct (StickyMap d !! ID i) as [y|] eqn:Ey; simpl; [|done].
    intros ->. by discriminate (proj2 (Hc n) (conj eq_refl Hn)).
Qed.

Lemma sticky_part_peers {Item} (ID : Item → string) d peers data :
  Forall (λ p, p.1 ∈ Peer_ID <$> peers)
    (sticky_part ID (StickyMap (cleanKeysNotIn d peers)) data).
Proof.
  unfold sticky_part. apply Forall_fmap, Forall_forall. intros i Hi. simpl.
  apply list_elem_of_filter in Hi as [Hi _]. unfold sticky_node in *.
  destruct (_ !! ID i) as [n|] eqn:E; simpl in *; [|done].
  by apply cleanKeysNotIn_lookup in E as [_ ?].
Qed.

Section passes.
Context {Item R : Type} (ID : Item → string) (mk : NodeID → Item → R).

Lemma keepSticky_spec sm data nums dist new :
  ∃ nums', keepSticky ID sm mk data nums dist new =
    (nums', dist ++ (uncurry mk <$> sticky_part ID sm data), new ++ fresh_part ID sm data) ∧
    ∀ n, get0 nums' n = (get0 nums n - load n (sticky_part ID sm data))%Z.
Proof.
  unfold sticky_part, fresh_part.
  revert nums dist new. induction data as [|i data IH]; intros nums dist new.
  { exists nums. rewrite !filter_nil. cbn. rewrite !app_nil_r. split; [done|].
    intros n. rewrite load_nil. lia. }
  cbn [keepSticky]. rewrite !filter_cons.
  destruct (decide (sticky_node ID sm i ≠ "")) as [Hs|Hs].
  - rewrite (decide_False (P := _ = "")) by done.
    destruct (IH (add0 (sticky_node ID sm i) (-1) nums) (dist ++ [mk (sticky_node ID sm i) i]) new)
      as (nums' & -> & Hn).
    exists nums'. rewrite !fmap_cons, <-app_assoc. split; [done|].
    intros n. rewrite Hn, load_cons, get0_add0. case_decide; lia.
  - destruct (IH nums dist (new ++ [i])) as (nums' & -> & Hn). exists nums'.
    rewrite (decide_True (P := _ = "")) by (by apply dec_stable). by rewrite <-app_assoc.
Qed.

Lemma placeNew_spec peers i d nums dist :
  Exists (λ p, 0 < get0 nums (Peer_ID p))%Z peers →
  ∃ n, n ∈ Peer_ID <$> peers ∧ (0 < get0 nums n)%Z ∧
    placeNew ID mk peers i d nums dist =
      (Put d (ID i) n, add0 n (-1) nums, dist ++ [mk n i]).
Proof.
  induction 1 as [p peers Hp|p peers _ (n & Hn & Hpos & IH)]; cbn [placeNew].
  - exists (Peer_ID p). rewrite fmap_cons. case_match; [lia|]. set_solver.
  - rewrite fmap_cons. case_match; [exists n; set_solver|].
    exists (Peer_ID p). split_and!; [set_solver|lia|done].
Qed.

(** With enough capacity every new item finds a peer, and no peer takes more
    than its capacity. *)
Lemma placeAllNew_spec peers items d nums dist :
  (Z.of_nat (length items) ≤ capacity peers nums)%Z →
  ∃ pl, placeAllNew ID mk peers items d nums dist =
      (mkDistributor (record_placement ID (StickyMap d) pl), dist ++ (uncurry mk <$> pl)) ∧
    pl.*2 = items ∧
    Forall (λ p, p.1 ∈ Peer_ID <$> peers) pl ∧
    ∀ n, (load n pl ≤ Z.max 0 (get0 nums n))%Z.
Proof.
  revert d nums dist. induction items as [|i items IH]; intros d nums dist Hcap.
  { exists []. cbn. rewrite app_nil_r. destruct d; simpl.
    split_and!; try done. intros n. rewrite load_nil. lia. }
  cbn [placeAllNew]. simpl in Hcap.
  destruct (placeNew_spec peers i d nums dist) as (m & Hm & Hpos & ->).
  { apply capacity_pos. lia. }
  destruct (IH (Put d (ID i) m) (add0 m (-1) nums) (dist ++ [mk m i]))
    as (pl & -> & Hpl & Hin & Hload).
  { rewrite capacity_add0 by done. lia. }
  exists ((m, i) :: pl). rewrite !fmap_cons, <-app_assoc. split_and!; simpl.
  - done.
  - by rewrite Hpl.
  - by constructor.
  - intros n. rewrite load_cons. specialize (Hload n). rewrite get0_add0 in Hload.
    case_decide; subst; lia.
Qed.
End passes.

(** ** Round-robin quotas *)

(** What the dealing gives the peer at index [j] of [k], out of [len] items. *)
Definition quota (len k j : nat) : Z :=
  ((Z.of_nat len + Z.of_nat k - 1 - Z.of_nat j) `div` Z.of_nat k)%Z.

Lemma quota_0 k j : j < k → quota 0 k j = 0%Z.
Proof. intros ?. unfold quota. apply Z.div_small. lia. Qed.

Lemma quota_S i k j : j < k →
  quota (S i) k j = (quota i k j + if decide (i `mod` k = j)%nat then 1 else 0)%Z.
Proof.
  intros Hj. unfold quota.
  pose proof (Nat.div_mod_eq i k) as Hi. pose proof (Nat.mod_upper_bound i k ltac:(lia)) as Hr.
  set (q := i `div` k) in *. set (r := i `mod` k) in *.
  assert (∀ z c a, z = (Z.of_nat k * c + a)%Z → (0 ≤ a < Z.of_nat k)%Z →
    (z `div` Z.of_nat k = c)%Z) as Hd by (intros; symmetry; eapply Z.div_unique; eauto).
  assert (Z.of_nat i = Z.of_nat k * Z.of_nat q + Z.of_nat r)%Z as Hi' by nia.
  case_decide as Hc; [|destruct (decide (r < j))].
  - rewrite (Hd _ (Z.of_nat q + 1)%Z 0%Z), (Hd _ (Z.of_nat q) (Z.of_nat k - 1)%Z); lia.
  - rewrite (Hd _ (Z.of_nat q) (Z.of_nat r + Z.of_nat k - Z.of_nat j)%Z),
      (Hd _ (Z.of_nat q) (Z.of_nat r + Z.of_nat k - 1 - Z.of_nat j)%Z); lia.
  - rewrite (Hd _ (Z.of_nat q + 1)%Z (Z.of_nat r - Z.of_nat j)%Z),
      (Hd _ (Z.of_nat q + 1)%Z (Z.of_nat r - 1 - Z.of_nat j)%Z); lia.
Qed.

Lemma makePeersMap_spec peers len : peers ≠ [] →
  ∃ nums, makePeersMap peers len = Ret nums ∧
    capacity peers nums = Z.of_nat len ∧
    (∀ n, 0 ≤ get0 nums n)%Z ∧
    (NoDup (Peer_ID <$> peers) → ∀ j p, peers !! j = Some p →
       get0 nums (Peer_ID p) = quota len (length peers) j).
Proof.
  intros Hne. assert (0 < length peers) as Hk by (destruct peers; [done|simpl; lia]).
  unfold makePeersMap.
  assert (∀ todo i m,
    capacity peers m = Z.of_nat i → (∀ n, 0 ≤ get0 m n)%Z →
    (NoDup (Peer_ID <$> peers) → ∀ j p, peers !! j = Some p →
       get0 m (Peer_ID p) = quota i (length peers) j) →
    ∃ nums, makePeersMap_loop peers todo i m = Ret nums ∧
      capacity peers nums = Z.of_nat (i + todo) ∧ (∀ n, 0 ≤ get0 nums n)%Z ∧
      (NoDup (Peer_ID <$> peers) → ∀ j p, peers !! j = Some p →
         get0 nums (Peer_ID p) = quota (i + todo) (length peers) j)) as H.
  { induction todo as [|todo IH]; intros i m Hcap Hpos Hq; cbn [makePeersMap_loop].
    { exists m. rewrite Nat.add_0_r. done. }
    rewrite decide_False by lia.
    destruct (lookup_lt_is_Some_2 peers (i `mod` length peers)) as [p Hp].
    { apply Nat.mod_upper_bound. lia. }
    rewrite Hp, <-Nat.add_succ_comm. apply IH.
    - rewrite capacity_add0, Hcap; [lia|]. apply list_elem_of_fmap. eauto using list_elem_of_lookup_2.
    - intros n. rewrite get0_add0. specialize (Hpos n). case_decide; lia.
    - intros Hnd j p' Hj. rewrite get0_add0, (Hq Hnd j p' Hj), quota_S by eauto using lookup_lt_Some.
      f_equal. apply decide_ext. split; [|intros Hij; rewrite Hij in Hp; congruence].
      intros E. eapply (NoDup_lookup (Peer_ID <$> peers)); [done| |].
      + rewrite list_lookup_fmap, Hp. simpl. done.
      + rewrite list_lookup_fmap, Hj. simpl. by rewrite E. }
  destruct (H len 0 ∅) as (nums & ? & ? & ? & ?).
  - unfold capacity. induction (remove_dups _) as [|n l IH]; [done|].
    rewrite fmap_cons. simpl. rewrite get0_empty. simpl in IH. lia.
  - intros n. rewrite get0_empty. lia.
  - intros _ j p Hj. rewrite get0_empty, quota_0; [done|]. by eapply lookup_lt_Some.
  - eauto.
Qed.

(** ** What is recorded *)

Section recorded.
Context {Item : Type} (ID : Item → string).

Lemma record_cons sm n i (pl : list (NodeID * Item)) :
  record_placement ID sm ((n, i) :: pl) = record_placement ID (<[ID i := n]> sm) pl.
Proof. done. Qed.

Lemma record_lookup_ne sm (pl : list (NodeID * Item)) k :
  k ∉ ID <$> pl.*2 → record_placement ID sm pl !! k = sm !! k.
Proof.
  revert sm. induction pl as [|[n i] pl IH]; intros sm; [done|].
  rewrite record_cons, !fmap_cons. intros [Hk Hpl]%not_elem_of_cons. simpl in *.
  rewrite IH by done. by rewrite lookup_insert_ne by done.
Qed.

Lemma record_lookup_eq sm (pl : list (NodeID * Item)) n i :
  NoDup (ID <$> pl.*2) → (n, i) ∈ pl → record_placement ID sm pl !! ID i = Some n.
Proof.
  revert sm. induction pl as [|[m j] pl IH]; intros sm; [set_solver|].
  rewrite record_cons, !fmap_cons.
  intros [Hj Hpl]%NoDup_cons [[= -> ->]|Hin]%elem_of_cons; simpl in *; [|by apply IH].
  rewrite record_lookup_ne by done. by rewrite lookup_insert_eq.
Qed.

Lemma record_values sm (pl : list (NodeID * Item)) (P : NodeID → Prop) k n :
  (∀ k n, sm !! k = Some n → P n) → Forall (λ p, P p.1) pl →
  record_placement ID sm pl !! k = Some n → P n.
Proof.
  revert sm. induction pl as [|[m j] pl IH]; intros sm Hsm.
  { intros _. apply Hsm. }
  rewrite record_cons. intros [Hm Hpl]%Forall_cons. apply IH; [|done].
  intros k' n'. destruct (decide (k' = ID j)) as [->|]; simplify_map_eq; [naive_solver|eauto].
Qed.

(** Two placements that put every item where the sticky map says agree. *)
Lemma placement_of_sticky sm (pl : list (NodeID * Item)) dv :
  pl.*2 ≡ₚ dv → (∀ n i, (n, i) ∈ pl → sticky_node ID sm i = n) →
  (λ i, (sticky_node ID sm i, i)) <$> dv ≡ₚ pl.
Proof.
  intros <- H. rewrite <-list_fmap_compose.
  enough (((λ i, (sticky_node ID sm i, i)) ∘ snd) <$> pl = pl) as E by (by rewrite E).
  rewrite <-(list_fmap_id pl) at 2. apply list_fmap_ext; intros j [n i] Hj; simpl.
  f_equal. apply H. by eapply list_elem_of_lookup_2.
Qed.
End recorded.

(** ** The run of [Distribute] as a placement *)

Section run.
Context {Item R : Type} (implApplier implIdentifier : gotype → bool).
Context (ID : Item → string) (zero : gotype → R) (receive : NodeID → Item → R → R).
Abbreviation Distribute := (Distribute implApplier implIdentifier ID zero receive).
Abbreviation place := (place zero receive).

Lemma Distribute_run d peers data r rt dv :
  checkReceiverType implApplier r = Ret rt → checkDataType implIdentifier data = Ret dv →
  peers ≠ [] →
  let sm := StickyMap (cleanKeysNotIn d peers) in
  ∃ nums pl,
    makePeersMap peers (length dv) = Ret nums ∧
    Distribute peers data r d =
      (mkDistributor (record_placement ID sm pl),
       Ret (uncurry (place rt) <$> (sticky_part ID sm dv ++ pl))) ∧
    pl.*2 = fresh_part ID sm dv ∧
    Forall (λ p, p.1 ∈ Peer_ID <$> peers) pl ∧
    ∀ n, (load n pl ≤ Z.max 0 (get0 nums n - load n (sticky_part ID sm dv)))%Z.
Proof.
  intros Hr Hd Hne sm. destruct (makePeersMap_spec peers (length dv) Hne)
    as (nums & Hm & Hcap & Hpos & _).
  unfold Distribute. rewrite Hr, Hd, Hm. fold sm.
  destruct (keepSticky_spec ID (place rt) sm dv nums [] []) as (nums' & -> & Hn).
  pose proof (capacity_sub peers nums nums' _ (sticky_part_peers ID d peers dv) Hn) as Hcap'.
  pose proof (Permutation_length (sticky_fresh_perm ID sm dv)) as Hlen.
  rewrite length_app, length_fmap in Hlen. fold sm in Hcap'.
  destruct (placeAllNew_spec ID (place rt) peers (fresh_part ID sm dv) (cleanKeysNotIn d peers) nums'
    (uncurry (place rt) <$> sticky_part ID sm dv)) as (pl & Hrun & Hpl & Hin & Hload).
  { lia. }
  exists nums, pl. rewrite !app_nil_l, Hrun, fmap_app. split_and!; try done.
  intros n. rewrite <-Hn. apply Hload.
Qed.

Lemma run_complete d peers (dv : list Item) pl :
  let sm := StickyMap (cleanKeysNotIn d peers) in
  pl.*2 = fresh_part ID sm dv → (sticky_part ID sm dv ++ pl).*2 ≡ₚ dv.
Proof. intros sm Hpl. rewrite fmap_app, Hpl. apply sticky_fresh_perm. Qed.

(** After a run with distinct item names the sticky map knows the node of every item. *)
Lemma run_recorded sm (dv : list Item) pl n i :
  NoDup (ID <$> dv) → (sticky_part ID sm dv ++ pl).*2 ≡ₚ dv →
  (n, i) ∈ sticky_part ID sm dv ++ pl →
  record_placement ID sm pl !! ID i = Some n.
Proof.
  intros Hnd Hperm Hin. rewrite <-Hperm, !fmap_app in Hnd.
  apply NoDup_app in Hnd as (Hs & Hdisj & Hpl).
  apply elem_of_app in Hin as [Hin|Hin]; [|by apply record_lookup_eq].
  rewrite record_lookup_ne.
  - unfold sticky_part in Hin. apply list_elem_of_fmap in Hin as (j & [= -> ->] & Hj).
    apply list_elem_of_filter in Hj as [Hj _]. unfold sticky_node in *.
    by destruct (sm !! ID j).
  - apply Hdisj. apply list_elem_of_fmap. exists i. split; [done|].
    apply list_elem_of_fmap. by exists (n, i).
Qed.
End run.

(** Handing out one unit per placed item. *)
Lemma spend_loads {Item} (pl : list (NodeID * Item)) nums :
  ∃ nums', ∀ n, get0 nums' n = (get0 nums n - load n pl)%Z.
Proof.
  induction pl as [|[m i] pl [nums' IH]].
  - exists nums. intros n. rewrite load_nil. lia.
  - exists (add0 m (-1) nums'). intros n. rewrite get0_add0, IH, load_cons. case_decide; lia.
Qed.

(** A placement of as many items as there is capacity, with no peer above its
    share, fills every share. *)
Lemma loads_fill {Item} peers (pl : list (NodeID * Item)) nums :
  Forall (λ p, p.1 ∈ Peer_ID <$> peers) pl →
  capacity peers nums = Z.of_nat (length pl) →
  (∀ n, n ∈ Peer_ID <$> peers → (load n pl ≤ get0 nums n)%Z) →
  ∀ n, n ∈ Peer_ID <$> peers → load n pl = get0 nums n.
Proof.
  intros Hin Hcap Hle n Hn. destruct (spend_loads pl nums) as [nums' Hs].
  pose proof (capacity_sub peers nums nums' pl Hin Hs) as Hz.
  rewrite Hcap, Z.sub_diag in Hz. apply sum_Z_zero in Hz as Hz'.
  - rewrite Forall_fmap, Forall_forall in Hz'.
    specialize (Hz' n ltac:(by apply elem_of_remove_dups)). simpl in Hz'. specialize (Hs n). lia.
  - apply Forall_fmap, Forall_forall. intros m Hm. rewrite elem_of_remove_dups in Hm.
    simpl. rewrite Hs. specialize (Hle m Hm). lia.
Qed.

(** ** Properties of [Distribute] *)

Section properties.
Context {Item R : Type} (implApplier implIdentifier : gotype → bool).
Context (ID : Item → string) (zero : gotype → R) (receive : NodeID → Item → R → R).
Abbreviation Distribute := (Distribute implApplier implIdentifier ID zero receive).
Abbreviation place := (place zero receive).

(** C13. Every item is distributed exactly once, and to a peer: with at least one
    peer and well-typed arguments, [Distribute] returns one receiver per item, filled
    by [Distribute(nodeID, item)] with the ID of one of the peers. *)
Theorem Distribute_complete d peers data r rt dv :
  checkReceiverType implApplier r = Ret rt → checkDataType implIdentifier data = Ret dv →
  peers ≠ [] →
  ∃ d' pl, Distribute peers data r d = (d', Ret (uncurry (place rt) <$> pl)) ∧
    pl.*2 ≡ₚ dv ∧ Forall (λ p, p.1 ∈ Peer_ID <$> peers) pl.
Proof.
  intros Hr Hd Hne.
  destruct (Distribute_run implApplier implIdentifier ID zero receive d peers data r rt dv Hr Hd Hne)
    as (nums & pl & _ & -> & Hpl & Hin & _).
  eexists _, _. split; [done|]. split; [by apply run_complete|].
  apply Forall_app. split; [apply sticky_part_peers|done].
Qed.

(** C12. Stickiness: an item whose remembered node is still a peer (and not the
    empty name, which means no node) stays there, the items before the new ones. *)
Theorem Distribute_keeps_sticky d peers data r rt dv :
  checkReceiverType implApplier r = Ret rt → checkDataType implIdentifier data = Ret dv →
  peers ≠ [] →
  ∃ d' pl, Distribute peers data r d = (d', Ret (uncurry (place rt) <$> pl)) ∧
    ∃ pl1 pl2, pl = pl1 ++ pl2 ∧
      (∀ n i, i ∈ dv → n ≠ "" → n ∈ Peer_ID <$> peers → StickyMap d !! ID i = Some n →
         (n, i) ∈ pl1) ∧
      (∀ n i, (n, i) ∈ pl1 → i ∈ dv ∧ StickyMap d !! ID i = Some n) ∧
      (∀ n i, (n, i) ∈ pl2 → ∀ m, StickyMap d !! ID i = Some m → m = "" ∨ m ∉ Peer_ID <$> peers).
Proof.
  intros Hr Hd Hne.
  destruct (Distribute_run implApplier implIdentifier ID zero receive d peers data r rt dv Hr Hd Hne)
    as (nums & pl & _ & -> & Hpl & Hin & _).
  eexists _, _. split; [done|]. eexists _, _. split; [done|]. split_and!.
  - intros n i Hi Hn Hp Hs. unfold sticky_part. apply list_elem_of_fmap. exists i.
    assert (sticky_node ID (StickyMap (cleanKeysNotIn d peers)) i = n) as E.
    { apply sticky_node_clean; [done..|]. unfold sticky_node. by rewrite Hs. }
    rewrite E. split; [done|]. apply list_elem_of_filter. by rewrite E.
  - intros n i (j & [= -> ->] & [Hj ?]%list_elem_of_filter)%list_elem_of_fmap. split; [done|].
    unfold sticky_node in *. destruct (_ !! ID j) as [m|] eqn:E; [|done].
    by apply cleanKeysNotIn_lookup in E as [-> _].
  - intros n i Hi m Hm. assert (i ∈ pl.*2) as H by (apply list_elem_of_fmap; by exists (n, i)).
    rewrite Hpl in H. apply list_elem_of_filter in H as [H _].
    destruct (decide (m ∈ Peer_ID <$> peers)); [left|by right].
    unfold sticky_node in H. by rewrite (proj2 (cleanKeysNotIn_lookup d peers (ID i) m)) in H.
Qed.

(** C10. Balance: when the peers have distinct names and no peer remembers more
    items than its round-robin share, every peer gets exactly its share, which is
    [len/k] or one more. *)
Theorem Distribute_balanced d peers data r rt dv :
  checkReceiverType implApplier r = Ret rt → checkDataType implIdentifier data = Ret dv →
  peers ≠ [] → NoDup (Peer_ID <$> peers) → "" ∉ Peer_ID <$> peers →
  (∀ j p, peers !! j = Some p →
     (Z.of_nat (length (filter (λ i, sticky_node ID (StickyMap d) i = Peer_ID p) dv))
        ≤ quota (length dv) (length peers) j)%Z) →
  ∃ d' pl, Distribute peers data r d = (d', Ret (uncurry (place rt) <$> pl)) ∧
    ∀ j p, peers !! j = Some p →
      load (Peer_ID p) pl = quota (length dv) (length peers) j ∧
      (Z.of_nat (length dv) `div` Z.of_nat (length peers) ≤ load (Peer_ID p) pl ≤
       Z.of_nat (length dv) `div` Z.of_nat (length peers) + 1)%Z.
Proof.
  intros Hr Hd Hne Hnd Hempty Hover.
  destruct (Distribute_run implApplier implIdentifier ID zero receive d peers data r rt dv Hr Hd Hne)
    as (nums & pl & Hm & -> & Hpl & Hin & Hload).
  destruct (makePeersMap_spec peers (length dv) Hne) as (nums' & Hm' & Hcap & _ & Hq).
  rewrite Hm in Hm'. injection Hm' as <-.
  pose proof (run_complete ID d peers dv pl Hpl) as Hperm.
  eexists _, _. split; [done|]. intros j p Hj.
  assert (load (Peer_ID p) (sticky_part ID (StickyMap (cleanKeysNotIn d peers)) dv ++ pl) =
          quota (length dv) (length peers) j) as ->.
  { rewrite <-(Hq Hnd j p Hj). apply (loads_fill peers).
    - apply Forall_app. split; [apply sticky_part_peers|done].
    - apply Permutation_length in Hperm. rewrite length_fmap in Hperm. by rewrite Hperm.
    - intros n Hn. specialize (Hload n). rewrite load_app.
      assert (n ≠ "") as Hn0 by congruence.
      apply list_elem_of_fmap in Hn as Hn'. destruct Hn' as (p' & -> & [j' Hj']%list_elem_of_lookup).
      specialize (Hover j' p' Hj'). rewrite <-(Hq Hnd j' p' Hj') in Hover.
      rewrite load_sticky in Hload |- * by done.
      erewrite (list_filter_iff _ (λ i, sticky_node ID (StickyMap d) i = Peer_ID p')) in Hload |- *;
        [|intros i; by apply sticky_node_clean..]. lia.
    - apply list_elem_of_fmap. eauto using list_elem_of_lookup_2. }
  split; [done|]. unfold quota. apply lookup_lt_Some in Hj.
  set (len := Z.of_nat (length dv)). set (k := Z.of_nat (length peers)).
  assert (0 < k)%Z by lia. assert (0 ≤ Z.of_nat j < k)%Z by lia.
  split.
  - apply Z.div_le_mono; lia.
  - rewrite <-(Z.div_add len 1 k) by lia. apply Z.div_le_mono; lia.
Qed.

(** No peer takes new items past its share: its load is at most the larger of
    what the dealing gave it and what was sticky on it already. *)
Theorem Distribute_load_bound d peers data r rt dv :
  checkReceiverType implApplier r = Ret rt → checkDataType implIdentifier data = Ret dv →
  peers ≠ [] →
  ∃ nums d' pl, makePeersMap peers (length dv) = Ret nums ∧
    Distribute peers data r d = (d', Ret (uncurry (place rt) <$> pl)) ∧
    ∀ n, n ∈ Peer_ID <$> peers → n ≠ "" →
      (load n pl ≤ Z.max (get0 nums n)
        (Z.of_nat (length (filter (λ i, sticky_node ID (StickyMap d) i = n) dv))))%Z.
Proof.
  intros Hr Hd Hne.
  destruct (Distribute_run implApplier implIdentifier ID zero receive d peers data r rt dv Hr Hd Hne)
    as (nums & pl & Hm & -> & _ & _ & Hload).
  eexists nums, _, _. split_and!; [done|done|]. intros n Hn Hne'. specialize (Hload n).
  rewrite load_app. rewrite load_sticky in Hload |- * by done.
  erewrite (list_filter_iff _ (λ i, sticky_node ID (StickyMap d) i = n)) in Hload |- *;
    [|intros i; by apply sticky_node_clean..]. lia.
Qed.

(** The sticky map after a run: it names peers only, and it holds the node of
    every item that was distributed (the items having distinct names and the peers
    non-empty ones). *)
Theorem Distribute_sticky_map d peers data r rt dv :
  checkReceiverType implApplier r = Ret rt → checkDataType implIdentifier data = Ret dv →
  peers ≠ [] → NoDup (ID <$> dv) →
  ∃ d' pl, Distribute peers data r d = (d', Ret (uncurry (place rt) <$> pl)) ∧
    (∀ id n, StickyMap d' !! id = Some n → n ∈ Peer_ID <$> peers) ∧
    (∀ n i, (n, i) ∈ pl → StickyMap d' !! ID i = Some n).
Proof.
  intros Hr Hd Hne Hnd.
  destruct (Distribute_run implApplier implIdentifier ID zero receive d peers data r rt dv Hr Hd Hne)
    as (nums & pl & _ & -> & Hpl & Hin & _).
  eexists _, _. split_and!; [done| |]; simpl.
  - intros id n. apply (record_values ID _ pl (λ n, n ∈ Peer_ID <$> peers)); [|done].
    intros k m Hk. by apply cleanKeysNotIn_lookup in Hk as [_ ?].
  - intros n i. apply (run_recorded ID _ dv pl); [done|]. by apply run_complete.
Qed.

(** C34. Distributing again changes nothing: a second run over the same peers and
    data keeps the distributor as it is and returns the same receivers, up to
    their order. *)
Theorem Distribute_stable d peers data r rt dv d1 res :
  checkReceiverType implApplier r = Ret rt → checkDataType implIdentifier data = Ret dv →
  peers ≠ [] → NoDup (ID <$> dv) → "" ∉ Peer_ID <$> peers →
  Distribute peers data r d = (d1, Ret res) →
  ∃ res', Distribute peers data r d1 = (d1, Ret res') ∧ res' ≡ₚ res.
Proof.
  intros Hr Hd Hne Hnd Hempty Hrun.
  destruct (Distribute_run implApplier implIdentifier ID zero receive d peers data r rt dv Hr Hd Hne)
    as (nums & pl & _ & E & Hpl & Hin & _).
  rewrite E in Hrun. apply pair_equal_spec in Hrun as [<- <-%Ret_inj]. clear E.
  set (sm := StickyMap (cleanKeysNotIn d peers)) in *.
  pose proof (run_complete ID d peers dv pl Hpl) as Hperm. fold sm in Hperm.
  set (d1 := mkDistributor (record_placement ID sm pl)).
  assert (∀ n i, (n, i) ∈ sticky_part ID sm dv ++ pl → StickyMap d1 !! ID i = Some n) as Hrec.
  { intros n i. by apply (run_recorded ID _ dv pl). }
  assert (cleanKeysNotIn d1 peers = d1) as Hclean.
  { apply cleanKeysNotIn_id. intros id n. apply (record_values ID _ pl (λ n, n ∈ Peer_ID <$> peers)); [|done].
    intros k m Hk. by apply cleanKeysNotIn_lookup in Hk as [_ ?]. }
  assert (∀ i, i ∈ dv → sticky_node ID (StickyMap d1) i ≠ "") as Hall.
  { intros i Hi. rewrite <-Hperm in Hi. apply list_elem_of_fmap in Hi as ([n j] & -> & Hi).
    cbn [snd]. unfold sticky_node. rewrite (Hrec n j Hi). simpl. intros ->. apply Hempty.
    apply elem_of_app in Hi as [Hi|Hi].
    - pose proof (sticky_part_peers ID d peers dv) as Hp. rewrite Forall_forall in Hp. by apply Hp in Hi.
    - rewrite Forall_forall in Hin. by apply Hin in Hi. }
  destruct (Distribute_run implApplier implIdentifier ID zero receive d1 peers data r rt dv Hr Hd Hne)
    as (nums' & pl' & _ & -> & Hpl' & _). rewrite Hclean in *.
  assert (fresh_part ID (StickyMap d1) dv = []) as Hfresh.
  { unfold fresh_part. apply filter_none. intros i Hi. by apply Hall. }
  rewrite Hfresh in Hpl'. apply fmap_nil_inv in Hpl' as ->.
  eexists. split; [done|]. rewrite app_nil_r. apply fmap_Permutation.
  unfold sticky_part at 1. rewrite filter_all by (by intros i Hi; apply Hall).
  apply placement_of_sticky; [done|]. intros n i Hi. unfold sticky_node. by rewrite (Hrec n i Hi).
Qed.

(** The failing runs: a receiver or data of the wrong type panics before
    anything changes; data without peers panics on the division, after the sticky
    map has been emptied; no data and no peers only empties the sticky map. *)
Theorem Distribute_failures d peers data r :
  (∀ msg, checkReceiverType implApplier r = Panic msg → Distribute peers data r d = (d, Panic msg)) ∧
  (∀ rt msg, checkReceiverType implApplier r = Ret rt → checkDataType implIdentifier data = Panic msg →
     Distribute peers data r d = (d, Panic msg)) ∧
  (∀ rt dv, checkReceiverType implApplier r = Ret rt → checkDataType implIdentifier data = Ret dv →
     Distribute [] data r d =
       (mkDistributor ∅,
        match dv with [] => Ret [] | _ => Panic "runtime error: integer divide by zero" end)).
Proof.
  unfold Distribute. split_and!.
  - by intros msg ->.
  - by intros rt msg -> ->.
  - intros rt dv -> ->. assert (cleanKeysNotIn d [] = mkDistributor ∅) as ->.
    { assert (∀ d', StickyMap d' = ∅ → d' = mkDistributor ∅) as H by (intros []; simpl; congruence).
      apply H, map_eq. intros id. rewrite lookup_empty. apply eq_None_not_Some. intros [n Hn].
      apply cleanKeysNotIn_lookup in Hn as [_ ?]. set_solver. }
    destruct dv; done.
Qed.
End properties.

(** ** The runs of [distribute_test.go] *)

Definition test_peer (id : string) : Peer := mkPeer "" id "" "".
Definition dataItem_t : gotype := TNamed "dataItem".
Definition dataItemWrap_t : gotype := TNamed "dataItemWrap".
Definition test_applier (t : gotype) : bool :=
  match t with TPtr (TNamed n) => bool_decide (n = "dataItemWrap") | _ => false end.
Definition test_identifier (t : gotype) : bool :=
  match t with TNamed n => bool_decide (n = "dataItem") | _ => false end.
Definition test_data (l : list string) : any_slice := mkSlice (Some (TSlice dataItem_t)) l.
Definition test_Distribute (peers : list string) (l : list string)
    : M Distributor (list (NodeID * string)) :=
  Distribute test_applier test_identifier id (λ _, ("", "")) (λ n i _, (n, i))
    (test_peer <$> peers) (test_data l) (Some dataItemWrap_t).

Example TestDistribute_fresh :
  (test_Distribute ["1"; "2"; "3"] ["1"; "2"; "3"] NewDistributor).2 =
    Ret [("1", "1"); ("2", "2"); ("3", "3")].
Proof. vm_compute. reflexivity. Qed.

(** The whole sequence of the test, with its last results and sticky maps. *)
Definition test_sequence : M Distributor (list (NodeID * string)) :=
  _ ← test_Distribute ["1"; "2"; "3"] ["1"; "2"; "3"];
  _ ← test_Distribute ["1"; "2"; "3"] ["1"; "2"; "3"; "4"];
  _ ← test_Distribute ["1"; "2"; "3"] ["1"; "2"; "3"; "4"; "5"; "6"];
  test_Distribute ["1"; "2"; "3"] ["1"; "7"; "3"; "4"; "5"; "6"].

Example TestDistribute_sequence :
  (test_sequence NewDistributor).2 =
    Ret [("1", "1"); ("3", "3"); ("1", "4"); ("2", "5"); ("3", "6"); ("2", "7")].
Proof. vm_compute. reflexivity. Qed.

Example TestDistribute_two_peers :
  (_ ← test_sequence; test_Distribute ["1"; "3"] ["1"; "7"; "3"; "4"; "5"; "6"]) NewDistributor =
  (mkDistributor (list_to_map [("1", "1"); ("3", "3"); ("4", "1"); ("6", "3"); ("7", "1"); ("5", "3")]),
   Ret [("1", "1"); ("3", "3"); ("1", "4"); ("3", "6"); ("1", "7"); ("3", "5")]).
Proof. vm_compute. reflexivity. Qed.

Example TestDistribute_one_peer :
  (_ ← test_sequence; _ ← test_Distribute ["1"; "3"] ["1"; "7"; "3"; "4"; "5"; "6"];
   test_Distribute ["1"] ["1"; "7"; "3"; "4"; "5"; "6"]) NewDistributor =
  (mkDistributor (list_to_map [("1", "1"); ("7", "1"); ("4", "1"); ("3", "1"); ("5", "1"); ("6", "1")]),
   Ret [("1", "1"); ("1", "7"); ("1", "4"); ("1", "3"); ("1", "5"); ("1", "6")]).
Proof. vm_compute. reflexivity. Qed.

Example TestDistribute_panics :
  (Distribute test_applier test_identifier id (λ _, ("", "")) (λ n i _, (n, i))
     [test_peer "1"] (mkSlice (Some (TNamed "Distributor")) []) (Some dataItemWrap_t) NewDistributor).2 =
  Panic "data should be slice".
Proof. vm_compute. reflexivity. Qed.

(** ** Witnesses: the theorems at the data of the test *)

Definition test_peers : list Peer := test_peer <$> ["1"; "2"; "3"].
Definition test_d : Distributor := mkDistributor {["2" := "3"; "9" := "gone"]}.
Definition test_items : list string := ["1"; "2"; "3"; "4"; "5"].
Abbreviation test_zero := (λ _ : gotype, ("", "")).
Abbreviation test_receive := (λ (n : NodeID) (i : string) (_ : NodeID * string), (n, i)).

Lemma Distribute_complete_witness :
  ∃ d' pl, test_Distribute ["1"; "2"; "3"] test_items test_d =
      (d', Ret (uncurry (place test_zero test_receive dataItemWrap_t) <$> pl)) ∧
    pl.*2 ≡ₚ test_items ∧ Forall (λ p, p.1 ∈ Peer_ID <$> test_peers) pl.
Proof. by apply Distribute_complete. Defined.

Lemma Distribute_keeps_sticky_witness :
  ∃ d' pl, test_Distribute ["1"; "2"; "3"] test_items test_d =
      (d', Ret (uncurry (place test_zero test_receive dataItemWrap_t) <$> pl)) ∧
    ∃ pl1 pl2, pl = pl1 ++ pl2 ∧
      (∀ n i, i ∈ test_items → n ≠ "" → n ∈ Peer_ID <$> test_peers →
         StickyMap test_d !! i = Some n → (n, i) ∈ pl1) ∧
      (∀ n i, (n, i) ∈ pl1 → i ∈ test_items ∧ StickyMap test_d !! i = Some n) ∧
      (∀ n i, (n, i) ∈ pl2 → ∀ m, StickyMap test_d !! i = Some m →
         m = "" ∨ m ∉ Peer_ID <$> test_peers).
Proof. by apply (Distribute_keeps_sticky test_applier test_identifier id) with (dv := test_items). Defined.

Lemma test_over_share j p : test_peers !! j = Some p →
  (Z.of_nat (length (filter (λ i, sticky_node id (StickyMap test_d) i = Peer_ID p) test_items))
     ≤ quota (length test_items) (length test_peers) j)%Z.
Proof. intros H. do 3 (destruct j as [|j]; [injection H as <-; vm_compute; congruence|]). done. Qed.

Lemma Distribute_balanced_witness :
  ∃ d' pl, test_Distribute ["1"; "2"; "3"] test_items test_d =
      (d', Ret (uncurry (place test_zero test_receive dataItemWrap_t) <$> pl)) ∧
    ∀ j p, test_peers !! j = Some p →
      load (Peer_ID p) pl = quota (length test_items) (length test_peers) j ∧
      (Z.of_nat (length test_items) `div` Z.of_nat (length test_peers) ≤ load (Peer_ID p) pl ≤
       Z.of_nat (length test_items) `div` Z.of_nat (length test_peers) + 1)%Z.
Proof.
  apply (Distribute_balanced test_applier test_identifier id) with (dv := test_items); try done.
  - apply (bool_decide_unpack _). vm_compute. done.
  - apply (bool_decide_unpack _). vm_compute. done.
  - apply test_over_share.
Defined.

Lemma Distribute_load_bound_witness :
  ∃ nums d' pl, makePeersMap test_peers (length test_items) = Ret nums ∧
    test_Distribute ["1"; "2"; "3"] test_items test_d =
      (d', Ret (uncurry (place test_zero test_receive dataItemWrap_t) <$> pl)) ∧
    ∀ n, n ∈ Peer_ID <$> test_peers → n ≠ "" →
      (load n pl ≤ Z.max (get0 nums n)
        (Z.of_nat (length (filter (λ i, sticky_node id (StickyMap test_d) i = n) test_items))))%Z.
Proof. by apply (Distribute_load_bound test_applier test_identifier id) with (dv := test_items). Defined.

Lemma Distribute_sticky_map_witness :
  ∃ d' pl, test_Distribute ["1"; "2"; "3"] test_items test_d =
      (d', Ret (uncurry (place test_zero test_receive dataItemWrap_t) <$> pl)) ∧
    (∀ id n, StickyMap d' !! id = Some n → n ∈ Peer_ID <$> test_peers) ∧
    (∀ n i, (n, i) ∈ pl → StickyMap d' !! i = Some n).
Proof.
  apply (Distribute_sticky_map test_applier test_identifier id) with (dv := test_items); try done.
  apply (bool_decide_unpack _). vm_compute. done.
Defined.

Lemma Distribute_stable_witness :
  ∃ d1 res res', test_Distribute ["1"; "2"; "3"] test_items test_d = (d1, Ret res) ∧
    test_Distribute ["1"; "2"; "3"] test_items d1 = (d1, Ret res') ∧ res' ≡ₚ res.
Proof.
  destruct (test_Distribute ["1"; "2"; "3"] test_items test_d) as [d1 [res|]] eqn:E;
    [|vm_compute in E; discriminate].
  destruct (Distribute_stable test_applier test_identifier id test_zero test_receive
    test_d test_peers (test_data test_items) (Some dataItemWrap_t) dataItemWrap_t test_items d1 res)
    as (res' & ? & ?); try done.
  - apply (bool_decide_unpack _). vm_compute. done.
  - apply (bool_decide_unpack _). vm_compute. done.
  - by exists d1, res, res'.
Defined.
