(* ===== verification/Dealing.v ===== *)
(** * Distribution as dealing: [Distribute] of [distribute.go] against a reference

    The loops of [Distribute] keep a map of counters and look for a peer with room for
    every new item.  The reference has no counters: remembered items stay, and the
    peers take the new ones in runs, each as many as its share leaves room for. *)

From stdpp Require Import prelude gmap strings.
From S2P Require Import Prelude.
From S2P Require Import Model.
From S2P Require Import Distribute.

(** ** The reference *)

Section reference.
Context {Item : Type} (ID : Item → string).

(** The node an item is remembered at, if it is a peer. *)
Definition remembered (d : Distributor) (peers : list Peer) (i : Item) : option NodeID :=
  match StickyMap d !! ID i with
  | Some n => if decide (n ≠ "" ∧ n ∈ Peer_ID <$> peers) then Some n else None
  | None => None
  end.
Definition stay (d : Distributor) (peers : list Peer) (dv : list Item) : list (NodeID * Item) :=
  omap (λ i, (λ n, (n, i)) <$> remembered d peers i) dv.
Definition newcomers (d : Distributor) (peers : list Peer) (dv : list Item) : list Item :=
  filter (λ i, remembered d peers i = None) dv.

(** Each peer in turn takes as many of the items as it has room for. *)
Fixpoint deal (room : NodeID → Z) (peers : list Peer) (items : list Item) : list (NodeID * Item) :=
  match peers with
  | [] => []
  | p :: peers =>
      let k := Z.to_nat (room (Peer_ID p)) in
      (pair (Peer_ID p) <$> take k items) ++ deal room peers (drop k items)
  end.

(** The share of a peer: its index decides who gets one of the items left over. *)
Definition share (peers : list Peer) (len : nat) (n : NodeID) : Z :=
  match list_find (λ p, Peer_ID p = n) peers with
  | Some (j, _) => quota len (length peers) j
  | None => 0
  end.
Definition dealt (d : Distributor) (peers : list Peer) (dv : list Item) : list (NodeID * Item) :=
  deal (λ n, share peers (length dv) n - load n (stay d peers dv))%Z peers (newcomers d peers dv).
Definition placement (d : Distributor) (peers : list Peer) (dv : list Item) : list (NodeID * Item) :=
  stay d peers dv ++ dealt d peers dv.
End reference.

(** ** The loops against the reference *)

Section deal.
Context {Item : Type}.

Lemma deal_ext (room room' : NodeID → Z) peers (items : list Item) :
  (∀ n, n ∈ Peer_ID <$> peers → Z.to_nat (room n) = Z.to_nat (room' n)) →
  deal room peers items = deal room' peers items.
Proof.
  revert items. induction peers as [|p peers IH]; intros items Hr; [done|]. cbn [deal].
  rewrite (Hr (Peer_ID p)) by (rewrite fmap_cons; constructor). f_equal. apply IH.
  intros n Hn. apply Hr. rewrite fmap_cons. by constructor.
Qed.

Lemma deal_nil (room : NodeID → Z) peers : deal room peers ([] : list Item) = [].
Proof. induction peers as [|p peers IH]; [done|]. cbn [deal]. by rewrite take_nil, drop_nil. Qed.

(** [placeNew] takes the head of the deal: the item goes to the first peer with room,
    which has one place less afterwards. *)
Lemma placeNew_deal {R} (ID : Item → string) (mk : NodeID → Item → R) peers i items d nums dist :
  NoDup (Peer_ID <$> peers) → Exists (λ p, 0 < get0 nums (Peer_ID p))%Z peers →
  ∃ n, n ∈ Peer_ID <$> peers ∧ (0 < get0 nums n)%Z ∧
    placeNew ID mk peers i d nums dist = (Put d (ID i) n, add0 n (-1) nums, dist ++ [mk n i]) ∧
    deal (get0 nums) peers (i :: items) = (n, i) :: deal (get0 (add0 n (-1) nums)) peers items.
Proof.
  intros Hnd Hex. induction peers as [|p peers IH]; [by apply Exists_nil in Hex|].
  rewrite fmap_cons in Hnd. apply NoDup_cons in Hnd as [Hp Hnd]. cbn [placeNew deal].
  destruct (Z.leb_spec (get0 nums (Peer_ID p)) 0) as [Hle|Hlt].
  - apply Exists_cons in Hex as [?|Hex]; [lia|].
    destruct (IH Hnd Hex) as (n & Hn & Hpos & Hrun & Hdeal).
    exists n. split_and!; [by apply list_elem_of_further|done|done|].
    rewrite get0_add0, decide_False by (intros ->; lia).
    replace (Z.to_nat (get0 nums (Peer_ID p) + 0)) with 0 by lia.
    replace (Z.to_nat (get0 nums (Peer_ID p))) with 0 by lia. by rewrite !drop_0, Hdeal.
  - exists (Peer_ID p). split_and!; [apply list_elem_of_here|done|done|].
    rewrite get0_add0, decide_True by done.
    replace (Z.to_nat (get0 nums (Peer_ID p)))
      with (S (Z.to_nat (get0 nums (Peer_ID p) + -1))) by lia.
    cbn [take drop]. rewrite fmap_cons, <-app_comm_cons. do 2 f_equal.
    apply deal_ext. intros n Hn. rewrite get0_add0, decide_False by (intros <-; done). lia.
Qed.

Lemma placeAllNew_deal {R} (ID : Item → string) (mk : NodeID → Item → R) peers items d nums dist :
  NoDup (Peer_ID <$> peers) → (Z.of_nat (length items) ≤ capacity peers nums)%Z →
  placeAllNew ID mk peers items d nums dist =
    (mkDistributor (record_placement ID (StickyMap d) (deal (get0 nums) peers items)),
     dist ++ (uncurry mk <$> deal (get0 nums) peers items)).
Proof.
  intros Hnd. revert d nums dist. induction items as [|i items IH]; intros d nums dist Hcap.
  { rewrite deal_nil. cbn. rewrite app_nil_r. by destruct d. }
  cbn [placeAllNew]. simpl in Hcap.
  destruct (placeNew_deal ID mk peers i items d nums dist Hnd) as (n & Hn & Hpos & -> & ->).
  { apply capacity_pos. lia. }
  rewrite IH by (rewrite capacity_add0 by done; lia).
  cbn [fmap list_fmap uncurry]. by rewrite <-app_assoc.
Qed.
End deal.

(** ** The reference in the terms of the code *)

Section run.
Context {Item R : Type} (implApplier implIdentifier : gotype → bool).
Context (ID : Item → string) (zero : gotype → R) (receive : NodeID → Item → R → R).
Abbreviation Distribute := (Distribute implApplier implIdentifier ID zero receive).
Abbreviation place := (place zero receive).

Lemma remembered_node d peers i :
  sticky_node ID (StickyMap (cleanKeysNotIn d peers)) i = default "" (remembered ID d peers i).
Proof.
  unfold sticky_node, remembered.
  destruct (StickyMap (cleanKeysNotIn d peers) !! ID i) as [n|] eqn:E.
  - apply cleanKeysNotIn_lookup in E as [-> Hn]. simpl.
    case_decide as Hd; [done|]. apply dec_stable. intros ?. by destruct Hd.
  - destruct (StickyMap d !! ID i) as [n|] eqn:E'; [|done]. simpl.
    rewrite decide_False; [done|]. intros [_ Hn].
    by rewrite (proj2 (cleanKeysNotIn_lookup d peers (ID i) n)) in E.
Qed.

Lemma remembered_nonempty d peers i n : remembered ID d peers i = Some n → n ≠ "".
Proof. unfold remembered. intros H. by repeat case_match; simplify_eq; destruct_and?. Qed.

Lemma stay_sticky d peers (dv : list Item) :
  sticky_part ID (StickyMap (cleanKeysNotIn d peers)) dv = stay ID d peers dv.
Proof.
  unfold sticky_part, stay. induction dv as [|i dv IH]; [done|]. rewrite filter_cons. cbn [omap list_omap].
  rewrite remembered_node. destruct (remembered ID d peers i) as [n|] eqn:E; cbn [default fmap option_fmap option_map].
  - apply remembered_nonempty in E as Hn. rewrite decide_True by done. rewrite fmap_cons, IH.
    by rewrite remembered_node, E.
  - by rewrite decide_False by auto.
Qed.

Lemma newcomers_fresh d peers (dv : list Item) :
  fresh_part ID (StickyMap (cleanKeysNotIn d peers)) dv = newcomers ID d peers dv.
Proof.
  unfold fresh_part, newcomers. apply list_filter_iff. intros i. rewrite remembered_node.
  destruct (remembered ID d peers i) as [n|] eqn:E; simpl; [|done].
  apply remembered_nonempty in E. naive_solver.
Qed.

Lemma share_lookup peers len j p : NoDup (Peer_ID <$> peers) → peers !! j = Some p →
  share peers len (Peer_ID p) = quota len (length peers) j.
Proof.
  intros Hnd Hj. unfold share. destruct (list_find _ peers) as [[j' p']|] eqn:E.
  - apply list_find_Some in E as (Hj' & Hp' & _). f_equal.
    apply (NoDup_lookup _ j' j (Peer_ID p) Hnd); rewrite list_lookup_fmap; [by rewrite Hj', <-Hp'|by rewrite Hj].
  - apply list_find_None in E. rewrite Forall_forall in E.
    destruct (E p); [by eapply list_elem_of_lookup_2|done].
Qed.

(** C11. [Distribute] is the deal.  Whatever it remembers, over peers with distinct names it
    returns the items it remembers at a peer, in their order and at that peer, and then
    the others dealt in runs: the first peer takes as many as its round-robin share
    leaves room for next to what stayed with it, then the second peer, and so on; the
    dealt items are recorded in the sticky map, next to the entries that name peers. *)
Theorem Distribute_deals d peers data r rt dv :
  checkReceiverType implApplier r = Ret rt → checkDataType implIdentifier data = Ret dv →
  peers ≠ [] → NoDup (Peer_ID <$> peers) →
  Distribute peers data r d =
    (mkDistributor (record_placement ID (StickyMap (cleanKeysNotIn d peers)) (dealt ID d peers dv)),
     Ret (uncurry (place rt) <$> placement ID d peers dv)).
Proof.
  intros Hr Hd Hne Hnd. destruct (makePeersMap_spec peers (length dv) Hne)
    as (nums & Hm & Hcap & Hpos & Hq).
  unfold Distribute.Distribute. rewrite Hr, Hd, Hm.
  set (sm := StickyMap (cleanKeysNotIn d peers)).
  destruct (keepSticky_spec ID (place rt) sm dv nums [] []) as (nums' & -> & Hn).
  pose proof (capacity_sub peers nums nums' _ (sticky_part_peers ID d peers dv) Hn) as Hcap'.
  pose proof (Permutation_length (sticky_fresh_perm ID sm dv)) as Hlen.
  rewrite length_app, length_fmap in Hlen. fold sm in Hcap'.
  rewrite placeAllNew_deal by (rewrite ?app_nil_l; lia || done). rewrite !app_nil_l.
  assert (deal (get0 nums') peers (fresh_part ID sm dv) = dealt ID d peers dv) as ->.
  { unfold sm, dealt. rewrite newcomers_fresh. apply deal_ext.
    intros n (p & -> & [j Hj]%list_elem_of_lookup)%list_elem_of_fmap.
    rewrite Hn, (share_lookup _ _ _ _ Hnd Hj), <-(Hq Hnd j p Hj). unfold sm. by rewrite stay_sticky. }
  unfold placement, sm. by rewrite stay_sticky, fmap_app.
Qed.
End run.

(** ** Witness *)

Lemma Distribute_deals_witness :
  test_Distribute ["1"; "2"; "3"] test_items test_d =
    (mkDistributor (record_placement id (StickyMap (cleanKeysNotIn test_d test_peers))
       (dealt id test_d test_peers test_items)),
     Ret (uncurry (place (λ _, ("", "")) (λ n i _, (n, i)) dataItemWrap_t) <$>
           placement id test_d test_peers test_items)) ∧
  placement id test_d test_peers test_items = [("3", "2"); ("1", "1"); ("1", "3"); ("2", "4"); ("2", "5")].
Proof.
  split; [|vm_compute; reflexivity].
  apply (Distribute_deals test_applier test_identifier id) with (dv := test_items); try done.
  apply (bool_decide_unpack _). vm_compute. done.
Defined.
