(* ===== verification/Dealer.v ===== *)
(** * Dealers: [job.go] and [logdealer.go]

    A dealer map takes functions of type [func(Req) (x, error)] by name and
    calls them on JSON bodies.  The service keeps one for jobs, the arguments
    keep one ([LogDealer]) for the commands of the raft log. *)

From stdpp Require Import prelude gmap strings.
From S2P Require Import Prelude.

(** What reflect knows of the types and values of the program that uses the dealers: when
    a value of one type can be assigned to another, and the slice of elements of a type
    with one value in it. *)
Class Reflect (V : Type) : Type := {
  AssignableTo : gotype → gotype → bool;
  slice_of : gotype → V → V
}.

(** The panic of [reflect.Value.Call] on an argument of a wrong type. *)
Definition call_mismatch : string := "reflect: Call using a value of another type".
Definition any_t : gotype := TNamed "interface {}".

Section dealer.
(** [W]: the state the dealer functions work on.  [V]: Go values. *)
Context {W V : Type} `{!Reflect V}.
(** [jsoniter.Unmarshal] of a body into a new value of a type, giving the value
    pointed to, and the pointer to a value. *)
Context (unmarshal_new : gotype → string → V + error) (ptr_to : V → V).

(** The function value with the type of its parameter; [Fn] is [reflect]'s call. *)
Record Dealer : Type := mkDealer {
  Fn : V → M W (V * option error);
  ReqType : gotype
}.

Record DealerMap : Type := mkDealerMap { Dealers : gmap string Dealer }.
Definition MakeDealerMap : DealerMap := mkDealerMap ∅.

(** [MakeLogDealer] wraps a dealer map. *)
Definition MakeLogDealer : DealerMap := MakeDealerMap.

(** The [interface{}] a caller passes as dealer.  A variadic function takes its last
    arguments, of type [rest], as a slice, which is the type of its last parameter. *)
Inductive dealer_value : Type :=
| DNil
| DOther (t : gotype)
| DFunc (ins outs : list gotype) (call : V → M W (V * option error))
| DVariadic (ins : list gotype) (rest : gotype) (outs : list gotype)
    (call : V → M W (V * option error)).

Definition error_t : gotype := TNamed "error".

(** [reflect.Value.Call] of a variadic function with one argument, which in [Invoke] is
    of the type of the whole slice: reflect takes it for an element of the slice. *)
Definition call_variadic (rest : gotype) (call : V → M W (V * option error)) (v : V)
    : M W (V * option error) :=
  if AssignableTo (TSlice rest) rest then call (slice_of rest v) else panic call_mismatch.

(** The checks of [checkDealerFn] on the types; on success the function is returned as
    it is, with the type of its parameter. *)
Definition checkDealerSig (ins outs : list gotype) (fn : V → M W (V * option error))
    : outcome (Dealer + error) :=
  match ins, outs with
  | [in0], [_; out1] =>
      if decide (out1 = error_t) then Ret (inl (mkDealer fn in0))
      else Ret (inr (ErrText "function must return like（x, error)"))
  | _, _ => Ret (inr (ErrText "function must have 1 parameter and return like (x,error)"))
  end.
Definition checkDealerFn (f : dealer_value) : outcome (Dealer + error) :=
  match f with
  | DNil => Panic "invalid memory address or nil pointer dereference"
  | DOther _ => Ret (inr (ErrText "function required"))
  | DFunc ins outs call => checkDealerSig ins outs call
  | DVariadic ins rest outs call => checkDealerSig (ins ++ [TSlice rest]) outs (call_variadic rest call)
  end.

Definition RegisterJobDealer (dealerName : string) (dealer : dealer_value)
    : M DealerMap (option error) := λ s,
  match Dealers s !! dealerName with
  | Some _ => (s, Ret (Some (ErrText ("dealer [] " +:+ dealerName +:+ " already registered"))))
  | None =>
      match checkDealerFn dealer with
      | Panic msg => (s, Panic msg)
      | Ret (inr err) => (s, Ret (Some err))
      | Ret (inl d) => (mkDealerMap (<[dealerName := d]> (Dealers s)), Ret None)
      end
  end.

Definition RegisterLogDealer (cmdName : string) (dealerFn : dealer_value)
    : M DealerMap (option error) := RegisterJobDealer cmdName dealerFn.

(** [Invoke]: the result value ([None] is nil) and the error. *)
Definition Invoke (s : DealerMap) (dealerName requestBody : string)
    : M W (option V * option error) :=
  match Dealers s !! dealerName with
  | None => mret (None, Some ErrDealerNoExists)
  | Some d =>
      let '(isReqTypePtr, reqType) :=
        match ReqType d with TPtr e => (true, e) | t => (false, t) end in
      match unmarshal_new reqType requestBody with
      | inr err => mret (None, Some err)
      | inl req =>
          let req := if (isReqTypePtr : bool) then ptr_to req else req in
          '(x, err) ← Fn d req; mret (Some x, err)
      end
  end.

(** ** Properties *)

(** C35. A registered function is the one invoked: registering a well-typed
    function under a free name succeeds, and invoking that name decodes the body
    at the parameter's type (through the pointer for a pointer parameter), calls
    the function and passes its result and error on; a body that does not decode
    is the error, without a call. *)
Theorem register_invoke s name t o call body w :
  Dealers s !! name = None →
  ∃ s', RegisterJobDealer name (DFunc [t] [o; error_t] call) s = (s', Ret None) ∧
    Invoke s' name body w =
      match unmarshal_new (match t with TPtr e => e | _ => t end) body with
      | inr err => (w, Ret (None, Some err))
      | inl req =>
          match call (match t with TPtr _ => ptr_to req | _ => req end) w with
          | (w', Ret (x, err)) => (w', Ret (Some x, err))
          | (w', Panic msg) => (w', Panic msg)
          end
      end ∧
    ∀ name', name' ≠ name → Dealers s' !! name' = Dealers s !! name'.
Proof.
  intros Hfree. unfold RegisterJobDealer, checkDealerFn, checkDealerSig. rewrite Hfree.
  rewrite decide_True by done. eexists. split; [done|].
  split; [|intros name' ?; simpl; by rewrite lookup_insert_ne].
  unfold Invoke; simpl. rewrite lookup_insert_eq; simpl.
  destruct t; simpl; (destruct (unmarshal_new _ body) as [v|err]; [|done]);
    unfold mbind, M_bind; by destruct (call _ w) as [w' [[x err]|msg]].
Qed.

(** Every refused registration leaves the map as it was: a taken name (whatever
    the value), a value that is no function, a wrong number of parameters or
    results, a second result that is not [error]; a nil dealer panics. *)
Theorem register_refused s name v :
  (∀ d, Dealers s !! name = Some d →
     RegisterJobDealer name v s =
       (s, Ret (Some (ErrText ("dealer [] " +:+ name +:+ " already registered"))))) ∧
  (Dealers s !! name = None →
     match v with
     | DNil => (RegisterJobDealer name v s).1 = s ∧
               ∃ msg, (RegisterJobDealer name v s).2 = Panic msg
     | DOther _ => ∃ e, RegisterJobDealer name v s = (s, Ret (Some e))
     | DFunc ins outs _ =>
         (length ins ≠ 1 ∨ length outs ≠ 2 ∨ outs !! 1 ≠ Some error_t) →
         ∃ e, RegisterJobDealer name v s = (s, Ret (Some e))
     | DVariadic ins _ outs _ =>
         (ins ≠ [] ∨ length outs ≠ 2 ∨ outs !! 1 ≠ Some error_t) →
         ∃ e, RegisterJobDealer name v s = (s, Ret (Some e))
     end).
Proof.
  unfold RegisterJobDealer. split; [by intros d ->|]. intros ->.
  destruct v as [|t|ins outs call|ins rest outs call]; simpl; [eauto..| |]; unfold checkDealerSig;
    intros Hbad.
  - destruct ins as [|i [|]]; eauto. destruct outs as [|o [|o' [|]]]; eauto.
    case_decide; [|eauto]. subst. simpl in Hbad. naive_solver.
  - destruct ins as [|i [|]]; cbn [app]; eauto. destruct outs as [|o [|o' [|]]]; eauto.
    case_decide; [|eauto]. subst. simpl in Hbad. naive_solver.
Qed.

(** *** Types

    [type_of] is the type a value has for reflect; a function is in order if, called
    with a value of its parameter's type, it does not end in that panic itself. *)
Section typing.
Context (type_of : V → gotype).

Definition accepts (t : gotype) (call : V → M W (V * option error)) : Prop :=
  ∀ v w, type_of v = t → (call v w).2 ≠ Panic call_mismatch.
Definition func_ok (v : dealer_value) : Prop :=
  match v with
  | DFunc [t] _ call => accepts t call
  | DVariadic [] rest _ call => accepts (TSlice rest) call
  | _ => True
  end.

(** The maps that registrations can make, refused ones included, with the function
    values that were taken. *)
Inductive registered : DealerMap → gmap string dealer_value → Prop :=
| registered_none : registered MakeDealerMap ∅
| registered_next s taken name v : registered s taken → func_ok v →
    registered (RegisterJobDealer name v s).1
      (match RegisterJobDealer name v s with (_, Ret None) => <[name := v]> taken | _ => taken end).

Lemma registered_taken s taken : registered s taken → ∀ name,
  match taken !! name with
  | Some v => func_ok v ∧ ∃ d, checkDealerFn v = Ret (inl d) ∧ Dealers s !! name = Some d
  | None => Dealers s !! name = None
  end.
Proof.
  induction 1 as [|s taken name v _ IH Hv]; intros n; [done|]. unfold RegisterJobDealer.
  destruct (Dealers s !! name); [apply IH|].
  destruct (checkDealerFn v) as [[d|e]|msg] eqn:Hd; [|apply IH..]. cbn [fst Dealers].
  destruct (decide (name = n)) as [->|]; [|rewrite !lookup_insert_ne by done; apply IH].
  rewrite !lookup_insert_eq. by split; [|exists d].
Qed.

(** The functions that pass the check: a plain one with its parameter, and a variadic one
    whose parameter is the slice. *)
Lemma checkDealerFn_taken v d : checkDealerFn v = Ret (inl d) →
  (∃ t outs call, v = DFunc [t] outs call ∧ d = mkDealer call t) ∨
  (∃ rest outs call, v = DVariadic [] rest outs call ∧
     d = mkDealer (call_variadic rest call) (TSlice rest)).
Proof.
  destruct v as [|t|ins outs call|ins rest outs call]; simpl; [done..| |];
    unfold checkDealerSig.
  - destruct ins as [|t []]; [done| |done]. destruct outs as [|o [|o' []]]; try done.
    case_decide; [|done]. intros [= <-]. left. by eexists _, _, _.
  - destruct ins as [|t [|]]; cbn [app]; try done. destruct outs as [|o [|o' []]]; try done.
    case_decide; [|done]. intros [= <-]. right. by eexists _, _, _.
Qed.

(** C21. When dealers are called with the type they take.  Whatever was registered, in
    whatever order and however often refused, and whatever body a job or a log command
    comes with: [Invoke] makes reflect panic on the type of the argument exactly when the
    name was taken by a variadic function, the body decodes, and a slice of the
    elements it takes cannot itself be such an element.  The value that any other
    function gets - decoded, or the pointer to it - has the type of its parameter. *)
Theorem Invoke_type_safe s taken name body w :
  (∀ t b v, unmarshal_new t b = inl v → type_of v = t) →
  (∀ v, type_of (ptr_to v) = TPtr (type_of v)) →
  (∀ t v, type_of (slice_of t v) = TSlice t) →
  registered s taken →
  (Invoke s name body w).2 = Panic call_mismatch ↔
  ∃ rest outs call v, taken !! name = Some (DVariadic [] rest outs call) ∧
    unmarshal_new (TSlice rest) body = inl v ∧ AssignableTo (TSlice rest) rest = false.
Proof.
  intros Hun Hptr Hslice Hs. pose proof (registered_taken _ _ Hs name) as Hname. unfold Invoke.
  destruct (taken !! name) as [f|]; [|rewrite Hname; split; [done|by intros (? & ? & ? & ? & [=] & _)]].
  destruct Hname as (Hf & d & Hcheck & ->).
  destruct (checkDealerFn_taken _ _ Hcheck) as [(t & outs & call & -> & ->)|(t & outs & call & -> & ->)];
    cbn [ReqType Fn]; cbn [func_ok] in Hf.
  - split; [|by intros (? & ? & ? & ? & [=] & _)]. intros Hp. exfalso. revert Hp.
    destruct t as [t|t|t]; (destruct (unmarshal_new _ body) as [v|e] eqn:Hb; [|done]);
      apply Hun in Hb; unfold mbind, M_bind; cbn beta iota;
      match goal with |- context [call ?x w] =>
        pose proof (Hf x w ltac:(rewrite ?Hptr, ?Hb; congruence)) as Hok;
        destruct (call x w) as [w' [[r err]|msg]] end; simpl in *; congruence.
  - destruct (unmarshal_new (TSlice t) body) as [v|e] eqn:Hb; cbn [mret M_ret];
      [|split; [done|by intros (? & ? & ? & ? & [= -> -> ->] & ? & _); congruence]].
    unfold call_variadic. destruct (AssignableTo (TSlice t) t) eqn:Ha.
    + split; [|by intros (? & ? & ? & ? & [= -> -> ->] & _ & ?); congruence].
      intros Hp. exfalso. revert Hp. unfold mbind, M_bind.
      pose proof (Hf (slice_of t v) w (Hslice t v)) as Hok.
      destruct (call (slice_of t v) w) as [w' [[r err]|msg]]; simpl in *; congruence.
    + split; [|done]. intros _. by exists t, outs, call, v.
Qed.
End typing.

(** Invoking an unknown name is the sentinel error and touches nothing. *)
Lemma invoke_unknown s name body w :
  Dealers s !! name = None → Invoke s name body w = (w, Ret (None, Some ErrDealerNoExists)).
Proof. intros H. unfold Invoke. by rewrite H. Qed.
End dealer.
Arguments Dealer : clear implicits.
Arguments DealerMap : clear implicits.
Arguments dealer_value : clear implicits.

(** ** The runs of [job_test.go] *)

#[local] Instance text_reflect : Reflect string := {|
  AssignableTo _ u := bool_decide (u = any_t); slice_of _ v := v
|}.

Definition test_unmarshal (t : gotype) (body : string) : string + error :=
  if decide (body = "") then inr (ErrExt "EOF") else inl body.

Lemma register_invoke_witness :
  ∃ s', RegisterJobDealer "/testjob2"
          (DFunc [TPtr (TNamed "InputStruct")] [TPtr (TNamed "OutputStruct"); error_t]
             (λ v (w : nat), (S w, Ret (v, None)))) (@MakeDealerMap nat string) = (s', Ret None) ∧
    Invoke test_unmarshal (String.append "&") s' "/testjob2" "bingoo" 0 =
      (1, Ret (Some "&bingoo", None)) ∧
    ∀ name', name' ≠ "/testjob2" → Dealers s' !! name' = None.
Proof.
  exact (register_invoke test_unmarshal (String.append "&") MakeDealerMap "/testjob2"
    (TPtr (TNamed "InputStruct")) (TPtr (TNamed "OutputStruct"))
    (λ v w, (S w, Ret (v, None))) "bingoo" 0 eq_refl).
Defined.

Example TestDealer_error :
  (Invoke (W := unit) test_unmarshal id
     (mkDealerMap {["/testjob3" := mkDealer (λ v, mret (v, Some (ErrText "error occurred")))
                                            (TNamed "InputStruct")]})
     "/testjob3" "bingoo" ()).2 = Ret (Some "bingoo", Some (ErrText "error occurred")).
Proof. vm_compute. reflexivity. Qed.

(** Values with their type, two registrations of which the second is refused. *)
#[local] Instance typed_reflect : Reflect (gotype * string) := {|
  AssignableTo t u := bool_decide (t = u) || bool_decide (u = any_t); slice_of t v := (TSlice t, v.2)
|}.
Definition typed_unmarshal (t : gotype) (body : string) : gotype * string + error := inl (t, body).
Definition typed_ptr (v : gotype * string) : gotype * string := (TPtr v.1, v.2).
Definition typed_fn (t : gotype) (v : gotype * string) : M nat (gotype * string * option error) :=
  if decide (v.1 = t) then λ w, (S w, Ret (v, None)) else panic call_mismatch.
Definition typed_dealers : DealerMap nat (gotype * string) :=
  let t := TPtr (TNamed "InputStruct") in
  let reg := RegisterJobDealer "/testjob2" (DFunc [t] [TNamed "OutputStruct"; error_t] (typed_fn t)) in
  (reg (reg MakeDealerMap).1).1.

(** A variadic function next to it. *)
Definition variadic_fn (w : nat) : nat * outcome (gotype * string * option error) :=
  (S w, Ret ((TNamed "OutputStruct", ""), None)).
Definition variadic_dealers (t : gotype) : DealerMap nat (gotype * string) :=
  (RegisterJobDealer "/all" (DVariadic [] t [TNamed "OutputStruct"; error_t] (λ _, variadic_fn))
     typed_dealers).1.

Lemma Invoke_type_safe_witness :
  (Invoke typed_unmarshal typed_ptr (variadic_dealers (TNamed "InputStruct")) "/all" "bingoo" 0).2 =
    Panic call_mismatch ∧
  (Invoke typed_unmarshal typed_ptr (variadic_dealers (TNamed "InputStruct")) "/testjob2" "bingoo" 0).2 ≠
    Panic call_mismatch.
Proof.
  assert (∀ t, accepts (W := nat) fst t (typed_fn t)) as Hok.
  { intros t v w Hv. unfold typed_fn. by rewrite decide_True. }
  pose (t := TPtr (TNamed "InputStruct")).
  pose (f := DFunc [t] [TNamed "OutputStruct"; error_t] (typed_fn t)).
  pose (g := DVariadic [] (TNamed "InputStruct") [TNamed "OutputStruct"; error_t] (λ _, variadic_fn)).
  assert (registered fst (variadic_dealers (TNamed "InputStruct")) {["/testjob2" := f; "/all" := g]})
    as Hs.
  { replace {["/testjob2" := f; "/all" := g]}
      with (<["/all" := g]> (<["/testjob2" := f]> ∅ : gmap string (dealer_value nat (gotype * string))))
      by (apply insert_insert_ne; done).
    refine (registered_next fst typed_dealers _ "/all" g _ _); [|by intros v w _].
    refine (registered_next fst (RegisterJobDealer "/testjob2" f MakeDealerMap).1 _ "/testjob2" f _ (Hok t)).
    refine (registered_next fst MakeDealerMap ∅ "/testjob2" f (registered_none fst) (Hok t)). }
  split.
  - apply (Invoke_type_safe typed_unmarshal typed_ptr fst _ _ "/all" "bingoo" 0
      ltac:(by intros ? b v [= <-]) ltac:(done) ltac:(done) Hs).
    by eexists _, _, _, _.
  - intros E. apply (Invoke_type_safe typed_unmarshal typed_ptr fst _ _ "/testjob2" "bingoo" 0
      ltac:(by intros ? b v [= <-]) ltac:(done) ltac:(done) Hs) in E.
    by destruct E as (? & ? & ? & ? & [=] & _).
Defined.

(** Without a slice among its elements a variadic function is called; the empty interface
    takes them all. *)
Example variadic_any :
  Invoke typed_unmarshal typed_ptr (variadic_dealers any_t) "/all" "bingoo" 0 =
    (1, Ret (Some (TNamed "OutputStruct", ""), None)).
Proof. vm_compute. reflexivity. Qed.
