(* ===== verification/Arg.v ===== *)
(** * Arguments: [arg.go]

    The command-line arguments and what [Fix] derives from them: the two
    addresses, the node name, the data directory and the bootstrap decision.
    [Join] walks the join addresses.  The calls of other nodes that [Join] and
    [Cluster] make are in [Client], the interception of log entries is in [Fsm]. *)

From Stdlib Require Import Ascii.
From stdpp Require Import prelude gmap strings.
From S2P Require Import Prelude.
From S2P Require Import GoStd.
From S2P Require Import Util.
From S2P Require Import Model.

(** ** The arguments *)

Record Arg : Type := mkArg {
  Bootstrap : bool;
  InMem : bool;
  Arg_RaftAddr : string;
  RaftAdv : string;
  RaftNodeDir : string;
  Arg_NodeID : NodeID;
  Arg_HTTPAddr : string;
  HTTPAdv : string;
  JoinAddrs : string;
  IfaceName : string;
  JoinAddrSlice : list string;
  HostIP : string
}.

(** [MakeArg]: all fields at their zero value (the log dealer map is separate). *)
Definition MakeArg : Arg := mkArg false false "" "" "" "" "" "" "" "" [] "".

Definition set_addrs (http raft : string) (a : Arg) : Arg :=
  mkArg (Bootstrap a) (InMem a) raft (RaftAdv a) (RaftNodeDir a) (Arg_NodeID a) http
    (HTTPAdv a) (JoinAddrs a) (IfaceName a) (JoinAddrSlice a) (HostIP a).
Definition set_HostIP (ip : string) (a : Arg) : Arg :=
  mkArg (Bootstrap a) (InMem a) (Arg_RaftAddr a) (RaftAdv a) (RaftNodeDir a) (Arg_NodeID a)
    (Arg_HTTPAddr a) (HTTPAdv a) (JoinAddrs a) (IfaceName a) (JoinAddrSlice a) ip.
Definition set_NodeID (id : NodeID) (a : Arg) : Arg :=
  mkArg (Bootstrap a) (InMem a) (Arg_RaftAddr a) (RaftAdv a) (RaftNodeDir a) id
    (Arg_HTTPAddr a) (HTTPAdv a) (JoinAddrs a) (IfaceName a) (JoinAddrSlice a) (HostIP a).
Definition set_RaftNodeDir (dir : string) (a : Arg) : Arg :=
  mkArg (Bootstrap a) (InMem a) (Arg_RaftAddr a) (RaftAdv a) dir (Arg_NodeID a)
    (Arg_HTTPAddr a) (HTTPAdv a) (JoinAddrs a) (IfaceName a) (JoinAddrSlice a) (HostIP a).
Definition set_JoinAddrSlice (l : list string) (a : Arg) : Arg :=
  mkArg (Bootstrap a) (InMem a) (Arg_RaftAddr a) (RaftAdv a) (RaftNodeDir a) (Arg_NodeID a)
    (Arg_HTTPAddr a) (HTTPAdv a) (JoinAddrs a) (IfaceName a) l (HostIP a).
Definition set_Bootstrap (b : bool) (a : Arg) : Arg :=
  mkArg b (InMem a) (Arg_RaftAddr a) (RaftAdv a) (RaftNodeDir a) (Arg_NodeID a)
    (Arg_HTTPAddr a) (HTTPAdv a) (JoinAddrs a) (IfaceName a) (JoinAddrSlice a) (HostIP a).

(** ** The resolver: [net.ParseIP], [net.LookupIP] (as texts), the main IP of
    an interface ([goip.MainIP]) and the home directory of the user. *)
Class Host : Type := {
  net_ParseIP : string → bool;
  net_LookupIP : string → list string + error;
  goip_MainIP : string → string;
  user_HomeDir : option string
}.

Section arg.
Context `{Host}.

Definition ParseIps (host : string) : list string :=
  if net_ParseIP host then [host]
  else match net_LookupIP host with
       | inr _ => [host]
       | inl ips => ips
       end.

Fixpoint isLocalHost_loop (hostIP : string) (ips : list string) : bool :=
  match ips with
  | [] => false
  | oneip :: ips =>
      if decide (oneip ∈ [""; "127.0.0.1"; "localhost"; hostIP]) then true
      else isLocalHost_loop hostIP ips
  end.
Definition isLocalHost (a : Arg) (host : string) : bool :=
  isLocalHost_loop (HostIP a) (ParseIps host).

(** [panic(err)] on a failing split. *)
Definition split_or_panic {W} (addr : string) : M W (string * string) :=
  let '(host, port, err) := SplitHostPort addr in
  match err with Some e => panic (Error e) | None => mret (host, port) end.

Definition fixAddrHost (a : Arg) (addr : string) : M Arg string :=
  '(host, port) ← split_or_panic addr;
  let host := If (isLocalHost a host) (HostIP a) host in
  mret (host +:+ ":" +:+ port).

(** [fixAddr]: the four cases on which of the two addresses is given. *)
Definition fixAddr : M Arg unit :=
  a ← gets id;
  if decide (Arg_RaftAddr a = "") then
    if decide (Arg_HTTPAddr a = "") then
      modify (set_addrs (HostIP a +:+ ":11000") (HostIP a +:+ ":12000"))
    else
      '(host, port) ← split_or_panic (Arg_HTTPAddr a);
      let por := (Atoi port).1 in
      if (35565 - 1000 <? por)%Z then
        panic ("port " +:+ fmt_d por +:+ " is too large (<= 34565)")
      else
        let host := If (isLocalHost a host) (HostIP a) host in
        modify (set_addrs (host +:+ ":" +:+ fmt_d por) (host +:+ ":" +:+ fmt_d (por + 1000)))
  else
    if decide (Arg_HTTPAddr a = "") then
      '(host, port) ← split_or_panic (Arg_RaftAddr a);
      let por := (Atoi port).1 in
      if (por <? 1024 + 1000)%Z then
        panic ("port " +:+ fmt_d por +:+ " is too large (>= 2024)")
      else
        let host := If (isLocalHost a host) (HostIP a) host in
        modify (set_addrs (host +:+ ":" +:+ fmt_d (por - 1000)) (host +:+ ":" +:+ fmt_d por))
    else
      raft ← fixAddrHost a (Arg_RaftAddr a);
      _ ← modify (set_addrs (Arg_HTTPAddr a) raft);
      http ← fixAddrHost a (Arg_HTTPAddr a);
      modify (set_addrs http raft).

Definition parseFlagRaftNodeID : M Arg unit := λ a,
  let a := set_NodeID (Arg_HTTPAddr a +:+ "," +:+ Arg_RaftAddr a) a in
  match NodeID_Fix (Arg_NodeID a) (HostIP a) with
  | Ret id => (set_NodeID id a, Ret tt)
  | Panic msg => (a, Panic msg)
  end.

Definition parseFlagRaftDir : M Arg unit :=
  a ← gets id;
  if decide (RaftNodeDir a ≠ "") then mret tt
  else
    let basePath := default "./" user_HomeDir in
    modify (set_RaftNodeDir (filepath_Join [basePath; ".hraftd"; Arg_NodeID a])).

(** One join address: a missing host is the host IP. *)
Fixpoint parse_join_addrs (addrs : list string) : M Arg unit :=
  match addrs with
  | [] => mret tt
  | addr :: addrs =>
      if decide (addr = "") then parse_join_addrs addrs
      else
        a ← gets id;
        let '(h, p, err) := SplitHostPort addr in
        match err with
        | Some e => panic ("fail to parse JoinAddrs " +:+ JoinAddrs a +:+ " error " +:+ Error e)
        | None =>
            _ ← modify (set_JoinAddrSlice (JoinAddrSlice a ++ [EmptyThen h (HostIP a) +:+ ":" +:+ p]));
            parse_join_addrs addrs
        end
  end.

Definition parseBootstrap : M Arg unit :=
  _ ← modify (set_JoinAddrSlice []);
  a ← gets id;
  _ ← parse_join_addrs (Split comma (JoinAddrs a));
  a ← gets id;
  match JoinAddrSlice a with
  | [] => modify (set_Bootstrap true)
  | first :: _ =>
      if decide (first = Arg_HTTPAddr a) then modify (set_Bootstrap true)
      else if decide (port_of first ≠ port_of (Arg_HTTPAddr a)) then mret tt
      else modify (set_Bootstrap (isLocalHost a (host_of first)))
  end.

Definition Arg_Fix : M Arg unit :=
  _ ← modify (λ a, set_HostIP (goip_MainIP (IfaceName a)) a);
  _ ← fixAddr;
  _ ← parseFlagRaftNodeID;
  _ ← parseFlagRaftDir;
  parseBootstrap.

(** The HTTP server of a local address binds to all interfaces. *)
Definition ConvertToZeroHost (a : Arg) (addr : string) : string :=
  let '(host, port, _) := SplitHostPort addr in
  if isLocalHost a host then ":" +:+ port else addr.
End arg.

(** ** Lemmas *)

Lemma split_or_panic_Ret {W} addr (w w' : W) hp :
  split_or_panic addr w = (w', Ret hp) → w' = w ∧ SplitHostPort addr = (hp.1, hp.2, None).
Proof.
  unfold split_or_panic. destruct (SplitHostPort addr) as [[h p] [e|]]; [done|].
  intros [= <- <-]. done.
Qed.

Lemma split_or_panic_ok {W} addr h p (w : W) : SplitHostPort addr = (h, p, None) →
  split_or_panic addr w = (w, Ret (h, p)).
Proof. intros H. unfold split_or_panic. by rewrite H. Qed.

Lemma split_or_panic_join {W} h p (w : W) : plain h = true → plain p = true →
  split_or_panic (joinHP h p) w = (w, Ret (h, p)).
Proof. intros. by apply split_or_panic_ok, SplitHostPort_join. Qed.

Lemma contains_join_with c sep l : contains c sep = false →
  Forall (λ s, contains c s = false) l → contains c (join_with sep l) = false.
Proof.
  intros Hs. induction 1 as [|x l Hx Hl IH]; [done|]. destruct l as [|y l]; [done|].
  cbn [join_with]. by rewrite !contains_app, Hx, Hs.
Qed.

Lemma Split_join l : l ≠ [] → Forall (λ s, contains comma s = false) l →
  Split comma (join_with "," l) = l.
Proof.
  intros Hne. induction 1 as [|x l Hx Hl IH]; [done|]. destruct l as [|y l].
  - by apply Split_none.
  - change (Split comma (x +:+ String comma (join_with "," (y :: l))) = x :: y :: l).
    rewrite Split_app by done. by rewrite IH.
Qed.

Section arg_lemmas.
Context `{Host}.

Lemma isLocalHost_addrs http raft a h : isLocalHost (set_addrs http raft a) h = isLocalHost a h.
Proof. done. Qed.

(** The node name after [parseFlagRaftNodeID], for addresses without a comma. *)
Lemma parseFlagRaftNodeID_spec a :
  contains comma (Arg_HTTPAddr a) = false → contains comma (Arg_RaftAddr a) = false →
  parseFlagRaftNodeID a =
    (set_NodeID (mkNodeID (HostIP a) (port_of (Arg_HTTPAddr a)) (port_of (Arg_RaftAddr a))) a, Ret tt).
Proof.
  intros Hh Hr. unfold parseFlagRaftNodeID, NodeID_Fix; simpl.
  by rewrite RaftAddr_pair, HTTPAddr_pair.
Qed.

(** A host with a colon in front of a port is not an address any more. *)
Lemma port_of_colon_host h p : contains colon h = true → contains lbracket h = false →
  contains colon p = false → port_of (joinHP h p) = "".
Proof.
  intros Hc Hl Hp. unfold port_of, SplitHostPort, joinHP. rewrite cut_last_app by done.
  destruct h as [|c h]; [done|]. rewrite str_app_cons. rewrite decide_False, Hc; [done|].
  intros ->. by simpl in Hl.
Qed.
End arg_lemmas.

(** ** Properties *)

Section arg_properties.
Context `{Host}.

(** The port rule: when at most one of the two addresses is given and
    [fixAddr] returns, both addresses share one host and the raft port is the HTTP
    port plus 1000; an HTTP port that was given is at most 34565, a derived one at
    least 1024; the host is the host IP or a host that is not this machine. *)
Theorem fixAddr_ports a a' :
  Arg_RaftAddr a = "" ∨ Arg_HTTPAddr a = "" → fixAddr a = (a', Ret tt) →
  ∃ host p, Arg_HTTPAddr a' = joinHP host (fmt_d p) ∧ Arg_RaftAddr a' = joinHP host (fmt_d (p + 1000)) ∧
    (Arg_RaftAddr a = "" → p ≤ 34565)%Z ∧ (Arg_HTTPAddr a = "" → 1024 ≤ p)%Z ∧
    (host = HostIP a ∨ isLocalHost a host = false).
Proof.
  unfold fixAddr. intros Hone.
  intros (w1 & a1 & [= <- <-] & Hrun)%bind_Ret_inv. unfold id in Hrun.
  case_decide as Hr; case_decide as Hh; [| | |naive_solver].
  - injection Hrun as <-. exists (HostIP a), 11000%Z. simpl. split_and!; auto; lia.
  - apply bind_Ret_inv in Hrun as (w2 & [host port] & [-> _]%split_or_panic_Ret & Hrun).
    case_match eqn:Hp; [done|]. injection Hrun as <-.
    eexists _, (Atoi port).1. simpl. split_and!; [done|done|lia|done|].
    unfold If. case_match eqn:El; auto.
  - apply bind_Ret_inv in Hrun as (w2 & [host port] & [-> _]%split_or_panic_Ret & Hrun).
    case_match eqn:Hp; [done|]. injection Hrun as <-.
    eexists _, ((Atoi port).1 - 1000)%Z. simpl.
    replace ((Atoi port).1 - 1000 + 1000)%Z with (Atoi port).1 by lia.
    split_and!; [done|done|done|lia|]. unfold If. case_match eqn:El; auto.
Qed.

(** The refused ports: an HTTP port above 34565 panics and so does a raft port
    below 2024, before any field changes; a port that is no number counts as 0. *)
Theorem fixAddr_refused a host port :
  plain host = true → plain port = true →
  (Arg_RaftAddr a = "" → Arg_HTTPAddr a = joinHP host port → (34565 < (Atoi port).1)%Z →
     ∃ msg, fixAddr a = (a, Panic msg)) ∧
  (Arg_HTTPAddr a = "" → Arg_RaftAddr a = joinHP host port → ((Atoi port).1 < 2024)%Z →
     ∃ msg, fixAddr a = (a, Panic msg)).
Proof.
  intros Hh Hp. unfold fixAddr, gets, mbind, M_bind, id.
  assert (joinHP host port ≠ "") as Hne.
  { unfold joinHP. intros E. by apply str_app_eq_nil in E as [_ ?]. }
  split; intros H1 H2 H3.
  - rewrite decide_True, decide_False by congruence. rewrite H2, split_or_panic_join by done.
    assert ((35565 - 1000 <? (Atoi port).1)%Z = true) as -> by lia. eauto.
  - rewrite decide_False, decide_True by congruence. rewrite H2, split_or_panic_join by done.
    assert (((Atoi port).1 <? 1024 + 1000)%Z = true) as -> by lia. eauto.
Qed.

(** An IPv6 literal breaks the node name: a bracketed host that is not local
    is written back without its brackets, so neither address splits again and both
    ports of the node name come out empty, whatever the host and the port are. *)
Theorem fixAddr_ipv6 a host p :
  Arg_RaftAddr a = "" → Arg_HTTPAddr a = joinHP ("[" +:+ host +:+ "]") (fmt_d p) →
  contains colon host = true → contains lbracket host = false → contains rbracket host = false →
  contains comma host = false → (0 ≤ p ≤ 34565)%Z → isLocalHost a host = false →
  ∃ a', (_ ← fixAddr; parseFlagRaftNodeID) a = (a', Ret tt) ∧
    Arg_HTTPAddr a' = joinHP host (fmt_d p) ∧ Arg_NodeID a' = mkNodeID (HostIP a) "" "".
Proof.
  intros Hr Hh Hc Hl Hrb Hcm Hp Hloc.
  assert (∀ q, (0 ≤ q)%Z → clean (fmt_d q) = true) as Hcl.
  { intros q Hq. unfold fmt_d. case_match; [lia|]. apply dec_clean. }
  pose proof (proj1 (plain_spec _) (clean_plain _ (Hcl p ltac:(lia)))) as (Pc & Pl & Pr).
  assert (SplitHostPort (Arg_HTTPAddr a) = (host, fmt_d p, None)) as Hs.
  { rewrite Hh. unfold SplitHostPort, joinHP. rewrite cut_last_app by done.
    change ("[" +:+ host +:+ "]") with (String lbracket (host +:+ String rbracket "")).
    rewrite str_app_cons, decide_True, str_app_assoc by done. rewrite str_app_cons, str_app_nil_l.
    rewrite cut_first_app by done. rewrite decide_True.
    2:{ simpl. rewrite str_length_app. simpl. lia. }
    rewrite !contains_app, !contains_cons, Hl, Pl, Pr. done. }
  assert (Arg_HTTPAddr a ≠ "") as Hne by (intros E; by rewrite E in Hs).
  unfold fixAddr, gets, modify, mbind, M_bind, id. rewrite decide_True, decide_False by done.
  rewrite (split_or_panic_ok _ _ _ _ Hs), Atoi_fmt_d by (unfold minInt64, maxInt64; lia). cbn [fst].
  assert ((35565 - 1000 <? p)%Z = false) as -> by lia. rewrite Hloc. cbn [If].
  assert (∀ q, (0 ≤ q)%Z → contains comma (joinHP host (fmt_d q)) = false) as Hcom.
  { intros q Hq. unfold joinHP. rewrite contains_app, contains_cons, Hcm.
    by rewrite (clean_comma _ (Hcl q Hq)). }
  rewrite parseFlagRaftNodeID_spec by (apply Hcom; lia). eexists. split; [done|].
  simpl. split; [done|]. rewrite !joinHP_eq.
  assert (∀ q, (0 ≤ q)%Z → port_of (joinHP host (fmt_d q)) = "") as Hpo.
  { intros q Hq. apply port_of_colon_host; [done..|].
    by destruct (proj1 (plain_spec _) (clean_plain _ (Hcl q Hq))) as (? & _). }
  by rewrite !Hpo by lia.
Qed.
End arg_properties.

(** ** Flags

    A flag is registered for a field unless its name is empty; the option
    functions rename flags. *)

Record FlagNames : Type := mkFlagNames {
  Rmem : string; Haddr : string; Hadv : string; Raddr : string;
  Radv : string; Rdir : string; Rjoin : string; Iface : string
}.
Definition FlagOptionFn : Type := FlagNames → FlagNames.

Definition FlagRmem (name : string) : FlagOptionFn := λ f,
  mkFlagNames name (Haddr f) (Hadv f) (Raddr f) (Radv f) (Rdir f) (Rjoin f) (Iface f).
Definition FlagHaddr (name : string) : FlagOptionFn := λ f,
  mkFlagNames (Rmem f) name (Hadv f) (Raddr f) (Radv f) (Rdir f) (Rjoin f) (Iface f).
Definition FlagHadv (name : string) : FlagOptionFn := λ f,
  mkFlagNames (Rmem f) (Haddr f) name (Raddr f) (Radv f) (Rdir f) (Rjoin f) (Iface f).
Definition FlagRaddr (name : string) : FlagOptionFn := λ f,
  mkFlagNames (Rmem f) (Haddr f) (Hadv f) name (Radv f) (Rdir f) (Rjoin f) (Iface f).
Definition FlagRadv (name : string) : FlagOptionFn := λ f,
  mkFlagNames (Rmem f) (Haddr f) (Hadv f) (Raddr f) name (Rdir f) (Rjoin f) (Iface f).
Definition FlagRdir (name : string) : FlagOptionFn := λ f,
  mkFlagNames (Rmem f) (Haddr f) (Hadv f) (Raddr f) (Radv f) name (Rjoin f) (Iface f).
Definition FlagRjoin (name : string) : FlagOptionFn := λ f,
  mkFlagNames (Rmem f) (Haddr f) (Hadv f) (Raddr f) (Radv f) (Rdir f) name (Iface f).
Definition FlagIface (name : string) : FlagOptionFn := λ f,
  mkFlagNames (Rmem f) (Haddr f) (Hadv f) (Raddr f) (Radv f) (Rdir f) (Rjoin f) name.

(** The names of the [default] tags, which [defaults.Set] assigns. *)
Definition default_tags : FlagNames :=
  mkFlagNames "rmem" "haddr" "hadv" "raddr" "radv" "rdir" "rjoin" "iface".

Section flags.
(** [defaults.Set] of a fresh struct (its error is only logged). *)
Context (defaults_Set : FlagNames → FlagNames).

Definition createFlagNames (fns : list FlagOptionFn) : FlagNames :=
  foldl (λ f fn, fn f) (defaults_Set (mkFlagNames "" "" "" "" "" "" "" "")) fns.

(** A call [BoolVar] or [StringVar] on the provider: the field, the flag name,
    the default. *)
Inductive flag_field : Type :=
| FInMem | FHTTPAddr | FHTTPAdv | FRaftAddr | FRaftAdv | FRaftNodeDir | FJoinAddrs | FIfaceName.
#[export] Instance flag_field_eq_dec : EqDecision flag_field.
Proof. solve_decision. Defined.
Record registration : Type := mkReg {
  reg_field : flag_field; reg_name : string; reg_default : bool + string
}.

Definition boolVar (ptr : flag_field) (defaultValue : bool) (name : string) : list registration :=
  if decide (name ≠ "") then [mkReg ptr name (inl defaultValue)] else [].
Definition strVar (ptr : flag_field) (name : string) : list registration :=
  if decide (name ≠ "") then [mkReg ptr name (inr "")] else [].

Definition DefineFlags (fns : list FlagOptionFn) : Arg * list registration :=
  let f := createFlagNames fns in
  (MakeArg,
   boolVar FInMem true (Rmem f) ++ strVar FHTTPAddr (Haddr f) ++ strVar FHTTPAdv (Hadv f) ++
   strVar FRaftAddr (Raddr f) ++ strVar FRaftAdv (Radv f) ++ strVar FRaftNodeDir (Rdir f) ++
   strVar FJoinAddrs (Rjoin f) ++ strVar FIfaceName (Iface f)).

(** [CreateArg] reads the same fields off a viper; [SetDefault] comes first. *)
Definition CreateArg (GetBool : string → bool → bool) (GetString : string → string)
    (fns : list FlagOptionFn) : Arg :=
  let f := createFlagNames fns in
  mkArg false (GetBool (Rmem f) true) (GetString (Raddr f)) (GetString (Radv f))
    (GetString (Rdir f)) "" (GetString (Haddr f)) (GetString (Hadv f)) (GetString (Rjoin f))
    (GetString (Iface f)) [] "".
End flags.

(** ** Witnesses *)

#[local] Instance test_host : Host := {
  net_ParseIP s := bool_decide (s ∈ ["127.0.0.1"; "192.168.0.7"; "fe80::9"]);
  net_LookupIP s := if decide (s = "localhost") then inl ["127.0.0.1"] else inr (ErrExt "no such host");
  goip_MainIP _ := "192.168.0.7";
  user_HomeDir := Some "/root"
}.

Definition test_arg (http raft join ip : string) : Arg :=
  mkArg false true raft "" "" "" http "" join "" [] ip.

Lemma fixAddr_ports_witness :
  ∃ host p, joinHP "192.168.0.7" "11002" = joinHP host (fmt_d p) ∧
    joinHP "192.168.0.7" "12002" = joinHP host (fmt_d (p + 1000)) ∧
    ("" = "" → p ≤ 34565)%Z ∧ (":11002" = "" → 1024 ≤ p)%Z ∧
    (host = "192.168.0.7" ∨ isLocalHost (test_arg ":11002" "" "" "192.168.0.7") host = false).
Proof.
  apply (fixAddr_ports (test_arg ":11002" "" "" "192.168.0.7")
    (test_arg "192.168.0.7:11002" "192.168.0.7:12002" "" "192.168.0.7")).
  - by left.
  - vm_compute. reflexivity.
Defined.

Lemma fixAddr_refused_witness :
  let a := test_arg "10.0.0.1:40000" "" "" "" in
  (Arg_RaftAddr a = "" → Arg_HTTPAddr a = joinHP "10.0.0.1" "40000" → (34565 < (Atoi "40000").1)%Z →
     ∃ msg, fixAddr a = (a, Panic msg)) ∧
  (Arg_HTTPAddr a = "" → Arg_RaftAddr a = joinHP "10.0.0.1" "40000" → ((Atoi "40000").1 < 2024)%Z →
     ∃ msg, fixAddr a = (a, Panic msg)).
Proof. apply (fixAddr_refused (test_arg "10.0.0.1:40000" "" "" "") "10.0.0.1" "40000"); reflexivity. Defined.

Lemma fixAddr_ipv6_witness :
  let a := test_arg "[fe80::9]:11000" "" "" "192.168.0.7" in
  ∃ a', (_ ← fixAddr; parseFlagRaftNodeID) a = (a', Ret tt) ∧
    Arg_HTTPAddr a' = joinHP "fe80::9" (fmt_d 11000) ∧
    Arg_NodeID a' = mkNodeID "192.168.0.7" "" "".
Proof.
  by apply (fixAddr_ipv6 (test_arg "[fe80::9]:11000" "" "" "192.168.0.7") "fe80::9" 11000).
Defined.
