(* ===== verification/Configure.v ===== *)
(** * Configure: what [Fix] makes of the arguments

    A pure derivation of the configuration of a node from the addresses it was given,
    the proof that [Arg_Fix] computes it and refuses the rest, the well-formedness of the
    result, and that fixing the fixed arguments changes nothing. *)

From stdpp Require Import prelude gmap strings.
From S2P Require Import Prelude.
From S2P Require Import GoStd.
From S2P Require Import Util.
From S2P Require Import Model.
From S2P Require Import Arg.

(** ** The derivation *)

(** An address as its host and port; one that is not given is empty. *)
Abbreviation address := (string * string)%type.
Definition spell (o : option address) : string :=
  match o with None => "" | Some hp => joinHP hp.1 hp.2 end.
Definition clean_address (hp : address) : Prop := clean hp.1 = true ∧ clean hp.2 = true.

(** What the rest of the program relies on: both addresses split; the name is made of
    the host IP and their ports; there is a directory; every join address has a host;
    and a node with nobody to join bootstraps. *)
Record well_configured (a : Arg) : Prop := mkWellConfigured {
  wc_http : ∃ hp, Arg_HTTPAddr a = spell (Some hp) ∧ clean_address hp;
  wc_raft : ∃ hp, Arg_RaftAddr a = spell (Some hp) ∧ clean_address hp;
  wc_name : Arg_NodeID a = mkNodeID (HostIP a) (port_of (Arg_HTTPAddr a)) (port_of (Arg_RaftAddr a));
  wc_dir : RaftNodeDir a ≠ "";
  wc_joins : Forall (λ j, ∃ hp, j = spell (Some hp) ∧ clean_address hp ∧ hp.1 ≠ "") (JoinAddrSlice a);
  wc_alone : JoinAddrSlice a = [] → Bootstrap a = true
}.

Section derivation.
Context `{Host}.

(** The host a node goes by: its IP instead of any name of this machine. *)
Definition own_host (a : Arg) (h : string) : string := If (isLocalHost a h) (HostIP a) h.

(** The two addresses, from the ones given; [None] where a port is refused. *)
Definition derive (a : Arg) (http raft : option address) : option (address * address) :=
  match http, raft with
  | None, None => Some ((HostIP a, "11000"), (HostIP a, "12000"))
  | Some (h, p), None =>
      let n := (Atoi p).1 in
      if decide (n ≤ 34565)%Z then Some ((own_host a h, fmt_d n), (own_host a h, fmt_d (n + 1000)))
      else None
  | None, Some (h, p) =>
      let n := (Atoi p).1 in
      if decide (2024 ≤ n)%Z then Some ((own_host a h, fmt_d (n - 1000)), (own_host a h, fmt_d n))
      else None
  | Some (h, p), Some (h', p') => Some ((own_host a h, p), (own_host a h', p'))
  end.

(** The join addresses, those that are not empty, with the host IP for a missing host. *)
Definition join_list (a : Arg) (joins : list (option address)) : list string :=
  (λ hp : address, joinHP (EmptyThen hp.1 (HostIP a)) hp.2) <$> omap id joins.

(** A node bootstraps when it has nobody to join or is the first to be joined itself:
    the first entry is its own address, or its port on this machine. *)
Definition bootstraps (a : Arg) (http : address) (joins : list (option address)) : bool :=
  match omap id joins with
  | [] => true
  | (h, p) :: _ =>
      let h := EmptyThen h (HostIP a) in
      if decide (joinHP h p = spell (Some http)) then true
      else if decide (p = http.2) then isLocalHost a h else Bootstrap a
  end.

Definition configured (a : Arg) (http raft : address) (joins : list (option address)) : Arg :=
  let id := mkNodeID (HostIP a) http.2 raft.2 in
  mkArg (bootstraps a http joins) (InMem a) (spell (Some raft)) (RaftAdv a)
    (if decide (RaftNodeDir a = "") then filepath_Join [default "./" user_HomeDir; ".hraftd"; id]
     else RaftNodeDir a)
    id (spell (Some http)) (HTTPAdv a) (JoinAddrs a) (IfaceName a) (join_list a joins) (HostIP a).
End derivation.

(** ** Lemmas *)

Lemma fmt_d_clean z : clean (fmt_d z) = true.
Proof.
  unfold fmt_d. case_match; [|apply dec_clean]. pose proof (dec_clean (- z)) as Hd. revert Hd.
  unfold clean, plain. by rewrite !contains_cons.
Qed.

Lemma filepath_Clean_nonempty p : filepath_Clean p ≠ "".
Proof. unfold filepath_Clean. by case_decide. Qed.
Lemma data_dir_nonempty base id : filepath_Join [base; ".hraftd"; id] ≠ "".
Proof.
  unfold filepath_Join. rewrite filter_cons.
  case_decide; rewrite filter_cons_True by done; apply filepath_Clean_nonempty.
Qed.

Lemma spell_nil hp : spell (Some hp) ≠ "".
Proof. unfold spell, joinHP. intros E. by apply str_app_eq_nil in E as [_ ?]. Qed.
Lemma spell_comma hp : clean_address hp → contains comma (spell (Some hp)) = false.
Proof. intros [? ?]. by apply joinHP_comma. Qed.
Lemma spell_port hp : clean_address hp → port_of (spell (Some hp)) = hp.2.
Proof. intros [? ?]. by apply port_of_join; apply clean_plain. Qed.
Lemma spell_split {W} hp (w : W) : clean_address hp →
  split_or_panic (spell (Some hp)) w = (w, Ret hp).
Proof. intros [? ?]. destruct hp as [h p]. apply split_or_panic_join; by apply clean_plain. Qed.

Lemma Split_spell (joins : list (option address)) : Forall clean_address (omap id joins) →
  parse_join_addrs (Split comma (join_with "," (spell <$> joins))) = parse_join_addrs (spell <$> joins).
Proof.
  intros Hc. destruct joins as [|o joins]; [done|]. rewrite Split_join; [done|done|].
  apply Forall_fmap, Forall_forall. intros [hp|] Ho; [|done]. apply spell_comma.
  rewrite Forall_forall in Hc. apply Hc, list_elem_of_omap. by exists (Some hp).
Qed.

Section lemmas.
Context `{Host}.

Lemma own_host_clean a h : clean (HostIP a) = true → clean h = true → clean (own_host a h) = true.
Proof. intros. unfold own_host, If. by case_match. Qed.
Lemma own_host_idem a h : own_host a (own_host a h) = own_host a h.
Proof. unfold own_host, If. destruct (isLocalHost a h) eqn:E; [by case_match|by rewrite E]. Qed.

Lemma derive_clean a http raft hp rp : clean (HostIP a) = true →
  (∀ x, http = Some x → clean_address x) → (∀ x, raft = Some x → clean_address x) →
  derive a http raft = Some (hp, rp) → clean_address hp ∧ clean_address rp.
Proof.
  intros Hip Hh Hr. unfold derive.
  destruct http as [[h p]|]; [destruct (Hh _ eq_refl)|]; (destruct raft as [[h' p']|]; [destruct (Hr _ eq_refl)|]);
    simpl in *; try case_decide; intros [= <- <-]; unfold clean_address; simpl;
    auto using own_host_clean, fmt_d_clean.
Qed.

(** [fixAddr] is the derivation of the addresses, on every way of giving them. *)
Lemma fixAddr_run a http raft :
  Arg_HTTPAddr a = spell http → Arg_RaftAddr a = spell raft →
  (∀ x, http = Some x → clean_address x) → (∀ x, raft = Some x → clean_address x) →
  match derive a http raft with
  | Some (hp, rp) => fixAddr a = (set_addrs (spell (Some hp)) (spell (Some rp)) a, Ret tt)
  | None => ∃ msg, fixAddr a = (a, Panic msg)
  end.
Proof.
  intros Eh Er Hh Hr. unfold fixAddr, fixAddrHost, derive, gets, mbind, M_bind, id.
  destruct raft as [rp|], http as [hp|]; repeat first [rewrite decide_False by (rewrite ?Eh, ?Er; apply spell_nil) |
      rewrite decide_True by (rewrite ?Eh, ?Er; done)].
  - destruct rp as [h' p'], hp as [h p]. rewrite Er, (spell_split (W := Arg) (h', p')) by auto.
    unfold mret, M_ret, modify. rewrite Eh, spell_split by auto. done.
  - destruct rp as [h p]. rewrite Er, (spell_split (W := Arg) (h, p)) by auto.
    case_decide.
    + by assert (((Atoi p).1 <? 1024 + 1000)%Z = false) as -> by lia.
    + assert (((Atoi p).1 <? 1024 + 1000)%Z = true) as -> by lia. by eexists.
  - destruct hp as [h p]. rewrite Eh, (spell_split (W := Arg) (h, p)) by auto.
    case_decide.
    + by assert ((35565 - 1000 <? (Atoi p).1)%Z = false) as -> by lia.
    + assert ((35565 - 1000 <? (Atoi p).1)%Z = true) as -> by lia. by eexists.
  - done.
Qed.

Lemma parseFlagRaftDir_run a :
  parseFlagRaftDir a =
    (set_RaftNodeDir
       (if decide (RaftNodeDir a = "") then filepath_Join [default "./" user_HomeDir; ".hraftd"; Arg_NodeID a]
        else RaftNodeDir a) a, Ret tt).
Proof.
  unfold parseFlagRaftDir, gets, modify, mbind, M_bind, id. destruct (decide (RaftNodeDir a = "")).
  - by rewrite decide_False by naive_solver.
  - rewrite decide_True by done. by destruct a.
Qed.

Lemma parse_joins_run joins a : Forall clean_address (omap id joins) →
  parse_join_addrs (spell <$> joins) a =
    (set_JoinAddrSlice (JoinAddrSlice a ++ join_list a joins) a, Ret tt).
Proof.
  revert a. induction joins as [|[hp|] joins IH]; intros a Hc.
  - cbn. rewrite app_nil_r. by destruct a.
  - cbn [omap list_omap id] in Hc. apply Forall_cons in Hc as [Hp Hc].
    rewrite fmap_cons. cbn [parse_join_addrs]. rewrite decide_False by apply spell_nil.
    unfold mbind, M_bind, gets, modify, id. destruct hp as [h p], (Hp) as [Hh Hpp]. cbn [spell fst snd] in *.
    rewrite SplitHostPort_join by by apply clean_plain.
    rewrite IH by done. cbn [JoinAddrSlice set_JoinAddrSlice]. rewrite <-app_assoc. done.
  - rewrite fmap_cons. by apply IH.
Qed.

Lemma parseBootstrap_run a http joins :
  Arg_HTTPAddr a = spell (Some http) → clean_address http → clean (HostIP a) = true →
  JoinAddrs a = join_with "," (spell <$> joins) → Forall clean_address (omap id joins) →
  parseBootstrap a =
    (set_Bootstrap (bootstraps a http joins) (set_JoinAddrSlice (join_list a joins) a), Ret tt).
Proof.
  intros Eh Hh Hip Ej Hj. unfold parseBootstrap, mbind, M_bind, modify, gets.
  change (JoinAddrs (id (set_JoinAddrSlice [] a))) with (JoinAddrs a).
  rewrite Ej, Split_spell, parse_joins_run by done.
  change (JoinAddrSlice (set_JoinAddrSlice [] a)) with ([] : list string). rewrite app_nil_l.
  change (join_list (set_JoinAddrSlice [] a) joins) with (join_list a joins).
  set (L := join_list a joins).
  change (id (set_JoinAddrSlice L (set_JoinAddrSlice [] a))) with (set_JoinAddrSlice L a).
  change (set_JoinAddrSlice L (set_JoinAddrSlice [] a)) with (set_JoinAddrSlice L a).
  change (Arg_HTTPAddr (set_JoinAddrSlice L a)) with (Arg_HTTPAddr a). rewrite Eh, spell_port by done.
  cbn [JoinAddrSlice set_JoinAddrSlice]. fold (set_JoinAddrSlice L a).
  destruct L as [|first rest] eqn:EL; unfold L, join_list in EL; unfold bootstraps;
    destruct (omap id joins) as [|[h p] l]; try done.
  rewrite fmap_cons in EL. injection EL as <- _. apply Forall_cons in Hj as [[Hch Hcp] _]. cbn [fst snd] in *.
  assert (plain (EmptyThen h (HostIP a)) = true) as Hpl.
  { apply clean_plain. unfold EmptyThen. by case_decide. }
  rewrite port_of_join, host_of_join by auto using clean_plain.
  case_decide; [done|]. destruct (decide (p = http.2)).
  - by rewrite decide_False by naive_solver.
  - by rewrite decide_True by done.
Qed.
End lemmas.

(** ** Properties *)

Section properties.
Context `{Host}.

(** The whole of [Fix], once the host IP is there. *)
Lemma Fix_run a http raft joins (ip := goip_MainIP (IfaceName a)) (a0 := set_HostIP ip a) :
  Arg_HTTPAddr a = spell http → Arg_RaftAddr a = spell raft →
  JoinAddrs a = join_with "," (spell <$> joins) →
  (∀ x, http = Some x → clean_address x) → (∀ x, raft = Some x → clean_address x) →
  Forall clean_address (omap id joins) → clean ip = true →
  match derive a0 http raft with
  | Some (hp, rp) =>
      clean_address hp ∧ clean_address rp ∧ Arg_Fix a = (configured a0 hp rp joins, Ret tt)
  | None => ∃ msg, Arg_Fix a = (a0, Panic msg)
  end.
Proof.
  intros Eh Er Ej Hh Hr Hj Hip. pose proof (fixAddr_run a0 http raft Eh Er Hh Hr) as Hfix.
  unfold Arg_Fix. unfold mbind at 1, M_bind at 1, modify at 1. fold ip a0.
  destruct (derive a0 http raft) as [[hp rp]|] eqn:Ed.
  2:{ destruct Hfix as [msg E]. exists msg. unfold mbind, M_bind, modify. fold ip a0. by rewrite E. }
  destruct (derive_clean a0 _ _ _ _ Hip Hh Hr Ed) as [Hhp Hrp]. split_and!; [done..|].
  unfold mbind at 1, M_bind at 1. rewrite Hfix.
  unfold mbind at 1, M_bind at 1. rewrite parseFlagRaftNodeID_spec by by apply spell_comma.
  cbn [Arg_HTTPAddr Arg_RaftAddr set_addrs]. rewrite !spell_port by done.
  unfold mbind at 1, M_bind at 1. rewrite parseFlagRaftDir_run, (parseBootstrap_run _ hp joins) by done.
  done.
Qed.

(** Deriving again from what was derived gives the same. *)
Lemma derive_again a hp rp joins http raft : derive a http raft = Some (hp, rp) →
  derive (configured a hp rp joins) (Some hp) (Some rp) = Some (hp, rp).
Proof.
  assert (∀ h, own_host (configured a hp rp joins) h = own_host a h) as Ho by done.
  assert (own_host a (HostIP a) = HostIP a) as Hip by (unfold own_host, If; by case_match).
  unfold derive. destruct http as [[h p]|], raft as [[h' p']|]; try case_decide;
    intros [= <- <-]; by rewrite !Ho, ?own_host_idem, ?Hip.
Qed.

Lemma configured_again a hp rp joins :
  configured (configured a hp rp joins) hp rp joins = configured a hp rp joins.
Proof.
  set (b := configured a hp rp joins).
  assert (RaftNodeDir b ≠ "") as Hd.
  { unfold b, configured. cbn [RaftNodeDir]. case_decide; [|done]. apply data_dir_nonempty. }
  assert (bootstraps b hp joins = bootstraps a hp joins) as Hb.
  { unfold bootstraps at 1. change (HostIP b) with (HostIP a). change (isLocalHost b) with (isLocalHost a).
    change (Bootstrap b) with (bootstraps a hp joins). unfold bootstraps.
    destruct (omap id joins) as [|[h p] l]; [done|].
    destruct (decide _); [done|]. by destruct (decide _). }
  unfold configured at 1. rewrite Hb, decide_False by done. done.
Qed.
Lemma configured_well a hp rp joins : clean_address hp → clean_address rp → clean (HostIP a) = true →
  HostIP a ≠ "" → Forall clean_address (omap id joins) → well_configured (configured a hp rp joins).
Proof.
  intros Hhp Hrp Hip Hne Hj. split; cbn [configured Arg_HTTPAddr Arg_RaftAddr Arg_NodeID HostIP RaftNodeDir
    JoinAddrSlice Bootstrap].
  - by exists hp.
  - by exists rp.
  - by rewrite !spell_port.
  - case_decide; [|done]. apply data_dir_nonempty.
  - unfold join_list. apply Forall_fmap. eapply Forall_impl; [exact Hj|]. intros [h p] [Hh Hp].
    exists (EmptyThen h (HostIP a), p). unfold EmptyThen, clean_address; cbn in *. by case_decide.
  - unfold join_list, bootstraps. by destruct (omap id joins).
Qed.

(** C36. The configuration of a node.  Whatever of the two addresses is given, and whoever is
    to be joined, [Fix] either panics, exactly where the derivation refuses a port, with
    nothing changed but the host IP, or it computes the derived configuration: the
    addresses with the host IP for any name of this machine and the missing one a
    thousand ports apart, the node name made of the host IP and the two ports, the data
    directory, the list of nodes to join and the decision to bootstrap.  That
    configuration is well formed, and fixing it again changes nothing. *)
Theorem Fix_configures a http raft joins (ip := goip_MainIP (IfaceName a)) (a0 := set_HostIP ip a) :
  Arg_HTTPAddr a = spell http → Arg_RaftAddr a = spell raft →
  JoinAddrs a = join_with "," (spell <$> joins) →
  (∀ x, http = Some x → clean_address x) → (∀ x, raft = Some x → clean_address x) →
  Forall clean_address (omap id joins) → clean ip = true → ip ≠ "" →
  match derive a0 http raft with
  | None => ∃ msg, Arg_Fix a = (a0, Panic msg)
  | Some (hp, rp) =>
      let a' := configured a0 hp rp joins in
      Arg_Fix a = (a', Ret tt) ∧ well_configured a' ∧ Arg_Fix a' = (a', Ret tt)
  end.
Proof.
  intros Eh Er Ej Hh Hr Hj Hip Hne. pose proof (Fix_run a http raft joins Eh Er Ej Hh Hr Hj Hip) as Hrun.
  fold ip a0 in Hrun. destruct (derive a0 http raft) as [[hp rp]|] eqn:Ed; [|done].
  destruct Hrun as (Hhp & Hrp & Hrun). intros a'. split_and!; [done|by apply configured_well|].
  pose proof (Fix_run a' (Some hp) (Some rp) joins eq_refl eq_refl Ej ltac:(naive_solver) ltac:(naive_solver)
    Hj Hip) as Hagain.
  change (set_HostIP (goip_MainIP (IfaceName a')) a') with a' in Hagain.
  unfold a' in Hagain at 1. rewrite (derive_again _ _ _ _ _ _ Ed) in Hagain.
  destruct Hagain as (_ & _ & Hagain). rewrite Hagain. unfold a'. by rewrite configured_again.
Qed.
End properties.

(** ** Witnesses *)

Section witnesses.
#[local] Instance test_host : Host := {
  net_ParseIP s := bool_decide (s ∈ ["127.0.0.1"; "192.168.0.7"]);
  net_LookupIP s := if decide (s = "localhost") then inl ["127.0.0.1"] else inr (ErrExt "no such host");
  goip_MainIP _ := "192.168.0.7";
  user_HomeDir := Some "/root"
}.
Definition second_node : Arg := mkArg false true "" "" "" "" "localhost:11002" "" ":11001,,:11002" "" [] "".

(** The second node of a cluster on one machine: it joins the first. *)
Lemma Fix_configures_witness :
  let a' := mkArg false true "192.168.0.7:12002" ""
    "/root/.hraftd/192.168.0.7:11002,192.168.0.7:12002" "192.168.0.7:11002,192.168.0.7:12002"
    "192.168.0.7:11002" "" ":11001,,:11002" "" ["192.168.0.7:11001"; "192.168.0.7:11002"] "192.168.0.7" in
  Arg_Fix second_node = (a', Ret tt) ∧ well_configured a' ∧ Arg_Fix a' = (a', Ret tt).
Proof.
  refine (Fix_configures second_node (Some ("localhost", "11002")) None
    [Some ("", "11001"); None; Some ("", "11002")] eq_refl eq_refl eq_refl _ _ _ eq_refl _).
  - by intros x [= <-].
  - done.
  - by repeat constructor.
  - done.
Defined.

Example Fix_refuses : derive (set_HostIP "192.168.0.7" second_node) None (Some ("10.0.0.1", "2023")) = None.
Proof. vm_compute. reflexivity. Qed.
End witnesses.
