(* ===== verification/Client.v ===== *)
(** * Calls to other nodes: the rest of [arg.go], [peerjob.go], [store.go]'s leader search

    Every call is an HTTP request whose JSON answer is decoded; the world [W]
    changes with it (a join makes the leader change the raft configuration). *)

From stdpp Require Import prelude gmap strings.
From S2P Require Import Prelude.
From S2P Require Import GoStd.
From S2P Require Import Util.
From S2P Require Import Model.
From S2P Require Import Externals.
From S2P Require Import Arg.

(** [JobRsp] keeps the data of an answer undecoded. *)
Record JobRsp : Type := mkJobRsp { Job_OK : bool; Job_Msg : string; Job_Data : string }.

Section client.
Context {W D : Type} `{Network W}.
Context `{Codec JoinRequest} `{Codec RaftCluster} `{Codec (Rsp D)}.

Definition Rsp0 : Rsp D := mkRsp false "" None.

Definition Cluster (nodeID : NodeID) : M W (RaftCluster * option error) :=
  '(_, v, err) ← GetJSON (URLRaftCluster nodeID) RaftCluster0; mret (v, err).

Fixpoint checkJoined_loop (nodeID : NodeID) (servers : list Peer) : option error :=
  match servers with
  | [] => Some (ErrText ("checked failed for joined node " +:+ nodeID))
  | peer :: servers =>
      if decide (Peer_ID peer = nodeID) then None else checkJoined_loop nodeID servers
  end.
Definition checkJoined (nodeID : NodeID) : M W (option error) :=
  '(cluster, err) ← Cluster nodeID;
  match err with
  | Some e => mret (Some e)
  | None => mret (checkJoined_loop nodeID (Servers cluster))
  end.

Definition Join (joinAddr raftAddr : string) (nodeID : NodeID) : M W (option error) :=
  '(_, _, r, err) ← PostJSON (BindAddr_URLRaftJoin joinAddr) (mkJoinRequest raftAddr nodeID) Rsp0;
  match err with
  | Some e => mret (Some e)
  | None => if Rsp_OK r then checkJoined nodeID else mret (Some (ErrText (Rsp_Msg r)))
  end.

(** [(a *Arg) Join] *)
Fixpoint Arg_Join_loop (a : Arg) (addrs : list string) : M W (option error) :=
  match addrs with
  | [] => mret (Some (ErrText ("failed to join " +:+ JoinAddrs a)))
  | joinAddr :: addrs =>
      err ← Join joinAddr (Arg_RaftAddr a) (Arg_NodeID a);
      match err with None => mret None | Some _ => Arg_Join_loop a addrs end
  end.
Definition Arg_Join (a : Arg) : M W (option error) :=
  if Bootstrap a then mret None else Arg_Join_loop a (JoinAddrSlice a).

(** The state another node reports; whatever was decoded is used, the error is logged. *)
Definition getNodeState (nodeID : NodeID) : M W (Rsp D) :=
  '(_, r, _) ← GetJSON (URLRaftState nodeID) Rsp0; mret r.

(** The first peer that is marked leader. *)
Fixpoint first_leader (peers : list Peer) : option Peer :=
  match peers with
  | [] => None
  | n :: peers => if decide (Peer_State n = StateLeader) then Some n else first_leader peers
  end.

Fixpoint findLeader_loop (peers : list Peer) : M W (Peer * bool) :=
  match peers with
  | [] => mret (Peer0, false)
  | peer :: peers =>
      if decide (Peer_State peer = StateLeader) then mret (peer, true)
      else
        '(cl, err) ← Cluster (Peer_ID peer);
        match err with
        | Some _ => findLeader_loop peers
        | None =>
            if decide (Peer_State (Leader cl) = StateLeader) then mret (Leader cl, true)
            else match first_leader (Servers cl) with
                 | Some n => mret (n, true)
                 | None => findLeader_loop peers
                 end
        end
  end.
Definition findLeader (cluster : RaftCluster) : M W (Peer * bool) :=
  findLeader_loop (Servers cluster).

Definition tryFindAndJoinLeader (a : Arg) (cluster : RaftCluster) : M W unit :=
  '(leader, _) ← findLeader cluster;
  if decide (Peer_ID leader ≠ "") then
    _ ← Join (HTTPAddr (Peer_ID leader)) (Arg_RaftAddr a) (Arg_NodeID a); mret tt
  else log.

(** ** Distributing a job to a peer *)

Definition DistributeJob {Q R} `{Codec Q} `{Codec R} `{Codec JobRsp}
    (p : Peer) (path : string) (req : Q) (rsp : R) : M W (R * option error) :=
  let jobURL := NodeID_URL (Peer_ID p) (DoJobPath +:+ path) in
  '(_, _, jobRsp, err) ← PostJSON jobURL req (mkJobRsp false "" "");
  match err with
  | Some e => mret (rsp, Some e)
  | None =>
      if negb (Job_OK jobRsp) then mret (rsp, Some (ErrText (Job_Msg jobRsp)))
      else mret (Unmarshal rsp (Job_Data jobRsp))
  end.

(** ** Properties *)

Lemma checkJoined_loop_spec nodeID servers :
  checkJoined_loop nodeID servers = None ↔ nodeID ∈ Peer_ID <$> servers.
Proof.
  induction servers as [|p l IH]; [split; [done|set_solver]|].
  rewrite fmap_cons, elem_of_cons, <-IH. simpl. case_decide; naive_solver.
Qed.

Lemma checkJoined_loop_eq nodeID servers :
  checkJoined_loop nodeID servers =
    if decide (nodeID ∈ Peer_ID <$> servers) then None
    else Some (ErrText ("checked failed for joined node " +:+ nodeID)).
Proof.
  case_decide as Hd; [by apply checkJoined_loop_spec|].
  rewrite <-checkJoined_loop_spec in Hd. induction servers as [|p l IH]; [done|].
  simpl in *. case_decide; [done|]. by apply IH.
Qed.

Lemma Cluster_run nodeID w :
  Cluster nodeID w =
    match client_Get (URLRaftCluster nodeID) w with
    | (w', inr e) => (w', Ret (RaftCluster0, Some e))
    | (w', inl body) => (w', Ret (Unmarshal RaftCluster0 body))
    end.
Proof.
  unfold Cluster, GetJSON, parseRSP, ext, mbind, M_bind, mret, M_ret.
  destruct (client_Get _ w) as [w' [body|e]]; [|done]. by destruct (Unmarshal _ body).
Qed.

Lemma PostJSON_run {B A} `{Codec B} `{Codec A} addr (body : B) (v : A) w :
  PostJSON addr body v w =
    match client_Post addr (Marshal body) w with
    | (w', inr e) => (w', Ret (0%Z, "", v, Some e))
    | (w', inl (status, rs)) => (w', Ret (status, rs, (Unmarshal v rs).1, (Unmarshal v rs).2))
    end.
Proof.
  unfold PostJSON, parseRSP, ext, mbind, M_bind, mret, M_ret.
  destruct (client_Post _ _ w) as [w' [[s rs]|e]]; [|done]. by destruct (Unmarshal v rs).
Qed.

(** The calls of this file never panic. *)
Lemma getNodeState_total nodeID w : ∃ w' r, getNodeState nodeID w = (w', Ret r).
Proof.
  unfold getNodeState, GetJSON, parseRSP, ext, mbind, M_bind, mret, M_ret.
  destruct (client_Get _ w) as [w1 [body|e]]; [|by do 2 eexists].
  destruct (Unmarshal _ body) as [r err]. by do 2 eexists.
Qed.

Lemma Join_run joinAddr raftAddr nodeID w :
  Join joinAddr raftAddr nodeID w =
    match client_Post (BindAddr_URLRaftJoin joinAddr) (Marshal (mkJoinRequest raftAddr nodeID)) w with
    | (w1, inr e) => (w1, Ret (Some e))
    | (w1, inl (_, body)) =>
        match Unmarshal Rsp0 body with
        | (_, Some e) => (w1, Ret (Some e))
        | (r, None) => if Rsp_OK r then checkJoined nodeID w1 else (w1, Ret (Some (ErrText (Rsp_Msg r))))
        end
    end.
Proof.
  unfold Join, mbind, M_bind. rewrite PostJSON_run.
  destruct (client_Post _ _ w) as [w1 [[s rs]|e]]; [|done].
  destruct (Unmarshal Rsp0 rs) as [r [e|]]; [done|]. cbn [fst snd]. by destruct (Rsp_OK r).
Qed.

Lemma checkJoined_run nodeID w :
  checkJoined nodeID w =
    match client_Get (URLRaftCluster nodeID) w with
    | (w1, inr e) => (w1, Ret (Some e))
    | (w1, inl body) =>
        match Unmarshal RaftCluster0 body with
        | (_, Some e) => (w1, Ret (Some e))
        | (cl, None) => (w1, Ret (checkJoined_loop nodeID (Servers cl)))
        end
    end.
Proof.
  unfold checkJoined, mbind, M_bind. rewrite Cluster_run.
  destruct (client_Get _ w) as [w1 [body|e]]; [|done].
  by destruct (Unmarshal RaftCluster0 body) as [cl [e|]].
Qed.

Lemma checkJoined_total nodeID w : ∃ w' err, checkJoined nodeID w = (w', Ret err).
Proof.
  rewrite checkJoined_run. destruct (client_Get _ w) as [w1 [body|e]]; [|by eauto].
  destruct (Unmarshal RaftCluster0 body) as [cl [e|]]; by eauto.
Qed.

Lemma Join_total joinAddr raftAddr nodeID w :
  ∃ w' err, Join joinAddr raftAddr nodeID w = (w', Ret err).
Proof.
  rewrite Join_run. destruct (client_Post _ _ w) as [w1 [[s rs]|e]]; [|by eauto].
  destruct (Unmarshal Rsp0 rs) as [r [e|]]; [by eauto|].
  destruct (Rsp_OK r); [|by eauto]. apply checkJoined_total.
Qed.

(** C24. A join succeeds only if the other node accepted it and this node then sees
    itself: the request was answered with a decodable [ok], and the cluster view of
    the node named in the request, fetched afterwards, lists that name. *)
Theorem Join_succeeds joinAddr raftAddr nodeID w w' :
  Join joinAddr raftAddr nodeID w = (w', Ret None) ↔
  ∃ w1 status body r view cl,
    client_Post (BindAddr_URLRaftJoin joinAddr) (Marshal (mkJoinRequest raftAddr nodeID)) w =
      (w1, inl (status, body)) ∧
    Unmarshal Rsp0 body = (r, None) ∧ Rsp_OK r = true ∧
    client_Get (URLRaftCluster nodeID) w1 = (w', inl view) ∧
    Unmarshal RaftCluster0 view = (cl, None) ∧ nodeID ∈ Peer_ID <$> Servers cl.
Proof.
  rewrite Join_run. split.
  - destruct (client_Post _ _ w) as [w1 [[s rs]|e]]; [|done].
    destruct (Unmarshal Rsp0 rs) as [r [e|]] eqn:Er; [done|].
    destruct (Rsp_OK r) eqn:Eok; [|done]. rewrite checkJoined_run.
    destruct (client_Get _ w1) as [w2 [view|e]] eqn:Eg; [|done].
    destruct (Unmarshal RaftCluster0 view) as [cl [e|]] eqn:Ec; [done|].
    intros [= -> ?%checkJoined_loop_spec]. naive_solver.
  - intros (w1 & status & body & r & view & cl & -> & Er & Eok & Eg & Ec & Hin).
    rewrite Er, Eok, checkJoined_run, Eg, Ec.
    by rewrite (proj2 (checkJoined_loop_spec _ _) Hin).
Qed.

(** A run in which the listed addresses are tried in order and all refuse. *)
Inductive all_refuse (a : Arg) : list string → W → W → Prop :=
| refuse_nil w : all_refuse a [] w w
| refuse_cons addr addrs w w1 w2 e :
    Join addr (Arg_RaftAddr a) (Arg_NodeID a) w = (w1, Ret (Some e)) →
    all_refuse a addrs w1 w2 → all_refuse a (addr :: addrs) w w2.

(** The join addresses are tried in order up to the first success: a
    bootstrapping node contacts nobody; otherwise [Join] always returns, with no
    error exactly when some address accepts after all earlier ones refused (and
    then no later one is contacted), and with the list in the error text when all
    refuse. *)
Theorem Arg_Join_spec a w :
  (Bootstrap a = true → Arg_Join a w = (w, Ret None)) ∧
  (Bootstrap a = false →
    (∃ addrs1 addr addrs2 w1 w', JoinAddrSlice a = addrs1 ++ addr :: addrs2 ∧
       all_refuse a addrs1 w w1 ∧
       Join addr (Arg_RaftAddr a) (Arg_NodeID a) w1 = (w', Ret None) ∧
       Arg_Join a w = (w', Ret None)) ∨
    (∃ w', all_refuse a (JoinAddrSlice a) w w' ∧
       Arg_Join a w = (w', Ret (Some (ErrText ("failed to join " +:+ JoinAddrs a)))))).
Proof.
  unfold Arg_Join. split; intros ->; [done|].
  generalize (JoinAddrSlice a) as l. intros l. revert w.
  induction l as [|addr l IH]; intros w.
  { right. exists w. split; [constructor|done]. }
  cbn [Arg_Join_loop]. unfold mbind, M_bind.
  destruct (Join_total addr (Arg_RaftAddr a) (Arg_NodeID a) w) as (w1 & [e|] & E); rewrite E.
  - destruct (IH w1) as [(l1 & x & l2 & w2 & w' & -> & ? & ? & ?)|(w' & ? & ?)].
    + left. exists (addr :: l1), x, l2, w2, w'. split_and!; [done|by econstructor|done|done].
    + right. exists w'. split; [by econstructor|done].
  - left. exists [], addr, l, w, w1. split_and!; [done|constructor|done|done].
Qed.

Lemma findLeader_total cluster w : ∃ w' p b, findLeader cluster w = (w', Ret (p, b)).
Proof.
  unfold findLeader. generalize (Servers cluster) as peers. intros peers. revert w.
  induction peers as [|q peers IH]; intros w; cbn [findLeader_loop]; [by do 3 eexists|].
  case_decide; [by do 3 eexists|]. unfold mbind, M_bind. rewrite Cluster_run.
  destruct (client_Get _ w) as [w1 [body|e]]; [|apply IH].
  destruct (Unmarshal RaftCluster0 body) as [cl [e|]]; [apply IH|].
  case_decide; [by do 3 eexists|]. destruct (first_leader _); [by do 3 eexists|apply IH].
Qed.

(** What the search looks for, and what it takes from the view of a node: the leader of
    the view if it is marked so, otherwise the first server that is. *)
Definition marked (p : Peer) : Prop := Peer_State p = StateLeader.
Definition names_leader (cl : RaftCluster) (p : Peer) : Prop :=
  (marked (Leader cl) ∧ p = Leader cl) ∨
  (¬ marked (Leader cl) ∧ first_leader (Servers cl) = Some p).

(** Peers that the search has passed: each is not marked itself and was asked for its
    view, in the world the one before it left, and its answer did not come, did not
    decode, or names no leader. *)
Inductive searched : list Peer → W → W → Prop :=
| searched_nil w : searched [] w w
| searched_no_answer q qs w w1 w2 e : ¬ marked q →
    client_Get (URLRaftCluster (Peer_ID q)) w = (w1, inr e) →
    searched qs w1 w2 → searched (q :: qs) w w2
| searched_no_view q qs w w1 w2 body cl e : ¬ marked q →
    client_Get (URLRaftCluster (Peer_ID q)) w = (w1, inl body) →
    Unmarshal RaftCluster0 body = (cl, Some e) →
    searched qs w1 w2 → searched (q :: qs) w w2
| searched_no_leader q qs w w1 w2 body cl : ¬ marked q →
    client_Get (URLRaftCluster (Peer_ID q)) w = (w1, inl body) →
    Unmarshal RaftCluster0 body = (cl, None) → ¬ marked (Leader cl) → Forall (λ n, ¬ marked n) (Servers cl) →
    searched qs w1 w2 → searched (q :: qs) w w2.

Lemma first_leader_none peers : first_leader peers = None ↔ Forall (λ n, ¬ marked n) peers.
Proof.
  unfold marked. induction peers as [|p l IH]; [done|]. rewrite Forall_cons, <-IH. simpl.
  case_decide; naive_solver.
Qed.

Lemma searched_run before w w1 peers :
  searched before w w1 → findLeader_loop (before ++ peers) w = findLeader_loop peers w1.
Proof.
  unfold marked. induction 1 as [w|q qs w w1 w2 e Hq Hg _ IH|q qs w w1 w2 body cl e Hq Hg Hu _ IH|
    q qs w w1 w2 body cl Hq Hg Hu Hl Hs _ IH]; [done|..]; cbn [app findLeader_loop];
    (rewrite decide_False by done); unfold mbind, M_bind; rewrite Cluster_run, Hg; rewrite ?Hu; [done..|].
  apply first_leader_none in Hs. by rewrite decide_False, Hs.
Qed.

Definition found (peers : list Peer) (w w' : W) (p : Peer) (b : bool) : Prop :=
  if b then
    ∃ before q after w1, peers = before ++ q :: after ∧ searched before w w1 ∧
      ((marked q ∧ p = q ∧ w' = w1) ∨
       (¬ marked q ∧ ∃ body cl, client_Get (URLRaftCluster (Peer_ID q)) w1 = (w', inl body) ∧
          Unmarshal RaftCluster0 body = (cl, None) ∧ names_leader cl p))
  else p = Peer0 ∧ searched peers w w'.

(** A peer that was passed, in front of the rest of a search. *)
Lemma found_cons q qs w w1 w' p b :
  (∀ qs w2, searched qs w1 w2 → searched (q :: qs) w w2) →
  found qs w1 w' p b → found (q :: qs) w w' p b.
Proof.
  intros Hpass. destruct b; cbn [found]; [|intros [-> Hs]; auto].
  intros (before & r & after & w2 & -> & Hs & Hr). exists (q :: before), r, after, w2. auto.
Qed.

Lemma findLeader_found peers w w' p b :
  findLeader_loop peers w = (w', Ret (p, b)) → found peers w w' p b.
Proof.
  revert w. induction peers as [|q peers IH]; intros w; cbn [findLeader_loop].
  { intros [= <- <- <-]. split; [done|constructor]. }
  destruct (decide (Peer_State q = StateLeader)) as [Hq|Hq].
  { intros [= <- <- <-]. exists [], q, peers, w. split_and!; [done|constructor|by left]. }
  unfold mbind, M_bind. rewrite Cluster_run.
  destruct (client_Get (URLRaftCluster (Peer_ID q)) w) as [w1 [body|e]] eqn:Hg.
  2:{ intros E. eapply found_cons, IH, E. intros. by eapply searched_no_answer. }
  destruct (Unmarshal RaftCluster0 body) as [cl [e|]] eqn:Hu.
  { intros E. eapply found_cons, IH, E. intros. by eapply searched_no_view. }
  assert (∀ n, names_leader cl n → found (q :: peers) w w1 n true) as Hn.
  { intros n Hn. exists [], q, peers, w. split_and!; [done|constructor|right]. split; [done|]. by exists body, cl. }
  destruct (decide (Peer_State (Leader cl) = StateLeader)) as [Hl|Hl].
  { intros [= <- <- <-]. apply Hn. by left. }
  destruct (first_leader (Servers cl)) as [n|] eqn:Hf.
  { intros [= <- <- <-]. apply Hn. by right. }
  intros E. eapply found_cons, IH, E. intros. eapply searched_no_leader; [done..| |done].
  by apply first_leader_none.
Qed.

(** C33. The leader search, in full.  It reports a leader exactly if, after all the peers
    in front of it were passed, a peer is marked leader itself, which is then reported
    without asking it, or was asked and answers with a view that names one, which is
    reported; it reports none exactly if all peers were passed.  The world is the one
    the requests up to there have left, one to every peer that was asked, in order. *)
Theorem findLeader_spec cluster w w' p b :
  findLeader cluster w = (w', Ret (p, b)) ↔
  if (b : bool) then
    ∃ before q after w1, Servers cluster = before ++ q :: after ∧ searched before w w1 ∧
      ((marked q ∧ p = q ∧ w' = w1) ∨
       (¬ marked q ∧ ∃ body cl, client_Get (URLRaftCluster (Peer_ID q)) w1 = (w', inl body) ∧
          Unmarshal RaftCluster0 body = (cl, None) ∧ names_leader cl p))
  else p = Peer0 ∧ searched (Servers cluster) w w'.
Proof.
  unfold findLeader. generalize (Servers cluster) as peers. intros peers. split.
  - apply findLeader_found.
  - destruct b.
    + intros (before & q & after & w1 & -> & Hs & Hq). rewrite (searched_run _ _ _ _ Hs).
      cbn [findLeader_loop]. destruct Hq as [(Hq & -> & ->)|(Hq & body & cl & Hg & Hu & Hn)];
        [by rewrite decide_True|]. rewrite decide_False by done. unfold mbind, M_bind.
      rewrite Cluster_run, Hg, Hu.
      destruct Hn as [[Hl ->]|[Hl Hn]]; [by rewrite decide_True|]. by rewrite decide_False, Hn.
    + intros [-> Hs]. pose proof (searched_run _ _ _ [] Hs) as E. by rewrite app_nil_r in E.
Qed.
End client.
