(* ===== verification/Fsm.v ===== *)
(** * The replicated state machine: [store.go] (Apply, Snapshot, Restore), [arg.go] (Intercept)

    A node's store is the key-value map next to the world it lives in.  Raft
    calls [Apply] with every committed log entry, [Snapshot] to take the state
    and [Restore] to replace it.  Apply reads the clock: [now] is its value. *)

From stdpp Require Import prelude gmap strings.
From S2P Require Import Prelude.
From S2P Require Import GoStd.
From S2P Require Import GoTime.
From S2P Require Import Util.
From S2P Require Import Model.
From S2P Require Import Externals.
From S2P Require Import Dealer.
From S2P Require Import Arg.
From S2P Require Import Client.
From S2P Require Import Sim.

Record RaftStore (W : Type) : Type := mkStore { m : gmap string string; world : W }.
Arguments mkStore {W}.
Arguments m {W}.
Arguments world {W}.

Definition New {W} (w : W) : RaftStore W := mkStore ∅ w.

(** [raft.Log]; only the data is read. *)
Record Log : Type := mkLog { Data : string }.

(** The response of [Apply], an [interface{}]. *)
Inductive response (V : Type) : Type :=
| RNil
| RError (e : error)
| RValue (v : option V).
Arguments RNil {V}.
Arguments RError {V} e.
Arguments RValue {V} v.

Definition liftW {W A} (f : M W A) : M (RaftStore W) A := λ s,
  let '(w, r) := f (world s) in (mkStore (m s) w, r).

(** [lockApplyOp] runs its argument under the mutex: one step on the map. *)
Definition lockApplyOp {W A} (fn : gmap string string → gmap string string * A)
    : M (RaftStore W) A := λ s,
  let '(m', a) := fn (m s) in (mkStore m' (world s), Ret a).

Definition Command0 : Command := mkCommand "" "" "" "".

(** The age at which a set command counts as too old: 100 seconds. *)
Definition max_age : Z := (100 * second)%Z.

(** [err != nil || t.Before(time.Now().Add(-100*time.Second))] *)
Definition too_old (now : Z) (c : Command) : bool :=
  match ParseTime (Time c) with
  | None => true
  | Some t => (t <? now - max_age)%Z
  end.

Section fsm.
Context {W D V : Type} `{Raft W} `{Network W} `{FileSystem W}.
Context `{Codec Command} `{Codec (gmap string string)} `{Codec RaftCluster}.
Context `{Codec (list ConfigEntry)} `{Codec JoinRequest} `{Codec (Rsp D)}.
(** The node's arguments, its log dealers and its apply interceptor. *)
Context (unmarshal_new : gotype → string → V + error) (ptr_to : V → V).
Context (arg : Arg) (LogDealer : DealerMap W V) (ApplyInterceptor : option (Log → Command → M W bool)).

(** ** Interception *)

Definition invoke_dealer (c : Command) : M W (response V * bool) :=
  '(ret, err) ← Invoke unmarshal_new ptr_to LogDealer (Key c) (Value c);
  match err with
  | Some e =>
      if errors_Is e ErrDealerNoExists || errors_Is e ErrDealerContinue
      then mret (RNil, false) else mret (RError e, true)
  | None => mret (RValue ret, true)
  end.

Definition Intercept (l : Log) (c : Command) : M W (response V * bool) :=
  match ApplyInterceptor with
  | None => invoke_dealer c
  | Some f =>
      intercepted ← f l c;
      if (intercepted : bool) then mret (RNil, true) else invoke_dealer c
  end.

(** ** peers.json *)

Definition peerFile : string := filepath_Join [RaftNodeDir arg; "peers.json"].

Definition writePeersJSON (entries : list ConfigEntry) : M W (option error) :=
  _ ← modify (os_MkdirAll (RaftNodeDir arg) mode_644);
  ext (ioutil_WriteFile peerFile (Marshal entries) mode_600).

Definition writeClusterConfigEntries (cluster : RaftCluster) : M W (option error) :=
  writePeersJSON ((λ p, mkConfigEntry (Peer_ID p) (Peer_Address p) (Peer_Suffrage p)) <$> Servers cluster).

(** The command [/raft/cluster] carries a cluster view: it is written to
    peers.json, and a node without a leader looks for one in it. *)
Definition processSetRaftCluster (c : Command) : M W unit :=
  let '(v, err) := Unmarshal RaftCluster0 (Value c) in
  match err with
  | Some _ => log
  | None =>
      err ← writeClusterConfigEntries v;
      match err with
      | Some _ => log
      | None =>
          w ← gets id;
          if decide (raft_Leader w = "") then tryFindAndJoinLeader (D := D) arg v else mret tt
      end
  end.

(** ** Apply *)

Definition apply_op (now : Z) (c : Command) : M (RaftStore W) (response V) :=
  if decide (Op c = "set") then
    if too_old now c then mret RNil
    else if decide (Key c = "/raft/cluster") then _ ← liftW (processSetRaftCluster c); mret RNil
    else lockApplyOp (λ m, (<[Key c := Value c]> m, RNil))
  else if decide (Op c = "delete") then lockApplyOp (λ m, (delete (Key c) m, RNil))
  else mret RNil.

Definition Apply (now : Z) (l : Log) : M (RaftStore W) (response V) :=
  let '(c, err) := Unmarshal Command0 (Data l) in
  match err with
  | Some e => panic ("failed to unmarshal Command: " +:+ Error e)
  | None =>
      '(rsp, intercepted) ← liftW (Intercept l c);
      if (intercepted : bool) then mret rsp else apply_op now c
  end.

(** ** Reading, Snapshot, Persist, Restore *)

Definition Get (key : string) : M (RaftStore W) (option string) :=
  lockApplyOp (λ m, (m, m !! key)).

(** [CloneMap] gives the same map in whatever order Go ranges ([CloneMap_same]). *)
Definition Snapshot : M (RaftStore W) (gmap string string) :=
  lockApplyOp (λ m, (m, CloneMap (map_to_list m))).

(** [Restore] reads the stream; on a decode error the store keeps its map. *)
Definition Restore (rc : string) : M (RaftStore W) (option error) := λ s,
  match Decode (∅ : gmap string string) rc with
  | (_, Some e) => (s, Ret (Some e))
  | (o, None) => (mkStore o (world s), Ret None)
  end.

Section persist.
Context {S : Type} (sink_Write : string → S → S * option error).
Context (sink_Close sink_Cancel : S → S * option error).

Definition Persist (store : gmap string string) : M S (option error) :=
  err ← ext (sink_Write (Marshal store));
  err ← match err with Some e => mret (Some e) | None => ext sink_Close end;
  match err with
  | Some e => _ ← ext sink_Cancel; mret (Some e)
  | None => mret None
  end.
End persist.

(** ** The abstract key-value store *)

(** What one command does to the map; the node, its world and the clock are gone,
    but for the verdict on the age. *)
Definition kv_apply (old : bool) (c : Command) (kv : gmap string string) : gmap string string :=
  if decide (Op c = "set") then
    if old then kv else if decide (Key c = "/raft/cluster") then kv else <[Key c := Value c]> kv
  else if decide (Op c = "delete") then delete (Key c) kv
  else kv.

Lemma lockApplyOp_run {A} (f : gmap string string → gmap string string * A) (s : RaftStore W) :
  lockApplyOp f s = (mkStore (f (m s)).1 (world s), Ret (f (m s)).2).
Proof. unfold lockApplyOp. by destruct (f (m s)). Qed.

Lemma liftW_run {A} (f : M W A) s : liftW f s = (mkStore (m s) (f (world s)).1, (f (world s)).2).
Proof. unfold liftW. by destruct (f (world s)). Qed.

Lemma tryFindAndJoinLeader_total cluster w :
  ∃ w', tryFindAndJoinLeader (D := D) arg cluster w = (w', Ret tt).
Proof.
  unfold tryFindAndJoinLeader, mbind, M_bind.
  destruct (findLeader_total cluster w) as (w1 & p & b & E). rewrite E.
  case_decide; [|by eexists].
  destruct (Join_total (D := D) (HTTPAddr (Peer_ID p)) (Arg_RaftAddr arg) (Arg_NodeID arg) w1)
    as (w2 & e & ->). by eexists.
Qed.

Lemma processSetRaftCluster_total c w : ∃ w', processSetRaftCluster c w = (w', Ret tt).
Proof.
  unfold processSetRaftCluster. destruct (Unmarshal RaftCluster0 (Value c)) as [v [e|]]; [by eexists|].
  unfold writeClusterConfigEntries, writePeersJSON, ext, modify, mbind, M_bind, gets, id.
  destruct (ioutil_WriteFile _ _ _ _) as [w1 [e|]]; [by eexists|].
  case_decide; [apply tryFindAndJoinLeader_total|by eexists].
Qed.

Lemma apply_op_refines now c s :
  ∃ w', apply_op now c s = (mkStore (kv_apply (too_old now c) c (m s)) w', Ret RNil) ∧
    (Op c ≠ "set" ∨ Key c ≠ "/raft/cluster" ∨ too_old now c = true → w' = world s).
Proof.
  unfold apply_op, kv_apply. case_decide as Hop.
  - destruct (too_old now c); [exists (world s); by destruct s|].
    case_decide as Hk.
    + unfold mbind, M_bind. rewrite liftW_run.
      destruct (processSetRaftCluster_total c (world s)) as [w' ->]. exists w'. naive_solver.
    + rewrite lockApplyOp_run. by eexists.
  - case_decide; [rewrite lockApplyOp_run; by eexists|]. exists (world s). by destruct s.
Qed.

(** ** Apply *)

(** C1. What a committed entry does, on every branch.  An entry that does not decode
    panics and changes nothing; an entry taken by the interceptor or a log dealer
    never reaches the map and returns the dealer's response; every other entry
    changes the map exactly as the abstract key-value store says and returns nil.
    The world outside changes only through the interceptor and the peers.json
    update of [/raft/cluster]. *)
Theorem Apply_spec now l s :
  match Unmarshal Command0 (Data l) with
  | (_, Some e) => Apply now l s = (s, Panic ("failed to unmarshal Command: " +:+ Error e))
  | (c, None) =>
      match Intercept l c (world s) with
      | (w, Panic msg) => Apply now l s = (mkStore (m s) w, Panic msg)
      | (w, Ret (rsp, true)) => Apply now l s = (mkStore (m s) w, Ret rsp)
      | (w, Ret (_, false)) =>
          ∃ w', Apply now l s = (mkStore (kv_apply (too_old now c) c (m s)) w', Ret RNil) ∧
            (Op c ≠ "set" ∨ Key c ≠ "/raft/cluster" ∨ too_old now c = true → w' = w)
      end
  end.
Proof.
  unfold Apply. destruct (Unmarshal Command0 (Data l)) as [c [e|]]; [done|].
  unfold mbind, M_bind. rewrite liftW_run.
  destruct (Intercept l c (world s)) as [w [[rsp []]|msg]]; [done| |done].
  apply (apply_op_refines now c (mkStore (m s) w)).
Qed.

Lemma Intercept_none l c w : ApplyInterceptor = None → Dealers LogDealer !! Key c = None →
  Intercept l c w = (w, Ret (RNil, false)).
Proof.
  intros HI HD. unfold Intercept, invoke_dealer. rewrite HI. unfold mbind, M_bind.
  by rewrite invoke_unknown.
Qed.

(** A log dealer takes the commands of its key: with the value decoded at the
    dealer's type, a nil error returns the dealer's value and any error but the two
    sentinels returns that error, the map untouched either way; a dealer that
    returns [ErrDealerContinue] (or [ErrDealerNoExists]), wrapped or not, lets the
    command through to the map. *)
Theorem Apply_log_dealer now l s c d req w x err :
  Unmarshal Command0 (Data l) = (c, None) → ApplyInterceptor = None →
  Dealers LogDealer !! Key c = Some d →
  unmarshal_new (match ReqType d with TPtr e => e | t => t end) (Value c) = inl req →
  Fn d (match ReqType d with TPtr _ => ptr_to req | _ => req end) (world s) = (w, Ret (x, err)) →
  match err with
  | None => Apply now l s = (mkStore (m s) w, Ret (RValue (Some x)))
  | Some e =>
      if errors_Is e ErrDealerNoExists || errors_Is e ErrDealerContinue then
        ∃ w', Apply now l s = (mkStore (kv_apply (too_old now c) c (m s)) w', Ret RNil)
      else Apply now l s = (mkStore (m s) w, Ret (RError e))
  end.
Proof.
  intros Hc HI HD Hreq Hcall. unfold Apply. rewrite Hc. unfold mbind, M_bind. rewrite liftW_run.
  assert (invoke_dealer c (world s) = (w, Ret match err with
      | None => (RValue (Some x), true)
      | Some e => if errors_Is e ErrDealerNoExists || errors_Is e ErrDealerContinue
                  then (RNil, false) else (RError e, true) end)) as E.
  { unfold invoke_dealer, Invoke. rewrite HD.
    destruct (ReqType d); simpl in *; rewrite Hreq; unfold mbind, M_bind; rewrite Hcall;
      destruct err as [e|]; simpl; by try destruct (_ || _). }
  unfold Intercept. rewrite HI, E. destruct err as [e|]; [|done].
  destruct (_ || _); [|done]. simpl.
  destruct (apply_op_refines now c (mkStore (m s) w)) as (w' & -> & _). by exists w'.
Qed.

(** ** The age of a set command *)

(** C18. Which set commands a replica keeps: one stamped by [FormatTime] at the
    instant [t] on a node [off] seconds east of UTC is kept at the instant [now]
    exactly when [now] is at most 100 seconds after the local reading of [t] cut to
    milliseconds and read back as UTC. *)
Theorem set_fresh_iff t off now key value :
  (0 ≤ wall_year (t + off * second) < 10000)%Z →
  too_old now (mkCommand "set" key value (FormatTime t off)) = false ↔
  (now ≤ t + off * second - (t + off * second) `mod` millisecond + 100 * second)%Z.
Proof.
  intros Hy. unfold too_old, FormatTime. simpl. rewrite ParseTime_format_wall by done.
  rewrite Z.ltb_ge. unfold max_age. lia.
Qed.

(** C17. On a node more than 101 seconds west of UTC every set is lost: its command
    counts as too old at the very instant it was made, and at all later ones, on
    every replica, and leaves the map as it was. *)
Theorem set_west_of_utc_lost t off now key value s :
  (off ≤ -101)%Z → (t ≤ now)%Z → (0 ≤ wall_year (t + off * second) < 10000)%Z →
  ApplyInterceptor = None → Dealers LogDealer !! key = None →
  Unmarshal Command0 (Marshal (mkCommand "set" key value (FormatTime t off))) =
    (mkCommand "set" key value (FormatTime t off), None) →
  Apply now (mkLog (Marshal (mkCommand "set" key value (FormatTime t off)))) s = (s, Ret RNil).
Proof.
  intros Hoff Ht Hy HI HD Hc. unfold Apply. cbn [Data]. rewrite Hc. unfold mbind, M_bind.
  rewrite liftW_run, Intercept_none by done. cbn [fst snd].
  unfold apply_op. cbn [Op]. rewrite decide_True by done.
  replace (too_old now _) with true; [by destruct s|]. symmetry.
  unfold too_old, FormatTime. cbn [Time]. rewrite ParseTime_format_wall by done.
  apply Z.ltb_lt. unfold max_age.
  pose proof (Z.mod_pos_bound (t + off * second) millisecond ltac:(done)). unfold second in *. lia.
Qed.

(** ** Snapshots *)

(** C9. A snapshot carries the map over: whatever sink it is persisted to, if
    [Persist] succeeds then restoring the sink's contents into any store gives that
    store the map of the snapshot, its world unchanged; if it fails then the sink
    was cancelled last; and taking it changes nothing. *)
Theorem snapshot_restore {S} (Write : string → S → S * option error) Close Cancel
    (contents : S → string) (valid : gmap string string → Prop)
    (Hlaws : CodecLaws (gmap string string) ∅ valid)
    (Hwrite : ∀ d sk sk', Write d sk = (sk', None) → contents sk' = contents sk +:+ d)
    (Hclose : ∀ sk sk', Close sk = (sk', None) → contents sk' = contents sk) s t sk :
  valid (m s) → contents sk = "" →
  ∃ snap, Snapshot s = (s, Ret snap) ∧
    match Persist Write Close Cancel snap sk with
    | (sk', Ret None) => Restore (contents sk') t = (mkStore (m s) (world t), Ret None)
    | (sk', Ret (Some e)) => ∃ sk1, sk' = (Cancel sk1).1
    | (_, Panic _) => False
    end.
Proof.
  intros Hv Hsk. unfold Snapshot. rewrite lockApplyOp_run. simpl. rewrite (CloneMap_same (m s)) by done.
  eexists. split; [by destruct s|]. unfold Persist, ext, mbind, M_bind.
  destruct (Write (Marshal (m s)) sk) as [k1 [e|]] eqn:E1.
  { destruct (Cancel k1) as [k2 ?] eqn:E2. simpl. rewrite E2. exists k1. by rewrite E2. }
  destruct (Close k1) as [k2 [e|]] eqn:E2.
  { destruct (Cancel k2) as [k3 ?] eqn:E3. simpl. exists k2. by rewrite E3. }
  simpl. unfold Restore.
  rewrite (Hclose _ _ E2), (Hwrite _ _ _ E1), Hsk, str_app_nil_l.
  by rewrite Decode_Marshal.
Qed.

(** Reading a key changes nothing and returns the map's value. *)
Lemma Get_run key s : Get key s = (s, Ret (m s !! key)).
Proof. unfold Get. rewrite lockApplyOp_run. by destruct s. Qed.
End fsm.

(** ** Witnesses, on the simulated node *)

Section witnesses.
Import Wire SimNode.

Definition no_decode (t : gotype) (body : string) : string + error := inl body.
Definition sim_apply (dealers : DealerMap sim string) :=
  Apply (D := string) no_decode id MakeArg dealers None.

(** 2020-09-13 12:26:40.123456789 UTC. *)
Definition a_moment : Z := 1600000000123456789.

Lemma set_fresh_iff_witness :
  (0 ≤ wall_year (a_moment + 28800 * second) < 10000)%Z ∧
  (too_old (a_moment + 28900 * second - millisecond) (mkCommand "set" "k" "v" (FormatTime a_moment 28800)) = false ↔
   (a_moment + 28900 * second - millisecond ≤
    a_moment + 28800 * second - (a_moment + 28800 * second) `mod` millisecond + 100 * second)%Z).
Proof.
  split; [vm_compute; split; congruence|].
  apply (set_fresh_iff a_moment 28800). vm_compute; split; congruence.
Defined.

(** New York, UTC-5: a set is dropped at once. *)
Lemma set_west_of_utc_lost_witness :
  sim_apply MakeDealerMap a_moment
    (mkLog (Marshal (mkCommand "set" "k" "v" (FormatTime a_moment (-18000))))) (New sim_leader_node) =
  (New sim_leader_node, Ret RNil).
Proof.
  apply (set_west_of_utc_lost (D := string)); [lia|lia| |done|done|].
  - vm_compute; split; congruence.
  - by apply (Unmarshal_Marshal (valid := λ _, True)).
Defined.

Example set_east_of_utc_kept :
  (m (sim_apply MakeDealerMap a_moment
    (mkLog (Marshal (mkCommand "set" "k" "v" (FormatTime a_moment 28800)))) (New sim_leader_node)).1)
  !! "k" = Some "v".
Proof. vm_compute. reflexivity. Qed.

Definition test_dealers : DealerMap sim string :=
  mkDealerMap {["/k" := mkDealer (λ v w, (w, Ret (v +:+ "!", Some ErrDealerContinue))) (TPtr (TNamed "T"))]}.
Definition test_command : Command := mkCommand "delete" "/k" "v" "".

Lemma Apply_log_dealer_witness :
  ∃ w', sim_apply test_dealers a_moment (mkLog (Marshal test_command))
          (mkStore {["/k" := "old"]} sim_leader_node) =
    (mkStore (kv_apply (too_old a_moment test_command) test_command {["/k" := "old"]}) w', Ret RNil).
Proof.
  exact (Apply_log_dealer (D := string) no_decode id MakeArg test_dealers None a_moment
    (mkLog (Marshal test_command)) (mkStore {["/k" := "old"]} sim_leader_node) test_command
    (mkDealer (λ v w, (w, Ret (v +:+ "!", Some ErrDealerContinue))) (TPtr (TNamed "T")))
    "v" sim_leader_node "v!" (Some ErrDealerContinue)
    (Unmarshal_Marshal (valid := λ _, True) test_command I) eq_refl eq_refl eq_refl eq_refl).
Defined.

(** A sink that keeps what is written to it. *)
Definition mem_Write (d sk : string) : string * option error := (sk +:+ d, None).
Definition mem_Close (sk : string) : string * option error := (sk, None).
Definition mem_Cancel (sk : string) : string * option error := ("cancelled", None).

Lemma snapshot_restore_witness :
  let s := mkStore {["k1" := "v1"; "k2" := "v2"]} sim_leader_node in
  let t := mkStore {["other" := "x"]} sim_follower_node in
  ∃ snap, Snapshot s = (s, Ret snap) ∧
    match Persist mem_Write mem_Close mem_Cancel snap "" with
    | (sk', Ret None) => Restore sk' t = (mkStore (m s) (world t), Ret None)
    | (sk', Ret (Some e)) => ∃ sk1, sk' = (mem_Cancel sk1).1
    | (_, Panic _) => False
    end.
Proof.
  intros s t.
  apply (snapshot_restore mem_Write mem_Close mem_Cancel id (λ _, True) kv_laws).
  - intros d sk sk' [= <-]. done.
  - intros sk sk' [= <-]. done.
  - done.
  - done.
Defined.
End witnesses.
