(* ===== verification/Sharing.v ===== *)
(** * Snapshots and the maps they share: [store.go] (Snapshot, Restore, Persist) over a heap

    A Go map is a reference: raft persists a snapshot while the node goes on applying
    entries, so the snapshot must not be the node's own map.  Here the maps of a node
    live in a heap and its store holds the address of one.  [Apply] assigns into that map,
    in place; [Snapshot] allocates a clone; [Restore] allocates the decoded map and
    makes it the store's.  Each does to the map behind the address what Fsm.v says. *)

From stdpp Require Import prelude gmap strings.
From S2P Require Import Prelude.
From S2P Require Import Util.
From S2P Require Import Model.
From S2P Require Import Externals.
From S2P Require Import Sim.
From S2P Require Import Dealer.
From S2P Require Import Arg.
From S2P Require Import Client.
From S2P Require Import Fsm.

Section sharing.
Context {W D V : Type} `{Raft W} `{Network W} `{FileSystem W}.
Context `{Codec Command} `{!Codec (gmap string string)} `{Codec RaftCluster}.
Context `{Codec (list ConfigEntry)} `{Codec JoinRequest} `{!Codec (Rsp D)}.
Context (unmarshal_new : gotype → string → V + error) (ptr_to : V → V) (arg : Arg).
Context (dealers : DealerMap W V) (interceptor : option (Log → Command → M W bool)).

(** The maps by address; [current] is the one in the field [m] of the store. *)
Record heap_store : Type := mkHeap {
  maps : gmap nat (gmap string string); current : nat; heap_world : W
}.

(** The map at an address, the empty one if there is none. *)
Definition map_at (hs : heap_store) (l : nat) : gmap string string := default ∅ (maps hs !! l).

(** The store of Fsm.v behind the address. *)
Definition value (hs : heap_store) : RaftStore W := mkStore (map_at hs (current hs)) (heap_world hs).

Definition alloc (o : gmap string string) (hs : heap_store) : heap_store * nat :=
  let l := fresh (dom (maps hs) : gset nat) in
  (mkHeap (<[l := o]> (maps hs)) (current hs) (heap_world hs), l).

(** An operation that only assigns into the store's map and deletes from it. *)
Definition in_place {A} (f : M (RaftStore W) A) : M heap_store A := λ hs,
  let '(s, r) := f (value hs) in (mkHeap (<[current hs := m s]> (maps hs)) (current hs) (world s), r).

Definition heap_Apply (now : Z) (l : Log) : M heap_store (response V) :=
  in_place (Apply (D := D) unmarshal_new ptr_to arg dealers interceptor now l).

(** The snapshot is the address of the clone. *)
Definition heap_Snapshot : M heap_store nat := λ hs,
  let '(hs, l) := alloc (CloneMap (map_to_list (m (value hs)))) hs in (hs, Ret l).

Definition heap_Restore (rc : string) : M heap_store (option error) := λ hs,
  match Decode (∅ : gmap string string) rc with
  | (_, Some e) => (hs, Ret (Some e))
  | (o, None) => let '(hs, l) := alloc o hs in (mkHeap (maps hs) l (heap_world hs), Ret None)
  end.

(** Persisting reads the map of the snapshot when it runs. *)
Definition heap_Persist {S} (Write : string → S → S * option error) (Close Cancel : S → S * option error)
    (hs : heap_store) (l : nat) : M S (option error) := Persist Write Close Cancel (map_at hs l).

(** ** They refine the operations on the value *)

Definition in_heap (hs : heap_store) : Prop := is_Some (maps hs !! current hs).

Lemma alloc_fresh o hs : maps hs !! (alloc o hs).2 = None.
Proof. apply not_elem_of_dom, is_fresh. Qed.

(** Allocating leaves the other maps alone. *)
Lemma alloc_other o hs l : is_Some (maps hs !! l) → map_at (alloc o hs).1 l = map_at hs l.
Proof.
  intros Hl. unfold map_at. cbn [alloc fst maps]. rewrite lookup_insert_ne; [done|].
  intros E. pose proof (alloc_fresh o hs) as Hn. cbn [alloc snd] in Hn. rewrite E in Hn.
  rewrite Hn in Hl. by destruct Hl.
Qed.

Theorem heap_refines hs : in_heap hs →
  (∀ now l, let '(hs', r) := heap_Apply now l hs in
     Apply (D := D) unmarshal_new ptr_to arg dealers interceptor now l (value hs) = (value hs', r) ∧ in_heap hs') ∧
  (∃ l, (heap_Snapshot hs).2 = Ret l ∧ value (heap_Snapshot hs).1 = value hs ∧
     map_at (heap_Snapshot hs).1 l = m (value hs) ∧ in_heap (heap_Snapshot hs).1) ∧
  (∀ rc, let '(hs', r) := heap_Restore rc hs in
     Restore rc (value hs) = (value hs', r) ∧ in_heap hs').
Proof.
  intros Hhs. split_and!.
  - intros now l. unfold heap_Apply, in_place. destruct (Apply _ _ _ _ _ now l (value hs)) as [s r].
    unfold value, map_at, in_heap. cbn [maps current heap_world]. rewrite lookup_insert_eq.
    split; [by destruct s|done].
  - unfold heap_Snapshot. rewrite (CloneMap_same (m (value hs))) by done.
    pose proof (alloc_other (m (value hs)) hs (current hs) Hhs) as Hother.
    cbn [alloc fst snd] in Hother |- *. eexists. split; [done|].
    unfold in_heap, value in *. cbn [current heap_world] in *. rewrite Hother. split; [done|].
    unfold map_at. cbn [maps]. rewrite lookup_insert_eq. split; [done|].
    destruct (decide (fresh (dom (maps hs) : gset nat) = current hs)) as [<-|];
      [by rewrite lookup_insert_eq|by rewrite lookup_insert_ne].
  - intros rc. unfold heap_Restore, Restore. destruct (Decode ∅ rc) as [o [e|]]; [done|].
    unfold value, map_at, in_heap. cbn [alloc maps current heap_world]. by rewrite lookup_insert_eq.
Qed.

(** ** Isolation *)

(** What the node may do between taking a snapshot and persisting it. *)
Inductive goes_on (hs : heap_store) : heap_store → Prop :=
| on_apply now l : goes_on hs (heap_Apply now l hs).1
| on_snapshot : goes_on hs (heap_Snapshot hs).1
| on_restore rc : goes_on hs (heap_Restore rc hs).1
| on_world w : goes_on hs (mkHeap (maps hs) (current hs) w).

Lemma goes_on_frame hs hs' l : goes_on hs hs' → in_heap hs → is_Some (maps hs !! l) → l ≠ current hs →
  in_heap hs' ∧ is_Some (maps hs' !! l) ∧ l ≠ current hs' ∧ map_at hs' l = map_at hs l.
Proof.
  intros Hon Hhs Hl Hne.
  assert (∀ o, is_Some (maps (alloc o hs).1 !! l)) as Hsome.
  { intros o. cbn [alloc fst maps]. rewrite lookup_insert_is_Some'. by right. }
  destruct Hon as [now lg| |rc|w]; [| | |done].
  - unfold heap_Apply, in_place. destruct (Apply _ _ _ _ _ now lg (value hs)) as [s r].
    unfold in_heap, map_at. cbn [fst maps current]. rewrite lookup_insert_eq, lookup_insert_ne by done. done.
  - unfold heap_Snapshot. set (o := CloneMap _).
    change (let '(hs0, l0) := alloc o hs in (hs0, Ret l0)) with ((alloc o hs).1, Ret (alloc o hs).2).
    cbn [fst]. split; [|by rewrite alloc_other].
    unfold in_heap. cbn [alloc fst maps current]. rewrite lookup_insert_is_Some'. by right.
  - unfold heap_Restore. destruct (Decode ∅ rc) as [o [e|]]; [done|].
    pose proof (alloc_fresh o hs) as Hn. cbn [alloc fst snd maps current] in *.
    split; [unfold in_heap; cbn; by rewrite lookup_insert_eq|]. split; [by apply (Hsome o)|].
    split; [intros ->; rewrite Hn in Hl; by destruct Hl|]. by apply (alloc_other o).
Qed.

(** C30. A snapshot is isolated from what comes after it.  However many entries the node
    applies, whatever it restores and however often it takes snapshots in between,
    persisting a snapshot writes the map the node had when it was taken; and taking it
    leaves the node's map as it was. *)
Theorem snapshot_isolated hs hs1 hs2 l : in_heap hs →
  heap_Snapshot hs = (hs1, Ret l) → rtc goes_on hs1 hs2 →
  value hs1 = value hs ∧
  ∀ S (Write : string → S → S * option error) Close Cancel sink,
    heap_Persist Write Close Cancel hs2 l sink = Persist Write Close Cancel (m (value hs)) sink.
Proof.
  intros Hhs Hsnap Hrtc.
  destruct (heap_refines hs Hhs) as (_ & (l' & El & Hv & Hm & Hin) & _). rewrite Hsnap in El, Hv, Hm, Hin.
  injection El as <-. split; [done|]. intros S Write Close Cancel sink. unfold heap_Persist.
  cbn [fst] in *. rewrite <-Hm. f_equal.
  assert (is_Some (maps hs1 !! l) ∧ l ≠ current hs1) as [Hl Hne].
  { unfold heap_Snapshot in Hsnap. injection Hsnap as <- <-. cbn [maps current].
    rewrite lookup_insert_eq. split; [done|]. intros E.
    pose proof (alloc_fresh ∅ hs) as Hn. cbn [alloc snd] in Hn. unfold in_heap in Hhs.
    rewrite <-E, Hn in Hhs. by destruct Hhs. }
  clear Hm Hsnap Hv. induction Hrtc as [|hs1 hs2 hs3 Hon _ IH]; [done|].
  destruct (goes_on_frame _ _ l Hon Hin Hl Hne) as (Hin' & Hl' & Hne' & <-). by apply IH.
Qed.
End sharing.

(** ** Witness: a delete between the snapshot and its write *)

Section witnesses.
Import Wire SimNode.

Definition shared : heap_store := mkHeap {[0 := {["k" := "v"]}]} 0 sim_leader_node.
Definition delete_k : Log := mkLog (Marshal (mkCommand "delete" "k" "" "")).
Definition deleted : heap_store :=
  (heap_Apply (D := string) no_decode id MakeArg MakeDealerMap None a_moment delete_k (heap_Snapshot shared).1).1.

Lemma snapshot_isolated_witness :
  value (heap_Snapshot shared).1 = value shared ∧
  ∀ S (Write : string → S → S * option error) Close Cancel sink,
    heap_Persist Write Close Cancel deleted 1 sink = Persist Write Close Cancel {["k" := "v"]} sink.
Proof.
  refine (snapshot_isolated (D := string) no_decode id MakeArg MakeDealerMap None shared
    (heap_Snapshot shared).1 deleted 1 _ _ _).
  - by eexists.
  - vm_compute. reflexivity.
  - apply rtc_once, on_apply.
Defined.

(** The node's own map has lost the key by then. *)
Example deleted_key : m (value deleted) = ∅.
Proof. apply map_eq. intros k. vm_compute. by destruct k. Qed.
End witnesses.
