(* ===== verification/Store.v ===== *)
(** * The store's interface to raft: [store.go]

    Leadership, membership, proposals, the cluster view, peers.json and the two
    waiting loops.  The operations work on the world; the map itself is changed by
    [Fsm.Apply] only. *)

From stdpp Require Import prelude gmap strings.
From S2P Require Import Prelude.
From S2P Require Import GoStd.
From S2P Require Import GoTime.
From S2P Require Import Util.
From S2P Require Import Model.
From S2P Require Import Externals.
From S2P Require Import Sim.
From S2P Require Import Dealer.
From S2P Require Import Arg.
From S2P Require Import Client.
From S2P Require Import Fsm.

(** A value of [RaftStats]: raft's text, or the entries of the configuration. *)
Inductive stat : Type :=
| StatText (s : string)
| StatServers (nodes : list ConfigEntry).

Definition ParseSuffrage (s : string) : ServerSuffrage :=
  if decide (s = "Voter") then Voter
  else if decide (s = "Nonvoter") then Nonvoter
  else if decide (s = "Staging") then Staging
  else Voter.

(** What a [select] on a ticker and a timer receives, with what the rest of the
    program and the network did to the world since the last one.  What is done at a
    tick need not come to an end: [hang] is a tick whose work gets stuck after
    [during], which is nothing that can happen where [H] is empty. *)
Inductive wait_event (W H : Type) : Type :=
| tck (before : W → W)
| tmr (before : W → W)
| hang (before : W → W) (during : H).
Arguments tck {W H} before.
Arguments tmr {W H} before.
Arguments hang {W H} before during.

(** The wait for a leader sends requests at its ticks, by a client without a timeout;
    the wait for the log only looks. *)
Definition leader_event (W : Type) : Type := wait_event W (W → W).
Definition applied_event (W : Type) : Type := wait_event W Empty_set.

(** What an event that is a tick does before the tick. *)
Definition tick_of {W H} (e : wait_event W H) : option (W → W) :=
  match e with tck before | hang before _ => Some before | tmr _ => None end.

Section store.
Context {W D : Type} `{Raft W} `{Network W} `{FileSystem W} `{RaftCreation W}.
Context `{Codec Command} `{Codec RaftCluster} `{Codec (list ConfigEntry)}.
Context `{Codec JoinRequest} `{!Codec (Rsp D)}.
Context (arg : Arg).

(** ** Leadership *)

Definition NodeState : M W string := gets (λ w, RaftState_String (raft_State w)).
Definition is_leader (w : W) : bool := bool_decide (raft_State w = RaftLeader).
Definition IsLeader : M W bool := gets is_leader.
Definition LeaderAddr : M W string := gets raft_Leader.

(** ** Walking the configuration

    The walk goes over the servers of the configuration it started with; its
    callback works on the world and on the variables [L] it captures. *)
Section walk.
Context {L : Type}.

Fixpoint walk_loop (fn : Server → M (W * L) (bool * option error)) (servers : list Server)
    : M (W * L) (option error) :=
  match servers with
  | [] => mret None
  | srv :: servers =>
      '(cont, err) ← fn srv;
      match err with
      | Some e => mret (Some (ErrWrap "failed to invoke walk fn: " e))
      | None => if (cont : bool) then walk_loop fn servers else mret None
      end
  end.

Definition walkRaftServers (fn : Server → M (W * L) (bool * option error))
    : M (W * L) (option error) := λ wl,
  match raft_ConfigurationError wl.1 with
  | Some e => (wl, Ret (Some (ErrWrap "failed to get raft configuration: " e)))
  | None => walk_loop fn (raft_Configuration wl.1) wl
  end.
End walk.

(** Run a walk with the captured variables at their initial values. *)
Definition with_local {L A} (l : L) (f : M (W * L) A) : M W (L * A) := λ w,
  match f (w, l) with
  | ((w', l'), Ret a) => (w', Ret (l', a))
  | ((w', _), Panic msg) => (w', Panic msg)
  end.

(** A call on the world, inside a walk. *)
Definition on_world {L A} (f : M W A) : M (W * L) A := λ wl,
  let '(w, a) := f wl.1 in ((w, wl.2), a).
Definition set_local {L} (l : L) : M (W * L) unit := λ wl, ((wl.1, l), Ret tt).
Definition get_local {L} : M (W * L) L := λ wl, (wl, Ret wl.2).

(** ** Views of the cluster *)

Definition config_entry (server : Server) : ConfigEntry :=
  mkConfigEntry (Server_ID server) (Server_Address server) (Suffrage_String (Suffrage server)).

Definition RaftStats : M W (gmap string stat) := gets (λ w,
  map_imap (λ k v, Some (if decide (k ≠ "latest_configuration") then StatText v
                         else StatServers (config_entry <$> raft_Configuration w))) (raft_Stats w)).

Definition LeadServer : M W (Peer * option error) :=
  leader ← gets raft_Leader;
  if decide (leader = "") then mret (Peer0, Some (ErrText "leader NA"))
  else
    '(peer, err) ← with_local Peer0 (walkRaftServers (λ srv,
      if decide (leader ≠ Server_Address srv) then mret (true, None)
      else
        _ ← set_local (mkPeer (Server_Address srv) (Server_ID srv) (RaftState_String RaftLeader) "");
        mret (false, None)));
    match err with
    | Some e => mret (peer, Some e)
    | None =>
        if decide (Peer_ID peer = "") then mret (peer, Some (ErrText "leader NA"))
        else mret (peer, None)
    end.

(** The peer of one server, in the order the code fills in its state. *)
Definition set_state (st : string) (p : Peer) : Peer :=
  mkPeer (Peer_Address p) (Peer_ID p) st (Peer_Suffrage p).

Definition cluster_fn (leaderAddress : string) (srv : Server)
    : M (W * RaftCluster) (bool * option error) :=
  let peer := mkPeer (Server_Address srv) (Server_ID srv) "" (Suffrage_String (Suffrage srv)) in
  peer ← (if decide (leaderAddress = Server_Address srv) then
            let peer := set_state (RaftState_String RaftLeader) peer in
            cluster ← get_local;
            _ ← set_local (mkRaftCluster (Current cluster) peer (Servers cluster)); mret peer
          else mret peer);
  peer ← (if decide (Arg_NodeID arg = Peer_ID peer) then
            st ← on_world NodeState;
            let peer := set_state st peer in
            cluster ← get_local;
            _ ← set_local (mkRaftCluster peer (Leader cluster) (Servers cluster)); mret peer
          else mret peer);
  peer ← (if decide (Peer_State peer = "") then
            r ← on_world (getNodeState (D := D) (Peer_ID peer));
            mret (if Rsp_OK r then set_state (Rsp_Msg r) peer else peer)
          else mret peer);
  let peer := if decide (Peer_State peer = "") then set_state "Lost" peer else peer in
  cluster ← get_local;
  _ ← set_local (mkRaftCluster (Current cluster) (Leader cluster) (Servers cluster ++ [peer]));
  mret (true, None).

Definition RaftStore_Cluster : M W (RaftCluster * option error) :=
  leaderAddress ← gets raft_Leader;
  with_local RaftCluster0 (walkRaftServers (cluster_fn leaderAddress)).

(** ** Proposals; the clock reads [now] in a zone [off] seconds east of UTC *)

Definition Set_ (now off : Z) (key value : string) : M W (option error) :=
  leader ← IsLeader;
  if negb leader then mret (Some ErrNotLeader)
  else ext (raft_Apply (Marshal (mkCommand "set" key value (FormatTime now off)))).

Definition Delete (now off : Z) (key : string) : M W (option error) :=
  leader ← IsLeader;
  if negb leader then mret (Some ErrNotLeader)
  else ext (raft_Apply (Marshal (mkCommand "delete" key "" (FormatTime now off)))).

(** ** Membership *)

Definition writeConfigEntries : M W (option error) :=
  entries ← gets (λ w, config_entry <$> raft_Configuration w);
  writePeersJSON arg entries.

Definition Remove (nodeID : string) : M W (option error) :=
  st ← gets raft_State;
  if decide (st ≠ RaftLeader) then mret (Some ErrNotLeader)
  else
    err ← ext (raft_RemoveServer nodeID);
    match err with
    | Some e => mret (Some e)
    | None => _ ← writeConfigEntries; mret None
    end.

Definition join_fn (nodeID addr : string) (srv : Server) : M (W * bool) (bool * option error) :=
  let idEquals := bool_decide (Server_ID srv = nodeID) in
  let addrEquals := bool_decide (Server_Address srv = addr) in
  if addrEquals && idEquals then _ ← set_local true; mret (false, None)
  else if idEquals || addrEquals then
    err ← on_world (ext (raft_RemoveServer (Server_ID srv)));
    match err with
    | Some e =>
        mret (false, Some (ErrWrap ("error removing existing node " +:+ nodeID +:+ " at " +:+
                                    addr +:+ ": ") e))
    | None => mret (true, None)
    end
  else mret (true, None).

Definition RaftStore_Join (nodeID addr : string) : M W (option error) :=
  st ← gets raft_State;
  if decide (st ≠ RaftLeader) then mret (Some ErrNotLeader)
  else
    '(alreadyJoined, err) ← with_local false (walkRaftServers (join_fn nodeID addr));
    match err with
    | Some e => mret (Some e)
    | None =>
        if (alreadyJoined : bool) then mret None
        else
          err ← ext (raft_AddVoter nodeID addr);
          match err with
          | Some e => mret (Some (ErrWrap ("node " +:+ nodeID +:+ " at " +:+ addr +:+ " joined error ") e))
          | None => _ ← writeConfigEntries; mret None
          end
    end.

(** ** peers.json and opening *)

Definition entry_server (peer : ConfigEntry) : Server :=
  mkServer (ParseSuffrage (Entry_Suffrage peer)) (Entry_ID peer) (Entry_Address peer).

Definition ReadPeersJSON (path : string) : M W (list Server * option error) :=
  buf ← gets (ioutil_ReadFile path);
  match buf with
  | inr err => mret ([], Some err)
  | inl buf =>
      let '(peers, err) := Decode ([] : list ConfigEntry) buf in
      match err with
      | Some e => mret ([], Some e)
      | None =>
          mret (entry_server <$> peers, None)
      end
  end.

(** The last server that says it is the leader. *)
Fixpoint tryJoinLeader_loop (leaderID : NodeID) (servers : list Server) : M W NodeID :=
  match servers with
  | [] => mret leaderID
  | server :: servers =>
      r ← getNodeState (D := D) (Server_ID server);
      tryJoinLeader_loop
        (if Rsp_OK r && bool_decide (Rsp_Msg r = StateLeader) then Server_ID server else leaderID)
        servers
  end.
Definition tryJoinLeader (servers : list Server) : M W bool :=
  leaderID ← tryJoinLeader_loop "" servers;
  if decide (leaderID = "") then mret false
  else
    err ← Join (D := D) (HTTPAddr leaderID) (Arg_RaftAddr arg) (Arg_NodeID arg);
    mret (bool_decide (err = None)).

Definition recoverJoin (peerFile : string) : M W (option error) :=
  '(c, err) ← ReadPeersJSON peerFile;
  match err with
  | Some e => mret (Some e)
  | None => ok ← tryJoinLeader c; if (ok : bool) then mret None else log ≫= λ _, mret None
  end.

Definition retainSnapshotCount : Z := 2.

Definition createStores : M W (option error) :=
  if InMem arg then mret None
  else
    err ← ext (NewBoltStore (filepath_Join [RaftNodeDir arg; "raft.db"]));
    match err with
    | Some e => mret (Some (ErrText ("new bolt store: " +:+ Error e)))
    | None =>
        err ← ext (NewFileSnapshotStore (RaftNodeDir arg) retainSnapshotCount);
        match err with
        | Some e => mret (Some (ErrText ("file snapshot store: " +:+ Error e)))
        | None => mret None
        end
    end.

Definition createTransport : M W (string + error) :=
  err ← ext (net_ResolveTCPAddr (Arg_RaftAddr arg));
  match err with
  | Some e => mret (inr e)
  | None => ext (NewTCPTransport (Arg_RaftAddr arg))
  end.

Definition Open : M W (option error) :=
  let config := mkConfig (30 * second) 0 0 (Arg_NodeID arg) in
  _ ← modify (os_MkdirAll (RaftNodeDir arg) ModePerm);
  peerFileExits ← gets (λ w, negb (InMem arg) && PathExists (peerFile arg) w);
  err ← createStores;
  match err with
  | Some e => mret (Some e)
  | None =>
      t ← createTransport;
      match t with
      | inr e => mret (Some e)
      | inl localAddr =>
          err ← ext (NewRaft config);
          match err with
          | Some e => mret (Some (ErrText ("new raft: " +:+ Error e)))
          | None =>
              _ ← (if Bootstrap arg && negb peerFileExits then
                     modify (raft_BootstrapCluster [mkServer Voter (LocalID config) localAddr])
                   else mret tt);
              if (peerFileExits : bool) then recoverJoin (peerFile arg) else mret None
          end
      end
  end.

(** ** Waiting; [None] while the loop blocks, on its next event or in a request

    [events t] is what the [select] receives when its timer is set to [t]. *)

Definition joinNodesFromLeader : M W unit :=
  '(cluster, err) ← RaftStore_Cluster;
  match err with
  | Some _ => mret tt
  | None => tryFindAndJoinLeader (D := D) arg cluster
  end.

Fixpoint WaitForLeader_loop (events : list (leader_event W)) : M W (option (string * option error)) :=
  match events with
  | [] => mret None
  | tck before :: events =>
      _ ← modify before;
      l ← LeaderAddr;
      if decide (l ≠ "") then mret (Some (l, None))
      else _ ← joinNodesFromLeader; WaitForLeader_loop events
  | hang before during :: _ =>
      _ ← modify before;
      l ← LeaderAddr;
      if decide (l ≠ "") then mret (Some (l, None))
      else _ ← modify during; mret None
  | tmr before :: _ =>
      _ ← modify before; mret (Some ("", Some (ErrText "WaitForLeader timeout expired")))
  end.
Definition WaitForLeader (timeout : Z) (events : Z → list (leader_event W))
    : M W (option (string * option error)) := WaitForLeader_loop (events timeout).

Fixpoint WaitForAppliedIndex_loop (idx : Z) (events : list (applied_event W)) : M W (option (option error)) :=
  match events with
  | [] => mret None
  | tck before :: events =>
      _ ← modify before;
      applied ← gets raft_AppliedIndex;
      if (idx <=? applied)%Z then mret (Some None) else WaitForAppliedIndex_loop idx events
  | hang _ during :: _ => match during with end
  | tmr before :: _ =>
      _ ← modify before; mret (Some (Some (ErrText "timeout expired")))
  end.
Definition WaitForAppliedIndex (idx timeout : Z) (events : Z → list (applied_event W))
    : M W (option (option error)) := WaitForAppliedIndex_loop idx (events timeout).

Definition WaitForApplied (timeout : Z) (events : Z → list (applied_event W))
    : M W (option (option error)) :=
  if (timeout =? 0)%Z then mret (Some None)
  else
    idx ← gets raft_LastIndex;
    r ← WaitForAppliedIndex idx timeout events;
    match r with
    | None => mret None
    | Some (Some _) => mret (Some (Some ErrOpenTimeout))
    | Some None => mret (Some None)
    end.

(** ** Leadership guards *)

Lemma not_leader_refused now off key value nodeID addr w : is_leader w = false →
  Set_ now off key value w = (w, Ret (Some ErrNotLeader)) ∧
  Delete now off key w = (w, Ret (Some ErrNotLeader)) ∧
  Remove nodeID w = (w, Ret (Some ErrNotLeader)) ∧
  RaftStore_Join nodeID addr w = (w, Ret (Some ErrNotLeader)).
Proof.
  unfold Set_, Delete, Remove, RaftStore_Join, IsLeader, gets, mbind, M_bind.
  intros Hs. rewrite Hs. unfold is_leader in Hs. case_bool_decide; [done|].
  by rewrite !decide_True by done.
Qed.

(** C16. Only the leader changes anything: on a node in any other state the four
    writing operations return [ErrNotLeader] and leave the world as it was; the
    leader proposes exactly the encoded command, stamped with its local time, and
    returns raft's verdict on it. *)
Theorem writes_need_leadership now off key value nodeID addr w :
  (raft_State w ≠ RaftLeader →
     Set_ now off key value w = (w, Ret (Some ErrNotLeader)) ∧
     Delete now off key w = (w, Ret (Some ErrNotLeader)) ∧
     Remove nodeID w = (w, Ret (Some ErrNotLeader)) ∧
     RaftStore_Join nodeID addr w = (w, Ret (Some ErrNotLeader))) ∧
  (raft_State w = RaftLeader →
     Set_ now off key value w =
       ext (raft_Apply (Marshal (mkCommand "set" key value (FormatTime now off)))) w ∧
     Delete now off key w =
       ext (raft_Apply (Marshal (mkCommand "delete" key "" (FormatTime now off)))) w).
Proof.
  split; intros Hs; [by apply not_leader_refused, bool_decide_false|].
  unfold Set_, Delete, IsLeader, is_leader, gets, mbind, M_bind. by rewrite bool_decide_true by done.
Qed.

(** ** Membership *)

(** No two servers share an id or an address. *)
Definition well_formed (conf : list Server) : Prop :=
  NoDup (Server_ID <$> conf) ∧ NoDup (Server_Address <$> conf).

(** The order of the configuration does not matter. *)
#[export] Instance well_formed_proper : Proper ((≡ₚ) ==> iff) well_formed.
Proof. intros c1 c2 E. unfold well_formed. by rewrite E. Qed.

(** The servers that stand in the way of a join, and the server already joined. *)
Definition conflicts (nodeID addr : string) (s : Server) : Prop :=
  Server_ID s = nodeID ∨ Server_Address s = addr.
Definition joined (nodeID addr : string) (s : Server) : Prop :=
  Server_ID s = nodeID ∧ Server_Address s = addr.

Section membership.
Context `{!RaftMembership W}.

(** The callback of the walk, in its three cases. *)
Lemma join_fn_joined nodeID addr srv w b : joined nodeID addr srv →
  join_fn nodeID addr srv (w, b) = ((w, true), Ret (false, None)).
Proof. intros [HI HA]. unfold join_fn. by rewrite !bool_decide_true by done. Qed.

Lemma join_fn_other nodeID addr srv w b : ¬ conflicts nodeID addr srv →
  join_fn nodeID addr srv (w, b) = ((w, b), Ret (true, None)).
Proof.
  unfold conflicts. intros Hc. unfold join_fn. by rewrite !bool_decide_false by naive_solver.
Qed.

Lemma join_fn_conflict nodeID addr srv w b : conflicts nodeID addr srv → ¬ joined nodeID addr srv →
  join_fn nodeID addr srv (w, b) =
    (((raft_RemoveServer (Server_ID srv) w).1, b),
     Ret match (raft_RemoveServer (Server_ID srv) w).2 with
         | Some e => (false, Some (ErrWrap ("error removing existing node " +:+ nodeID +:+ " at " +:+
                                            addr +:+ ": ") e))
         | None => (true, None)
         end).
Proof.
  intros Hc Hj. unfold join_fn, on_world, ext, mbind, M_bind. unfold conflicts, joined in *.
  replace (bool_decide (Server_Address srv = addr) && bool_decide (Server_ID srv = nodeID))
    with false by (repeat case_bool_decide; naive_solver).
  replace (bool_decide (Server_ID srv = nodeID) || bool_decide (Server_Address srv = addr))
    with true by (repeat case_bool_decide; naive_solver).
  cbn [fst snd]. by destruct (raft_RemoveServer (Server_ID srv) w) as [w1 [e|]].
Qed.

(** Servers removed one after the other, each with success. *)
Inductive removed : list string → W → W → Prop :=
| removed_nil w : removed [] w w
| removed_cons id ids w w1 w2 : raft_RemoveServer id w = (w1, None) →
    removed ids w1 w2 → removed (id :: ids) w w2.

(** The ids of the servers of [l] that a join removes. *)
Definition conflict_ids (nodeID addr : string) (l : list Server) : list string :=
  Server_ID <$> filter (conflicts nodeID addr) l.

Lemma removed_configuration ids w w' : removed ids w w' →
  raft_Configuration w' = filter (λ s, Server_ID s ∉ ids) (raft_Configuration w).
Proof.
  induction 1 as [w|id ids w w1 w2 Hr _ IH]; [symmetry; apply filter_all; set_solver|].
  rewrite IH, (RemoveServer_ok _ _ _ Hr), list_filter_filter. apply list_filter_iff. set_solver.
Qed.

Definition remove_error (nodeID addr : string) (e : error) : error :=
  ErrWrap "failed to invoke walk fn: "
    (ErrWrap ("error removing existing node " +:+ nodeID +:+ " at " +:+ addr +:+ ": ") e).

(** The walk of a join removes the conflicting servers of a prefix [l1] of the
    configuration and stops before a server that has joined, at one that cannot be
    removed, or at the end. *)
Lemma walk_join nodeID addr servers w :
  ∃ w' b err l1 l2 w1, servers = l1 ++ l2 ∧
    walk_loop (join_fn nodeID addr) servers (w, false) = ((w', b), Ret err) ∧
    Forall (λ s, ¬ joined nodeID addr s) l1 ∧ removed (conflict_ids nodeID addr l1) w w1 ∧
    match err with
    | None => w' = w1 ∧ if b then ∃ x l3, l2 = x :: l3 ∧ joined nodeID addr x else l2 = []
    | Some e => ∃ x l3 e', l2 = x :: l3 ∧ conflicts nodeID addr x ∧ ¬ joined nodeID addr x ∧
        raft_RemoveServer (Server_ID x) w1 = (w', Some e') ∧ e = remove_error nodeID addr e'
    end.
Proof.
  revert w. induction servers as [|srv servers IH]; intros w; cbn [walk_loop].
  { exists w, false, None, [], [], w. split_and!; done || constructor. }
  unfold mbind, M_bind. destruct (decide (joined nodeID addr srv)) as [Hj|Hj].
  { rewrite join_fn_joined by done. exists w, true, None, [], (srv :: servers), w.
    split_and!; [done|done|done|constructor|done|]. by exists srv, servers. }
  destruct (decide (conflicts nodeID addr srv)) as [Hc|Hc].
  - rewrite join_fn_conflict by done.
    destruct (raft_RemoveServer (Server_ID srv) w) as [w1 [e|]] eqn:Er; cbn [fst snd].
    + exists w1, false. eexists _, [], (srv :: servers), w. split_and!; [done|done|done|constructor|].
      by exists srv, servers, e.
    + destruct (IH w1) as (w' & b & err & l1 & l2 & w2 & -> & -> & Hl1 & Hrem & Hr).
      exists w', b, err, (srv :: l1), l2, w2. split_and!; [done|done|by constructor| |done].
      unfold conflict_ids. rewrite filter_cons_True by done. by econstructor.
  - rewrite join_fn_other by done.
    destruct (IH w) as (w' & b & err & l1 & l2 & w2 & -> & -> & Hl1 & Hrem & Hr).
    exists w', b, err, (srv :: l1), l2, w2. split_and!; [done|done|by constructor| |done].
    unfold conflict_ids. by rewrite filter_cons_False.
Qed.

(** Filtering keeps the servers apart. *)
Lemma well_formed_filter (P : Server → Prop) `{∀ s, Decision (P s)} conf :
  well_formed conf → well_formed (filter P conf).
Proof.
  intros [HI HA]. split; [apply (sublist_NoDup _ _ HI)|apply (sublist_NoDup _ _ HA)];
    apply fmap_sublist, sublist_filter.
Qed.

(** With distinct ids, removing the conflicting servers by id removes just them. *)
Lemma conflicts_removed nodeID addr w w' : well_formed (raft_Configuration w) →
  removed (conflict_ids nodeID addr (raft_Configuration w)) w w' →
  raft_Configuration w' = filter (λ s, ¬ conflicts nodeID addr s) (raft_Configuration w).
Proof.
  intros [HI _] Hr. rewrite (removed_configuration _ _ _ Hr).
  apply filter_iff_in. intros x Hx. unfold conflict_ids. split.
  - intros Hni Hc. apply Hni. apply list_elem_of_fmap. exists x. split; [done|].
    by apply list_elem_of_filter.
  - intros Hc (y & E & [Hy Hyin]%list_elem_of_filter)%list_elem_of_fmap.
    by rewrite (NoDup_fmap_inj_in _ _ _ _ HI Hx Hyin E) in Hc.
Qed.

(** The servers in front of one that is joined already do not conflict with it. *)
Lemma joined_no_conflicts nodeID addr l1 x l3 :
  well_formed (l1 ++ x :: l3) → joined nodeID addr x → Forall (λ s, ¬ joined nodeID addr s) l1 →
  conflict_ids nodeID addr l1 = [].
Proof.
  intros [HI HA] [HxI HxA] Hl1. unfold conflict_ids. rewrite filter_none; [done|].
  intros y Hy. rewrite Forall_forall in Hl1.
  assert (y ∈ l1 ++ x :: l3 ∧ x ∈ l1 ++ x :: l3) as [Hy' Hx'] by set_solver.
  intros [E|E]; destruct (Hl1 y Hy).
  - rewrite (NoDup_fmap_inj_in _ _ _ _ HI Hy' Hx' (eq_trans E (eq_sym HxI))). by split.
  - rewrite (NoDup_fmap_inj_in _ _ _ _ HA Hy' Hx' (eq_trans E (eq_sym HxA))). by split.
Qed.

Context `{!FileSystemFrame W}.

Lemma writeConfigEntries_frame w :
  ∃ w' err, writeConfigEntries w = (w', Ret err) ∧ raft_Configuration w' = raft_Configuration w.
Proof.
  unfold writeConfigEntries, writePeersJSON, gets, modify, ext, mbind, M_bind.
  destruct (ioutil_WriteFile _ _ _ _) as [w' err] eqn:E. exists w', err. split; [done|].
  change w' with (w', err).1. by rewrite <-E, WriteFile_frame, MkdirAll_frame.
Qed.

(** A new server that conflicts with none of the others. *)
Lemma well_formed_add nodeID addr conf : well_formed conf →
  well_formed (mkServer Voter nodeID addr :: filter (λ s, ¬ conflicts nodeID addr s) conf).
Proof.
  intros Hwf. destruct (well_formed_filter (λ s, ¬ conflicts nodeID addr s) conf Hwf) as [HI HA].
  split; rewrite fmap_cons; apply NoDup_cons; (split; [|assumption]);
    intros (s & E & [Hs _]%list_elem_of_filter)%list_elem_of_fmap; apply Hs; [by left|by right].
Qed.

(** A join that fails: the configuration cannot be read; or the conflicting servers of
    a prefix of it were removed, and the next call failed, of which raft says nothing
    more - the removal of the next conflicting server, or, when none is left, the
    addition.  Nothing is called after the call that fails. *)
Inductive join_failed (nodeID addr : string) (w w' : W) : error → Prop :=
| join_no_configuration e : raft_ConfigurationError w = Some e → w' = w →
    join_failed nodeID addr w w' (ErrWrap "failed to get raft configuration: " e)
| join_not_removed l1 x l2 w1 e : raft_Configuration w = l1 ++ x :: l2 →
    removed (conflict_ids nodeID addr l1) w w1 → well_formed (raft_Configuration w1) →
    conflicts nodeID addr x → raft_RemoveServer (Server_ID x) w1 = (w', Some e) →
    join_failed nodeID addr w w' (remove_error nodeID addr e)
| join_not_added w1 e : removed (conflict_ids nodeID addr (raft_Configuration w)) w w1 →
    raft_Configuration w1 = filter (λ s, ¬ conflicts nodeID addr s) (raft_Configuration w) →
    well_formed (raft_Configuration w1) → raft_AddVoter nodeID addr w1 = (w', Some e) →
    join_failed nodeID addr w w'
      (ErrWrap ("node " +:+ nodeID +:+ " at " +:+ addr +:+ " joined error ") e).

Lemma well_formed_removed ids w w' :
  removed ids w w' → well_formed (raft_Configuration w) → well_formed (raft_Configuration w').
Proof. intros Hr Hwf. rewrite (removed_configuration _ _ _ Hr). by apply well_formed_filter. Qed.

(** The runs of a join on the leader: already there, added, or failed on the way. *)
Lemma RaftStore_Join_cases nodeID addr w :
  raft_State w = RaftLeader → well_formed (raft_Configuration w) →
  ∃ w' r, RaftStore_Join nodeID addr w = (w', Ret r) ∧
    match r with
    | None =>
        (Exists (joined nodeID addr) (raft_Configuration w) ∧ w' = w) ∨
        (¬ Exists (joined nodeID addr) (raft_Configuration w) ∧
         raft_Configuration w' ≡ₚ
           mkServer Voter nodeID addr :: filter (λ s, ¬ conflicts nodeID addr s) (raft_Configuration w) ∧
         ∃ w1 werr, raft_Configuration w1 = raft_Configuration w' ∧ writeConfigEntries w1 = (w', Ret werr))
    | Some e => join_failed nodeID addr w w' e
    end.
Proof.
  intros Hl Hwf. unfold RaftStore_Join, gets, mbind, M_bind. rewrite decide_False by auto.
  unfold with_local, walkRaftServers. cbn [fst].
  destruct (raft_ConfigurationError w) as [e|] eqn:Hce.
  { eexists w, (Some _). split; [done|]. by constructor. }
  destruct (walk_join nodeID addr (raft_Configuration w) w)
    as (w1 & b & err & l1 & l2 & w0 & Hsplit & -> & Hl1 & Hrem & Hr).
  destruct err as [e|].
  { destruct Hr as (x & l3 & e' & -> & Hx & _ & Hfail & ->). eexists w1, (Some _). split; [done|].
    by eapply join_not_removed; [..|eapply well_formed_removed| |]. }
  destruct Hr as [-> Hr]. destruct b.
  { destruct Hr as (x & l3 & -> & Hx). exists w0, None. split; [done|]. left.
    split; [rewrite Hsplit; apply Exists_exists; set_solver|]. rewrite Hsplit in Hwf.
    rewrite (joined_no_conflicts _ _ _ _ _ Hwf Hx Hl1) in Hrem. by inversion Hrem. }
  subst l2. rewrite app_nil_r in Hsplit. subst l1.
  pose proof (conflicts_removed nodeID addr w w0 Hwf Hrem) as Hconf.
  unfold ext. destruct (raft_AddVoter nodeID addr w0) as [w2 [e|]] eqn:Ea.
  { eexists w2, (Some _). split; [done|].
    by eapply join_not_added; [..|eapply well_formed_removed|]. }
  destruct (writeConfigEntries_frame w2) as (w3 & werr & Ew & Hw3). rewrite Ew.
  apply AddVoter_ok in Ea; [|rewrite Hconf; intros (s & E & Hs)%list_elem_of_fmap;
    apply list_elem_of_filter in Hs as [Hs _]; apply Hs; by left].
  exists w3, None. split; [done|]. right. split_and!; [|by rewrite Hw3, Ea, Hconf|by eexists w2, _].
  intros (x & Hx & Hj)%Exists_exists. rewrite Forall_forall in Hl1. exact (Hl1 x Hx Hj).
Qed.

(** C6. Joining, on the leader.  When [Join] succeeds, the servers still share no id and
    no address, and either the node was in the configuration already at this address and
    nothing was done, or the configuration is the old one without any server that had
    the node's id or its address, plus the node as a voter.  When it fails, its error
    says what failed, and nothing was done but what came before: the configuration
    could not be read; or conflicting servers were removed, in order and with success,
    so that what was left was well formed, until the removal of the next one failed;
    or all of them were removed and the addition failed. *)
Theorem Join_membership nodeID addr w :
  raft_State w = RaftLeader → well_formed (raft_Configuration w) →
  ∃ w' r, RaftStore_Join nodeID addr w = (w', Ret r) ∧
    match r with
    | None => well_formed (raft_Configuration w') ∧
        if decide (Exists (joined nodeID addr) (raft_Configuration w)) then w' = w
        else raft_Configuration w' ≡ₚ
               mkServer Voter nodeID addr ::
               filter (λ s, ¬ conflicts nodeID addr s) (raft_Configuration w)
    | Some e => join_failed nodeID addr w w' e
    end.
Proof.
  intros Hl Hwf. destruct (RaftStore_Join_cases nodeID addr w Hl Hwf) as (w' & r & E & Hr).
  exists w', r. split; [done|]. destruct r as [e|]; [done|]. destruct Hr as [[Hex ->]|(Hex & Hc & _)].
  - by rewrite decide_True.
  - rewrite decide_False by done. split; [|done]. rewrite Hc. by apply well_formed_add.
Qed.
End membership.

(** ** peers.json *)

Lemma entry_server_config `{!RaftNames W} (servers : list Server) : entry_server <$> (config_entry <$> servers) = servers.
Proof.
  rewrite <-list_fmap_compose. induction servers as [|s l IH]; [done|]. rewrite fmap_cons, IH. f_equal.
  destruct s as [[] sid addr]; unfold compose, config_entry, entry_server; simpl;
    by rewrite ?Suffrage_String_Voter, ?Suffrage_String_Nonvoter, ?Suffrage_String_Staging.
Qed.

Section peers_json.
Context `{!RaftNames W} `{!FileSystemLaws W} (valid : list ConfigEntry → Prop).
Context `{!CodecLaws (list ConfigEntry) [] valid}.

Lemma writeConfigEntries_read w w' :
  valid (config_entry <$> raft_Configuration w) → writeConfigEntries w = (w', Ret None) →
  ReadPeersJSON (peerFile arg) w' = (w', Ret (raft_Configuration w, None)).
Proof.
  intros Hv. unfold writeConfigEntries, writePeersJSON, gets, modify, ext, mbind, M_bind.
  destruct (ioutil_WriteFile _ _ _ _) as [w1 err] eqn:Ew. intros [= -> ->].
  unfold ReadPeersJSON, gets, mbind, M_bind. rewrite (ReadFile_WriteFile _ _ mode_600 _ _ eq_refl Ew).
  rewrite (Decode_Marshal (valid := valid)) by done. by rewrite entry_server_config.
Qed.

(** C28. peers.json keeps the configuration: after a successful write by
    [writeConfigEntries], [ReadPeersJSON] gives back the servers with their ids,
    addresses and suffrages, in order. *)
Theorem peers_json_roundtrip w w' :
  valid (config_entry <$> raft_Configuration w) →
  writeConfigEntries w = (w', Ret None) →
  ReadPeersJSON (peerFile arg) w' = (w', Ret (raft_Configuration w, None)).
Proof. exact (writeConfigEntries_read w w'). Qed.

Context `{!FileSystemFrame W} `{!RaftMembership W}.
(** The file can be written; its error is dropped by those who change the members. *)
Hypothesis writable : ∀ data w, (ioutil_WriteFile (peerFile arg) data mode_600 w).2 = None.

Lemma writeConfigEntries_done w w' werr :
  writeConfigEntries w = (w', Ret werr) → valid (config_entry <$> raft_Configuration w') →
  raft_Configuration w' = raft_Configuration w ∧
  ReadPeersJSON (peerFile arg) w' = (w', Ret (raft_Configuration w', None)).
Proof.
  intros E. destruct (writeConfigEntries_frame w) as (w1 & err & E1 & Hc).
  rewrite E1 in E. injection E as -> ->. intros Hv. split; [done|]. rewrite Hc in Hv |- *.
  apply writeConfigEntries_read; [done|]. rewrite E1. do 2 f_equal. revert E1.
  unfold writeConfigEntries, writePeersJSON, gets, modify, ext, mbind, M_bind.
  pose proof (writable (Marshal (config_entry <$> raft_Configuration w))
    (os_MkdirAll (RaftNodeDir arg) mode_644 w)) as Hw.
  destruct (ioutil_WriteFile _ _ _ _) as [w2 err]. simpl in Hw. congruence.
Qed.

(** A change of the members is recorded.  Once the leader has removed a node with
    success, the configuration is the old one without the servers of that id; once it
    has let a node join that was not in it already, the new one is in it, in the place
    of whatever had its id or address.  Either way peers.json then reads back as exactly
    the configuration the change left. *)
Theorem membership_recorded nodeID addr w w' :
  raft_State w = RaftLeader → well_formed (raft_Configuration w) →
  valid (config_entry <$> raft_Configuration w') →
  (Remove nodeID w = (w', Ret None) →
     raft_Configuration w' = filter (λ s, Server_ID s ≠ nodeID) (raft_Configuration w) ∧
     ReadPeersJSON (peerFile arg) w' = (w', Ret (raft_Configuration w', None))) ∧
  (RaftStore_Join nodeID addr w = (w', Ret None) →
     ¬ Exists (joined nodeID addr) (raft_Configuration w) →
     raft_Configuration w' ≡ₚ mkServer Voter nodeID addr ::
       filter (λ s, ¬ conflicts nodeID addr s) (raft_Configuration w) ∧
     ReadPeersJSON (peerFile arg) w' = (w', Ret (raft_Configuration w', None))).
Proof.
  intros Hl Hwf Hv. split.
  - unfold Remove, gets, ext, mbind, M_bind. rewrite decide_False by auto.
    destruct (raft_RemoveServer nodeID w) as [w1 [e|]] eqn:Er; [done|].
    destruct (writeConfigEntries_frame w1) as (w2 & werr & Ew & Hw2). rewrite Ew. intros [= ->].
    split; [by rewrite Hw2, (RemoveServer_ok _ _ _ Er)|]. by eapply writeConfigEntries_done.
  - intros Hrun Hnew. destruct (RaftStore_Join_cases nodeID addr w Hl Hwf) as (w2 & r & E & Hr).
    rewrite Hrun in E. injection E as <- <-.
    destruct Hr as [[Hex _]|(_ & Hc & w1 & werr & _ & Ew)]; [done|].
    split; [done|]. by eapply writeConfigEntries_done.
Qed.
End peers_json.

(** ** Views of the cluster *)

(** The lead server is the first one of the configuration at the leader's address,
    with its id; no known leader, an unreadable configuration, no server at that
    address or an empty id is an error.  Nothing changes. *)
Lemma LeadServer_run w :
  LeadServer w = (w, Ret
    (if decide (raft_Leader w = "") then (Peer0, Some (ErrText "leader NA"))
     else match raft_ConfigurationError w with
          | Some e => (Peer0, Some (ErrWrap "failed to get raft configuration: " e))
          | None =>
              match filter (λ s, Server_Address s = raft_Leader w) (raft_Configuration w) with
              | [] => (Peer0, Some (ErrText "leader NA"))
              | s :: _ =>
                  (mkPeer (raft_Leader w) (Server_ID s) (RaftState_String RaftLeader) "",
                   if decide (Server_ID s = "") then Some (ErrText "leader NA") else None)
              end
          end)).
Proof.
  unfold LeadServer, gets, mbind, M_bind. case_decide as Hl; [done|].
  unfold with_local, walkRaftServers. cbn [fst].
  destruct (raft_ConfigurationError w) as [e|]; [done|].
  induction (raft_Configuration w) as [|s l IH]; [done|]. cbn [walk_loop].
  unfold mbind, M_bind. rewrite filter_cons.
  destruct (decide (Server_Address s = raft_Leader w)) as [Hs|Hs].
  - rewrite decide_False by auto. cbn. rewrite Hs. by case_decide.
  - rewrite decide_True by auto. apply IH.
Qed.

Definition peer_server (p : Peer) : string * string * string :=
  (Peer_ID p, Peer_Address p, Peer_Suffrage p).
Definition server_peer (s : Server) : string * string * string :=
  (Server_ID s, Server_Address s, Suffrage_String (Suffrage s)).

(** What holds of every peer of the view and of its two marked peers. *)
Definition peer_ok (leader : string) (p : Peer) : Prop :=
  Peer_State p ≠ "" ∧
  (Peer_Address p = leader → Peer_ID p ≠ Arg_NodeID arg → Peer_State p = StateLeader).
Definition view_ok (leader : string) (servers : list Server) (cl : RaftCluster) : Prop :=
  peer_server <$> Servers cl = server_peer <$> servers ∧
  Forall (peer_ok leader) (Servers cl) ∧
  (if decide (leader ∈ Server_Address <$> servers)
   then Peer_Address (Leader cl) = leader ∧ Peer_State (Leader cl) = StateLeader ∧
        peer_server (Leader cl) ∈ server_peer <$> servers
   else Leader cl = Peer0) ∧
  (if decide (Arg_NodeID arg ∈ Server_ID <$> servers)
   then Peer_ID (Current cl) = Arg_NodeID arg ∧ Current cl ∈ Servers cl
   else Current cl = Peer0).

Lemma cluster_fn_run `{!RaftNames W} leader srv w cl :
  ∃ w' p, cluster_fn leader srv (w, cl) =
    ((w', mkRaftCluster (if decide (Arg_NodeID arg = Server_ID srv) then p else Current cl)
            (if decide (leader = Server_Address srv)
             then set_state StateLeader p else Leader cl)
            (Servers cl ++ [p])), Ret (true, None)) ∧
    peer_server p = server_peer srv ∧ peer_ok leader p.
Proof.
  unfold cluster_fn, on_world, set_local, get_local, NodeState, gets, mbind, M_bind, mret, M_ret.
  pose proof RaftState_String_Leader as HL. pose proof RaftState_String_nonempty as HN.
  set (p0 := mkPeer (Server_Address srv) (Server_ID srv) "" (Suffrage_String (Suffrage srv))).
  assert (∀ st, peer_server (set_state st p0) = server_peer srv) as Hps by done.
  cbn. destruct (decide (leader = Server_Address srv)) as [HA|HA]; cbn;
    (destruct (decide (Arg_NodeID arg = Server_ID srv)) as [HI|HI]; cbn).
  - rewrite !decide_False by (apply HN). eexists w, (set_state (RaftState_String (raft_State w)) p0).
    split; [by rewrite HL|]. split; [done|]. split; simpl; [done|]. congruence.
  - rewrite !decide_False by (apply HN). eexists w, (set_state StateLeader p0).
    split; [by rewrite HL|]. split; [done|]. by split; simpl.
  - rewrite !decide_False by (apply HN). eexists w, (set_state (RaftState_String (raft_State w)) p0).
    split; [done|]. split; [done|]. split; simpl; [done|]. congruence.
  - assert (∀ st, st ≠ "" → peer_ok leader (set_state st p0)) as Hok by (split; simpl; congruence).
    destruct (getNodeState_total (D := D) (Server_ID srv) w) as (w1 & r & E).
    destruct (decide ("" = "")) as [_|]; [|done]. cbn. rewrite E. destruct (Rsp_OK r); cbn.
    + case_decide; [exists w1, (set_state "Lost" p0)|exists w1, (set_state (Rsp_Msg r) p0)];
        (split; [done|]; split; [done|]; by apply Hok).
    + exists w1, (set_state "Lost" p0). split; [done|]; split; [done|]; by apply Hok.
Qed.

(** Adding one server's peer to a view of the servers before it. *)
Lemma view_ok_snoc leader servers srv cl p :
  view_ok leader servers cl → peer_server p = server_peer srv → peer_ok leader p →
  view_ok leader (servers ++ [srv])
    (mkRaftCluster (if decide (Arg_NodeID arg = Server_ID srv) then p else Current cl)
       (if decide (leader = Server_Address srv) then set_state StateLeader p else Leader cl)
       (Servers cl ++ [p])).
Proof.
  intros (Hs & Hok & Hl & Hc) Hp Hpok. assert (Hp' := Hp). injection Hp' as HpI HpA HpS.
  split_and!; simpl.
  - rewrite !fmap_app, Hs. simpl. by rewrite Hp.
  - apply Forall_app. by rewrite Forall_singleton.
  - rewrite fmap_app, (fmap_app server_peer). simpl.
    destruct (decide (leader = Server_Address srv)) as [Hs1|Hs1].
    + rewrite decide_True by (apply elem_of_app; right; rewrite Hs1; constructor).
      simpl. split_and!; [by rewrite HpA|done|].
      change (peer_server (set_state StateLeader p)) with (peer_server p).
      rewrite Hp. apply elem_of_app; right; constructor.
    + destruct (decide (leader ∈ Server_Address <$> servers)) as [Hin|Hin].
      * rewrite decide_True by (apply elem_of_app; by left). destruct Hl as (? & ? & ?).
        split_and!; [done..|apply elem_of_app; by left].
      * rewrite decide_False; [done|]. intros [?|?%list_elem_of_singleton]%elem_of_app; done.
  - rewrite fmap_app. simpl.
    destruct (decide (Arg_NodeID arg = Server_ID srv)) as [Hs1|Hs1].
    + rewrite decide_True by (apply elem_of_app; right; rewrite Hs1; constructor).
      split; [by rewrite HpI|]. apply elem_of_app; right; constructor.
    + destruct (decide (Arg_NodeID arg ∈ Server_ID <$> servers)) as [Hin|Hin].
      * rewrite decide_True by (apply elem_of_app; by left). destruct Hc.
        split; [done|apply elem_of_app; by left].
      * rewrite decide_False; [done|]. intros [?|?%list_elem_of_singleton]%elem_of_app; done.
Qed.

Lemma cluster_walk `{!RaftNames W} leader servers before w cl : view_ok leader before cl →
  ∃ w' cl', walk_loop (cluster_fn leader) servers (w, cl) = ((w', cl'), Ret None) ∧
    view_ok leader (before ++ servers) cl'.
Proof.
  revert before w cl. induction servers as [|srv servers IH]; intros before w cl Hv.
  { exists w, cl. split; [done|]. by rewrite app_nil_r. }
  cbn [walk_loop]. unfold mbind, M_bind.
  destruct (cluster_fn_run leader srv w cl) as (w1 & p & -> & Hp & Hok).
  destruct (IH (before ++ [srv]) w1 _ (view_ok_snoc _ _ _ _ _ Hv Hp Hok)) as (w' & cl' & -> & Hv').
  exists w', cl'. split; [done|]. by rewrite <-app_assoc in Hv'.
Qed.

(** C27. The cluster view always comes back, and is a view of the configuration: one
    peer per server, in order, with its id, address and suffrage; every peer has a
    state, and the one at the leader's address is marked leader unless it is this
    node (which reports its own state); the leader entry is a server at the
    leader's address, and the current entry the peer with this node's id, or each
    is empty when there is none.  An unreadable configuration is an error with an
    empty view. *)
Theorem Cluster_view `{!RaftNames W} w :
  ∃ w' cl err, RaftStore_Cluster w = (w', Ret (cl, err)) ∧
    match raft_ConfigurationError w with
    | Some e => w' = w ∧ cl = RaftCluster0 ∧
                err = Some (ErrWrap "failed to get raft configuration: " e)
    | None => err = None ∧ view_ok (raft_Leader w) (raft_Configuration w) cl
    end.
Proof.
  unfold RaftStore_Cluster, gets, mbind, M_bind, with_local, walkRaftServers. cbn [fst].
  destruct (raft_ConfigurationError w) as [e|].
  { by eexists w, _, _. }
  destruct (cluster_walk (raft_Leader w) (raft_Configuration w) [] w RaftCluster0) as (w' & cl & -> & Hv).
  { split_and!; [done|constructor|done|done]. }
  by eexists w', cl, None.
Qed.

(** ** Waiting *)

Lemma joinNodesFromLeader_total `{!RaftNames W} w : ∃ w', joinNodesFromLeader w = (w', Ret tt).
Proof.
  unfold joinNodesFromLeader, RaftStore_Cluster, gets, mbind, M_bind, with_local, walkRaftServers.
  cbn [fst]. destruct (raft_ConfigurationError w) as [e|]; [by eexists|].
  destruct (cluster_walk (raft_Leader w) (raft_Configuration w) [] w RaftCluster0) as (w' & cl & -> & _).
  { split_and!; [done|constructor|done|done]. }
  apply tryFindAndJoinLeader_total.
Qed.

(** Ticks that all find no leader, with a search for one after each. *)
Inductive leaderless : list (leader_event W) → W → W → Prop :=
| leaderless_nil w : leaderless [] w w
| leaderless_tck before events w w1 w2 : raft_Leader (before w) = "" →
    joinNodesFromLeader (before w) = (w1, Ret tt) →
    leaderless events w1 w2 → leaderless (tck before :: events) w w2.

(** What becomes of the loop on the events it receives. *)
Definition waited (events : list (leader_event W)) (w w' : W) (r : option (string * option error)) : Prop :=
  match r with
  | None => leaderless events w w' ∨
      ∃ pre before during post w1, events = pre ++ hang before during :: post ∧
        leaderless pre w w1 ∧ raft_Leader (before w1) = "" ∧ w' = during (before w1)
  | Some (l, None) => ∃ pre ev before post w1, events = pre ++ ev :: post ∧ tick_of ev = Some before ∧
      leaderless pre w w1 ∧ w' = before w1 ∧ l = raft_Leader w' ∧ l ≠ ""
  | Some (l, Some e) => ∃ pre before post w1, events = pre ++ tmr before :: post ∧
      leaderless pre w w1 ∧ w' = before w1 ∧ l = "" ∧
      e = ErrText "WaitForLeader timeout expired"
  end.

Lemma waited_tck before events w w1 w' r : raft_Leader (before w) = "" →
  joinNodesFromLeader (before w) = (w1, Ret tt) → waited events w1 w' r →
  waited (tck before :: events) w w' r.
Proof.
  intros Hl Hj Hr. destruct r as [[l [e|]]|].
  - destruct Hr as (pre & b & post & w2 & -> & ? & Hr). exists (tck before :: pre), b, post, w2.
    split; [done|]. split; [by econstructor|done].
  - destruct Hr as (pre & ev & b & post & w2 & -> & ? & ? & Hr).
    exists (tck before :: pre), ev, b, post, w2. split_and!; [done|done|by econstructor|apply Hr..].
  - destruct Hr as [Hr|(pre & b & d & post & w2 & -> & ? & Hr)]; [left; by econstructor|right].
    exists (tck before :: pre), b, d, post, w2. split; [done|]. split; [by econstructor|done].
Qed.

Lemma WaitForLeader_waited `{!RaftNames W} events w :
  ∃ w' r, WaitForLeader_loop events w = (w', Ret r) ∧ waited events w w' r.
Proof.
  revert w. induction events as [|[before|before|before during] events IH]; intros w;
    cbn [WaitForLeader_loop].
  - exists w, None. split; [done|left; constructor].
  - unfold modify, LeaderAddr, gets, mbind, M_bind. case_decide as Hl.
    + eexists (before w), (Some (_, None)). split; [done|].
      exists [], (tck before), before, events, w. split_and!; [done|done|constructor|done..].
    + destruct (joinNodesFromLeader_total (before w)) as [w1 E]. rewrite E.
      destruct (IH w1) as (w' & r & -> & Hr). exists w', r. split; [done|]. by eapply waited_tck.
  - eexists (before w), (Some (_, Some _)). split; [done|].
    exists [], before, events, w. split_and!; [done|constructor|done..].
  - unfold modify, LeaderAddr, gets, mbind, M_bind. case_decide as Hl.
    + eexists (before w), (Some (_, None)). split; [done|].
      exists [], (hang before during), before, events, w. split_and!; [done|done|constructor|done..].
    + eexists (during (before w)), None. split; [done|]. right.
      exists [], before, during, events, w. split_and!; [done|constructor|done..].
Qed.

(** C31. Waiting for a leader, with the timer at any timeout: it ends at the first tick
    that finds a leader, with that leader's address, or with the timeout error when
    the timer fires first.  It blocks only in two cases: all there was were ticks without
    a leader, after each of which the node looked for a leader to join - or the search
    after such a tick never came back, and then the timer is not read any more. *)
Theorem WaitForLeader_spec `{!RaftNames W} timeout events w :
  ∃ w' r, WaitForLeader timeout events w = (w', Ret r) ∧
    match r with
    | None => leaderless (events timeout) w w' ∨
        ∃ pre before during post w1, events timeout = pre ++ hang before during :: post ∧
          leaderless pre w w1 ∧ raft_Leader (before w1) = "" ∧ w' = during (before w1)
    | Some (l, None) => ∃ pre ev before post w1,
        events timeout = pre ++ ev :: post ∧ tick_of ev = Some before ∧
        leaderless pre w w1 ∧ w' = before w1 ∧ l = raft_Leader w' ∧ l ≠ ""
    | Some (l, Some e) => ∃ pre before post w1, events timeout = pre ++ tmr before :: post ∧
        leaderless pre w w1 ∧ w' = before w1 ∧ l = "" ∧
        e = ErrText "WaitForLeader timeout expired"
    end.
Proof. exact (WaitForLeader_waited (events timeout) w). Qed.

(** Ticks that all find the applied index below [idx]. *)
Inductive lagging (idx : Z) : list (applied_event W) → W → W → Prop :=
| lagging_nil w : lagging idx [] w w
| lagging_tck before events w w2 : (raft_AppliedIndex (before w) < idx)%Z →
    lagging idx events (before w) w2 → lagging idx (tck before :: events) w w2.

Lemma WaitForAppliedIndex_run idx events w :
  ∃ w' r, WaitForAppliedIndex_loop idx events w = (w', Ret r) ∧
    match r with
    | None => lagging idx events w w'
    | Some None => ∃ pre before post w1, events = pre ++ tck before :: post ∧
        lagging idx pre w w1 ∧ w' = before w1 ∧ (idx ≤ raft_AppliedIndex w')%Z
    | Some (Some e) => ∃ pre before post w1, events = pre ++ tmr before :: post ∧
        lagging idx pre w w1 ∧ w' = before w1
    end.
Proof.
  revert w. induction events as [|[before|before|_ []] events IH]; intros w;
    cbn [WaitForAppliedIndex_loop].
  - exists w, None. split; [done|constructor].
  - unfold modify, gets, mbind, M_bind. destruct (Z.leb_spec idx (raft_AppliedIndex (before w))) as [Hl|Hl].
    + exists (before w), (Some None). split; [done|].
      exists [], before, events, w. split_and!; [done|constructor|done..].
    + destruct (IH (before w)) as (w' & r & -> & Hr). exists w', r. split; [done|].
      destruct r as [[e|]|]; [| |by econstructor];
        destruct Hr as (pre & b & post & w2 & -> & ? & Hr); exists (tck before :: pre), b, post, w2;
        (split; [done|]; split; [by econstructor|done]).
  - eexists (before w), (Some (Some _)). split; [done|].
    exists [], before, events, w. split_and!; [done|constructor|done..].
Qed.

(** Waiting for the initial logs: a zero timeout returns at once; otherwise the
    wait succeeds at the first tick that finds the index that was last when it
    began applied, ends in [ErrOpenTimeout] when the timer fires after ticks that
    all found less applied, and blocks only on such ticks. *)
Theorem WaitForApplied_spec timeout events w :
  ∃ w' r, WaitForApplied timeout events w = (w', Ret r) ∧
    if decide (timeout = 0%Z) then w' = w ∧ r = Some None
    else
      let idx := raft_LastIndex w in
      match r with
      | None => lagging idx (events timeout) w w'
      | Some None => ∃ pre before post w1, events timeout = pre ++ tck before :: post ∧
          lagging idx pre w w1 ∧ w' = before w1 ∧ (idx ≤ raft_AppliedIndex w')%Z
      | Some (Some e) => e = ErrOpenTimeout ∧
          ∃ pre before post w1, events timeout = pre ++ tmr before :: post ∧
            lagging idx pre w w1 ∧ w' = before w1
      end.
Proof.
  unfold WaitForApplied. destruct (Z.eqb_spec timeout 0) as [Ht|Ht].
  { exists w, (Some None). split; [done|]. by rewrite decide_True. }
  unfold gets, WaitForAppliedIndex, mbind, M_bind.
  destruct (WaitForAppliedIndex_run (raft_LastIndex w) (events timeout) w) as (w' & r & -> & Hr).
  destruct r as [[e|]|];
    [exists w', (Some (Some ErrOpenTimeout))|exists w', (Some None)|exists w', None];
    (split; [done|]; by rewrite decide_False).
Qed.

(** ** No call panics *)

Lemma walk_total {L} (fn : Server → M (W * L) (bool * option error)) wl :
  (∀ srv wl, ∃ wl' x, fn srv wl = (wl', Ret x)) →
  ∃ wl' err, walkRaftServers fn wl = (wl', Ret err).
Proof.
  intros Hfn. unfold walkRaftServers. destruct (raft_ConfigurationError wl.1); [by do 2 eexists|].
  generalize (raft_Configuration wl.1) as servers. intros servers. revert wl.
  induction servers as [|srv servers IH]; intros wl; [by do 2 eexists|].
  cbn [walk_loop]. unfold mbind, M_bind. destruct (Hfn srv wl) as (wl1 & [[] [e|]] & ->);
    [by do 2 eexists|apply IH|by do 2 eexists|by do 2 eexists].
Qed.

Lemma writeConfigEntries_total w : ∃ w' err, writeConfigEntries w = (w', Ret err).
Proof.
  unfold writeConfigEntries, writePeersJSON, gets, modify, ext, mbind, M_bind.
  destruct (ioutil_WriteFile _ _ _ _). by do 2 eexists.
Qed.

Lemma RaftStore_Join_total nodeID addr w : ∃ w' err, RaftStore_Join nodeID addr w = (w', Ret err).
Proof.
  unfold RaftStore_Join, gets, mbind, M_bind, with_local. case_decide; [by do 2 eexists|].
  destruct (walk_total (join_fn nodeID addr) (w, false)) as ([w1 b] & err & ->).
  { intros srv [w0 b0]. destruct (decide (joined nodeID addr srv)) as [Hj|Hj];
      [rewrite join_fn_joined by done; by do 2 eexists|].
    destruct (decide (conflicts nodeID addr srv)) as [Hc|Hc];
      [rewrite join_fn_conflict by done; by do 2 eexists|].
    rewrite join_fn_other by done. by do 2 eexists. }
  destruct err as [e|]; [by do 2 eexists|]. destruct b; [by do 2 eexists|].
  unfold ext. destruct (raft_AddVoter nodeID addr w1) as [w2 [e|]]; [by do 2 eexists|].
  destruct (writeConfigEntries_total w2) as (w3 & err & ->). by do 2 eexists.
Qed.

Lemma RaftStore_Cluster_total `{!RaftNames W} w :
  ∃ w' v, RaftStore_Cluster w = (w', Ret v).
Proof.
  unfold RaftStore_Cluster, gets, mbind, M_bind, with_local.
  destruct (walk_total (cluster_fn (raft_Leader w)) (w, RaftCluster0)) as ([w1 cl] & err & ->).
  { intros srv [w0 cl0]. destruct (cluster_fn_run (raft_Leader w) srv w0 cl0) as (w' & p & -> & _).
    by do 2 eexists. }
  by do 2 eexists.
Qed.

(** ** What leaves the configuration alone *)

Section frame.
Context `{!RaftFrame W} (conf : list Server).
Abbreviation same := (λ w, raft_Configuration w = conf).
Abbreviation same_in L := (λ wl : W * L, raft_Configuration wl.1 = conf).

Lemma on_world_keeps {L A} (f : M W A) : keeps same f → keeps (same_in L) (on_world f).
Proof. intros Hf [w l] Hw. unfold on_world. simpl. specialize (Hf w Hw). by destruct (f w). Qed.
Lemma set_local_keeps {L} (l : L) : keeps (same_in L) (set_local l).
Proof. by intros [w l0]. Qed.
Lemma get_local_keeps {L} : keeps (same_in L) get_local.
Proof. by intros [w l]. Qed.
Lemma with_local_keeps {L A} (l : L) (f : M (W * L) A) : keeps (same_in L) f → keeps same (with_local l f).
Proof.
  intros Hf w Hw. unfold with_local. specialize (Hf (w, l) Hw). by destruct (f (w, l)) as [[w' l'] [a|msg]].
Qed.
Lemma GetJSON_keeps {A} `{Codec A} addr (v : A) : keeps same (GetJSON addr v).
Proof.
  unfold GetJSON. apply keeps_bind; [|keeps].
  intros w Hw. unfold ext. pose proof (client_Get_frame addr w) as Hf.
  destruct (client_Get addr w). simpl in *. congruence.
Qed.
Hint Resolve on_world_keeps set_local_keeps get_local_keeps GetJSON_keeps : keeps.

Lemma getNodeState_keeps nodeID : keeps same (getNodeState (D := D) nodeID).
Proof. unfold getNodeState. keeps. Qed.
Lemma NodeState_keeps : keeps same NodeState.
Proof. by intros w. Qed.
Hint Resolve getNodeState_keeps NodeState_keeps : keeps.

Lemma walk_keeps {L} (fn : Server → M (W * L) (bool * option error)) :
  (∀ srv, keeps (same_in L) (fn srv)) → keeps (same_in L) (walkRaftServers fn).
Proof.
  intros Hfn wl Hwl. unfold walkRaftServers. destruct (raft_ConfigurationError wl.1); [done|].
  generalize (raft_Configuration wl.1) as servers. intros servers.
  enough (keeps (same_in L) (walk_loop fn servers)) as Hk by (by apply Hk).
  clear wl Hwl. induction servers as [|srv servers IH]; [by intros wl|]. cbn [walk_loop].
  apply keeps_bind; [apply Hfn|].
  intros [cont [e|]]; [keeps|]. destruct cont; [exact IH|keeps].
Qed.

Lemma RaftStore_Cluster_keeps : keeps same RaftStore_Cluster.
Proof.
  unfold RaftStore_Cluster. apply keeps_bind; [keeps|]. intros leader. apply with_local_keeps, walk_keeps.
  intros srv. unfold cluster_fn. keeps.
Qed.

Lemma Set_keeps now off key value : keeps same (Set_ now off key value).
Proof.
  unfold Set_, IsLeader. apply keeps_bind; [keeps|]. intros leader. case_match; [keeps|].
  intros w Hw. unfold ext. pose proof (raft_Apply_frame (Marshal (mkCommand "set" key value (FormatTime now off))) w) as Hf.
  destruct (raft_Apply _ w). simpl in *. congruence.
Qed.
End frame.

(** ** Opening *)








(** ** From a set to the replicas *)

(** On the leader [Set] proposes the command, stamped. *)
Lemma Set_leader now off key value w : raft_State w = RaftLeader →
  Set_ now off key value w = ext (raft_Apply (Marshal (mkCommand "set" key value (FormatTime now off)))) w.
Proof.
  intros Hl. unfold Set_, IsLeader, is_leader, gets, mbind, M_bind. by rewrite bool_decide_true by done.
Qed.

(** A stamped set applied in time stores its key. *)
Lemma fresh_set_applied {V} (unmarshal_new : gotype → string → V + error) (ptr_to : V → V)
    (dealers : DealerMap W V) `{!Codec (gmap string string)} (valid : Command → Prop)
    `{!CodecLaws Command Command0 valid} now off now' key value (s : RaftStore W) :
  key ≠ "/raft/cluster" → Dealers dealers !! key = None →
  valid (mkCommand "set" key value (FormatTime now off)) →
  (0 ≤ wall_year (now + off * second) < 10000)%Z →
  (now' ≤ now + off * second - millisecond + max_age)%Z →
  ∃ w', Apply (D := D) unmarshal_new ptr_to arg dealers None now'
          (mkLog (Marshal (mkCommand "set" key value (FormatTime now off)))) s =
        (mkStore (<[key := value]> (m s)) w', Ret RNil).
Proof.
  intros Hk HD Hv Hy Hn.
  unfold Apply. cbn [Data]. rewrite (Unmarshal_Marshal (valid := valid)) by done.
  unfold mbind, M_bind. rewrite liftW_run, Intercept_none by done. cbn [fst snd].
  assert (too_old now' (mkCommand "set" key value (FormatTime now off)) = false) as Hfresh.
  { unfold too_old, FormatTime. cbn [Time]. rewrite ParseTime_format_wall by done.
    apply Z.ltb_ge.
    pose proof (Z.mod_pos_bound (now + off * second) millisecond ltac:(done)). lia. }
  destruct (apply_op_refines (V := V) (D := D) arg now'
    (mkCommand "set" key value (FormatTime now off)) (mkStore (m s) (world s))) as (w' & -> & _).
  exists w'. rewrite Hfresh. cbn [m]. unfold kv_apply. cbn [Op Key Value].
  rewrite decide_True by done. by rewrite decide_False by done.
Qed.

(** C8. A set on the leader reaches every replica: the entry it proposes, applied on
    any node while it is fresh, makes that node's map have the value under the key,
    keeps every other key, and returns nil. *)
Theorem Set_reaches_replicas {V} (unmarshal_new : gotype → string → V + error) (ptr_to : V → V)
    (dealers : DealerMap W V) `{!Codec (gmap string string)} (valid : Command → Prop)
    `{!CodecLaws Command Command0 valid} now off now' key value w :
  raft_State w = RaftLeader → key ≠ "/raft/cluster" → Dealers dealers !! key = None →
  valid (mkCommand "set" key value (FormatTime now off)) →
  (0 ≤ wall_year (now + off * second) < 10000)%Z →
  (now' ≤ now + off * second - millisecond + max_age)%Z →
  ∃ data, Set_ now off key value w = ext (raft_Apply data) w ∧
    ∀ s : RaftStore W, ∃ s',
      Apply (D := D) unmarshal_new ptr_to arg dealers None now' (mkLog data) s = (s', Ret RNil) ∧
      Get key s' = (s', Ret (Some value)) ∧
      ∀ key', key' ≠ key → Get key' s' = (s', Ret (m s !! key')).
Proof.
  intros Hl Hk HD Hv Hy Hn. rewrite (Set_leader now off key value w Hl). eexists. split; [done|]. intros s.
  destruct (fresh_set_applied unmarshal_new ptr_to dealers valid now off now' key value s) as [w' ->]; [done..|].
  eexists. split; [done|]. rewrite Get_run. cbn [m]. rewrite lookup_insert_eq. split; [done|].
  intros key' ?. rewrite Get_run. cbn [m]. by rewrite lookup_insert_ne.
Qed.
End store.

(** ** Witnesses, on the simulated node *)

Section witnesses.
Import Wire SimNode.

Lemma sim_leader_well_formed : well_formed (sim_servers sim_leader_node).
Proof. split; (apply (bool_decide_unpack _); by vm_compute). Qed.

(** A node returns under a new name at the address of B. *)
Lemma Join_membership_witness :
  ∃ w' r, RaftStore_Join MakeArg idC "10.0.0.2:12000" sim_leader_node = (w', Ret r) ∧
    match r with
    | None => well_formed (raft_Configuration w') ∧
        if decide (Exists (joined idC "10.0.0.2:12000") (raft_Configuration sim_leader_node)) then
          w' = sim_leader_node
        else raft_Configuration w' ≡ₚ
               mkServer Voter idC "10.0.0.2:12000" ::
               filter (λ s, ¬ conflicts idC "10.0.0.2:12000" s) (raft_Configuration sim_leader_node)
    | Some e => join_failed idC "10.0.0.2:12000" sim_leader_node w' e
    end.
Proof. apply (Join_membership MakeArg); [done|exact sim_leader_well_formed]. Defined.

Example Join_replaces :
  sim_servers (RaftStore_Join MakeArg idC "10.0.0.2:12000" sim_leader_node).1 =
    [sim_server idA "10.0.0.1:12000"; sim_server idC "10.0.0.2:12000"].
Proof. vm_compute. reflexivity. Qed.

Lemma membership_recorded_witness :
  let w' := (Remove MakeArg idB sim_leader_node).1 in
  raft_Configuration w' = filter (λ s, Server_ID s ≠ idB) (raft_Configuration sim_leader_node) ∧
  ReadPeersJSON (peerFile MakeArg) w' = (w', Ret (raft_Configuration w', None)).
Proof.
  intros w'. refine (proj1 (membership_recorded MakeArg (λ _, True) _ idB "" sim_leader_node w' _ _ _) _).
  - done.
  - done.
  - exact sim_leader_well_formed.
  - done.
  - vm_compute. reflexivity.
Defined.

Lemma peers_json_roundtrip_witness :
  let w' := (writeConfigEntries MakeArg sim_leader_node).1 in
  ReadPeersJSON (peerFile MakeArg) w' = (w', Ret (raft_Configuration sim_leader_node, None)).
Proof. intros w'. by apply (peers_json_roundtrip MakeArg (λ _, True)). Defined.

Lemma Cluster_view_witness :
  ∃ w' cl err, RaftStore_Cluster (D := string) MakeArg sim_leader_node = (w', Ret (cl, err)) ∧
    match raft_ConfigurationError sim_leader_node with
    | Some e => w' = sim_leader_node ∧ cl = RaftCluster0 ∧
                err = Some (ErrWrap "failed to get raft configuration: " e)
    | None => err = None ∧
        view_ok MakeArg (raft_Leader sim_leader_node) (raft_Configuration sim_leader_node) cl
    end.
Proof. apply (Cluster_view (D := string) MakeArg). Defined.

Definition sim_no_leader : sim := mkSim Follower "" (sim_servers sim_leader_node) [] ∅ ∅ ∅.

(** The leader appears before the second tick. *)
Lemma WaitForLeader_spec_witness :
  let events := [tck id; tck (λ _, sim_follower_node); tmr id] in
  ∃ w' r, WaitForLeader (D := string) MakeArg second (λ _, events) sim_no_leader = (w', Ret r) ∧
    match r with
    | None => leaderless (D := string) MakeArg events sim_no_leader w' ∨
        ∃ pre before during post w1, events = pre ++ hang before during :: post ∧
          leaderless (D := string) MakeArg pre sim_no_leader w1 ∧ raft_Leader (before w1) = "" ∧
          w' = during (before w1)
    | Some (l, None) => ∃ pre ev before post w1, events = pre ++ ev :: post ∧ tick_of ev = Some before ∧
        leaderless (D := string) MakeArg pre sim_no_leader w1 ∧ w' = before w1 ∧
        l = raft_Leader w' ∧ l ≠ ""
    | Some (l, Some e) => ∃ pre before post w1, events = pre ++ tmr before :: post ∧
        leaderless (D := string) MakeArg pre sim_no_leader w1 ∧ w' = before w1 ∧ l = "" ∧
        e = ErrText "WaitForLeader timeout expired"
    end.
Proof. intros events. apply (WaitForLeader_spec (D := string) MakeArg second (λ _, events)). Defined.

Example WaitForLeader_finds :
  (WaitForLeader_loop (D := string) MakeArg [tck id; tck (λ _, sim_follower_node); tmr id] sim_no_leader).2 =
    Ret (Some ("10.0.0.1:12000", None)).
Proof. vm_compute. reflexivity. Qed.

(** A search that never comes back outlives the timer. *)
Example WaitForLeader_blocks :
  (WaitForLeader_loop (D := string) MakeArg [tck id; hang id id; tmr id] sim_no_leader).2 = Ret None.
Proof. vm_compute. reflexivity. Qed.

(** A bootstrapping node, without peers.json and restarted on it. *)
Definition boot_arg : Arg :=
  mkArg true false "10.0.0.1:12000" "" "/data" idA "10.0.0.1:11000" "" "" "" [] "".
Definition sim_fresh : sim := mkSim Follower "" [] [] ∅ ∅ ∅.

Example Open_bootstraps :
  Open (D := string) boot_arg sim_fresh =
    (raft_BootstrapCluster [mkServer Voter idA "10.0.0.1:12000"] sim_fresh, Ret None).
Proof. vm_compute. reflexivity. Qed.
(** Without an address there is no transport, and nothing is bootstrapped. *)
Example Open_fails :
  Open (D := string) (set_addrs "" "" boot_arg) sim_fresh = (sim_fresh, Ret (Some (ErrExt "missing address"))).
Proof. vm_compute. reflexivity. Qed.

Definition sim_restart : sim :=
  (writeConfigEntries boot_arg (sim_set_servers [mkServer Voter idA "10.0.0.1:12000"] sim_fresh)).1.
Example Open_restart :
  Open (D := string) boot_arg sim_restart = (sim_restart, Ret None).
Proof. vm_compute. reflexivity. Qed.

Lemma Set_reaches_replicas_witness :
  ∃ data, Set_ a_moment 28800 "k" "v" sim_leader_node = ext (raft_Apply data) sim_leader_node ∧
    ∀ s : RaftStore sim, ∃ s',
      Apply (D := string) no_decode id MakeArg MakeDealerMap None (a_moment + second) (mkLog data) s =
        (s', Ret RNil) ∧
      Get "k" s' = (s', Ret (Some "v")) ∧
      ∀ key', key' ≠ "k" → Get key' s' = (s', Ret (m s !! key')).
Proof.
  apply (Set_reaches_replicas (D := string) MakeArg no_decode id MakeDealerMap (λ _, True)).
  - done.
  - congruence.
  - done.
  - done.
  - vm_compute; split; congruence.
  - vm_compute; congruence.
Defined.
End witnesses.
