(* ===== verification/Replication.v ===== *)
(** * Replication: a cluster of stores over one committed log

    Raft gives every node the same committed entries in the same order; a node
    applies them one by one, may be behind, takes snapshots, receives another
    node's snapshot, and restarts from its own.  The steps below are those events,
    each node's part done by [Fsm.Apply], [Fsm.Snapshot] and [Fsm.Restore].  The
    nodes run the same interceptor and log dealers.  For the agreement of the nodes these
    take a command or leave it to the map by looking at the command alone; for catching
    up nothing is assumed of them. *)

From stdpp Require Import prelude gmap strings.
From S2P Require Import Prelude.
From S2P Require Import GoStd.
From S2P Require Import GoTime.
From S2P Require Import Util.
From S2P Require Import Model.
From S2P Require Import Externals.
From S2P Require Import Sim.
From S2P Require Import Dealer.
From S2P Require Import Arg.
From S2P Require Import Fsm.

Section replication.
Context {W D V : Type} `{Raft W} `{Network W} `{FileSystem W}.
Context `{Codec Command} `{!Codec (gmap string string)} `{Codec RaftCluster}.
Context `{Codec (list ConfigEntry)} `{Codec JoinRequest} `{!Codec (Rsp D)}.
Context (unmarshal_new : gotype → string → V + error) (ptr_to : V → V) (arg : Arg).
(** The maps whose JSON reads back. *)
Context (valid : gmap string string → Prop) `{!CodecLaws (gmap string string) ∅ valid}.

(** The log dealers and the interceptor of the nodes, and the commands they take. *)
Context (dealers : DealerMap W V) (interceptor : option (Log → Command → M W bool)).
Context (taken : Command → bool).
Hypothesis Htaken : ∀ l c w, ∃ w' rsp,
  Intercept unmarshal_new ptr_to dealers interceptor l c w = (w', Ret (rsp, taken c)).

Definition node_apply (now : Z) (l : Log) : M (RaftStore W) (response V) :=
  Apply (D := D) unmarshal_new ptr_to arg dealers interceptor now l.

(** ** The steps *)

(** A node: its store, how many entries it has applied, its last snapshot. *)
Record replica : Type := mkReplica {
  store : RaftStore W;
  applied : nat;
  saved : option (nat * string)
}.
Record cluster : Type := mkCluster { committed : list Log; replicas : list replica }.

Definition set_replica (i : nat) (r : replica) (st : cluster) : cluster :=
  mkCluster (committed st) (<[i := r]> (replicas st)).

(** [when now c]: a node may apply the command [c] when its clock reads [now]. *)
Inductive step (when : Z → Command → Prop) (st : cluster) : cluster → Prop :=
| step_commit l c :
    Unmarshal Command0 (Data l) = (c, None) →
    step when st (mkCluster (committed st ++ [l]) (replicas st))
| step_apply i r l c now s' rsp :
    replicas st !! i = Some r → committed st !! applied r = Some l →
    Unmarshal Command0 (Data l) = (c, None) → when now c →
    node_apply now l (store r) = (s', Ret rsp) →
    step when st (set_replica i (mkReplica s' (S (applied r)) (saved r)) st)
| step_world i r w :
    replicas st !! i = Some r →
    step when st (set_replica i (mkReplica (mkStore (m (store r)) w) (applied r) (saved r)) st)
| step_snapshot i r s' snap :
    replicas st !! i = Some r → Snapshot (store r) = (s', Ret snap) → valid snap →
    step when st (set_replica i (mkReplica s' (applied r) (Some (applied r, Marshal snap))) st)
| step_install i j ri rj k data s' :
    replicas st !! i = Some ri → replicas st !! j = Some rj → saved ri = Some (k, data) →
    Restore data (store rj) = (s', Ret None) →
    step when st (set_replica j (mkReplica s' k (Some (k, data))) st)
| step_restart i r w :
    replicas st !! i = Some r → saved r = None →
    step when st (set_replica i (mkReplica (New w) 0 None) st)
| step_recover i r w k data s' :
    replicas st !! i = Some r → saved r = Some (k, data) →
    Restore data (New w) = (s', Ret None) →
    step when st (set_replica i (mkReplica s' k (saved r)) st).

Definition start (worlds : list W) : cluster :=
  mkCluster [] ((λ w, mkReplica (New w) 0 None) <$> worlds).

(** ** The specification: one map, the replay of a log *)

Definition command_of (l : Log) : Command := (Unmarshal Command0 (Data l)).1.
Definition kv_step (verdict : Command → bool) (kv : gmap string string) (l : Log) : gmap string string :=
  let c := command_of l in if taken c then kv else kv_apply (verdict c) c kv.
Definition replay (verdict : Command → bool) (log : list Log) : gmap string string :=
  foldl (kv_step verdict) ∅ log.

Definition replica_ok (verdict : Command → bool) (log : list Log) (r : replica) : Prop :=
  applied r ≤ length log ∧ m (store r) = replay verdict (take (applied r) log) ∧
  match saved r with
  | None => True
  | Some (k, data) => k ≤ length log ∧ ∃ kv, valid kv ∧ data = Marshal kv ∧
                      kv = replay verdict (take k log)
  end.

Lemma replica_ok_commit verdict log l r :
  replica_ok verdict log r → replica_ok verdict (log ++ [l]) r.
Proof.
  intros (Ha & Hm & Hs). split_and!.
  - rewrite length_app; lia.
  - by rewrite take_app_le by done.
  - destruct (saved r) as [[k data]|]; [|done]. destruct Hs as (Hk & kv & ? & ? & ?).
    split; [rewrite length_app; lia|]. exists kv. by rewrite take_app_le by done.
Qed.

Lemma replay_S verdict log k l : log !! k = Some l →
  replay verdict (take (S k) log) = kv_step verdict (replay verdict (take k log)) l.
Proof. intros Hl. rewrite (take_S_r _ _ _ Hl). unfold replay. by rewrite foldl_app. Qed.

(** An entry that decodes is always applied: the node never gets stuck on it. *)
Lemma node_apply_run now l c s : Unmarshal Command0 (Data l) = (c, None) →
  ∃ s' rsp, node_apply now l s = (s', Ret rsp) ∧
    m s' = if taken c then m s else kv_apply (too_old now c) c (m s).
Proof.
  intros Hc. unfold node_apply, Apply. rewrite Hc. unfold mbind, M_bind. rewrite liftW_run.
  destruct (Htaken l c (world s)) as (w1 & rsp & ->). cbn [fst snd].
  destruct (taken c); [by do 2 eexists|].
  destruct (apply_op_refines (V := V) (D := D) arg now c (mkStore (m s) w1)) as (w' & -> & _).
  by do 2 eexists.
Qed.

Lemma node_apply_map now l c s s' rsp :
  Unmarshal Command0 (Data l) = (c, None) → node_apply now l s = (s', Ret rsp) →
  m s' = if taken c then m s else kv_apply (too_old now c) c (m s).
Proof. intros Hc Ha. destruct (node_apply_run now l c s Hc) as (s1 & r1 & E & Hm). congruence. Qed.

Lemma Restore_map data kv (s s' : RaftStore W) : valid kv → data = Marshal kv →
  Restore data s = (s', Ret None) → m s' = kv.
Proof. intros Hv -> Hr. unfold Restore in Hr. rewrite Decode_Marshal in Hr by done. by injection Hr as <-. Qed.

Lemma Snapshot_map (s s' : RaftStore W) snap : Snapshot s = (s', Ret snap) → s' = s ∧ snap = m s.
Proof.
  unfold Snapshot. rewrite lockApplyOp_run. cbn. rewrite (CloneMap_same (m s)) by done.
  intros [= <- <-]. by destruct s.
Qed.

Definition cluster_ok (verdict : Command → bool) (st : cluster) : Prop :=
  Forall (replica_ok verdict (committed st)) (replicas st).

Lemma set_replica_ok verdict i r st :
  cluster_ok verdict st → replica_ok verdict (committed st) r → cluster_ok verdict (set_replica i r st).
Proof. intros Hst Hr. by apply Forall_insert. Qed.

(** Every step keeps every node at the replay of the prefix it has applied. *)
Lemma step_ok verdict when st st' :
  (∀ now c, when now c → too_old now c = verdict c) →
  cluster_ok verdict st → step when st st' → cluster_ok verdict st'.
Proof.
  intros Hwhen Hst Hstep. assert (Hat := Hst). unfold cluster_ok in Hat. rewrite Forall_lookup in Hat.
  destruct Hstep as [l c Hc|i r l c now s' rsp Hi Hl Hc Hw Ha|i r w Hi|i r s' snap Hi Hs Hv
                    |i j ri rj k data s' Hi Hj Hsv Hr|i r w Hi Hsv|i r w k data s' Hi Hsv Hr].
  - eapply Forall_impl; [exact Hst|]. intros r. apply replica_ok_commit.
  - apply set_replica_ok; [done|]. destruct (Hat i r Hi) as (_ & Hm & Hs). split_and!; simpl; [|..|done].
    + apply lookup_lt_Some in Hl. lia.
    + rewrite (replay_S _ _ _ _ Hl), <-Hm, (node_apply_map _ _ _ _ _ _ Hc Ha).
      unfold kv_step, command_of. rewrite Hc. cbn [fst]. by rewrite (Hwhen _ _ Hw).
  - apply set_replica_ok; [done|]. by destruct (Hat i r Hi).
  - apply set_replica_ok; [done|]. destruct (Hat i r Hi) as (Ha & Hm & _).
    apply Snapshot_map in Hs as [-> ->]. split_and!; simpl; [done..|].
    split; [done|]. by exists (m (store r)).
  - apply set_replica_ok; [done|]. destruct (Hat i ri Hi) as (_ & _ & Hs). rewrite Hsv in Hs.
    destruct Hs as (Hk & kv & Hv & Hd & Hkv). split_and!; simpl; [done| |eauto].
    by rewrite (Restore_map _ _ _ _ Hv Hd Hr).
  - apply set_replica_ok; [done|]. split_and!; simpl; [lia|done|done].
  - apply set_replica_ok; [done|]. destruct (Hat i r Hi) as (_ & _ & Hs). rewrite Hsv in Hs.
    destruct Hs as (Hk & kv & Hv & Hd & Hkv). rewrite Hsv. split_and!; simpl; [done| |eauto].
    by rewrite (Restore_map _ _ _ _ Hv Hd Hr).
Qed.

(** Only decodable entries are ever committed. *)
Definition decodable (l : Log) : Prop := (Unmarshal Command0 (Data l)).2 = None.
Lemma step_decodable when st st' :
  Forall decodable (committed st) → step when st st' → Forall decodable (committed st').
Proof.
  intros Hd []; try done. simpl. apply Forall_app. split; [done|]. apply Forall_singleton.
  unfold decodable. match goal with H : Unmarshal _ _ = _ |- _ => by rewrite H end.
Qed.

Lemma start_reaches verdict when worlds st :
  (∀ now c, when now c → too_old now c = verdict c) → rtc (step when) (start worlds) st →
  cluster_ok verdict st ∧ Forall decodable (committed st).
Proof.
  intros Hwhen Hreach.
  assert (cluster_ok verdict (start worlds)) as Hinit.
  { apply Forall_fmap, Forall_true. intros w. split_and!; simpl; [lia|done|done]. }
  assert (Forall decodable (committed (start worlds))) as Hdec by constructor.
  induction Hreach; [done|]. eauto using step_ok, step_decodable.
Qed.

(** C2. The nodes agree.  If the age of a command is judged alike wherever and
    whenever it is applied (the sets fresh, say), then after any interleaving of
    commits, applies, snapshots, installs, restarts and recoveries every node's map
    is the replay of the prefix of the committed log it has applied; so two nodes
    that have applied equally far have equal maps.  Commands that a log dealer or the
    interceptor takes are left out of the replay; which those are may depend on the
    command, not on the node. *)
Theorem replicas_agree verdict when worlds st :
  (∀ now c, when now c → too_old now c = verdict c) →
  rtc (step when) (start worlds) st →
  (∀ i r, replicas st !! i = Some r →
     applied r ≤ length (committed st) ∧
     m (store r) = replay verdict (take (applied r) (committed st))) ∧
  (∀ i j ri rj, replicas st !! i = Some ri → replicas st !! j = Some rj →
     applied ri = applied rj → m (store ri) = m (store rj)).
Proof.
  intros Hwhen Hreach.
  destruct (start_reaches _ _ _ _ Hwhen Hreach) as [Hst _]. unfold cluster_ok in Hst. rewrite Forall_lookup in Hst. split.
  - intros i r Hi. by destruct (Hst i r Hi) as (? & ? & _).
  - intros i j ri rj Hi Hj E. destruct (Hst i ri Hi) as (_ & -> & _).
    destruct (Hst j rj Hj) as (_ & -> & _). by rewrite E.
Qed.

(** ** Catching up

    Nothing is assumed here of the age test, the log dealers or the entries. *)

(** What an entry makes of the map, given the clock when it is applied and whether a
    dealer or the interceptor took it. *)
Definition entry_step (kv : gmap string string) (vl : Z * bool * Log) : gmap string string :=
  let c := command_of vl.2 in if vl.1.2 then kv else kv_apply (too_old vl.1.1 c) c kv.

(** The steps by which node [i] applies its next entry, with clock and interception. *)
Inductive applies (i : nat) (st : cluster) : Z * bool → cluster → Prop :=
| applies_next r l c now w rsp b s' rsp' :
    replicas st !! i = Some r → committed st !! applied r = Some l →
    Unmarshal Command0 (Data l) = (c, None) →
    Intercept unmarshal_new ptr_to dealers interceptor l c (world (store r)) = (w, Ret (rsp, b)) →
    node_apply now l (store r) = (s', Ret rsp') →
    applies i st (now, b) (set_replica i (mkReplica s' (S (applied r)) (saved r)) st).
Inductive catches (i : nat) : list (Z * bool) → cluster → cluster → Prop :=
| catches_nil st : catches i [] st st
| catches_cons v vs st st1 st2 : applies i st v st1 → catches i vs st1 st2 → catches i (v :: vs) st st2.

(** An entry on which a node in the world [w] stops. *)
Definition stops (l : Log) (w : W) : Prop :=
  match Unmarshal Command0 (Data l) with
  | (_, Some _) => True
  | (c, None) => ∃ w' msg, Intercept unmarshal_new ptr_to dealers interceptor l c w = (w', Panic msg)
  end.

Lemma node_apply_cases l s :
  (stops l (world s) ∧ ∀ now, ∃ s' msg, node_apply now l s = (s', Panic msg)) ∨
  (∃ c w rsp b, Unmarshal Command0 (Data l) = (c, None) ∧
     Intercept unmarshal_new ptr_to dealers interceptor l c (world s) = (w, Ret (rsp, b)) ∧
     ∀ now, ∃ s' rsp', node_apply now l s = (s', Ret rsp') ∧ m s' = entry_step (m s) (now, b, l)).
Proof.
  unfold node_apply, Apply, stops, entry_step, command_of. cbn [fst snd].
  destruct (Unmarshal Command0 (Data l)) as [c [e|]]; [left; split; [done|]; by do 2 eexists|].
  unfold mbind, M_bind. setoid_rewrite liftW_run.
  destruct (Intercept _ _ _ _ l c (world s)) as [w [[rsp b]|msg]] eqn:E; cbn [fst snd].
  - right. exists c, w, rsp, b. split; [done|]. split; [done|]. intros now.
    destruct b; [by do 2 eexists|].
    destruct (apply_op_refines (V := V) (D := D) arg now c (mkStore (m s) w)) as (w' & -> & _).
    by do 2 eexists.
  - left. split; [by do 2 eexists|]. by do 2 eexists.
Qed.

Lemma applies_frame i st v st' r : applies i st v st' → replicas st !! i = Some r →
  step (λ _ _, True) st st' ∧ committed st' = committed st ∧
  (∀ j, j ≠ i → replicas st' !! j = replicas st !! j) ∧
  ∃ l r', committed st !! applied r = Some l ∧ replicas st' !! i = Some r' ∧
    applied r' = S (applied r) ∧ m (store r') = entry_step (m (store r)) (v, l).
Proof.
  intros [r0 l c now w rsp b s' rsp' Hi Hl Hc HI Ha] Hr.
  rewrite Hi in Hr. injection Hr as ->.
  split; [by eapply step_apply|]. unfold set_replica; simpl.
  split_and!; [done|intros j Hj; by rewrite list_lookup_insert_ne by done|].
  exists l. eexists. rewrite list_lookup_insert_eq by (by eapply lookup_lt_Some).
  split_and!; [done..|]. cbn [store].
  destruct (node_apply_cases l (store r)) as [[_ Hp]|(c' & w' & rsp2 & b' & Hc' & HI' & Hrun)].
  - destruct (Hp now) as (? & ? & ?). congruence.
  - destruct (Hrun now) as (s2 & rsp3 & E & Hm). simplify_eq. congruence.
Qed.

Lemma catches_run i vs st st' r : catches i vs st st' → replicas st !! i = Some r →
  applied r ≤ length (committed st) →
  length vs ≤ length (committed st) - applied r ∧
  rtc (step (λ _ _, True)) st st' ∧ committed st' = committed st ∧
  (∀ j, j ≠ i → replicas st' !! j = replicas st !! j) ∧
  ∃ r', replicas st' !! i = Some r' ∧ applied r' = applied r + length vs ∧
    m (store r') = foldl entry_step (m (store r)) (zip vs (drop (applied r) (committed st))).
Proof.
  intros Hn. revert r. induction Hn as [st|v vs st st1 st2 Hs Hn IH]; intros r Hi Hle.
  { split_and!; [simpl; lia|done..|]. exists r. simpl. by rewrite Nat.add_0_r. }
  destruct (applies_frame _ _ _ _ _ Hs Hi) as (Hstep & Hc & Hj & l & r1 & Hl & Hi1 & Ha1 & Hm1).
  assert (Hlt := lookup_lt_Some _ _ _ Hl).
  destruct (IH r1 Hi1) as (Hlen & Hrtc & Hc2 & Hj2 & r2 & Hi2 & Ha2 & Hm2); [rewrite Hc, Ha1; lia|].
  rewrite Hc, Ha1 in *. split_and!; [simpl; lia|by eapply rtc_l|done| |].
  - intros j Hne. by rewrite Hj2, Hj by done.
  - exists r2. split_and!; [done|simpl; lia|]. by rewrite Hm2, (drop_S _ _ _ Hl), Hm1.
Qed.

(** C5. Catching up.  A node that has [lag] entries to go, whatever its clock reads at each
    of them, either gets to the end of the log, or stops at an entry that does not decode
    or on which a dealer or the interceptor panics, where [Apply] panics at any clock;
    nothing else stops it.  Every run of its apply steps has at most [lag] of them, gets
    one entry further with each, touches neither the log nor the other nodes, and makes
    of the node's map what the abstract store makes of those entries, each judged by
    the clock it was applied at and left out if it was taken.  (The requests a cluster
    view in the log makes a node without a leader send are taken to come back.) *)
Theorem replica_catches_up st i r :
  replicas st !! i = Some r → applied r ≤ length (committed st) →
  let lag := length (committed st) - applied r in
  (∀ nows, length nows = lag → ∃ vs st' r', catches i vs st st' ∧ replicas st' !! i = Some r' ∧
     ((vs.*1 = nows ∧ applied r' = length (committed st)) ∨
      (vs.*1 `prefix_of` nows ∧ ∃ l, committed st !! applied r' = Some l ∧
         stops l (world (store r')) ∧ ∀ now, ∃ s' msg, node_apply now l (store r') = (s', Panic msg)))) ∧
  (∀ vs st', catches i vs st st' →
     length vs ≤ lag ∧ rtc (step (λ _ _, True)) st st' ∧ committed st' = committed st ∧
     (∀ j, j ≠ i → replicas st' !! j = replicas st !! j) ∧
     ∃ r', replicas st' !! i = Some r' ∧ applied r' = applied r + length vs ∧
       m (store r') = foldl entry_step (m (store r)) (zip vs (drop (applied r) (committed st)))).
Proof.
  intros Hi Hle lag. split; [|by intros; apply catches_run].
  intros nows. remember lag as n eqn:En. unfold lag in En. clear lag.
  revert nows st r Hi Hle En. induction n as [|n IH]; intros nows st r Hi Hle En Hlen.
  { apply nil_length_inv in Hlen as ->. exists [], st, r. split_and!; [constructor|done|left]. split; [done|lia]. }
  destruct nows as [|now nows]; [done|]. injection Hlen as Hlen.
  destruct (lookup_lt_is_Some_2 (committed st) (applied r)) as [l Hl]; [lia|].
  destruct (node_apply_cases l (store r)) as [[Hstop Hp]|(c & w & rsp & b & Hc & HI & Hrun)].
  { exists [], st, r. split_and!; [constructor|done|right]. split; [apply prefix_nil|]. by exists l. }
  destruct (Hrun now) as (s' & rsp' & E & _).
  pose proof (applies_next i st r l c now w rsp b s' rsp' Hi Hl Hc HI E) as Hs.
  destruct (applies_frame _ _ _ _ _ Hs Hi) as (_ & Hcom & _ & l1 & r1 & _ & Hi1 & Ha1 & _).
  destruct (IH nows _ r1 Hi1) as (vs & st' & r' & Hcatch & Hi' & Hr'); [rewrite Hcom; lia..|done|].
  exists ((now, b) :: vs), st', r'. split_and!; [by econstructor|done|]. rewrite Hcom in Hr'.
  destruct Hr' as [[<- Ha]|[Hpre Hr']]; [by left|right]. split; [|done]. rewrite fmap_cons.
  by apply prefix_cons.
Qed.
End replication.

(** ** Witness and counterexample, on two simulated nodes *)

Section witnesses.
Import Wire SimNode.

(** A log dealer like the one of the demo command: it takes its key and returns nil. *)
Definition rig_dealers : DealerMap sim string :=
  mkDealerMap {["rigconf" := mkDealer (λ v, mret (v, None)) (TSlice (TNamed "RigConfItem"))]}.
Definition rig_taken (c : Command) : bool := bool_decide (Key c = "rigconf").

Lemma rig_intercepts l c w : ∃ w' rsp,
  Intercept no_decode id rig_dealers None l c w = (w', Ret (rsp, rig_taken c)).
Proof.
  unfold Intercept, invoke_dealer, Invoke, rig_taken, mbind, M_bind. cbn [Dealers rig_dealers].
  case_bool_decide as Hk; [rewrite Hk, lookup_singleton_eq; by do 2 eexists|].
  rewrite lookup_singleton_ne by done. by do 2 eexists.
Qed.

Abbreviation sim_step :=
  (step (D := string) (V := string) no_decode id MakeArg (λ _, True) rig_dealers None).
Abbreviation sim_start := (start [sim_leader_node; sim_follower_node]).

(** A set of k made at [a_moment], in UTC. *)
Definition set_k : Command := mkCommand "set" "k" "v" (FormatTime a_moment 0).
Definition set_k_log : Log := mkLog (Marshal set_k).
Definition fresh_only (now : Z) (c : Command) : Prop := too_old now c = false.
Definition any_time (now : Z) (c : Command) : Prop := True.

Definition at_k (w : sim) : replica := mkReplica (mkStore {["k" := "v"]} w) 1 None.

(** The set is committed and applied on both nodes within its 100 seconds. *)
Lemma both_apply (when : Z → Command → Prop) : when a_moment set_k →
  rtc (sim_step when) sim_start (mkCluster [set_k_log] [at_k sim_leader_node; at_k sim_follower_node]).
Proof.
  intros Hw.
  assert (Unmarshal Command0 (Data set_k_log) = (set_k, None)) as Hc
    by exact (Unmarshal_Marshal (valid := λ _, True) set_k I).
  eapply rtc_l; [by eapply (step_commit _ _ _ _ _ _ _ _ set_k_log set_k)|].
  eapply rtc_l; [eapply (step_apply _ _ _ _ _ _ _ _ 0 _ set_k_log set_k a_moment); [done..|vm_compute; reflexivity]|].
  eapply rtc_l; [eapply (step_apply _ _ _ _ _ _ _ _ 1 _ set_k_log set_k a_moment); [done..|vm_compute; reflexivity]|].
  reflexivity.
Qed.

Lemma replicas_agree_witness :
  let st := mkCluster [set_k_log] [at_k sim_leader_node; at_k sim_follower_node] in
  (∀ i r, replicas st !! i = Some r →
     applied r ≤ length (committed st) ∧
     m (store r) = replay rig_taken (λ _, false) (take (applied r) (committed st))) ∧
  (∀ i j ri rj, replicas st !! i = Some ri → replicas st !! j = Some rj →
     applied ri = applied rj → m (store ri) = m (store rj)).
Proof.
  intros st. apply (replicas_agree (D := string) no_decode id MakeArg (λ _, True) rig_dealers None
    rig_taken rig_intercepts (λ _, false) fresh_only [sim_leader_node; sim_follower_node]).
  - done.
  - apply both_apply. vm_compute. reflexivity.
Defined.

(** The second node has applied nothing; the log has a set and an entry that is not JSON. *)
Definition not_json : Log := mkLog "not JSON".
Definition one_behind :=
  mkCluster [set_k_log; not_json] [at_k sim_leader_node; mkReplica (New sim_follower_node) 0 None].
Abbreviation sim_catches :=
  (catches (D := string) (V := string) no_decode id MakeArg rig_dealers None 1).

Lemma replica_catches_up_witness :
  (∃ vs st' r', sim_catches vs one_behind st' ∧ replicas st' !! 1 = Some r' ∧
     ((vs.*1 = [a_moment; a_moment] ∧ applied r' = 2) ∨
      (vs.*1 `prefix_of` [a_moment; a_moment] ∧ ∃ l, committed one_behind !! applied r' = Some l ∧
         stops no_decode id rig_dealers None l (world (store r')) ∧
         ∀ now, ∃ s' msg, node_apply (D := string) no_decode id MakeArg rig_dealers None now l (store r') =
           (s', Panic msg)))).
Proof.
  refine (proj1 (replica_catches_up (D := string) no_decode id MakeArg (λ _, True) rig_dealers None
    one_behind 1 (mkReplica (New sim_follower_node) 0 None) eq_refl _) [a_moment; a_moment] eq_refl).
  simpl. lia.
Defined.

(** It applies the set, which is still fresh, and stops. *)
Example one_behind_stops :
  let apply := node_apply (D := string) (V := string) no_decode id MakeArg rig_dealers None in
  let s := (apply a_moment set_k_log (New sim_follower_node)).1 in
  m s !! "k" = Some "v" ∧
  (apply a_moment not_json s).2 = Panic "failed to unmarshal Command: invalid character".
Proof. by vm_compute. Qed.

(** C3. The nodes can come to disagree, because [Apply] reads the clock.  From two
    nodes that have both applied the one set of the log, a restart of one of them
    without a snapshot and its replay of the log 101 seconds later reaches a state
    where both have applied the whole log and only one has the key. *)
Theorem replicas_diverge :
  ∃ st ri rj, rtc (sim_step any_time) sim_start st ∧
    replicas st !! 0 = Some ri ∧ replicas st !! 1 = Some rj ∧
    applied ri = length (committed st) ∧ applied rj = length (committed st) ∧
    m (store ri) !! "k" = Some "v" ∧ m (store rj) !! "k" = None.
Proof.
  exists (mkCluster [set_k_log] [at_k sim_leader_node; mkReplica (New sim_follower_node) 1 None]).
  eexists _, _. split; [|by vm_compute].
  etrans; [by apply both_apply|].
  assert (Unmarshal Command0 (Data set_k_log) = (set_k, None)) as Hc
    by exact (Unmarshal_Marshal (valid := λ _, True) set_k I).
  eapply rtc_l; [by apply (step_restart _ _ _ _ _ _ _ _ 1 (at_k sim_follower_node) sim_follower_node)|].
  eapply rtc_l; [eapply (step_apply _ _ _ _ _ _ _ _ 1 _ set_k_log set_k (a_moment + 101 * second));
    [done..|vm_compute; reflexivity]|].
  reflexivity.
Qed.
End witnesses.
