(* ===== verification/Url.v ===== *)
(** * URLs: the part of [net/url] the requests between nodes go through

    A URL is parsed by the client that sends a request, printed on the request line, and
    parsed again by the server: [Path] is the decoded path, and [URL.String] prints the
    path as it was spelt if that was a valid spelling, and escaped otherwise.  Nothing here
    is code of the repository; what matters to it is which bytes of a name come through. *)

From Stdlib Require Import Ascii.
From stdpp Require Import prelude strings.
From S2P Require Import Prelude.
From S2P Require Import GoStd.

(** ** Bytes *)

Definition one_of (l : string) (c : ascii) : bool := contains c l.
Definition in_bytes (lo hi : ascii) (c : ascii) : bool :=
  (byte_val lo <=? byte_val c)%Z && (byte_val c <=? byte_val hi)%Z.
Definition is_alnum (c : ascii) : bool := in_bytes "a" "z" c || in_bytes "A" "Z" c || in_bytes "0" "9" c.
Definition percent : ascii := "%".
Definition question : ascii := "?".
Definition hash : ascii := "#".
Definition blank : ascii := " ".

(** [shouldEscape] in a path. *)
Definition shouldEscape (c : ascii) : bool :=
  negb (is_alnum c || one_of "-_.~" c || one_of "$&+,/:;=@" c).
(** The bytes [validEncodedPath] lets stand. *)
Definition valid_byte (c : ascii) : bool := one_of "!$&'()*+,;=:@[]%" c || negb (shouldEscape c).
Definition is_ctl (c : ascii) : bool := (byte_val c <? 32)%Z || (byte_val c =? 127)%Z.

Definition ishex (c : ascii) : bool := in_bytes "0" "9" c || in_bytes "a" "f" c || in_bytes "A" "F" c.
Definition unhex (c : ascii) : Z :=
  if in_bytes "0" "9" c then byte_val c - byte_val "0"
  else if in_bytes "a" "f" c then byte_val c - byte_val "a" + 10
  else if in_bytes "A" "F" c then byte_val c - byte_val "A" + 10
  else 0.
Definition upperhex (d : Z) : ascii := if (d <? 10)%Z then byte_of (48 + d) else byte_of (55 + d).

Fixpoint all_bytes (P : ascii → bool) (s : string) : bool :=
  match s with
  | EmptyString => true
  | String c s => P c && all_bytes P s
  end.
Definition has_ctl (s : string) : bool := negb (all_bytes (λ c, negb (is_ctl c)) s).
Definition validEncodedPath (s : string) : bool := all_bytes valid_byte s.

(** ** Escaping a path *)

Definition escape_byte (c : ascii) (rest : string) : string :=
  if shouldEscape c
  then String percent (String (upperhex (byte_val c / 16)) (String (upperhex (byte_val c mod 16)) rest))
  else String c rest.
Fixpoint escape (s : string) : string :=
  match s with
  | EmptyString => ""
  | String c s => escape_byte c (escape s)
  end.

(** [unescape] fails on a percent sign without two hexadecimal digits. *)
Fixpoint unescape (s : string) : option string :=
  match s with
  | EmptyString => Some ""
  | String c r =>
      if decide (c = percent) then
        match r with
        | String a (String b r) =>
            if ishex a && ishex b then
              match unescape r with Some d => Some (String (byte_of (16 * unhex a + unhex b)) d) | None => None end
            else None
        | _ => None
        end
      else match unescape r with Some d => Some (String c d) | None => None end
  end.

(** ** URLs *)

(** [RawPath] is the spelling of the path, empty when it is the usual one; [ForceQuery]
    tells an empty query from none. *)
Record URL : Type := mkURL {
  Scheme : string; Host : string; Path : string; RawPath : string; ForceQuery : bool; RawQuery : string
}.

Definition EscapedPath (u : URL) : string :=
  if negb (bool_decide (RawPath u = "")) && validEncodedPath (RawPath u) &&
     bool_decide (unescape (RawPath u) = Some (Path u))
  then RawPath u
  else if decide (Path u = "*") then "*" else escape (Path u).

(** [URL.String] of a URL without scheme and host, which is also what a client puts on
    the request line. *)
Definition URL_String (u : URL) : string :=
  EscapedPath u +:+
  (if ForceQuery u || negb (bool_decide (RawQuery u = "")) then String question (RawQuery u) else "").

Definition setPath (p : string) : option (string * string) :=
  match unescape p with
  | Some path => Some (path, if decide (p = escape path) then "" else p)
  | None => None
  end.

(** [parse] of what follows the authority, without a fragment. *)
Definition url_parse (scheme host s : string) : option URL :=
  if has_ctl s then None
  else
    let '(p, force, query) :=
      match cut_first question s with
      | Some (p, q) => (p, bool_decide (q = ""), q)
      | None => (s, false, "")
      end in
    match setPath p with
    | Some (path, raw) => Some (mkURL scheme host path raw force query)
    | None => None
    end.

(** ** Lemmas *)

Lemma all_bytes_app P s t : all_bytes P (s +:+ t) = all_bytes P s && all_bytes P t.
Proof. induction s as [|c s IH]; [done|]. rewrite str_app_cons. simpl. by rewrite IH, andb_assoc. Qed.

Lemma all_bytes_impl (P Q : ascii → bool) s :
  (∀ c, P c = true → Q c = true) → all_bytes P s = true → all_bytes Q s = true.
Proof.
  intros HPQ. induction s as [|c s IH]; [done|]. simpl. rewrite !andb_true_iff. intros []. auto.
Qed.

Lemma all_bytes_contains P c s : P c = false → all_bytes P s = true → contains c s = false.
Proof.
  intros Hc. induction s as [|a s IH]; [done|]. simpl all_bytes. rewrite andb_true_iff. intros [Ha Hs].
  rewrite contains_cons, IH, orb_false_r by done. apply bool_decide_false. congruence.
Qed.

(** Facts about single bytes, by looking at all 256. *)
Ltac every_byte c := destruct c as [[][][][][][][][]]; vm_compute; try done.

Lemma upperhex_bytes c :
  valid_byte (upperhex (byte_val c / 16)) = true ∧ valid_byte (upperhex (byte_val c mod 16)) = true ∧
  ishex (upperhex (byte_val c / 16)) = true ∧ ishex (upperhex (byte_val c mod 16)) = true ∧
  byte_of (16 * unhex (upperhex (byte_val c / 16)) + unhex (upperhex (byte_val c mod 16))) = c.
Proof. every_byte c. Qed.

Lemma valid_byte_not_ctl c : valid_byte c = true → negb (is_ctl c) = true.
Proof. every_byte c. Qed.

Lemma unescaped_not_percent c : shouldEscape c = false → c ≠ percent.
Proof. every_byte c. Qed.

Lemma unescape_escape s : unescape (escape s) = Some s.
Proof.
  induction s as [|c s IH]; [done|]. cbn [escape]. unfold escape_byte. destruct (shouldEscape c) eqn:Hc.
  - destruct (upperhex_bytes c) as (_ & _ & Ha & Hb & E).
    cbn [unescape]. rewrite decide_True by done. by rewrite Ha, Hb, IH, E.
  - cbn [unescape]. rewrite decide_False by by apply unescaped_not_percent. by rewrite IH.
Qed.

Lemma escape_valid s : validEncodedPath (escape s) = true.
Proof.
  induction s as [|c s IH]; [done|]. cbn [escape]. unfold escape_byte, validEncodedPath in *.
  destruct (shouldEscape c) eqn:Hc; cbn [all_bytes]; rewrite IH.
  - destruct (upperhex_bytes c) as (-> & -> & _). done.
  - unfold valid_byte. rewrite Hc. cbn [negb]. by rewrite orb_true_r.
Qed.

Lemma escape_app s t : escape (s +:+ t) = escape s +:+ escape t.
Proof.
  induction s as [|c s IH]; [done|]. rewrite str_app_cons. cbn [escape]. rewrite IH.
  unfold escape_byte. by destruct (shouldEscape c); rewrite !str_app_cons.
Qed.

Lemma escape_id s : all_bytes (λ c, negb (shouldEscape c)) s = true → escape s = s.
Proof.
  induction s as [|c s IH]; [done|]. simpl. rewrite andb_true_iff. intros [Hc Hs]. unfold escape_byte.
  apply negb_true_iff in Hc. by rewrite Hc, IH.
Qed.

(** A spelling that is not the usual one. *)
Lemma unescape_id s : all_bytes (λ c, negb (shouldEscape c)) s = true → unescape s = Some s.
Proof. intros Hs. by rewrite <-(escape_id s Hs) at 1; rewrite unescape_escape. Qed.

Lemma unescape_app s t : all_bytes (λ c, negb (shouldEscape c)) s = true →
  unescape (s +:+ t) = match unescape t with Some d => Some (s +:+ d) | None => None end.
Proof.
  induction s as [|c s IH]; [intros _; rewrite str_app_nil_l; by destruct (unescape t)|].
  simpl. rewrite andb_true_iff. intros [Hc Hs].
  apply negb_true_iff in Hc. cbn [unescape].
  rewrite decide_False by by apply unescaped_not_percent.
  rewrite (IH Hs). by destruct (unescape t).
Qed.

(** What is printed is a valid spelling of the path. *)
Lemma EscapedPath_valid u : Path u ≠ "*" →
  unescape (EscapedPath u) = Some (Path u) ∧ validEncodedPath (EscapedPath u) = true.
Proof.
  intros Hstar. unfold EscapedPath. destruct (_ && _) eqn:E.
  - rewrite !andb_true_iff in E. destruct E as [[_ Hv] Hd]. by apply bool_decide_eq_true in Hd.
  - rewrite decide_False by done. split; [apply unescape_escape|apply escape_valid].
Qed.

Lemma valid_no c s : valid_byte c = false → validEncodedPath s = true → contains c s = false.
Proof. apply all_bytes_contains. Qed.
Lemma valid_no_ctl s : validEncodedPath s = true → has_ctl s = false.
Proof. intros Hs. unfold has_ctl. by rewrite (all_bytes_impl _ _ _ valid_byte_not_ctl Hs). Qed.

(** How a path without a query is printed: as it is spelt, if that is valid. *)
Definition printed (p : string) : option string :=
  if has_ctl p then None
  else match unescape p with
       | Some d => Some (if validEncodedPath p then p else escape d)
       | None => None
       end.

(** A URL that was parsed from a path prints as [printed] says. *)
Lemma url_parse_printed scheme host p : contains question p = false → p ≠ "*" → unescape p ≠ Some "*" →
  match url_parse scheme host p with
  | Some u => printed p = Some (EscapedPath u) ∧ unescape p = Some (Path u) ∧
              URL_String u = EscapedPath u
  | None => printed p = None
  end.
Proof.
  intros Hq Hp Hstar. unfold url_parse, printed. destruct (has_ctl p); [done|].
  rewrite cut_first_none by done. unfold setPath. destruct (unescape p) as [d|] eqn:Hd; [|done].
  unfold URL_String. cbn [ForceQuery RawQuery]. rewrite bool_decide_true by done. cbn [orb negb].
  rewrite str_app_nil_r. split; [|done]. f_equal. unfold EscapedPath. cbn [RawPath Path].
  assert (d ≠ "*") by congruence. rewrite (decide_False (P := d = "*")) by done.
  case_decide as E.
  - rewrite E, escape_valid. by rewrite bool_decide_true.
  - rewrite Hd, (bool_decide_true (Some d = Some d)) by done. rewrite andb_true_r.
    destruct (decide (p = "")) as [->|Hne]; [by injection Hd as <-|].
    rewrite (bool_decide_false (p = "")) by done. by destruct (validEncodedPath p).
Qed.

(** What was printed once is printed alike again, and means the same path. *)
Lemma printed_again p q : printed p = Some q → printed q = Some q ∧ unescape q = unescape p.
Proof.
  unfold printed. destruct (has_ctl p) eqn:Hc; [done|]. destruct (unescape p) as [d|] eqn:Hd; [|done].
  intros [= <-]. destruct (validEncodedPath p) eqn:Hv; [by rewrite Hc, Hd, Hv|].
  pose proof (escape_valid d) as He. by rewrite (valid_no_ctl _ He), unescape_escape, He.
Qed.

Lemma printed_valid p q : printed p = Some q → validEncodedPath q = true.
Proof.
  unfold printed. destruct (has_ctl p); [done|]. destruct (unescape p) as [d|]; [|done]. intros [= <-].
  destruct (validEncodedPath p) eqn:Hv; [done|apply escape_valid].
Qed.

(** The names that are printed as they are. *)
Lemma printed_same p : printed p = Some p ↔ validEncodedPath p = true ∧ is_Some (unescape p).
Proof.
  split.
  - intros E. split; [by eapply printed_valid|]. unfold printed in E. destruct (has_ctl p); [done|].
    by destruct (unescape p).
  - intros [Hv [d Hd]]. unfold printed. by rewrite (valid_no_ctl _ Hv), Hd, Hv.
Qed.

(** In front of a name stands a path that needs no escaping. *)
Lemma printed_app s p : all_bytes (λ c, negb (shouldEscape c)) s = true →
  printed (s +:+ p) = match printed p with Some q => Some (s +:+ q) | None => None end.
Proof.
  intros Hs. assert (validEncodedPath s = true) as Hv.
  { eapply all_bytes_impl, Hs. intros c Hc. unfold valid_byte. by rewrite Hc, orb_true_r. }
  unfold printed. rewrite unescape_app by done. unfold has_ctl. rewrite all_bytes_app.
  rewrite (all_bytes_impl _ _ _ valid_byte_not_ctl Hv). cbn [andb].
  destruct (negb _); [done|]. destruct (unescape p) as [d|]; [|done].
  unfold validEncodedPath in *. rewrite all_bytes_app, Hv. cbn [andb]. rewrite escape_app, (escape_id s Hs).
  by destruct (all_bytes valid_byte p).
Qed.
