(* ===== verification/Http.v ===== *)
(** * HTTP requests and responses, and the reverse proxy: [proxy.go], the writers of [util.go]

    The part of net/http the handlers use: a request as the server parsed it, the
    response writer with its write-once header, the director that turns a request into
    the one sent to the leader, and what becomes of a request between the client that
    sends it and the handler that gets it. *)

From stdpp Require Import prelude gmap strings.
From S2P Require Import Prelude.
From S2P Require Import GoStd.
From S2P Require Import Util.
From S2P Require Import Url.
From S2P Require Import Externals.

(** ** Requests *)

(** [http.Header], by canonical name. *)
Abbreviation Header := (gmap string (list string)).
Definition Header_Get (h : Header) (k : string) : string :=
  match h !! k with Some (v :: _) => v | _ => "" end.
Definition Header_Set (k v : string) (h : Header) : Header := <[k := [v]]> h.
Definition Header_Add (k v : string) (h : Header) : Header :=
  <[k := default [] (h !! k) ++ [v]]> h.

Lemma Header_Get_Set h k k' v :
  Header_Get (Header_Set k v h) k' = if decide (k = k') then v else Header_Get h k'.
Proof. unfold Header_Get, Header_Set. rewrite lookup_insert. by case_decide. Qed.

Lemma Header_Get_Add h k k' v : k ≠ k' → Header_Get (Header_Add k v h) k' = Header_Get h k'.
Proof. intros. unfold Header_Get, Header_Add. by rewrite lookup_insert_ne. Qed.

(** The body is what reading it to the end gives. *)
Record Request : Type := mkRequest {
  Method : string;
  Req_URL : URL;
  Req_Header : Header;
  RemoteAddr : string;
  Req_Host : string;
  Body : string + error
}.

(** ** Responses *)

Record ResponseWriter : Type := mkRW {
  (* the header map of the handler *)
  rw_header : Header;
  (* the status line and header once they are sent *)
  rw_sent : option (Z * Header);
  rw_body : string
}.
Definition fresh_rw : ResponseWriter := mkRW ∅ None "".

(** A second [WriteHeader] is ignored; the first [Write] sends the status 200. *)
Definition rw_WriteHeader (code : Z) (w : ResponseWriter) : ResponseWriter :=
  match rw_sent w with
  | Some _ => w
  | None => mkRW (rw_header w) (Some (code, rw_header w)) (rw_body w)
  end.
Definition rw_Write (b : string) (w : ResponseWriter) : ResponseWriter :=
  let w := rw_WriteHeader 200 w in mkRW (rw_header w) (rw_sent w) (rw_body w +:+ b).
Definition rw_HeaderSet (k v : string) (w : ResponseWriter) : ResponseWriter :=
  mkRW (Header_Set k v (rw_header w)) (rw_sent w) (rw_body w).

Definition StatusOK : Z := 200.
Definition StatusBadRequest : Z := 400.
Definition StatusNotFound : Z := 404.
Definition StatusMethodNotAllowed : Z := 405.
Definition StatusInternalServerError : Z := 500.

(** The status a client sees: a handler that sends nothing answers 200. *)
Definition rw_status (w : ResponseWriter) : Z :=
  match rw_sent w with Some (code, _) => code | None => StatusOK end.

(** ** util.go *)

Definition rw_WriteAsText (s : string) (w : ResponseWriter) : ResponseWriter :=
  rw_Write s (rw_HeaderSet "Content-Type" "text/plain; charset=utf-8" w).
Definition rw_WriteAsJSON {A} `{Codec A} (m : A) (w : ResponseWriter) : ResponseWriter :=
  rw_Write (Marshal m) (rw_HeaderSet "Content-Type" "application/json; charset=utf-8" w).

(** ** The monad of the handlers: a state [S] and the response writer *)

Definition HM (S A : Type) : Type := M (S * ResponseWriter) A.
Definition on_state {S A} (f : M S A) : HM S A := λ sw,
  let '(s, a) := f sw.1 in ((s, sw.2), a).
Definition on_rw {S} (f : ResponseWriter → ResponseWriter) : HM S unit := λ sw,
  ((sw.1, f sw.2), Ret tt).
Definition WriteHeader {S} (code : Z) : HM S unit := on_rw (rw_WriteHeader code).
Definition WriteAsText {S} (s : string) : HM S unit := on_rw (rw_WriteAsText s).
Definition WriteAsJSON {S A} `{Codec A} (m : A) : HM S unit := on_rw (rw_WriteAsJSON m).

Definition ServeHTTPFn (S : Type) : Type := Request → HM S unit.
Definition ServeHTTPFnE (S : Type) : Type := Request → HM S (option error).

(** ** proxy.go *)

(** The director of [ReverseProxy]. *)
Definition director (targetHost targetPath : string) (req : Request) : Request :=
  let u := Req_URL req in
  let u := mkURL "http" targetHost targetPath (RawPath u) (ForceQuery u) (RawQuery u) in
  let h := Header_Set XOriginRemoteAddr (RemoteAddr req) (Req_Header req) in
  let h := Header_Add "X-Forwarded-Host" (Req_Host req) h in
  let h := Header_Add "X-Origin-Host" (Header_Get h "Host") h in
  mkRequest (Method req) u h (RemoteAddr req) (Req_Host req) (Body req).

(** ** The dialer of the proxy's transport *)

(** [net.DialTimeout], [SetDeadline] of a connection, and the clock. *)
Class Dial (W Conn : Type) : Type := {
  net_DialTimeout : string → string → Z → W → W * (Conn * option error);
  conn_SetDeadline : Conn → Z → W → W * option error;
  time_Now : W → Z
}.

(** Both timeouts in nanoseconds; one deadline covers all reads and writes. *)
Definition TimeoutDialer {W Conn} `{Dial W Conn} (cTimeout rwTimeout : Z) (network addr : string)
    : M W (Conn * option error) :=
  '(conn, err) ← ext (net_DialTimeout network addr cTimeout);
  match err with
  | Some e => mret (conn, Some e)
  | None =>
      if (0 <? rwTimeout)%Z then
        now ← gets time_Now;
        err ← ext (conn_SetDeadline conn (now + rwTimeout)%Z);
        mret (conn, err)
      else mret (conn, None)
  end.

(** A connection without an error always has its deadline, [rwTimeout] after it was
    made, when one is wanted. *)
Theorem TimeoutDialer_deadline {W Conn} `{Dial W Conn} cT rwT network addr w w' conn :
  TimeoutDialer cT rwT network addr w = (w', Ret (conn, None)) ↔
  ∃ w1, net_DialTimeout network addr cT w = (w1, (conn, None)) ∧
    if decide (0 < rwT)%Z then conn_SetDeadline conn (time_Now w1 + rwT)%Z w1 = (w', None) else w' = w1.
Proof.
  unfold TimeoutDialer, ext, gets, mbind, M_bind, mret, M_ret.
  destruct (net_DialTimeout network addr cT w) as [w1 [c [e|]]]; [naive_solver|].
  destruct (Z.ltb_spec 0 rwT), (decide (0 < rwT)%Z); try lia; [|naive_solver].
  destruct (conn_SetDeadline c (time_Now w1 + rwT)%Z w1) as [w2 err] eqn:E. split.
  - intros [= <- <- ->]. by exists w1.
  - intros (w1' & [= <- <-] & E'). rewrite E in E'. by injection E' as <- ->.
Qed.

(** What [httputil.ReverseProxy] does with the directed request: send it and copy
    the answer into the response. *)
Class Proxy (S : Type) : Type := { serve_proxy : Request → HM S unit }.

Definition ReverseProxy {S} `{Proxy S} (targetHost targetPath : string) : ServeHTTPFn S :=
  λ req, serve_proxy (director targetHost targetPath req).

(** The directed request carries the address of the client the node saw. *)
Lemma director_origin host path req :
  Header_Get (Req_Header (director host path req)) XOriginRemoteAddr = RemoteAddr req.
Proof.
  unfold director. cbn [Req_Header]. rewrite !Header_Get_Add by done.
  by rewrite Header_Get_Set, decide_True by done.
Qed.

(** ** A handler at the other end of a request

    What the HTTP client of a node gets from another node of this program: the request
    as the server parses it, the handler's run on a fresh response, and its status and
    body; a handler that panics closes the connection. *)

(** The authority and the rest of a URL; the authority is that of a node, host and port. *)
Definition split_url (url : string) : option (string * string) :=
  match strip "http://" url with
  | Some rest => match cut_first slash rest with Some (host, p) => Some (host, "/" +:+ p) | None => None end
  | None => None
  end.

(** A request with a decoded path and no query. *)
Definition received (method host path remote body : string) : Request :=
  mkRequest method (mkURL "" "" path "" false "") ∅ remote host (inl body).

(** What becomes of a URL given to the client.  It may not parse; otherwise the client
    connects to its authority, and the server makes a request of what is printed on the
    request line, unless a blank in the query makes that line malformed. *)
Definition request_to (method url remote body : string) : option (string * option Request) :=
  match split_url url with
  | Some (host, rest) =>
      let '(rest, fragment) :=
        match cut_first hash rest with Some (r, f) => (r, f) | None => (rest, "") end in
      match url_parse "http" host rest, unescape fragment with
      | Some u, Some _ =>
          let line := URL_String u in
          Some (host,
            if contains blank line then None
            else match url_parse "" "" line with
                 | Some u => Some (mkRequest method u ∅ remote host (inl body))
                 | None => None
                 end)
      | _, _ => None
      end
  | None => None
  end.
Definition url_error : error := ErrExt "parse".

Definition http_serve {S} (serve : ServeHTTPFn S) (r : Request) (s : S) : S * (Z * string + error) :=
  match serve r (s, fresh_rw) with
  | ((s, w), Ret _) => (s, inl (rw_status w, rw_body w))
  | ((s, _), Panic _) => (s, inr (ErrExt "EOF"))
  end.

(** The server answers a malformed request itself. *)
Definition http_deliver {S} (serve : ServeHTTPFn S) (r : option Request) (s : S) : S * (Z * string + error) :=
  match r with
  | Some r => http_serve serve r s
  | None => (s, inl (StatusBadRequest, "400 Bad Request"))
  end.

Lemma split_url_http host port path :
  plain host = true → plain port = true → contains slash host = false → contains slash port = false →
  split_url ("http://" +:+ host +:+ ":" +:+ port +:+ "/" +:+ path) = Some (joinHP host port, "/" +:+ path).
Proof.
  intros Hh Hp Hsh Hsp. unfold split_url. rewrite strip_app.
  replace (host +:+ ":" +:+ port +:+ "/" +:+ path) with (joinHP host port +:+ String slash path)
    by (unfold joinHP; by autorewrite with str).
  rewrite cut_first_app; [done|]. unfold joinHP. by rewrite contains_app, Hsh, contains_cons, Hsp.
Qed.

(** A URL without query and fragment: it parses exactly if its path can be printed, and
    the request that arrives has that spelling of the path. *)
Lemma request_to_path method host port path remote body :
  plain host = true → plain port = true → contains slash host = false → contains slash port = false →
  contains question path = false → contains hash path = false →
  match printed ("/" +:+ path) with
  | None =>
      request_to method ("http://" +:+ host +:+ ":" +:+ port +:+ "/" +:+ path) remote body = None
  | Some q =>
      ∃ u, request_to method ("http://" +:+ host +:+ ":" +:+ port +:+ "/" +:+ path) remote body =
             Some (joinHP host port, Some (mkRequest method u ∅ remote (joinHP host port) (inl body))) ∧
           unescape ("/" +:+ path) = Some (Path u) ∧ URL_String u = q
  end.
Proof.
  intros Hh Hp Hsh Hsp Hq Hf. unfold request_to. rewrite split_url_http by done.
  assert (∀ t, "/" +:+ t ≠ "*") as Hstar by (intros t; by rewrite str_app_cons).
  assert (∀ t, unescape ("/" +:+ t) ≠ Some "*") as Hstar'.
  { intros t. change ("/" +:+ t) with (String slash t). cbn [unescape]. rewrite decide_False by done.
    by destruct (unescape t). }
  rewrite (cut_first_none hash) by by rewrite contains_app.
  pose proof (url_parse_printed "http" (joinHP host port) ("/" +:+ path) ltac:(by rewrite contains_app)
    (Hstar path) (Hstar' path)) as H1.
  destruct (url_parse "http" _ _) as [u|]; [|by rewrite H1]. destruct H1 as (H1 & Hd & ->).
  rewrite H1. cbn [unescape]. pose proof (printed_valid _ _ H1) as Hv.
  rewrite (valid_no blank) by done. destruct (printed_again _ _ H1) as [H2 Hd2].
  assert (∃ t, EscapedPath u = "/" +:+ t) as [t Et].
  { rewrite (printed_app "/" path) in H1 by done. destruct (printed path) as [t|]; [|done].
    exists t. congruence. }
  pose proof (url_parse_printed "" "" (EscapedPath u) ltac:(by apply valid_no)
    ltac:(by rewrite Et) ltac:(by rewrite Et)) as H3.
  destruct (url_parse "" "" (EscapedPath u)) as [u2|]; [|congruence].
  destruct H3 as (H3 & Hd3 & H4). exists u2. split; [done|]. split; congruence.
Qed.

(** A path of bytes that need no escaping arrives as it is. *)
Lemma request_to_plain method host port path remote body :
  plain host = true → plain port = true → contains slash host = false → contains slash port = false →
  all_bytes (λ c, negb (shouldEscape c)) path = true →
  request_to method ("http://" +:+ host +:+ ":" +:+ port +:+ "/" +:+ path) remote body =
    Some (joinHP host port, Some (received method (joinHP host port) ("/" +:+ path) remote body)).
Proof.
  intros Hh Hp Hsh Hsp Hpath. unfold request_to. rewrite split_url_http by done.
  assert (all_bytes (λ c, negb (shouldEscape c)) ("/" +:+ path) = true) as Hall by done.
  rewrite (cut_first_none hash) by (eapply all_bytes_contains, Hall; done).
  assert (∀ scheme h, url_parse scheme h ("/" +:+ path) = Some (mkURL scheme h ("/" +:+ path) "" false "")) as Hu.
  { intros scheme h. unfold url_parse.
    assert (validEncodedPath ("/" +:+ path) = true) as Hv.
    { eapply all_bytes_impl, Hall. intros c Hc. unfold valid_byte. by rewrite Hc, orb_true_r. }
    rewrite (valid_no_ctl _ Hv), (cut_first_none question) by by apply valid_no.
    unfold setPath. rewrite unescape_id, escape_id by done. by rewrite decide_True by done. }
  rewrite Hu. cbn [unescape].
  assert (URL_String (mkURL "http" (joinHP host port) ("/" +:+ path) "" false "") = "/" +:+ path) as ->.
  { unfold URL_String, EscapedPath. cbn. rewrite decide_False by done.
    rewrite str_app_nil_r. exact (escape_id _ Hall). }
  rewrite (all_bytes_contains (λ c, negb (shouldEscape c)) blank) by done. by rewrite Hu.
Qed.

(** A JSON answer written to a fresh response. *)
Lemma rw_WriteAsJSON_fresh {A} `{Codec A} (a : A) :
  rw_status (rw_WriteAsJSON a fresh_rw) = 200%Z ∧ rw_body (rw_WriteAsJSON a fresh_rw) = Marshal a.
Proof. done. Qed.
