(* ===== verification/Service.v ===== *)
(** * The HTTP service: [service.go], [service_key.go], [service_raft.go], [job.go], [storei.go]

    The handlers are proved against the [Store] interface and its contract; the
    last part shows that [RaftStore] keeps the contract. *)

From stdpp Require Import prelude gmap strings.
From S2P Require Import Prelude.
From S2P Require Import GoStd.
From S2P Require Import GoTime.
From S2P Require Import Util.
From S2P Require Import Model.
From S2P Require Import Externals.
From S2P Require Import Sim.
From S2P Require Import Dealer.
From S2P Require Import Arg.
From S2P Require Import Client.
From S2P Require Import Fsm.
From S2P Require Import Store.
From S2P Require Import Url.
From S2P Require Import Http.

(** ** The Store interface, over the state [S] of the node *)

Class StoreI (S : Type) : Type := {
  Store_Get : string → M S (option string);
  Store_IsLeader : M S bool;
  Store_Set : string → string → M S (option error);
  Store_Delete : string → M S (option error);
  Store_Join : string → string → M S (option error);
  Store_Remove : string → M S (option error);
  Store_RaftStats : M S (gmap string stat);
  Store_Cluster : M S (RaftCluster * option error);
  Store_LeadServer : M S (Peer * option error);
  Store_NodeState : M S string
}.

(** What the service relies on: reading is a lookup in the map of the node, telling
    the leader changes nothing, and the calls return. *)
Class StoreContract (S : Type) `{StoreI S} (map_of : S → gmap string string)
    (leads : S → bool) : Prop := {
  Store_Get_spec k s : Store_Get k s = (s, Ret (map_of s !! k));
  Store_IsLeader_spec s : Store_IsLeader s = (s, Ret (leads s));
  Store_LeadServer_spec s : ∃ p err, Store_LeadServer s = (s, Ret (p, err));
  Store_Set_total k v s : ∃ s' err, Store_Set k v s = (s', Ret err);
  Store_Delete_total k s : ∃ s' err, Store_Delete k s = (s', Ret err);
  Store_Join_total i a s : ∃ s' err, Store_Join i a s = (s', Ret err);
  Store_Cluster_total s : ∃ s' v, Store_Cluster s = (s', Ret v);
  Store_write_refused k v i a s : leads s = false →
    Store_Set k v s = (s, Ret (Some ErrNotLeader)) ∧
    Store_Delete k s = (s, Ret (Some ErrNotLeader)) ∧
    Store_Join i a s = (s, Ret (Some ErrNotLeader)) ∧
    Store_Remove i s = (s, Ret (Some ErrNotLeader))
}.

(** [NodeState] of service_raft.go. *)
Record NodeInfo : Type := mkNodeInfo {
  Info_StartTime : string; Info_NodeID : string; Info_Hostname : string; Info_IP : string
}.

Section service.
Context {S V J : Type} `{StoreI S} `{Proxy S}.
Context `{!Codec (gmap string string)} `{!Codec JoinRequest} `{!Codec (Rsp V)}.
Context `{!Codec RaftCluster} `{!Codec (gmap string stat)} `{!Codec (gmap string J)}.
Context `{!Codec NodeInfo}.
(** JSON values: jsoniter's parser into [interface{}], and a string as a value. *)
Context (UnmarshalFromString : string → J + error) (JString : string → J).
(** The order in which Go ranges over a map; the profiler's handlers; gonet's body
    reader; what the node knows of itself; its job dealers. *)
Context (range : gmap string string → list (string * string)).
Context (pprof : string → ServeHTTPFn S) (gonet_ReadBytes : string + error → string).
Context (info : NodeInfo).
Context (unmarshal_new : gotype → string → V + error) (ptr_to : V → V).
Context (dealers : DealerMap S V).

(** A decoder on the request body: a body that cannot be read is an error. *)
Definition decode_body {A} `{Codec A} (zero : A) (r : Request) : A * option error :=
  match Body r with inl b => Decode zero b | inr e => (zero, Some e) end.

Definition err_rsp (err : error) : Rsp V := mkRsp false (Error err) None.
Definition ok_rsp (msg : string) (data : option V) : Rsp V := mkRsp true msg data.

(** ** Forwarding to the leader *)

Definition forwardToLeader : ServeHTTPFnE S := λ r,
  '(leader, err) ← on_state Store_LeadServer;
  match err with
  | Some e => mret (Some e)
  | None =>
      let addr := HTTPAddr (Peer_ID leader) in
      if decide (addr = "") then mret (Some (ErrText "failed to get raft leader"))
      else if decide (Header_Get (Req_Header r) XOriginRemoteAddr ≠ "") then
        mret (Some (ErrText "forward two times not allowed"))
      else _ ← ReverseProxy addr (Path (Req_URL r)) r; mret None
  end.

Definition tryForwardToLeaderFn (f : ServeHTTPFnE S) : M S (ServeHTTPFnE S) :=
  leader ← Store_IsLeader; mret (if (leader : bool) then f else forwardToLeader).

Definition tryForwardToLeader (f : ServeHTTPFn S) : ServeHTTPFn S := λ r,
  leader ← on_state Store_IsLeader;
  if (leader : bool) then f r
  else
    err ← forwardToLeader r;
    match err with Some e => WriteAsJSON (err_rsp e) | None => mret tt end.

Definition CheckMethod (m : string) (f : ServeHTTPFn S) : ServeHTTPFn S := λ r,
  if decide (Method r = m) then f r else WriteHeader StatusMethodNotAllowed.

Definition CheckMethodE (m : string) (f : ServeHTTPFnE S) : ServeHTTPFn S := λ r,
  if decide (Method r ≠ m) then WriteHeader StatusMethodNotAllowed
  else
    err ← f r;
    match err with Some e => WriteAsJSON (err_rsp e) | None => mret tt end.

(** ** Keys *)

Definition key_of (path : string) : string := TrimPrefix (TrimPrefix path KeyPath) "/".
Definition getKey (r : Request) : HM S (option string) :=
  let key := key_of (Path (Req_URL r)) in
  if decide (key ≠ "") then mret (Some key)
  else _ ← WriteHeader StatusBadRequest; mret None.

Definition ParseJSON (v : string) : J + error := UnmarshalFromString v.
Definition TryParseJSON (v : string) : J :=
  match ParseJSON v with inl jv => jv | inr _ => JString v end.

Fixpoint set_all (kvs : list (string * string)) : HM S unit :=
  match kvs with
  | [] => mret tt
  | (k, v) :: kvs =>
      err ← on_state (Store_Set k v);
      match err with
      | Some _ => WriteHeader StatusInternalServerError
      | None => set_all kvs
      end
  end.
Definition doKeyPost : ServeHTTPFn S := λ r,
  let '(m, err) := decode_body (∅ : gmap string string) r in
  match err with
  | Some _ => WriteHeader StatusBadRequest
  | None => set_all (range m)
  end.

Definition handleKeyRequest : ServeHTTPFn S := λ r,
  if decide (Method r = "GET") then
    key ← getKey r;
    match key with
    | None => mret tt
    | Some key =>
        v ← on_state (Store_Get key);
        match v with
        | Some v => WriteAsJSON ({[key := TryParseJSON v]} : gmap string J)
        | None => WriteHeader StatusNotFound
        end
    end
  else if decide (Method r = "POST") then tryForwardToLeader doKeyPost r
  else if decide (Method r = "DELETE") then
    key ← getKey r;
    match key with
    | None => mret tt
    | Some key =>
        tryForwardToLeader (λ _,
          err ← on_state (Store_Delete key);
          match err with
          | Some _ => WriteHeader StatusInternalServerError
          | None => mret tt
          end) r
    end
  else WriteHeader StatusMethodNotAllowed.

Definition handleRemove : ServeHTTPFnE S := λ r,
  match Body r with
  | inr e => mret (Some e)
  | inl b =>
      let '(m, err) := Unmarshal (∅ : gmap string string) b in
      match err with
      | Some e => mret (Some e)
      | None =>
          match m !! "id" with
          | None => mret (Some (ErrText "ID not found"))
          | Some remoteID =>
              err ← on_state (Store_Remove remoteID);
              match err with
              | Some e => mret (Some e)
              | None => _ ← WriteAsJSON (ok_rsp "OK" None); mret None
              end
          end
      end
  end.

(** ** Raft requests *)

(** The cluster view goes into the log; its failures are only logged. *)
Definition saveCluster : M S unit :=
  '(cluster, err) ← Store_Cluster;
  match err with
  | Some _ => log
  | None =>
      err ← Store_Set "raft/cluster" (Marshal cluster);
      match err with Some _ => log | None => log end
  end.

Definition handleJoin : ServeHTTPFnE S := λ r,
  let '(j, err) := decode_body (mkJoinRequest "" "") r in
  match err with
  | Some e => mret (Some e)
  | None =>
      match JoinRequest_Fix (EmptyThen (Header_Get (Req_Header r) XOriginRemoteAddr) (RemoteAddr r)) j with
      | (_, Panic msg) => panic msg
      | (j, Ret _) =>
          err ← on_state (Store_Join (JoinNodeID j) (Addr j));
          match err with
          | Some e => mret (Some e)
          | None =>
              _ ← on_state saveCluster;
              _ ← WriteAsJSON (ok_rsp "OK" None);
              mret None
          end
      end
  end.

Definition handleNode : ServeHTTPFnE S := λ _, _ ← WriteAsJSON info; mret None.

Definition handleCluster : ServeHTTPFnE S := λ _,
  '(servers, err) ← on_state Store_Cluster;
  match err with
  | Some e => mret (Some e)
  | None => _ ← WriteAsJSON servers; mret None
  end.

Definition handleRaftRequest : ServeHTTPFn S := λ r,
  let p := TrimPrefix (Path (Req_URL r)) RaftPath in
  if decide (p = "/health") then CheckMethod "GET" (λ _, WriteAsText "OK") r
  else if decide (p = "/join") then
    f ← on_state (tryForwardToLeaderFn handleJoin); CheckMethodE "POST" f r
  else if decide (p = "/remove") then
    f ← on_state (tryForwardToLeaderFn handleRemove); CheckMethodE "DELETE" f r
  else if decide (p = "/stats") then
    CheckMethod "GET" (λ _, st ← on_state Store_RaftStats; WriteAsJSON st) r
  else if decide (p = "/state") then
    CheckMethod "GET" (λ _, st ← on_state Store_NodeState; WriteAsJSON (ok_rsp st None)) r
  else if decide (p = "/cluster") then CheckMethodE "GET" handleCluster r
  else if decide (p = "/node") then CheckMethodE "GET" handleNode r
  else WriteHeader StatusNotFound.

(** ** Jobs *)

Definition handleJobRequest : ServeHTTPFnE S := λ r,
  let path := TrimPrefix (URL_String (Req_URL r)) DoJobPath in
  let body := gonet_ReadBytes (Body r) in
  '(rsp, err) ← on_state (Invoke unmarshal_new ptr_to dealers path body);
  match err with
  | Some e => mret (Some e)
  | None => _ ← WriteAsJSON (ok_rsp "ok" rsp); mret None
  end.

(** ** The calls a program makes on the service itself *)

Definition Service_IsLeader : M S bool := Store_IsLeader.
Definition Service_RaftCluster : M S (RaftCluster * option error) := Store_Cluster.
Definition Service_Set (k v : string) : M S (option error) := Store_Set k v.

(** ** Routing *)

Definition pprof_names : list string :=
  ["pprof"; "cmdline"; "symbol"; "profile"; "trace"; "heap"; "goroutine"; "allocs"; "block";
   "threadcreate"; "mutex"].

(** [pprof] is given the last component of the path. *)
Definition debugPprof : ServeHTTPFnE S := λ r,
  match filter (λ n, Path (Req_URL r) = "/debug/" +:+ n) pprof_names with
  | n :: _ => _ ← pprof n r; mret None
  | [] =>
      _ ← WriteHeader StatusNotFound; mret (Some (ErrText ("404 " +:+ Path (Req_URL r))))
  end.

Definition ServeHTTP : ServeHTTPFn S := λ r,
  let path := Path (Req_URL r) in
  if HasPrefix path KeyPath then handleKeyRequest r
  else if HasPrefix path RaftPath then handleRaftRequest r
  else if HasPrefix path DoJobPath then CheckMethodE "POST" handleJobRequest r
  else if HasPrefix path "/debug" then _ ← debugPprof r; mret tt
  else WriteHeader StatusNotFound.

(** ** Properties *)

Section properties.
Context {map_of : S → gmap string string} {leads : S → bool} `{!StoreContract S map_of leads}.

Lemma bind_on_state {A B} (f : M S A) (k : A → HM S B) s s' a w :
  f s = (s', Ret a) → (on_state f ≫= k) (s, w) = k a (s', w).
Proof. intros E. unfold on_state, mbind, M_bind. cbn [fst snd]. by rewrite E. Qed.

(** The answer of [forwardToLeader], given what [LeadServer] says. *)
Definition forward_answer (r : Request) (lead : Peer * option error) (sw : S * ResponseWriter)
    : (S * ResponseWriter) * outcome (option error) :=
  match lead.2 with
  | Some e => (sw, Ret (Some e))
  | None =>
      let addr := HTTPAddr (Peer_ID lead.1) in
      if decide (addr = "") then (sw, Ret (Some (ErrText "failed to get raft leader")))
      else if decide (Header_Get (Req_Header r) XOriginRemoteAddr ≠ "") then
        (sw, Ret (Some (ErrText "forward two times not allowed")))
      else match serve_proxy (director addr (Path (Req_URL r)) r) sw with
           | (sw, Ret _) => (sw, Ret None)
           | (sw, Panic msg) => (sw, Panic msg)
           end
  end.

Lemma forwardToLeader_run r s w :
  ∃ lead, Store_LeadServer s = (s, Ret lead) ∧ forwardToLeader r (s, w) = forward_answer r lead (s, w).
Proof.
  destruct (Store_LeadServer_spec s) as (p & err & E). exists (p, err). split; [done|].
  unfold forwardToLeader. rewrite (bind_on_state _ _ _ _ _ _ E). unfold forward_answer. cbn [fst snd].
  destruct err; [done|]. case_decide; [done|]. case_decide; [done|].
  unfold ReverseProxy, mbind, M_bind. by destruct (serve_proxy _ _) as [? []].
Qed.

(** An error as the answer to a request: a JSON object with its text, status 200. *)
Definition error_answer (e : error) (sw : S * ResponseWriter) : S * ResponseWriter :=
  (sw.1, rw_WriteAsJSON (err_rsp e) sw.2).
Definition answer_of (x : (S * ResponseWriter) * outcome (option error))
    : (S * ResponseWriter) * outcome unit :=
  match x with
  | (sw, Ret (Some e)) => (error_answer e sw, Ret tt)
  | (sw, Ret None) => (sw, Ret tt)
  | (sw, Panic msg) => (sw, Panic msg)
  end.

Lemma tryForwardToLeader_follower f r s w : leads s = false →
  tryForwardToLeader f r (s, w) = answer_of (forwardToLeader r (s, w)).
Proof.
  intros Hl. unfold tryForwardToLeader.
  rewrite (bind_on_state _ _ _ _ _ _ (Store_IsLeader_spec s)), Hl. unfold mbind, M_bind.
  by destruct (forwardToLeader r (s, w)) as [[s' w'] [[e|]|]].
Qed.

Lemma tryForwardToLeader_leader f r s w : leads s = true →
  tryForwardToLeader f r (s, w) = f r (s, w).
Proof.
  intros Hl. unfold tryForwardToLeader.
  by rewrite (bind_on_state _ _ _ _ _ _ (Store_IsLeader_spec s)), Hl.
Qed.

Lemma CheckMethodE_run m f r sw : Method r = m → CheckMethodE m f r sw = answer_of (f r sw).
Proof.
  intros Hm. unfold CheckMethodE. rewrite decide_False by auto. unfold mbind, M_bind.
  by destruct (f r sw) as [[s w] [[e|]|]].
Qed.

Lemma forward_Fn f s : tryForwardToLeaderFn f s = (s, Ret (if leads s then f else forwardToLeader)).
Proof.
  unfold tryForwardToLeaderFn, mbind, M_bind. by rewrite Store_IsLeader_spec.
Qed.

(** *** Routing *)

Lemma Raft_not_Key p : HasPrefix (RaftPath +:+ p) KeyPath = false.
Proof. reflexivity. Qed.
Lemma HasPrefix_app p s : HasPrefix (p +:+ s) p = true.
Proof. apply HasPrefix_spec. by exists s. Qed.

Lemma ServeHTTP_key r k : Path (Req_URL r) = KeyPath +:+ k → ServeHTTP r = handleKeyRequest r.
Proof. intros Hp. unfold ServeHTTP. by rewrite Hp, HasPrefix_app. Qed.

Lemma ServeHTTP_raft r p : Path (Req_URL r) = RaftPath +:+ p → ServeHTTP r = handleRaftRequest r.
Proof. intros Hp. unfold ServeHTTP. by rewrite Hp, Raft_not_Key, HasPrefix_app. Qed.

Lemma key_of_slash k : key_of (KeyPath +:+ "/" +:+ k) = k.
Proof. unfold key_of. by rewrite !TrimPrefix_app. Qed.

Lemma getKey_some r k sw : key_of (Path (Req_URL r)) = k → k ≠ "" →
  getKey r sw = (sw, Ret (Some k)).
Proof. intros <- Hk. unfold getKey. by rewrite decide_True by done. Qed.

(** The requests that change the store, by endpoint: a POST under the key path, whatever
    follows it; a DELETE under it that names a key, after a slash or not; joining and
    removing.  (Every other request reads, runs a job or is refused.) *)
Inductive write_request (r : Request) : Prop :=
| write_post k : Path (Req_URL r) = KeyPath +:+ k → Method r = "POST" → write_request r
| write_delete k : Path (Req_URL r) = KeyPath +:+ k → key_of (KeyPath +:+ k) ≠ "" → Method r = "DELETE" →
    write_request r
| write_join : Path (Req_URL r) = RaftPath +:+ "/join" → Method r = "POST" → write_request r
| write_remove : Path (Req_URL r) = RaftPath +:+ "/remove" → Method r = "DELETE" → write_request r.

(** C14. A node that does not lead answers no write itself.  Every request that would
    change the store is handed to the leader that [LeadServer] names, at the same
    path, or answered with a JSON error when there is none to hand it to or it came
    from another node already; the node's own store is not called. *)
Theorem follower_forwards_writes r s w : leads s = false → write_request r →
  ∃ lead, Store_LeadServer s = (s, Ret lead) ∧
    ServeHTTP r (s, w) = answer_of (forward_answer r lead (s, w)).
Proof.
  intros Hl Hw. destruct (forwardToLeader_run r s w) as (lead & HL & E). exists lead. split; [done|].
  rewrite <-E. destruct Hw as [k Hp Hm|k Hp Hk Hm|Hp Hm|Hp Hm].
  - rewrite (ServeHTTP_key _ _ Hp). unfold handleKeyRequest. rewrite Hm. simpl.
    by apply tryForwardToLeader_follower.
  - rewrite (ServeHTTP_key _ _ Hp). unfold handleKeyRequest. rewrite Hm. simpl.
    unfold mbind at 1, M_bind at 1. rewrite (getKey_some _ _ _ eq_refl) by by rewrite Hp.
    by apply tryForwardToLeader_follower.
  - rewrite (ServeHTTP_raft _ _ Hp). unfold handleRaftRequest. rewrite Hp, TrimPrefix_app. simpl.
    rewrite (bind_on_state _ _ _ _ _ _ (forward_Fn _ _)), Hl. by apply CheckMethodE_run.
  - rewrite (ServeHTTP_raft _ _ Hp). unfold handleRaftRequest. rewrite Hp, TrimPrefix_app. simpl.
    rewrite (bind_on_state _ _ _ _ _ _ (forward_Fn _ _)), Hl. by apply CheckMethodE_run.
Qed.

(** C15. A request is forwarded at most once: what a node sends to the leader, received
    by a node that does not lead, is answered there with an error and goes no
    further, whatever the network would do with it. *)
Theorem forward_at_most_once r host s w : leads s = false → write_request r → RemoteAddr r ≠ "" →
  ∃ e, ServeHTTP (director host (Path (Req_URL r)) r) (s, w) = (error_answer e (s, w), Ret tt).
Proof.
  intros Hl Hw Hr. set (r' := director host (Path (Req_URL r)) r).
  assert (write_request r') as Hw'.
  { destruct Hw as [k Hp Hm|k Hp Hk Hm|Hp Hm|Hp Hm];
      [by eapply write_post|by eapply write_delete|by apply write_join|by apply write_remove]. }
  assert (∃ e, forwardToLeader r' (s, w) = ((s, w), Ret (Some e))) as [e E].
  { destruct (forwardToLeader_run r' s w) as ([p err] & _ & ->). unfold forward_answer.
    cbn [fst snd]. destruct err; [by eexists|]. case_decide; [by eexists|].
    rewrite decide_True by (unfold r'; by rewrite director_origin). by eexists. }
  exists e. destruct Hw' as [k Hp Hm|k Hp Hk Hm|Hp Hm|Hp Hm].
  - rewrite (ServeHTTP_key _ _ Hp). unfold handleKeyRequest. rewrite Hm. simpl.
    by rewrite tryForwardToLeader_follower, E by done.
  - rewrite (ServeHTTP_key _ _ Hp). unfold handleKeyRequest. rewrite Hm. simpl.
    unfold mbind at 1, M_bind at 1. rewrite (getKey_some _ _ _ eq_refl) by by rewrite Hp.
    by rewrite tryForwardToLeader_follower, E by done.
  - rewrite (ServeHTTP_raft _ _ Hp). unfold handleRaftRequest. rewrite Hp, TrimPrefix_app. simpl.
    rewrite (bind_on_state _ _ _ _ _ _ (forward_Fn _ _)), Hl. by rewrite CheckMethodE_run, E.
  - rewrite (ServeHTTP_raft _ _ Hp). unfold handleRaftRequest. rewrite Hp, TrimPrefix_app. simpl.
    rewrite (bind_on_state _ _ _ _ _ _ (forward_Fn _ _)), Hl. by rewrite CheckMethodE_run, E.
Qed.

(** *** Reading *)

(** Reading a key is local on every node, leader or not: GET on the path of a key
    answers its value of this node's map as JSON (parsed, when it parses) or 404,
    and GET on the bare key path answers 400; nothing changes and nothing is sent
    to another node. *)
Lemma get_key_answers r k s w : Path (Req_URL r) = KeyPath +:+ "/" +:+ k → Method r = "GET" →
  ServeHTTP r (s, w) = ((s,
    if decide (k = "") then rw_WriteHeader StatusBadRequest w
    else match map_of s !! k with
         | Some v => rw_WriteAsJSON ({[k := TryParseJSON v]} : gmap string J) w
         | None => rw_WriteHeader StatusNotFound w
         end), Ret tt).
Proof.
  intros Hp Hm. rewrite (ServeHTTP_key _ _ Hp). unfold handleKeyRequest. rewrite Hm. simpl.
  unfold mbind at 1, M_bind at 1. case_decide as Hk.
  - subst. unfold getKey. rewrite Hp, key_of_slash. by rewrite decide_False by auto.
  - rewrite (getKey_some _ k) by (rewrite ?Hp; auto using key_of_slash).
    rewrite (bind_on_state _ _ _ _ _ _ (Store_Get_spec _ _)). by destruct (map_of s !! k).
Qed.

(** *** Writing *)

Lemma post_key_request r k s w : Path (Req_URL r) = KeyPath +:+ k → Method r = "POST" →
  ServeHTTP r (s, w) =
    if leads s then doKeyPost r (s, w) else answer_of (forwardToLeader r (s, w)).
Proof.
  intros Hp Hm. rewrite (ServeHTTP_key _ _ Hp). unfold handleKeyRequest. rewrite Hm. simpl.
  destruct (leads s) eqn:Hl; [by apply tryForwardToLeader_leader|by apply tryForwardToLeader_follower].
Qed.

(** A sequence of sets that all succeed. *)
Inductive sets_ok : list (string * string) → S → S → Prop :=
| sets_ok_nil s : sets_ok [] s s
| sets_ok_cons k v kvs s s1 s2 : Store_Set k v s = (s1, Ret None) → sets_ok kvs s1 s2 →
    sets_ok ((k, v) :: kvs) s s2.

(** Setting one key after the other stops at the first failure. *)
Lemma set_all_run l s w : ∃ done rest s1, l = done ++ rest ∧ sets_ok done s s1 ∧
  match rest with
  | [] => set_all l (s, w) = ((s1, w), Ret tt)
  | (k, v) :: _ => ∃ s2 e, Store_Set k v s1 = (s2, Ret (Some e)) ∧
      set_all l (s, w) = ((s2, rw_WriteHeader StatusInternalServerError w), Ret tt)
  end.
Proof.
  revert s. induction l as [|[k1 v1] l IH]; intros s0; [exists [], [], s0; split_and!; [done|constructor|done]|].
  cbn [set_all]. destruct (Store_Set_total k1 v1 s0) as (s1 & [e|] & E).
  - exists [], ((k1, v1) :: l), s0. split_and!; [done|constructor|]. exists s1, e. split; [done|].
    by rewrite (bind_on_state _ _ _ _ _ _ E).
  - destruct (IH s1) as (l1 & l2 & s2 & -> & Hok & Hrest). exists ((k1, v1) :: l1), l2, s2.
    split_and!; [done|by econstructor|].
    by rewrite (bind_on_state _ _ _ _ _ _ E).
Qed.

(** C23. A POST on the leader sets the keys of its body one after the other.  A body
    that does not decode is 400 with nothing set.  Otherwise every key is tried once
    in some order until one fails: all succeeded is 200; a failure is 500, and the
    keys before it stay set although the request failed. *)
Theorem post_keys r k s w (range_perm : ∀ kv, range kv ≡ₚ map_to_list kv) :
  leads s = true → Path (Req_URL r) = KeyPath +:+ k → Method r = "POST" →
  match decode_body (∅ : gmap string string) r with
  | (_, Some _) => ServeHTTP r (s, w) = ((s, rw_WriteHeader StatusBadRequest w), Ret tt)
  | (kv, None) =>
      ∃ done rest s1, done ++ rest ≡ₚ map_to_list kv ∧ sets_ok done s s1 ∧
        match rest with
        | [] => ServeHTTP r (s, w) = ((s1, w), Ret tt)
        | (k, v) :: _ => ∃ s2 e, Store_Set k v s1 = (s2, Ret (Some e)) ∧
            ServeHTTP r (s, w) = ((s2, rw_WriteHeader StatusInternalServerError w), Ret tt)
        end
  end.
Proof.
  intros Hl Hp Hm. rewrite (post_key_request _ _ _ _ Hp Hm), Hl. unfold doKeyPost.
  destruct (decode_body _ r) as [kv [e|]]; [done|].
  destruct (set_all_run (range kv) s w) as (l1 & l2 & s1 & El & Hok & Hrest).
  exists l1, l2, s1. split_and!; [by rewrite <-El|done|done].
Qed.

(** *** Joining *)

Lemma saveCluster_total s : ∃ s', saveCluster s = (s', Ret tt).
Proof.
  unfold saveCluster, mbind, M_bind.
  destruct (Store_Cluster_total s) as (s1 & [cl [e|]] & ->); [by eexists|].
  destruct (Store_Set_total "raft/cluster" (Marshal cl) s1) as (s2 & [e|] & ->); by eexists.
Qed.

(** A join request on the leader.  The store is asked to join the node under the
    ports of the request and the host the request came from (the one named in the
    forwarding header, if any; none for 127.0.0.1): for an id [h1:hp,h2:rp] and an
    address [h:p] from the host [rh], the node [rh:hp,rh:rp] at [rh:p].  Its refusal is
    the JSON error, and its success is answered OK after the new view was saved,
    whether or not saving worked. *)
Theorem join_request r s w h1 hp h2 rp h p rh rport :
  leads s = true → Path (Req_URL r) = RaftPath +:+ "/join" → Method r = "POST" →
  decode_body (mkJoinRequest "" "") r =
    (mkJoinRequest (joinHP h p) (joinHP h1 hp +:+ "," +:+ joinHP h2 rp), None) →
  clean h1 = true → clean hp = true → clean h2 = true → clean rp = true →
  plain h = true → plain p = true → plain rh = true → plain rport = true →
  EmptyThen (Header_Get (Req_Header r) XOriginRemoteAddr) (RemoteAddr r) = joinHP rh rport →
  let host := if decide (rh = "127.0.0.1") then "" else rh in
  match Store_Join (mkNodeID host hp rp) (joinHP host p) s with
  | (s1, Ret (Some e)) => ServeHTTP r (s, w) = (error_answer e (s1, w), Ret tt)
  | (s1, Ret None) =>
      ∃ s2, saveCluster s1 = (s2, Ret tt) ∧
        ServeHTTP r (s, w) = ((s2, rw_WriteAsJSON (ok_rsp "OK" None) w), Ret tt)
  | (_, Panic _) => False
  end.
Proof.
  intros Hl Hp Hm Hd Hh1 Hhp Hh2 Hrp Hh Hpp Hrh Hrport Ho host.
  rewrite (ServeHTTP_raft _ _ Hp). unfold handleRaftRequest. rewrite Hp, TrimPrefix_app. simpl.
  rewrite (bind_on_state _ _ _ _ _ _ (forward_Fn _ _)), Hl, CheckMethodE_run by done.
  unfold handleJoin. rewrite Hd, Ho. unfold JoinRequest_Fix. cbn [Addr JoinNodeID].
  rewrite host_of_join, port_of_join by done.
  replace (EqualsThen rh "127.0.0.1" "") with host by (unfold host, EqualsThen; done).
  rewrite NodeID_Fix_pair by done. cbn [Addr JoinNodeID]. rewrite joinHP_eq.
  destruct (Store_Join_total (mkNodeID host hp rp) (joinHP host p) s) as (s1 & [e|] & E); rewrite E.
  - by rewrite (bind_on_state _ _ _ _ _ _ E).
  - rewrite (bind_on_state _ _ _ _ _ _ E).
    destruct (saveCluster_total s1) as [s2 Es]. exists s2. split; [done|].
    by rewrite (bind_on_state _ _ _ _ _ _ Es).
Qed.

(** GET of the cluster view, on any node. *)
Lemma cluster_request r s w : Path (Req_URL r) = RaftPath +:+ "/cluster" → Method r = "GET" →
  ServeHTTP r (s, w) =
    match Store_Cluster s with
    | (s', Ret (_, Some e)) => (error_answer e (s', w), Ret tt)
    | (s', Ret (cl, None)) => ((s', rw_WriteAsJSON cl w), Ret tt)
    | (s', Panic msg) => ((s', w), Panic msg)
    end.
Proof.
  intros Hp Hm. rewrite (ServeHTTP_raft _ _ Hp). unfold handleRaftRequest. rewrite Hp, TrimPrefix_app.
  simpl. rewrite CheckMethodE_run by done. unfold handleCluster, on_state, mbind, M_bind. cbn [fst snd].
  by destruct (Store_Cluster s) as [s' [[cl [e|]]|msg]].
Qed.

(** C25. A join request whose id has no comma makes the leader's handler panic, before
    the store is asked anything. *)
Theorem join_without_comma_panics r s w addr id :
  leads s = true → Path (Req_URL r) = RaftPath +:+ "/join" → Method r = "POST" →
  decode_body (mkJoinRequest "" "") r = (mkJoinRequest addr id, None) →
  contains comma id = false →
  ∃ msg, ServeHTTP r (s, w) = ((s, w), Panic msg).
Proof.
  intros Hl Hp Hm Hd Hc.
  rewrite (ServeHTTP_raft _ _ Hp). unfold handleRaftRequest. rewrite Hp, TrimPrefix_app. simpl.
  rewrite (bind_on_state _ _ _ _ _ _ (forward_Fn _ _)), Hl, CheckMethodE_run by done.
  unfold handleJoin. rewrite Hd. unfold JoinRequest_Fix, NodeID_Fix, RaftAddr. cbn [Addr JoinNodeID].
  rewrite Split_none by done. simpl. by eexists.
Qed.

(** *** Everything else *)

(** Requests nobody serves: a path outside the four prefixes or an unknown raft or
    profiler path is 404, a method the endpoint does not have is 405; the store is not
    called at all. *)
Theorem unserved_requests r s w :
  let path := Path (Req_URL r) in
  let refused code := ServeHTTP r (s, w) = ((s, rw_WriteHeader code w), Ret tt) in
  (HasPrefix path KeyPath = false → HasPrefix path RaftPath = false →
   HasPrefix path DoJobPath = false →
   (HasPrefix path "/debug" = true → ∀ n, n ∈ pprof_names → path ≠ "/debug/" +:+ n) →
   refused StatusNotFound) ∧
  (∀ k, path = KeyPath +:+ k → Method r ∉ ["GET"; "POST"; "DELETE"] →
   refused StatusMethodNotAllowed) ∧
  (∀ p, path = RaftPath +:+ p →
   p ∉ ["/health"; "/join"; "/remove"; "/stats"; "/state"; "/cluster"; "/node"] →
   refused StatusNotFound) ∧
  (∀ p, path = RaftPath +:+ p →
   p ∈ ["/health"; "/stats"; "/state"; "/cluster"; "/node"] → Method r ≠ "GET" →
   refused StatusMethodNotAllowed).
Proof.
  intros path refused. split_and!.
  - intros Hk Hr Hj Hd. unfold refused, ServeHTTP. fold path. rewrite Hk, Hr, Hj.
    destruct (HasPrefix path "/debug") eqn:E; [|done]. unfold debugPprof. fold path.
    rewrite (filter_none (λ n, path = "/debug/" +:+ n) pprof_names); [done|]. auto.
  - intros k Hp Hm. unfold refused. rewrite (ServeHTTP_key _ _ Hp). unfold handleKeyRequest.
    repeat (rewrite decide_False by set_solver). done.
  - intros p Hp Hn. unfold refused. rewrite (ServeHTTP_raft _ _ Hp). unfold handleRaftRequest.
    fold path. rewrite Hp, TrimPrefix_app. repeat (rewrite decide_False by set_solver). done.
  - intros p Hp Hin Hm. unfold refused. rewrite (ServeHTTP_raft _ _ Hp). unfold handleRaftRequest.
    fold path. rewrite Hp, TrimPrefix_app. unfold CheckMethod, CheckMethodE.
    rewrite !(decide_False (P := Method r = "GET")) by done.
    rewrite !(decide_True (P := Method r ≠ "GET")) by done.
    repeat (apply elem_of_cons in Hin as [->|Hin]; [done|]). by apply not_elem_of_nil in Hin.
Qed.

(** A job request invokes the dealer named by the rest of its URL, query included,
    with the body it came with, and answers the dealer's value as an OK response or
    the error's text; it changes only what the dealer changes. *)
Theorem job_request r p s w : Path (Req_URL r) = DoJobPath +:+ p →
  ServeHTTP r (s, w) =
    if decide (Method r = "POST") then
      match Invoke unmarshal_new ptr_to dealers (TrimPrefix (URL_String (Req_URL r)) DoJobPath)
              (gonet_ReadBytes (Body r)) s with
      | (s', Ret (rsp, None)) => ((s', rw_WriteAsJSON (ok_rsp "ok" rsp) w), Ret tt)
      | (s', Ret (_, Some e)) => (error_answer e (s', w), Ret tt)
      | (s', Panic msg) => ((s', w), Panic msg)
      end
    else ((s, rw_WriteHeader StatusMethodNotAllowed w), Ret tt).
Proof.
  intros Hp. unfold ServeHTTP. rewrite Hp.
  replace (HasPrefix (DoJobPath +:+ p) KeyPath) with false by reflexivity.
  replace (HasPrefix (DoJobPath +:+ p) RaftPath) with false by reflexivity.
  rewrite HasPrefix_app. case_decide as Hm.
  - rewrite CheckMethodE_run by done. unfold handleJobRequest, on_state, mbind, M_bind. cbn [fst snd].
    by destruct (Invoke _ _ _ _ _ s) as [s' [[rsp [e|]]|msg]].
  - unfold CheckMethodE. by rewrite decide_True by done.
Qed.
End properties.
End service.

(** ** What the other requests leave alone *)

Section reading.
Context {S V J : Type} (H : StoreI S) `{Proxy S}.
Context `{!Codec (gmap string string)} `{!Codec JoinRequest} `{!Codec (Rsp V)}.
Context `{!Codec RaftCluster} `{!Codec (gmap string stat)} `{!Codec (gmap string J)}.
Context `{!Codec NodeInfo}.
Context (UnmarshalFromString : string → J + error) (JString : string → J).
Context (range : gmap string string → list (string * string)).
Context (pprof : string → ServeHTTPFn S) (gonet_ReadBytes : string + error → string).
Context (info : NodeInfo) (unmarshal_new : gotype → string → V + error) (ptr_to : V → V).
Context (dealers : DealerMap S V).

(** The same store with any other writing operations. *)
Context (set : string → string → M S (option error)) (del : string → M S (option error)).
Context (join : string → string → M S (option error)) (rem : string → M S (option error)).
Definition with_writes : StoreI S := {|
  Store_Get := @Store_Get S H; Store_IsLeader := @Store_IsLeader S H;
  Store_Set := set; Store_Delete := del; Store_Join := join; Store_Remove := rem;
  Store_RaftStats := @Store_RaftStats S H; Store_Cluster := @Store_Cluster S H;
  Store_LeadServer := @Store_LeadServer S H; Store_NodeState := @Store_NodeState S H
|}.
Abbreviation serve_by store :=
  (ServeHTTP (H := store) UnmarshalFromString JString range pprof gonet_ReadBytes info unmarshal_new ptr_to
     dealers).

(** The method is checked after the request was dispatched: the handler is not run. *)
Lemma wrong_method_by (store : StoreI S) meth f r sw : Method r ≠ meth →
  (f ← on_state (tryForwardToLeaderFn (H := store) f); CheckMethodE (V := V) meth f r) sw =
    match @Store_IsLeader S store sw.1 with
    | (s, Ret _) => ((s, rw_WriteHeader StatusMethodNotAllowed sw.2), Ret tt)
    | (s, Panic msg) => ((s, sw.2), Panic msg)
    end.
Proof.
  intros Hm. unfold tryForwardToLeaderFn, on_state, mbind, M_bind, mret, M_ret, CheckMethodE.
  destruct (@Store_IsLeader S store sw.1) as [s [b|msg]]; [|done]. by rewrite decide_True.
Qed.

(** C26. The requests that are no writes only read: on any node, leader or not, a request
    that is none of [write_request] is answered alike, and leaves the same state, by a
    store with any other [Set], [Delete], [Join] and [Remove] - none of the four is
    called for it. *)
Theorem other_requests_only_read r sw : ¬ write_request r →
  serve_by with_writes r sw = serve_by H r sw.
Proof.
  intros Hr. unfold ServeHTTP.
  destruct (HasPrefix (Path (Req_URL r)) KeyPath) eqn:HK.
  { apply HasPrefix_spec in HK as [k Hk]. unfold handleKeyRequest.
    destruct (decide (Method r = "GET")); [done|].
    destruct (decide (Method r = "POST")) as [Hm|]; [by destruct Hr; eapply write_post|].
    destruct (decide (Method r = "DELETE")) as [Hm|]; [|done].
    destruct (decide (key_of (Path (Req_URL r)) ≠ "")) as [Hne|Hne].
    - destruct Hr. rewrite Hk in Hne. by eapply write_delete.
    - unfold mbind, M_bind, getKey. rewrite (decide_False (P := key_of _ ≠ "")) by done. done. }
  destruct (HasPrefix (Path (Req_URL r)) RaftPath) eqn:HR; [|done].
  apply HasPrefix_spec in HR as [p Hp]. unfold handleRaftRequest. rewrite Hp, TrimPrefix_app.
  destruct (decide (p = "/health")); [done|].
  destruct (decide (p = "/join")) as [->|].
  { rewrite !wrong_method_by; [done|intros Hm; by apply Hr, write_join..]. }
  destruct (decide (p = "/remove")) as [->|]; [|done].
  rewrite !wrong_method_by; [done|intros Hm; by apply Hr, write_remove..].
Qed.
End reading.

(** ** RaftStore implements the interface *)

Section implementation.
Context {W D V : Type} `{Raft W} `{Network W} `{FileSystem W}.
Context `{!Codec Command} `{!Codec (gmap string string)} `{!Codec RaftCluster}.
Context `{!Codec (list ConfigEntry)} `{!Codec JoinRequest} `{!Codec (Rsp D)}.
(** The node's arguments; the clock during a request and its zone. *)
Context (arg : Arg) (now off : Z).

#[export] Instance RaftStore_StoreI : StoreI (RaftStore W) := {
  Store_Get := Get;
  Store_IsLeader := liftW IsLeader;
  Store_Set k v := liftW (Set_ now off k v);
  Store_Delete k := liftW (Delete now off k);
  Store_Join i a := liftW (RaftStore_Join arg i a);
  Store_Remove i := liftW (Remove arg i);
  Store_RaftStats := liftW RaftStats;
  Store_Cluster := liftW (RaftStore_Cluster (D := D) arg);
  Store_LeadServer := liftW LeadServer;
  Store_NodeState := liftW NodeState
}.

Lemma liftW_ret {A} (f : M W A) s w' a : f (world s) = (w', Ret a) →
  liftW f s = (mkStore (m s) w', Ret a).
Proof. intros E. rewrite liftW_run. by rewrite E. Qed.

Ltac unfold_store :=
  cbn [Store_Get Store_IsLeader Store_Set Store_Delete Store_Join Store_Remove Store_Cluster
       Store_LeadServer RaftStore_StoreI].

#[export] Instance RaftStore_contract `{!RaftNames W} :
  StoreContract (RaftStore W) m (λ s, is_leader (world s)).
Proof.
  split; intros.
  - apply Get_run.
  - unfold_store. erewrite liftW_ret by reflexivity. by destruct s.
  - unfold_store. rewrite liftW_run, LeadServer_run. cbn [fst snd].
    match goal with |- context [Ret ?x] => destruct x as [p err] end. exists p, err. by destruct s.
  - unfold_store. rewrite liftW_run. unfold Set_, IsLeader, gets, ext, mbind, M_bind.
    destruct (negb _); [by do 2 eexists|]. destruct (raft_Apply _ _). by do 2 eexists.
  - unfold_store. rewrite liftW_run. unfold Delete, IsLeader, gets, ext, mbind, M_bind.
    destruct (negb _); [by do 2 eexists|]. destruct (raft_Apply _ _). by do 2 eexists.
  - unfold_store. destruct (RaftStore_Join_total arg i a (world s)) as (w' & err & E).
    rewrite (liftW_ret _ _ _ _ E). by do 2 eexists.
  - unfold_store. destruct (RaftStore_Cluster_total (D := D) arg (world s)) as (w' & v & E).
    rewrite (liftW_ret _ _ _ _ E). by do 2 eexists.
  - unfold_store. destruct (not_leader_refused arg now off k v i a (world s)) as (E1 & E2 & E3 & E4); [done|].
    rewrite (liftW_ret _ _ _ _ E1), (liftW_ret _ _ _ _ E3), (liftW_ret _ _ _ _ E4).
    destruct (not_leader_refused arg now off k v i a (world s)) as (_ & E2' & _); [done|].
    rewrite (liftW_ret _ _ _ _ E2'). by destruct s.
Qed.

(** C19. The view saved after a join never reaches peers.json.  Saving proposes it under
    the key [raft/cluster], and an entry with that key, applied on any node at any
    time, leaves the world outside the map alone: the update of peers.json and the
    search for a leader are tied to the key [/raft/cluster]. *)
Theorem saved_cluster_not_processed (unmarshal_new : gotype → string → V + error) (ptr_to : V → V)
    (valid : Command → Prop) `{!CodecLaws Command Command0 valid} s w1 cl :
  is_leader w1 = true →
  RaftStore_Cluster (D := D) arg (world s) = (w1, Ret (cl, None)) →
  let c := mkCommand "set" "raft/cluster" (Marshal cl) (FormatTime now off) in
  valid c →
  saveCluster s = (mkStore (m s) (raft_Apply (Marshal c) w1).1, Ret tt) ∧
  ∀ now' t, ∃ kv,
    Apply (D := D) unmarshal_new ptr_to arg MakeDealerMap None now' (mkLog (Marshal c)) t =
      (mkStore kv (world t), Ret RNil).
Proof.
  intros Hl Hc c Hv. split.
  - unfold saveCluster. cbn [Store_Cluster Store_Set RaftStore_StoreI]. unfold mbind, M_bind.
    rewrite (liftW_ret _ _ _ _ Hc). rewrite liftW_run. cbn [m world].
    unfold Set_, IsLeader, gets, ext, mbind, M_bind. rewrite Hl. cbn [negb]. fold c.
    by destruct (raft_Apply (Marshal c) w1) as [w2 [e|]].
  - intros now' t. unfold Apply. cbn [Data]. rewrite (Unmarshal_Marshal (valid := valid)) by done.
    unfold mbind, M_bind. rewrite liftW_run, Intercept_none by done. cbn [fst snd].
    destruct (apply_op_refines (V := V) (D := D) arg now' c (mkStore (m t) (world t)))
      as (w' & -> & Hw). rewrite Hw; [by eexists|]. right. left. done.
Qed.
End implementation.

(** ** The environment of a simulated service *)

#[export] Instance NodeInfo_fields : Fields NodeInfo.
Proof.
  refine {|
    to_fields i := [Info_StartTime i; Info_NodeID i; Info_Hostname i; Info_IP i];
    of_fields l := match l with [t; i; h; a] => Some (mkNodeInfo t i h a) | _ => None end
  |}.
  by intros [].
Defined.

Module SimService.
Import Wire SimNode.
#[export] Instance info_codec : Codec NodeInfo := Fields_codec.
#[export] Instance stats_codec : Codec (gmap string stat) := {|
  Marshal st := put_all (map_to_list st).*1;
  Unmarshal z _ := (z, Some bad_json); Decode z _ := (z, Some bad_json)
|}.

(** The proxy writes the URL it sends a request to into the log, and answers 200. *)
#[export] Instance sim_proxy : Proxy (RaftStore sim) := {
  serve_proxy r sw :=
    let u := Req_URL r in
    let w := world sw.1 in
    ((mkStore (m sw.1)
        (raft_Apply (Scheme u +:+ "://" +:+ Url.Host u +:+ Path u) w).1, rw_Write "proxied" sw.2), Ret tt)
}.
End SimService.

Definition as_json (v : string) : string + error := inr bad_json.
Definition sim_read (b : string + error) : string := match b with inl b => b | inr _ => "" end.
Definition no_pprof (n : string) : ServeHTTPFn (RaftStore sim) := λ _, WriteHeader StatusOK.

(** ** Witnesses, on the simulated nodes *)

Section witnesses.
Import Wire SimNode SimService.

#[local] Instance sim_store : StoreI (RaftStore sim) :=
  RaftStore_StoreI (D := string) MakeArg a_moment 0.

Definition sim_serve (r : Request) : HM (RaftStore sim) unit :=
  ServeHTTP (V := string) as_json id map_to_list no_pprof sim_read (mkNodeInfo "" "" "" "")
    no_decode id MakeDealerMap r.

Definition req (method path body : string) : Request :=
  mkRequest method (mkURL "" "" path "" false "") ∅ "10.0.0.9:5555" "h" (inl body).
Definition follower : RaftStore sim := New sim_follower_node.
Definition leader : RaftStore sim := mkStore {["a" := "1"]} sim_leader_node.
Definition post_req : Request := req "POST" "/hraftd/key" (Marshal ({["k" := "v"]} : gmap string string)).

Lemma follower_forwards_writes_witness :
  ∃ lead, Store_LeadServer follower = (follower, Ret lead) ∧
    sim_serve post_req (follower, fresh_rw) =
      answer_of (V := string) (forward_answer post_req lead (follower, fresh_rw)).
Proof.
  apply (follower_forwards_writes (map_of := m) (leads := λ s, is_leader (world s))
    as_json id map_to_list no_pprof sim_read (mkNodeInfo "" "" "" "") no_decode id MakeDealerMap).
  - vm_compute. reflexivity.
  - by apply (write_post _ "").
Defined.

(** A DELETE without the slash deletes the key foo: on the leader it is proposed, and a
    follower sends it on. *)
Example delete_without_slash :
  (sim_log (world (sim_serve (req "DELETE" "/hraftd/keyfoo" "") (leader, fresh_rw)).1.1),
   sim_log (world (sim_serve (req "DELETE" "/hraftd/keyfoo" "") (follower, fresh_rw)).1.1)) =
  ([Marshal (mkCommand "delete" "foo" "" (FormatTime a_moment 0))],
   ["http://10.0.0.1:11000/hraftd/keyfoo"]).
Proof. vm_compute. reflexivity. Qed.

Example follower_forwards :
  sim_log (world (sim_serve post_req (follower, fresh_rw)).1.1) = ["http://10.0.0.1:11000/hraftd/key"].
Proof. vm_compute. reflexivity. Qed.

Lemma forward_at_most_once_witness :
  ∃ e, sim_serve (director "10.0.0.2:11000" "/hraftd/key" post_req) (follower, fresh_rw) =
    (error_answer (V := string) e (follower, fresh_rw), Ret tt).
Proof.
  apply (forward_at_most_once (map_of := m) (leads := λ s, is_leader (world s))
    as_json id map_to_list no_pprof sim_read (mkNodeInfo "" "" "" "") no_decode id MakeDealerMap post_req).
  - vm_compute. reflexivity.
  - by apply (write_post _ "").
  - done.
Defined.

Lemma get_key_answers_witness :
  sim_serve (req "GET" "/hraftd/key/a" "") (leader, fresh_rw) =
    ((leader, rw_WriteAsJSON ({["a" := "1"]} : gmap string string) fresh_rw), Ret tt).
Proof.
  exact (get_key_answers (V := string) (map_of := m) (leads := λ s, is_leader (world s))
    as_json id map_to_list no_pprof sim_read (mkNodeInfo "" "" "" "") no_decode id MakeDealerMap
    (req "GET" "/hraftd/key/a" "") "a" leader fresh_rw eq_refl eq_refl).
Defined.

Lemma post_keys_witness :
  ∃ done rest s1, done ++ rest ≡ₚ map_to_list ({["k" := "v"]} : gmap string string) ∧
    sets_ok done leader s1 ∧
    match rest with
    | [] => sim_serve post_req (leader, fresh_rw) = ((s1, fresh_rw), Ret tt)
    | (k, v) :: _ => ∃ s2 e, Store_Set k v s1 = (s2, Ret (Some e)) ∧
        sim_serve post_req (leader, fresh_rw) =
          ((s2, rw_WriteHeader StatusInternalServerError fresh_rw), Ret tt)
    end.
Proof.
  exact (post_keys (V := string) (map_of := m) (leads := λ s, is_leader (world s))
    as_json id map_to_list no_pprof sim_read (mkNodeInfo "" "" "" "") no_decode id MakeDealerMap
    post_req "" leader fresh_rw (λ kv, Permutation_refl _) eq_refl eq_refl eq_refl).
Defined.

Definition join_req : Request :=
  req "POST" "/hraftd/raft/join"
    (Marshal (mkJoinRequest "10.0.0.3:12000" "10.0.0.3:11000,10.0.0.3:12000")).

Lemma join_request_witness :
  match Store_Join (mkNodeID "10.0.0.9" "11000" "12000") (joinHP "10.0.0.9" "12000") leader with
  | (s1, Ret (Some e)) =>
      sim_serve join_req (leader, fresh_rw) = (error_answer (V := string) e (s1, fresh_rw), Ret tt)
  | (s1, Ret None) =>
      ∃ s2, saveCluster s1 = (s2, Ret tt) ∧
        sim_serve join_req (leader, fresh_rw) =
          ((s2, rw_WriteAsJSON (ok_rsp (V := string) "OK" None) fresh_rw), Ret tt)
  | (_, Panic _) => False
  end.
Proof.
  exact (join_request (V := string) (map_of := m) (leads := λ s, is_leader (world s))
    as_json id map_to_list no_pprof sim_read (mkNodeInfo "" "" "" "") no_decode id MakeDealerMap
    join_req leader fresh_rw "10.0.0.3" "11000" "10.0.0.3" "12000" "10.0.0.3" "12000"
    "10.0.0.9" "5555" eq_refl eq_refl eq_refl eq_refl eq_refl eq_refl eq_refl eq_refl
    eq_refl eq_refl eq_refl eq_refl eq_refl).
Defined.

Definition bad_join : Request := req "POST" "/hraftd/raft/join" (Marshal (mkJoinRequest ":12000" "n1")).
Lemma join_without_comma_panics_witness :
  ∃ msg, sim_serve bad_join (leader, fresh_rw) = ((leader, fresh_rw), Panic msg).
Proof.
  exact (join_without_comma_panics (V := string) (map_of := m) (leads := λ s, is_leader (world s))
    as_json id map_to_list no_pprof sim_read (mkNodeInfo "" "" "" "") no_decode id MakeDealerMap
    bad_join leader fresh_rw ":12000" "n1" eq_refl eq_refl eq_refl eq_refl eq_refl).
Defined.

Lemma unserved_requests_witness :
  sim_serve (req "GET" "/x" "") (leader, fresh_rw) =
    ((leader, rw_WriteHeader StatusNotFound fresh_rw), Ret tt).
Proof.
  exact (proj1 (unserved_requests (V := string) (map_of := m) (leads := λ s, is_leader (world s))
    as_json id map_to_list no_pprof sim_read (mkNodeInfo "" "" "" "") no_decode id MakeDealerMap
    (req "GET" "/x" "") leader fresh_rw) eq_refl eq_refl eq_refl (λ H, match Bool.diff_false_true H with end)).
Defined.

Lemma job_request_witness :
  sim_serve (req "POST" "/hraftd/dojob/x" "") (leader, fresh_rw) =
    (error_answer (V := string) ErrDealerNoExists (leader, fresh_rw), Ret tt).
Proof.
  exact (job_request (V := string)
    as_json id map_to_list no_pprof sim_read (mkNodeInfo "" "" "" "") no_decode id MakeDealerMap
    (req "POST" "/hraftd/dojob/x" "") "/x" leader fresh_rw eq_refl).
Defined.

(** Reading a key, next to writes that panic. *)
Lemma other_requests_only_read_witness :
  ServeHTTP (H := with_writes sim_store (λ _ _, panic "set") (λ _, panic "delete") (λ _ _, panic "join")
               (λ _, panic "remove")) (V := string)
    as_json id map_to_list no_pprof sim_read (mkNodeInfo "" "" "" "") no_decode id MakeDealerMap
    (req "GET" "/hraftd/key/a" "") (leader, fresh_rw) =
  sim_serve (req "GET" "/hraftd/key/a" "") (leader, fresh_rw).
Proof.
  apply (other_requests_only_read sim_store as_json id map_to_list no_pprof sim_read
    (mkNodeInfo "" "" "" "") no_decode id MakeDealerMap).
  by intros [].
Defined.

Lemma saved_cluster_not_processed_witness :
  let cl := default RaftCluster0 (match (RaftStore_Cluster (D := string) MakeArg sim_leader_node).2 with
                                  | Ret (cl, None) => Some cl | _ => None end) in
  let c := mkCommand "set" "raft/cluster" (Marshal cl) (FormatTime a_moment 0) in
  saveCluster leader = (mkStore (m leader) (raft_Apply (Marshal c) sim_leader_node).1, Ret tt) ∧
  ∀ now' t, ∃ kv,
    Apply (D := string) no_decode id MakeArg MakeDealerMap None now' (mkLog (Marshal c)) t =
      (mkStore kv (world t), Ret RNil).
Proof.
  intros cl c.
  exact (saved_cluster_not_processed (D := string) MakeArg a_moment 0 no_decode id (λ _, True)
    leader sim_leader_node cl eq_refl eq_refl I).
Defined.

(** The same view under the other key does reach peers.json. *)
Example set_raft_cluster_writes :
  let c := mkCommand "set" "/raft/cluster" (Marshal RaftCluster0) (FormatTime a_moment 0) in
  is_Some (sim_files (world (Apply (D := string) no_decode id MakeArg MakeDealerMap None a_moment
    (mkLog (Marshal c)) follower).1) !! "peers.json").
Proof. vm_compute. by eexists. Qed.
End witnesses.
