(* ===== verification/Writing.v ===== *)
(** * A write and the reads after it: the service, the proxy, the store and the log

    A client posts keys to a node that does not lead.  Its service hands the request to
    the leader; the leader's service proposes one command per key; every replica that
    applies them serves the values.  The state of the first part is the two nodes; the
    node asked reaches the leader through its reverse proxy. *)

From stdpp Require Import prelude gmap strings.
From S2P Require Import Prelude.
From S2P Require Import GoStd.
From S2P Require Import GoTime.
From S2P Require Import Util.
From S2P Require Import Model.
From S2P Require Import Externals.
From S2P Require Import Sim.
From S2P Require Import Dealer.
From S2P Require Import Arg.
From S2P Require Import Client.
From S2P Require Import Fsm.
From S2P Require Import Store.
From S2P Require Import Url.
From S2P Require Import Http.
From S2P Require Import Service.

Section writing.
Context {W D J V : Type} `{HRaft : Raft W} `{HNet : Network W} `{HFiles : FileSystem W}.
Context `{!Codec Command} `{!Codec (gmap string string)} `{!Codec RaftCluster}.
Context `{!Codec (list ConfigEntry)} `{!Codec JoinRequest} `{!Codec (Rsp D)}.
Context `{!Codec (gmap string stat)} `{!Codec (gmap string J)} `{!Codec NodeInfo}.
Context `{HProxy : Proxy (RaftStore W)}.
(** What the services are given, as in Service.v, and the log dealers of the replicas. *)
Context (UnmarshalFromString : string → J + error) (JString : string → J).
Context (range : gmap string string → list (string * string)).
Context (gonet_ReadBytes : string + error → string) (info : NodeInfo).
Context (unmarshal_new : gotype → string → D + error) (ptr_to : D → D).
Context (unmarshal_val : gotype → string → V + error) (ptr_val : V → V) (log_dealers : DealerMap W V).
(** The clock and the zone of the leader during the request. *)
Context (now off : Z).

(** ** The nodes *)

Definition serve_node (pprof : string → ServeHTTPFn (RaftStore W)) (dealers : DealerMap (RaftStore W) D)
    (arg : Arg) : ServeHTTPFn (RaftStore W) :=
  ServeHTTP (H := RaftStore_StoreI (D := D) arg now off) (V := D)
    UnmarshalFromString JString range pprof gonet_ReadBytes info unmarshal_new ptr_to dealers.

Record two : Type := mkTwo { asked : RaftStore W; leading : RaftStore W }.
Definition on_asked {A} (f : M (RaftStore W) A) : M two A := λ p,
  let '(s, r) := f (asked p) in (mkTwo s (leading p), r).

Context (argA argL : Arg) (leader_addr asked_addr : string).
Context (pprofA : string → ServeHTTPFn two) (dealersA : DealerMap two D).
Context (pprofL : string → ServeHTTPFn (RaftStore W)) (dealersL : DealerMap (RaftStore W) D).

(** The store of the node asked, in the state of both. *)
#[local] Abbreviation asked_store := (RaftStore_StoreI (D := D) argA now off).
#[local] Instance two_store : StoreI two := {
  Store_Get k := on_asked (@Store_Get _ asked_store k);
  Store_IsLeader := on_asked (@Store_IsLeader _ asked_store);
  Store_Set k v := on_asked (@Store_Set _ asked_store k v);
  Store_Delete k := on_asked (@Store_Delete _ asked_store k);
  Store_Join i a := on_asked (@Store_Join _ asked_store i a);
  Store_Remove i := on_asked (@Store_Remove _ asked_store i);
  Store_RaftStats := on_asked (@Store_RaftStats _ asked_store);
  Store_Cluster := on_asked (@Store_Cluster _ asked_store);
  Store_LeadServer := on_asked (@Store_LeadServer _ asked_store);
  Store_NodeState := on_asked (@Store_NodeState _ asked_store)
}.

(** The directed request as the leader's server parses it, and its answer copied into
    the response of the node asked. *)
Definition arriving (r : Request) : Request :=
  let u := Req_URL r in
  mkRequest (Method r) (mkURL "" "" (Path u) (RawPath u) (ForceQuery u) (RawQuery u)) (Req_Header r)
    asked_addr (Req_Host r) (Body r).
Definition copy_response (from to : ResponseWriter) : ResponseWriter :=
  rw_Write (rw_body from) (rw_WriteHeader (rw_status from) (mkRW (rw_header from) (rw_sent to) (rw_body to))).
Definition StatusBadGateway : Z := 502.
#[local] Instance two_proxy : Proxy two := {
  serve_proxy r '(p, w) :=
    if decide (Url.Host (Req_URL r) = leader_addr) then
      match serve_node pprofL dealersL argL (arriving r) (leading p, fresh_rw) with
      | ((s, w'), Ret _) => ((mkTwo (asked p) s, copy_response w' w), Ret tt)
      | ((s, _), Panic _) => ((mkTwo (asked p) s, rw_WriteHeader StatusBadGateway w), Ret tt)
      end
    else ((p, rw_WriteHeader StatusBadGateway w), Ret tt)
}.

Definition serve_asked : ServeHTTPFn two :=
  ServeHTTP (H := two_store) (V := D)
    UnmarshalFromString JString range pprofA gonet_ReadBytes info unmarshal_new ptr_to dealersA.

(** The store of the node asked keeps its contract in the larger state. *)
Context `{!RaftNames W}.
Lemma on_asked_run {A} (f : M (RaftStore W) A) p s r : f (asked p) = (s, Ret r) →
  on_asked f p = (mkTwo s (leading p), Ret r).
Proof. intros E. unfold on_asked. by rewrite E. Qed.

#[local] Instance two_contract :
  StoreContract two (λ p, m (asked p)) (λ p, is_leader (world (asked p))).
Proof.
  pose proof (RaftStore_contract (D := D) argA now off) as HC.
  split; intros; cbn [Store_Get Store_IsLeader Store_Set Store_Delete Store_Join Store_Remove Store_Cluster
    Store_LeadServer two_store].
  - rewrite (on_asked_run _ _ _ _ (Store_Get_spec (StoreContract := HC) k (asked s))). by destruct s.
  - rewrite (on_asked_run _ _ _ _ (Store_IsLeader_spec (StoreContract := HC) (asked s))). by destruct s.
  - destruct (Store_LeadServer_spec (StoreContract := HC) (asked s)) as (p & err & E).
    rewrite (on_asked_run _ _ _ _ E). exists p, err. by destruct s.
  - destruct (Store_Set_total (StoreContract := HC) k v (asked s)) as (s' & err & E).
    rewrite (on_asked_run _ _ _ _ E). by do 2 eexists.
  - destruct (Store_Delete_total (StoreContract := HC) k (asked s)) as (s' & err & E).
    rewrite (on_asked_run _ _ _ _ E). by do 2 eexists.
  - destruct (Store_Join_total (StoreContract := HC) i a (asked s)) as (s' & err & E).
    rewrite (on_asked_run _ _ _ _ E). by do 2 eexists.
  - destruct (Store_Cluster_total (StoreContract := HC) (asked s)) as (s' & v & E).
    rewrite (on_asked_run _ _ _ _ E). by do 2 eexists.
  - destruct (Store_write_refused (StoreContract := HC) k v i a (asked s)) as (E1 & E2 & E3 & E4); [done|].
    rewrite (on_asked_run _ _ _ _ E1), (on_asked_run _ _ _ _ E2), (on_asked_run _ _ _ _ E3),
      (on_asked_run _ _ _ _ E4). by destruct s.
Qed.

(** ** The log *)

Definition entry (kv : string * string) : string :=
  Marshal (mkCommand "set" kv.1 kv.2 (FormatTime now off)).

(** Raft took the entries one after the other. *)
Inductive committed : list string → W → W → Prop :=
| committed_nil w : committed [] w w
| committed_cons d ds w w1 w2 : raft_Apply d w = (w1, None) → committed ds w1 w2 → committed (d :: ds) w w2.

(** A replica applies entries in order. *)
Fixpoint apply_entries (arg : Arg) (now' : Z) (ds : list string) : M (RaftStore W) unit :=
  match ds with
  | [] => mret tt
  | d :: ds =>
      _ ← Apply (D := D) unmarshal_val ptr_val arg log_dealers None now' (mkLog d);
      apply_entries arg now' ds
  end.

(** The sets the leader's store made are the entries raft took. *)
Lemma sets_committed done s s' :
  sets_ok (H := RaftStore_StoreI (D := D) argL now off) done s s' →
  ∃ w', s' = mkStore (m s) w' ∧ committed (entry <$> done) (world s) w'.
Proof.
  induction 1 as [s|k v kvs s s1 s2 Hset Hok (w' & -> & Hc)].
  { exists (world s). split; [by destruct s|constructor]. }
  cbn [Store_Set RaftStore_StoreI] in Hset. rewrite liftW_run in Hset.
  assert (is_leader (world s) = true) as Hl.
  { destruct (is_leader (world s)) eqn:El; [done|].
    unfold Set_, IsLeader, gets, mbind, M_bind in Hset. by rewrite El in Hset. }
  apply bool_decide_eq_true in Hl. rewrite (Set_leader now off k v _ Hl) in Hset. unfold ext in Hset.
  destruct (raft_Apply _ (world s)) as [w1 err] eqn:E. injection Hset as <- ->.
  exists w'. split; [done|]. by econstructor.
Qed.

(** The leader's side of a posted map. *)
Lemma leader_posts r k kv s : raft_State (world s) = RaftLeader →
  Path (Req_URL r) = KeyPath +:+ k → Method r = "POST" → decode_body (∅ : gmap string string) r = (kv, None) →
  ∃ done rest w1 wL w', range kv = done ++ rest ∧ committed (entry <$> done) (world s) w1 ∧
    serve_node pprofL dealersL argL r (s, fresh_rw) = ((mkStore (m s) wL, w'), Ret tt) ∧
    rw_status w' = (if decide (rest = []) then StatusOK else StatusInternalServerError) ∧
    match rest with
    | [] => wL = w1
    | (k, v) :: _ => ∃ e, Set_ now off k v w1 = (wL, Ret (Some e))
    end.
Proof.
  intros Hl Hp Hm Hb. pose proof (RaftStore_contract (D := D) argL now off) as HC.
  unfold serve_node. rewrite (post_key_request (StoreContract0 := HC) _ _ _ _ _ _ _ _ _ _ k) by done.
  unfold is_leader. rewrite bool_decide_true by done. unfold doKeyPost. rewrite Hb.
  destruct (set_all_run (StoreContract0 := HC) (range kv) s fresh_rw) as (done & rest & s1 & El & Hok & Hrest).
  destruct (sets_committed _ _ _ Hok) as (w1 & -> & Hc). destruct rest as [|[k' v'] rest].
  - exists done, [], w1, w1, fresh_rw. by split_and!.
  - destruct Hrest as (s2 & e & Hset & Hrun). cbn [Store_Set RaftStore_StoreI] in Hset.
    rewrite liftW_run in Hset. cbn [m world] in Hset.
    destruct (Set_ now off k' v' w1) as [w2 o] eqn:E. injection Hset as <- ->.
    exists done, ((k', v') :: rest), w1, w2, (rw_WriteHeader StatusInternalServerError fresh_rw).
    split_and!; [done|done|exact Hrun|done|by exists e].
Qed.

(** ** Reading back *)

Lemma apply_entries_run (valid : Command → Prop) `{!CodecLaws Command Command0 valid} arg now' done s :
  (0 ≤ wall_year (now + off * second) < 10000)%Z →
  (now' ≤ now + off * second - millisecond + max_age)%Z →
  NoDup done.*1 →
  Forall (λ kv, kv.1 ≠ "/raft/cluster" ∧ Dealers log_dealers !! kv.1 = None ∧
                valid (mkCommand "set" kv.1 kv.2 (FormatTime now off))) done →
  ∃ w', apply_entries arg now' (entry <$> done) s = (mkStore (list_to_map done ∪ m s) w', Ret tt).
Proof.
  intros Hy Hn Hnd Hall. revert s. induction done as [|[k v] done IH]; intros s.
  { exists (world s). cbn. rewrite map_empty_union. by destruct s. }
  apply NoDup_cons in Hnd as [Hk Hnd]. apply Forall_cons in Hall as [(Hr & Hd & Hv) Hall]. cbn [fst snd] in *.
  destruct (fresh_set_applied (D := D) arg unmarshal_val ptr_val log_dealers valid now off now' k v s)
    as [w1 E]; [done..|].
  destruct (IH Hnd Hall (mkStore (<[k := v]> (m s)) w1)) as [w' IHrun].
  exists w'. rewrite fmap_cons. cbn [apply_entries]. unfold mbind, M_bind. unfold entry at 1. cbn [fst snd].
  rewrite E, IHrun. cbn [m]. do 2 f_equal. cbn [list_to_map foldr curry].
  rewrite <-insert_union_r by by apply not_elem_of_list_to_map_1. by rewrite insert_union_l.
Qed.

(** C4. A write from end to end.  Keys posted to a node that does not lead reach the leader
    through its proxy, with the body untouched.  The leader proposes them one by one: all
    of them, and the client of the node asked sees 200, or those before the first
    failure, and it sees 500; the node asked changes nothing itself.  Every replica that
    applies what was proposed in time then holds those keys over what it had, and a GET
    there answers the value of any key by that map, whoever leads. *)
Theorem write_end_to_end (valid : Command → Prop) (Hlaws : CodecLaws Command Command0 valid)
    (range_perm : ∀ kv, range kv ≡ₚ map_to_list kv) r k kv lead p :
  raft_State (world (asked p)) ≠ RaftLeader → raft_State (world (leading p)) = RaftLeader →
  LeadServer (world (asked p)) = (world (asked p), Ret (lead, None)) →
  HTTPAddr (Peer_ID lead) = leader_addr → leader_addr ≠ "" →
  Path (Req_URL r) = KeyPath +:+ k → Method r = "POST" →
  Header_Get (Req_Header r) XOriginRemoteAddr = "" →
  decode_body (∅ : gmap string string) r = (kv, None) →
  (0 ≤ wall_year (now + off * second) < 10000)%Z →
  map_Forall (λ k v, k ≠ "/raft/cluster" ∧ Dealers log_dealers !! k = None ∧
                     valid (mkCommand "set" k v (FormatTime now off))) kv →
  ∃ done rest w1 wL w', done ++ rest ≡ₚ map_to_list kv ∧
    committed (entry <$> done) (world (leading p)) w1 ∧
    match rest with [] => wL = w1 | (k, v) :: _ => ∃ e, Set_ now off k v w1 = (wL, Ret (Some e)) end ∧
    serve_asked r (p, fresh_rw) = ((mkTwo (asked p) (mkStore (m (leading p)) wL), w'), Ret tt) ∧
    rw_status w' = (if decide (rest = []) then StatusOK else StatusInternalServerError) ∧
    ∀ arg now' s, (now' ≤ now + off * second - millisecond + max_age)%Z →
      ∃ s', apply_entries arg now' (entry <$> done) s = (s', Ret tt) ∧
        m s' = list_to_map done ∪ m s ∧
        ∀ host remote key, key ≠ "" →
          http_serve (serve_node pprofL dealersL arg)
            (received "GET" host (KeyPath +:+ "/" +:+ key) remote "") s' =
          (s', inl (match m s' !! key with
                    | Some v => (StatusOK, Marshal ({[key := TryParseJSON UnmarshalFromString JString v]} : gmap string J))
                    | None => (StatusNotFound, "") end)).
Proof.
  intros Ha Hl Hlead Haddr Hne Hp Hm Ho Hb Hy Hkv.
  set (r' := arriving (director leader_addr (Path (Req_URL r)) r)).
  destruct (leader_posts r' k kv (leading p)) as (sets & rest & w1 & wL & w' & El & Hc & Hserve & Hst & Hrest);
    [done..|].
  assert (sets ++ rest ≡ₚ map_to_list kv) as Hperm by by rewrite <-El.
  exists sets, rest, w1, wL, (copy_response w' fresh_rw). split_and!; [done|done|done| |exact Hst|].
  - unfold serve_asked. rewrite (post_key_request _ _ _ _ _ _ _ _ _ _ k) by done.
    unfold is_leader. rewrite bool_decide_false by done.
    unfold forwardToLeader. cbn [Store_LeadServer two_store].
    rewrite (bind_on_state _ _ p p (lead, None)).
    2:{ rewrite (on_asked_run _ _ (asked p) (lead, None)); [by destruct p|].
        cbn [Store_LeadServer RaftStore_StoreI]. rewrite (liftW_ret _ _ _ _ Hlead). by destruct (asked p). }
    cbn beta iota. rewrite Haddr, Ho, decide_False by done. rewrite decide_False by auto.
    unfold mbind, M_bind, ReverseProxy. cbn [serve_proxy two_proxy]. rewrite decide_True by done.
    fold r'. rewrite Hserve. done.
  - intros arg now' s Hn.
    assert (NoDup sets.*1) as Hnd.
    { pose proof (NoDup_fst_map_to_list kv) as Hnd. rewrite <-Hperm, fmap_app in Hnd.
      by apply NoDup_app in Hnd as [? _]. }
    destruct (apply_entries_run valid arg now' sets s Hy Hn Hnd) as [ws E].
    { apply Forall_forall. intros [k' v'] Hin. cbn [fst snd].
      apply (Hkv k' v'), elem_of_map_to_list. rewrite <-Hperm. apply elem_of_app. by left. }
    eexists. split; [exact E|]. split; [done|]. intros host remote key Hkey.
    pose proof (RaftStore_contract (D := D) arg now off) as HC.
    unfold http_serve, serve_node.
    rewrite (get_key_answers (StoreContract0 := HC) _ _ _ _ _ _ _ _ _ _ key) by done.
    rewrite !decide_False by done. cbn [m]. by destruct ((list_to_map sets ∪ m s) !! key).
Qed.
End writing.

(** ** Witness: two keys posted to node B, node A leads *)

Section witnesses.
Import Wire SimNode SimService.

Definition sim_two : two := mkTwo (New sim_follower_node) (New sim_leader_node).
Definition two_keys : gmap string string := {["k" := "v"; "j" := "w"]}.
Definition post_two : Request := req "POST" "/hraftd/key" (Marshal two_keys).
Definition peerA : Peer := mkPeer "10.0.0.1:12000" idA "Leader" "".
Definition no_pprof_two (n : string) : ServeHTTPFn (two (W := sim)) := λ _, WriteHeader StatusOK.
Definition sim_asked : ServeHTTPFn (two (W := sim)) :=
  serve_asked (D := string) as_json id map_to_list sim_read (mkNodeInfo "" "" "" "") no_decode id a_moment 0
    MakeArg MakeArg "10.0.0.1:11000" "10.0.0.2:40000" no_pprof_two MakeDealerMap no_pprof MakeDealerMap.
Definition sim_reader : ServeHTTPFn (RaftStore sim) :=
  serve_node (D := string) as_json id map_to_list sim_read (mkNodeInfo "" "" "" "") no_decode id a_moment 0
    no_pprof MakeDealerMap MakeArg.

Lemma write_end_to_end_witness :
  ∃ sets rest w1 wL w', sets ++ rest ≡ₚ map_to_list two_keys ∧
    committed (entry a_moment 0 <$> sets) sim_leader_node w1 ∧
    match rest with [] => wL = w1 | (k, v) :: _ => ∃ e, Set_ a_moment 0 k v w1 = (wL, Ret (Some e)) end ∧
    sim_asked post_two (sim_two, fresh_rw) = ((mkTwo (asked sim_two) (mkStore ∅ wL), w'), Ret tt) ∧
    rw_status w' = (if decide (rest = []) then StatusOK else StatusInternalServerError) ∧
    ∀ arg now' (s : RaftStore sim), (now' ≤ a_moment + 0 * second - millisecond + max_age)%Z →
      ∃ s', apply_entries (D := string) no_decode id MakeDealerMap arg now' (entry a_moment 0 <$> sets) s =
          (s', Ret tt) ∧
        m s' = list_to_map sets ∪ m s ∧
        ∀ host remote key, key ≠ "" →
          http_serve (serve_node (D := string) as_json id map_to_list sim_read (mkNodeInfo "" "" "" "")
              no_decode id a_moment 0 no_pprof MakeDealerMap arg)
            (received "GET" host (KeyPath +:+ "/" +:+ key) remote "") s' =
          (s', inl (match m s' !! key with
                    | Some v => (StatusOK, Marshal ({[key := TryParseJSON as_json id v]} : gmap string string))
                    | None => (StatusNotFound, "") end)).
Proof.
  refine (write_end_to_end (D := string) as_json id map_to_list sim_read (mkNodeInfo "" "" "" "") no_decode id
    no_decode id MakeDealerMap a_moment 0 MakeArg MakeArg "10.0.0.1:11000" "10.0.0.2:40000" no_pprof_two
    MakeDealerMap no_pprof MakeDealerMap (λ _, True) _ (λ _, Permutation_refl _) post_two "" two_keys
    peerA sim_two _ eq_refl eq_refl eq_refl _ eq_refl eq_refl eq_refl _ _ _).
  - vm_compute. congruence.
  - done.
  - vm_compute. reflexivity.
  - vm_compute. split; congruence.
  - intros k v Hk. split_and!; [|done|done]. intros ->. vm_compute in Hk. done.
Defined.

(** The run itself: both sets are in the leader's log and node B answers 200. *)
Example two_keys_posted :
  (λ r, (length (sim_log (world (leading r.1.1))), rw_status r.1.2)) (sim_asked post_two (sim_two, fresh_rw)) =
    (2, 200%Z).
Proof. vm_compute. reflexivity. Qed.
End witnesses.
