(* ===== verification/Joining.v ===== *)
(** * A node joins: [Join] of [arg.go] against the service and the store of the leader

    The two ends of a join in one model.  The joining node posts its request; the
    leader's HTTP service fixes its name, asks the store, saves the view; the joining node
    then asks its own service for the view of the cluster, by the configuration raft has
    brought it until then, and looks for itself in it. *)

From stdpp Require Import prelude gmap strings.
From S2P Require Import Prelude.
From S2P Require Import GoStd.
From S2P Require Import GoTime.
From S2P Require Import Util.
From S2P Require Import Model.
From S2P Require Import Externals.
From S2P Require Import Sim.
From S2P Require Import Dealer.
From S2P Require Import Arg.
From S2P Require Import Client.
From S2P Require Import Fsm.
From S2P Require Import Store.
From S2P Require Import Url.
From S2P Require Import Http.
From S2P Require Import Service.

Section joining.
Context {W D J : Type} `{HRaft : Raft W} `{HNet : Network W} `{HFiles : FileSystem W}.
Context `{!Codec Command} `{!Codec (gmap string string)} `{!Codec RaftCluster}.
Context `{!Codec (list ConfigEntry)} `{!Codec JoinRequest} `{!Codec (Rsp D)}.
Context `{!Codec (gmap string stat)} `{!Codec (gmap string J)} `{!Codec NodeInfo}.
Context `{HProxy : Proxy (RaftStore W)}.
(** What the services of both nodes are given, as in Service.v. *)
Context (UnmarshalFromString : string → J + error) (JString : string → J).
Context (range : gmap string string → list (string * string)).
Context (pprof : string → ServeHTTPFn (RaftStore W)) (gonet_ReadBytes : string + error → string).
Context (info : NodeInfo) (unmarshal_new : gotype → string → D + error) (ptr_to : D → D).
Context (dealers : DealerMap (RaftStore W) D) (now off : Z).

(** ** The network of the two nodes *)

Record pair : Type := mkPair { at_leader : RaftStore W; at_joiner : RaftStore W }.

Definition serve_node (arg : Arg) : ServeHTTPFn (RaftStore W) :=
  ServeHTTP (H := RaftStore_StoreI (D := D) arg now off) (V := D)
    UnmarshalFromString JString range pprof gonet_ReadBytes info unmarshal_new ptr_to dealers.

(** The arguments of the leader and of the joining node, their HTTP addresses, and the
    address the leader sees the request come from.  [replicate] is what has become of the
    joining node when it reads the leader's answer - from its own state before and the
    state the answer left the leader in - whatever raft has told it by then. *)
Context (argL argJ : Arg) (leader_addr joiner_addr remote : string).
Context (replicate : RaftStore W → RaftStore W → RaftStore W).

Definition refused : error := ErrExt "connection refused".
#[local] Instance pair_network : Network pair := {
  client_Post url body p :=
    match request_to "POST" url remote body with
    | Some (host, req) =>
        if decide (host = leader_addr) then
          let '(s, r) := http_deliver (serve_node argL) req (at_leader p) in
          (mkPair s (replicate s (at_joiner p)), r)
        else (p, inr refused)
    | None => (p, inr url_error)
    end;
  client_Get url p :=
    match request_to "GET" url joiner_addr "" with
    | Some (host, req) =>
        if decide (host = joiner_addr) then
          let '(s, r) := http_deliver (serve_node argJ) req (at_joiner p) in
          (mkPair (at_leader p) s, match r with inl (_, b) => inl b | inr e => inr e end)
        else (p, inr refused)
    | None => (p, inr url_error)
    end
}.

(** ** The laws *)

Context `{!RaftNames W} `{!RaftMembership W} `{!RaftFrame W} `{!FileSystemFrame W}.
Context {valid_join : JoinRequest → Prop} `{!CodecLaws JoinRequest (mkJoinRequest "" "") valid_join}.
Context {valid_rsp : Rsp D → Prop} `{!CodecLaws (Rsp D) Rsp0 valid_rsp}.
Context {valid_view : RaftCluster → Prop} `{!CodecLaws RaftCluster RaftCluster0 valid_view}.

(** The answer to a join, by what the store said to it. *)
Definition join_answer (r : option error) : Rsp D :=
  match r with Some e => mkRsp false (Error e) None | None => mkRsp true "OK" None end.

Abbreviation conf_at s := (raft_Configuration (world s)).

Lemma saveCluster_conf (s s' : RaftStore W) :
  saveCluster (S := RaftStore W) (H := RaftStore_StoreI (D := D) argL now off) s = (s', Ret tt) →
  conf_at s' = conf_at s.
Proof.
  intros E. assert (keeps (λ t, conf_at t = conf_at s)
    (saveCluster (S := RaftStore W) (H := RaftStore_StoreI (D := D) argL now off))) as Hk.
  { assert (∀ A (f : M W A), keeps (λ w, raft_Configuration w = conf_at s) f →
      keeps (λ t, conf_at t = conf_at s) (liftW f)) as Hlift.
    { intros A f Hf t Ht. rewrite liftW_run. by apply Hf. }
    unfold saveCluster. cbn [Store_Cluster Store_Set RaftStore_StoreI].
    apply keeps_bind; [apply Hlift, RaftStore_Cluster_keeps; exact _|]. intros [cl [e|]]; [by intros t|].
    apply keeps_bind; [apply Hlift, Set_keeps; exact _|]. intros [e|]; by intros t. }
  specialize (Hk s eq_refl). by rewrite E in Hk.
Qed.

(** The leader's answer to the posted request: what its store says to the fixed name. *)
Lemma leader_answer host hp rp rh rport s :
  clean host = true → clean hp = true → clean rp = true → plain rh = true → plain rport = true →
  remote = joinHP rh rport → raft_State (world s) = RaftLeader →
  let rh' := if decide (rh = "127.0.0.1") then "" else rh in
  let j := mkJoinRequest (joinHP host rp) (mkNodeID host hp rp) in
  valid_join j →
  ∃ s2 w1 r, RaftStore_Join argL (mkNodeID rh' hp rp) (joinHP rh' rp) (world s) = (w1, Ret r) ∧
    conf_at s2 = raft_Configuration w1 ∧
    http_serve (serve_node argL)
      (received "POST" leader_addr (RaftPath +:+ "/join") remote (Marshal j)) s =
    (s2, inl (200%Z, Marshal (join_answer r))).
Proof.
  intros Hh Hhp Hrp Hrh Hrport Hrem Hl rh' j Hj.
  pose proof (join_request (H := RaftStore_StoreI (D := D) argL now off) (V := D) (map_of := m)
    (leads := λ s, is_leader (world s)) UnmarshalFromString JString range pprof gonet_ReadBytes info
    unmarshal_new ptr_to dealers
    (received "POST" leader_addr (RaftPath +:+ "/join") remote (Marshal j)) s fresh_rw
    host hp host rp host rp rh rport) as Hjoin.
  specialize (Hjoin ltac:(by apply bool_decide_true) eq_refl eq_refl).
  unfold decode_body in Hjoin. cbn [Body received] in Hjoin.
  rewrite (Decode_Marshal (valid := valid_join)) in Hjoin by done.
  specialize (Hjoin ltac:(unfold j; by rewrite mkNodeID_pair) Hh Hhp Hh Hrp (clean_plain _ Hh)
    (clean_plain _ Hrp) Hrh Hrport Hrem). cbn [Store_Join RaftStore_StoreI] in Hjoin. fold rh' in Hjoin.
  destruct (RaftStore_Join_total argL (mkNodeID rh' hp rp) (joinHP rh' rp) (world s)) as (w1 & r & E).
  cbv zeta in Hjoin. fold rh' in Hjoin. rewrite (liftW_ret _ _ _ _ E) in Hjoin. unfold http_serve, serve_node.
  destruct r as [e|].
  - rewrite Hjoin. exists (mkStore (m s) w1), w1, (Some e). split_and!; [exact E|done|done].
  - destruct Hjoin as (s2 & Hsave & ->). exists s2, w1, None. split_and!; [done| |done].
    by rewrite (saveCluster_conf _ _ Hsave).
Qed.

(** The check of the joining node, over its own service. *)
Lemma own_view host hp rp p :
  clean host = true → clean hp = true → contains slash host = false → contains slash hp = false →
  joiner_addr = joinHP host hp → raft_ConfigurationError (world (at_joiner p)) = None →
  (∀ w cl, RaftStore_Cluster (D := D) argJ (world (at_joiner p)) = (w, Ret (cl, None)) → valid_view cl) →
  let id := mkNodeID host hp rp in
  ∃ s, conf_at s = conf_at (at_joiner p) ∧
    checkJoined id p = (mkPair (at_leader p) s, Ret
    (if decide (id ∈ Server_ID <$> conf_at (at_joiner p)) then None
     else Some (ErrText ("checked failed for joined node " +:+ id)))).
Proof.
  intros Hh Hhp Hsh Hshp Hj Hce Hview id. rewrite checkJoined_run. cbn [client_Get pair_network].
  unfold URLRaftCluster, NodeID_URL, BindAddr_URL, id.
  rewrite HTTPAddr_mk, SplitHostPort_join by auto using clean_plain.
  rewrite request_to_plain by (auto using clean_plain; done). rewrite decide_True by done.
  unfold http_deliver, http_serve, serve_node. rewrite cluster_request by done.
  cbn [Store_Cluster RaftStore_StoreI]. rewrite liftW_run.
  destruct (cluster_walk (D := D) argJ (raft_Leader (world (at_joiner p))) (conf_at (at_joiner p)) []
    (world (at_joiner p)) RaftCluster0) as (w' & cl & Ew & Hv); [by split_and!|].
  assert (RaftStore_Cluster (D := D) argJ (world (at_joiner p)) = (w', Ret (cl, None))) as E.
  { unfold RaftStore_Cluster, gets, mbind, M_bind, with_local, walkRaftServers. cbn [fst].
    by rewrite Hce, Ew. }
  pose proof (RaftStore_Cluster_keeps (D := D) argJ (conf_at (at_joiner p)) (world (at_joiner p)) eq_refl)
    as Hkeep. rewrite E in Hkeep |- *. cbn [fst snd]. destruct (rw_WriteAsJSON_fresh cl) as [_ ->].
  rewrite (Unmarshal_Marshal (valid := valid_view)) by by eapply Hview.
  exists (mkStore (m (at_joiner p)) w'). split; [exact Hkeep|]. do 2 f_equal.
  assert (Peer_ID <$> Servers cl = Server_ID <$> conf_at (at_joiner p)) as HI.
  { destruct Hv as (Hs & _). apply (f_equal (fmap (λ x, x.1.1))) in Hs. by rewrite <-!list_fmap_compose in Hs. }
  rewrite checkJoined_loop_eq, HI. done.
Qed.

(** Posting the request, up to the leader's answer. *)
Lemma post_join lh lp host hp rp rh rport p :
  clean lh = true → clean lp = true → contains slash lh = false → contains slash lp = false →
  clean host = true → clean hp = true → clean rp = true → plain rh = true → plain rport = true →
  leader_addr = joinHP lh lp → remote = joinHP rh rport → raft_State (world (at_leader p)) = RaftLeader →
  let rh' := if decide (rh = "127.0.0.1") then "" else rh in
  let id := mkNodeID host hp rp in
  valid_join (mkJoinRequest (joinHP host rp) id) →
  ∃ s2 w1 r, RaftStore_Join argL (mkNodeID rh' hp rp) (joinHP rh' rp) (world (at_leader p)) = (w1, Ret r) ∧
    conf_at s2 = raft_Configuration w1 ∧
    (valid_rsp (join_answer r) →
     Join (D := D) leader_addr (joinHP host rp) id p =
      let p1 := mkPair s2 (replicate s2 (at_joiner p)) in
      match r with
      | Some e => (p1, Ret (Some (ErrText (Error e))))
      | None => checkJoined id p1
      end).
Proof.
  intros Hlh Hlp Hslh Hslp Hh Hhp Hrp Hrh Hrport Hla Hrem Hl rh' id Hj.
  destruct (leader_answer host hp rp rh rport (at_leader p) Hh Hhp Hrp Hrh Hrport Hrem Hl Hj)
    as (s2 & w1 & r & E & Hconf & Hserve).
  exists s2, w1, r. split_and!; [done|done|]. intros Hr. rewrite Join_run. cbn [client_Post pair_network].
  unfold BindAddr_URLRaftJoin, BindAddr_URL.
  rewrite Hla, SplitHostPort_join by auto using clean_plain.
  rewrite request_to_plain by (auto using clean_plain; done). rewrite decide_True by done.
  change ("/" +:+ TrimPrefix (RaftPath +:+ "/join") "/") with (RaftPath +:+ "/join").
  unfold http_deliver. fold id in Hserve. rewrite <-Hla, Hserve. cbn beta iota zeta.
  rewrite (Unmarshal_Marshal (valid := valid_rsp)) by done. by destruct r.
Qed.

(** The check asks the joining node only. *)
Lemma checkJoined_leader id p : at_leader (checkJoined id p).1 = at_leader p.
Proof.
  rewrite checkJoined_run. cbn [client_Get pair_network].
  destruct (request_to _ _ _ _) as [[host r]|]; [|done]. case_decide; [|done].
  destruct (http_deliver _ _ _) as [s [[st b]|e]]; [|done]. by destruct (Unmarshal _ _) as [cl [e|]].
Qed.

(** What an accepted join leaves in the configuration. *)
Definition accepted (nodeID addr : string) (conf conf' : list Server) : Prop :=
  (Exists (joined nodeID addr) conf ∧ conf' = conf) ∨
  (¬ Exists (joined nodeID addr) conf ∧
   conf' ≡ₚ mkServer Voter nodeID addr :: filter (λ s, ¬ conflicts nodeID addr s) conf).

Lemma accepted_member nodeID addr conf conf' : accepted nodeID addr conf conf' →
  ∃ srv, srv ∈ conf' ∧ joined nodeID addr srv.
Proof.
  intros [[Hex%Exists_exists ->]|[_ Hc]]; [destruct Hex as (x & ? & ?); by exists x|].
  exists (mkServer Voter nodeID addr). rewrite Hc. split; [constructor|done].
Qed.

Lemma accepted_ids nodeID addr conf conf' id : accepted nodeID addr conf conf' →
  id ∉ Server_ID <$> conf → id ∈ Server_ID <$> conf' ↔ nodeID = id.
Proof.
  intros Ha Hnew. split.
  - destruct Ha as [[_ ->]|[_ ->]]; [done|]. rewrite fmap_cons. intros [->|Hin]%elem_of_cons; [done|].
    destruct Hnew. apply list_elem_of_fmap in Hin as (x & -> & [_ Hx]%list_elem_of_filter).
    by apply list_elem_of_fmap_2.
  - intros <-. destruct (accepted_member _ _ _ _ Ha) as (x & Hx & [<- _]). by apply list_elem_of_fmap_2.
Qed.

(** C7. A join from end to end.  A new node posts its own name to the leader and is seen
    coming from [remote].  If the leader's store refuses, the join fails with the
    leader's error.  If it accepts, the leader's configuration is well formed and has the
    node in it, under the name the leader gave it: its ports with the host its request
    came from, none for 127.0.0.1.  The join then succeeds exactly when the configuration
    that the joining node has by that time, if it can be read, lists the node's own name,
    and otherwise reports that the check failed.  If raft has brought it the
    leader's configuration, that is exactly when the host of the request is the one in
    the node's own name: otherwise the node is a member of the cluster under another
    name and its join has failed. *)
Theorem join_end_to_end lh lp host hp rp rh rport p :
  clean lh = true → clean lp = true → contains slash lh = false → contains slash lp = false →
  clean host = true → clean hp = true → contains slash host = false → contains slash hp = false →
  clean rp = true → plain rh = true → plain rport = true →
  leader_addr = joinHP lh lp → joiner_addr = joinHP host hp → remote = joinHP rh rport →
  raft_State (world (at_leader p)) = RaftLeader → well_formed (conf_at (at_leader p)) →
  let id := mkNodeID host hp rp in
  let rh' := if decide (rh = "127.0.0.1") then "" else rh in
  let asked := RaftStore_Join argL (mkNodeID rh' hp rp) (joinHP rh' rp) (world (at_leader p)) in
  id ∉ Server_ID <$> conf_at (at_leader p) → valid_join (mkJoinRequest (joinHP host rp) id) →
  (∀ r, asked.2 = Ret r → valid_rsp (join_answer r)) →
  ∃ p' r, Join (D := D) leader_addr (joinHP host rp) id p = (p', Ret r) ∧
    match asked.2 with
    | Ret (Some e) => r = Some (ErrText (Error e))
    | Ret None =>
        well_formed (conf_at (at_leader p')) ∧
        (∃ srv, srv ∈ conf_at (at_leader p') ∧ joined (mkNodeID rh' hp rp) (joinHP rh' rp) srv) ∧
        let told := replicate (at_leader p') (at_joiner p) in
        (raft_ConfigurationError (world told) = None →
         (∀ w cl, RaftStore_Cluster (D := D) argJ (world told) = (w, Ret (cl, None)) → valid_view cl) →
         r = (if decide (id ∈ Server_ID <$> conf_at told) then None
              else Some (ErrText ("checked failed for joined node " +:+ id))) ∧
         (conf_at told = conf_at (at_leader p') → r = None ↔ rh' = host))
    | Panic _ => False
    end.
Proof.
  intros Hlh Hlp Hslh Hslp Hh Hhp Hsh Hshp Hrp Hrh Hrport Hla Hja Hrem Hl Hwf id rh' asked Hnew Hj Hvalid.
  destruct (post_join lh lp host hp rp rh rport p) as (s2 & w1 & r & E & Hconf & Hrun); try done.
  fold id rh' in Hrun, E. fold asked in E. rewrite E in Hvalid |- *. cbn [snd] in Hvalid |- *.
  specialize (Hrun (Hvalid r eq_refl)). cbn zeta in Hrun.
  destruct r as [e|]; [by eexists _, _|].
  set (told := replicate s2 (at_joiner p)) in *.
  destruct (RaftStore_Join_cases argL (mkNodeID rh' hp rp) (joinHP rh' rp) _ Hl Hwf)
    as (w1' & r' & E' & Hcases). fold asked in E'. rewrite E in E'. injection E' as <- <-.
  assert (accepted (mkNodeID rh' hp rp) (joinHP rh' rp) (conf_at (at_leader p)) (raft_Configuration w1))
    as Hacc by (destruct Hcases as [[? ->]|(? & ? & _)]; [by left|by right]).
  assert (well_formed (conf_at s2)) as Hwf2.
  { rewrite Hconf. destruct Hacc as [[_ ->]|[_ ->]]; [done|by apply well_formed_add]. }
  destruct (checkJoined_total id (mkPair s2 told)) as (p2 & r2 & E2).
  assert (at_leader p2 = s2) as HL.
  { pose proof (checkJoined_leader id (mkPair s2 told)) as Hk. by rewrite E2 in Hk. }
  exists p2, r2. rewrite Hrun, HL. split; [exact E2|]. split; [done|]. split.
  { rewrite Hconf. exact (accepted_member _ _ _ _ Hacc). }
  cbv zeta. fold told. intros Hce Hview.
  destruct (own_view host hp rp (mkPair s2 told)) as (s & Hsc & Hs); [done..|]. fold id in Hs.
  rewrite E2 in Hs. injection Hs as _ ->. cbn [at_joiner]. split; [done|]. intros Htold.
  rewrite Htold, Hconf.
  transitivity (id ∈ Server_ID <$> raft_Configuration w1).
  { destruct (decide (id ∈ Server_ID <$> raft_Configuration w1)) as [Hin|Hin]; split; intros; [exact Hin|done|congruence|contradiction]. }
  rewrite (accepted_ids _ _ _ _ id Hacc Hnew). unfold id. split; [by intros ?%mkNodeID_inj_host|by intros ->].
Qed.
End joining.

(** ** Witnesses: node C joins the leader A *)

Section witnesses.
Import Wire SimNode SimService.

(** Raft hands the leader's servers over at once. *)
Definition sim_replicate (leader joiner : RaftStore sim) : RaftStore sim :=
  mkStore (m joiner) (sim_set_servers (sim_servers (world leader)) (world joiner)).
Definition sim_pair : pair := mkPair (New sim_leader_node) (New sim_follower_node).
Definition sim_net (remote : string) : Network pair :=
  pair_network (D := string) as_json id map_to_list no_pprof sim_read (mkNodeInfo "" "" "" "")
    no_decode id MakeDealerMap a_moment 0 MakeArg MakeArg "10.0.0.1:11000" "10.0.0.3:11000" remote sim_replicate.
Definition sim_join (remote : string) : pair * outcome (option error) :=
  @Join pair string (sim_net remote) _ _ _ "10.0.0.1:11000" "10.0.0.3:12000" idC sim_pair.

Lemma join_end_to_end_witness :
  ∃ p' r, sim_join "10.0.0.3:5555" = (p', Ret r) ∧ r = None ∧
    ∃ srv, srv ∈ raft_Configuration (world (at_leader p')) ∧ joined idC "10.0.0.3:12000" srv.
Proof.
  assert (well_formed (sim_servers sim_leader_node)) as Hwf
    by (split; apply (bool_decide_unpack _); vm_compute; done).
  assert (idC ∉ Server_ID <$> sim_servers sim_leader_node) as Hnew
    by (apply (bool_decide_unpack _); vm_compute; done).
  enough (∃ p' r, sim_join "10.0.0.3:5555" = (p', Ret r) ∧
    match (RaftStore_Join MakeArg idC "10.0.0.3:12000" sim_leader_node).2 with
    | Ret (Some e) => r = Some (ErrText (Error e))
    | Ret None =>
        well_formed (raft_Configuration (world (at_leader p'))) ∧
        (∃ srv, srv ∈ raft_Configuration (world (at_leader p')) ∧ joined idC "10.0.0.3:12000" srv) ∧
        let told := sim_replicate (at_leader p') (New sim_follower_node) in
        (raft_ConfigurationError (world told) = None →
         (∀ w cl, RaftStore_Cluster (D := string) MakeArg (world told) = (w, Ret (cl, None)) → True) →
         r = (if decide (idC ∈ Server_ID <$> raft_Configuration (world told)) then None
              else Some (ErrText ("checked failed for joined node " +:+ idC))) ∧
         (raft_Configuration (world told) = raft_Configuration (world (at_leader p')) →
          r = None ↔ "10.0.0.3" = "10.0.0.3"))
    | Panic _ => False
    end) as (p' & r & E & _ & Hsrv & Hr).
  { exists p', r. split; [exact E|]. split; [|exact Hsrv].
    by apply (proj2 (Hr eq_refl (λ _ _ _, I))). }
  exact (join_end_to_end (D := string) as_json id map_to_list no_pprof sim_read (mkNodeInfo "" "" "" "")
    no_decode id MakeDealerMap a_moment 0 MakeArg MakeArg "10.0.0.1:11000" "10.0.0.3:11000"
    "10.0.0.3:5555" sim_replicate (valid_join := λ _, True) (valid_rsp := λ _, True)
    (valid_view := λ _, True)
    "10.0.0.1" "11000" "10.0.0.3" "11000" "12000" "10.0.0.3" "5555" sim_pair
    eq_refl eq_refl eq_refl eq_refl eq_refl eq_refl eq_refl eq_refl eq_refl eq_refl eq_refl
    eq_refl eq_refl eq_refl eq_refl Hwf Hnew I (λ _ _, I)).
Defined.

(** The same join over the loopback: the cluster has a member more and the node gives up. *)
Example join_over_loopback :
  Server_ID <$> sim_servers (world (at_leader (sim_join "127.0.0.1:5555").1)) =
    [idA; idB; mkNodeID "" "11000" "12000"] ∧
  (sim_join "127.0.0.1:5555").2 = Ret (Some (ErrText ("checked failed for joined node " +:+ idC))).
Proof. vm_compute. done. Qed.
End witnesses.
