(* ===== verification/Jobs.v ===== *)
(** * A job goes to a peer: [DistributeJob] of [peerjob.go] against [job.go] and the service

    The caller posts the request as JSON to a URL that ends in the name of the job; the
    peer's service invokes the dealer of the name it finds in the URL and answers its value inside a response; the caller takes the value out of the
    response as raw JSON and decodes it into its own variable. *)

From stdpp Require Import prelude gmap strings.
From S2P Require Import Prelude.
From S2P Require Import GoStd.
From S2P Require Import Util.
From S2P Require Import Model.
From S2P Require Import Externals.
From S2P Require Import Sim.
From S2P Require Import Dealer.
From S2P Require Import Arg.
From S2P Require Import Client.
From S2P Require Import Fsm.
From S2P Require Import Store.
From S2P Require Import Url.
From S2P Require Import Http.
From S2P Require Import Service.

Section jobs.
Context {S V J : Type} `{HStore : StoreI S} `{HProxy : Proxy S}.
Context `{!Codec (gmap string string)} `{!Codec JoinRequest} `{!Codec (Rsp V)}.
Context `{!Codec RaftCluster} `{!Codec (gmap string stat)} `{!Codec (gmap string J)}.
Context `{!Codec NodeInfo} `{!Codec JobRsp}.
Context (UnmarshalFromString : string → J + error) (JString : string → J).
Context (range : gmap string string → list (string * string)).
Context (pprof : string → ServeHTTPFn S) (gonet_ReadBytes : string + error → string).
Context (info : NodeInfo) (unmarshal_new : gotype → string → V + error) (ptr_to : V → V).
Context (dealers : DealerMap S V).

(** The peer's service at its address, as the caller reaches it. *)
Context (peer_addr remote : string).

Definition job_peer : ServeHTTPFn S :=
  ServeHTTP UnmarshalFromString JString range pprof gonet_ReadBytes info unmarshal_new ptr_to dealers.
Definition unreachable : error := ErrExt "connection refused".
#[local] Instance job_network : Network S := {
  client_Post url body s :=
    match request_to "POST" url remote body with
    | Some (host, r) => if decide (host = peer_addr) then http_deliver job_peer r s else (s, inr unreachable)
    | None => (s, inr url_error)
    end;
  client_Get _ s := (s, inr unreachable)
}.

(** Reading a body that can be read gives its bytes; and [jsoniter.RawMessage] keeps the
    text of a value, [raw], and nothing for a response without data. *)
Context (raw : V → string) (valid_rsp : Rsp V → Prop).
Hypothesis reads_body : ∀ b, gonet_ReadBytes (inl b) = b.
Hypothesis raw_message : ∀ ok msg (data : option V), valid_rsp (mkRsp ok msg data) →
  Unmarshal (mkJobRsp false "" "") (Marshal (mkRsp ok msg data)) =
    (mkJobRsp ok msg (match data with Some v => raw v | None => "" end), None).

(** What the peer answers to a job whose dealer ended with this value and error. *)
Definition job_answer (x : option V) (err : option error) : Rsp V :=
  match err with Some e => err_rsp e | None => ok_rsp "ok" x end.

(** C20. A distributed job is a call of a dealer of the peer, of the one whose name is the
    URL spelling of the job's: the peer looks the name up as [URL.String] prints it.
    (This is for names without a query or a fragment, without ? and #.)  A
    job whose name is no URL path (a control byte, a stray percent sign) is an error and
    is not sent.  The names that arrive as themselves are exactly those made of the
    bytes that stand for themselves in a path, with percent signs only in well-formed
    escapes: under any other name (with a blank, with a byte beyond ASCII) no dealer
    registered under it is ever called.  The dealer gets the request's JSON; its value
    comes back into the caller's variable by way of JSON, its error (and the error of an
    unknown name or of a request it cannot decode) as an error of the same text with the
    variable as it was; a panic of the dealer is an error of the connection.  Nothing
    changes at the peer but what the dealer changes. *)
Theorem job_end_to_end {Q R} `{!Codec Q} `{!Codec R} p h port path (req : Q) (rsp : R) s :
  HTTPAddr (Peer_ID p) = joinHP h port → peer_addr = joinHP h port →
  plain h = true → plain port = true → contains slash h = false → contains slash port = false →
  contains question path = false → contains hash path = false →
  (∀ name s' x err, printed path = Some name →
     Invoke unmarshal_new ptr_to dealers name (Marshal req) s = (s', Ret (x, err)) →
     valid_rsp (job_answer x err)) →
  DistributeJob p path req rsp s =
    match printed path with
    | None => (s, Ret (rsp, Some url_error))
    | Some name =>
        match Invoke unmarshal_new ptr_to dealers name (Marshal req) s with
        | (s', Ret (x, None)) =>
            (s', Ret (Unmarshal rsp (match x with Some v => raw v | None => "" end)))
        | (s', Ret (_, Some e)) => (s', Ret (rsp, Some (ErrText (Error e))))
        | (s', Panic _) => (s', Ret (rsp, Some (ErrExt "EOF")))
        end
    end ∧
  (printed path = Some path ↔ validEncodedPath path = true ∧ is_Some (unescape path)).
Proof.
  intros Hp Ha Hh Hport Hsh Hsp Hq Hf Hvalid. split; [|apply printed_same].
  unfold DistributeJob, mbind, M_bind. rewrite PostJSON_run.
  cbn [client_Post job_network]. unfold NodeID_URL, BindAddr_URL. rewrite Hp, SplitHostPort_join by done.
  set (rest := TrimPrefix (DoJobPath +:+ path) "/").
  assert ("/" +:+ rest = DoJobPath +:+ path) as Hrest by done.
  pose proof (request_to_path "POST" h port rest remote (Marshal req)) as Hto.
  assert (contains question rest = false ∧ contains hash rest = false) as [Hqr Hfr].
  { change rest with ("hraftd/dojob" +:+ path). by rewrite !contains_app, Hq, Hf. }
  specialize (Hto Hh Hport Hsh Hsp Hqr Hfr).
  assert (printed ("/" +:+ rest) =
    match printed path with Some q => Some (DoJobPath +:+ q) | None => None end) as Hprinted
    by by rewrite Hrest, printed_app.
  rewrite Hprinted in Hto. destruct (printed path) as [name|]; [|by rewrite Hto].
  destruct Hto as (u & -> & Hu & Hs). rewrite decide_True by done.
  rewrite Hrest, unescape_app in Hu by done. destruct (unescape path) as [d|]; [|done]. injection Hu as Hu.
  unfold http_deliver, http_serve, job_peer. rewrite (job_request _ _ _ _ _ _ _ _ _ _ d) by done.
  rewrite decide_True by done. cbn [Body Req_URL]. rewrite Hs, TrimPrefix_app, reads_body.
  specialize (Hvalid name). destruct (Invoke _ _ _ _ _ s) as [s' [[x err]|msg]]; [|done].
  specialize (Hvalid s' x err eq_refl eq_refl). destruct err as [e|].
  - unfold error_answer. cbn [fst snd]. rewrite (proj2 (rw_WriteAsJSON_fresh (err_rsp (V := V) e))).
    unfold err_rsp. by rewrite raw_message.
  - rewrite (proj2 (rw_WriteAsJSON_fresh (ok_rsp "ok" x))). unfold ok_rsp. by rewrite raw_message.
Qed.
End jobs.

(** ** Witness: a job for node B *)

Section witnesses.
Import Wire SimNode SimService.

(** The response read with its data left as text; values are texts here. *)
#[export] Instance JobRsp_fields : Fields JobRsp.
Proof.
  refine {|
    to_fields r := [bool_field (Job_OK r); Job_Msg r; Job_Data r];
    of_fields l :=
      match l with
      | [b; msg] => Some (mkJobRsp (bool_decide (b = "true")) msg "")
      | [b; msg; d] => Some (mkJobRsp (bool_decide (b = "true")) msg d)
      | _ => None
      end
  |}.
  by intros [[] msg d].
Defined.
#[local] Instance jobrsp_codec : Codec JobRsp := Fields_codec.
#[local] Instance text_codec : Codec string := {|
  Marshal s := s; Unmarshal _ s := (s, None); Decode _ s := (s, None)
|}.
#[local] Instance job_store : StoreI (RaftStore sim) := RaftStore_StoreI (D := string) MakeArg a_moment 0.

(** A dealer that writes the request into the raft log of its node, under two names. *)
Definition echo : Dealer (RaftStore sim) string :=
  mkDealer (λ v s, (mkStore (m s) (raft_Apply v (world s)).1, Ret (v +:+ " is processed", None)))
    (TNamed "string").
Definition echo_dealers : DealerMap (RaftStore sim) string :=
  mkDealerMap {["/echo" := echo; "/my job" := echo]}.
Lemma sim_raw ok msg (data : option string) : True →
  Unmarshal (mkJobRsp false "" "") (Marshal (mkRsp ok msg data)) =
    (mkJobRsp ok msg (match data with Some v => v | None => "" end), None).
Proof. intros _. cbn -[take_all put_all]. rewrite take_all_put_all. by destruct ok, data. Qed.
Definition peerB : Peer := mkPeer "10.0.0.2:12000" idB "Follower" "Voter".
Definition echo_job (path : string) : M (RaftStore sim) (string * option error) :=
  @DistributeJob (RaftStore sim)
    (job_network (V := string) as_json id map_to_list no_pprof sim_read (mkNodeInfo "" "" "" "")
       no_decode id echo_dealers "10.0.0.2:11000" "10.0.0.1:5555") string string _ _ _ peerB path "ID：1" "".

(** At a known name, at an unknown one, at one that is no path, and at a name with a
    blank, which is registered and not found. *)
Lemma job_end_to_end_witness :
  echo_job "/echo" (New sim_follower_node) =
    (mkStore ∅ (raft_Apply "ID：1" sim_follower_node).1, Ret ("ID：1 is processed", None)) ∧
  echo_job "/none" (New sim_follower_node) =
    (New sim_follower_node, Ret ("", Some (ErrText "dealer does not exist"))) ∧
  echo_job "/100%" (New sim_follower_node) = (New sim_follower_node, Ret ("", Some url_error)) ∧
  echo_job "/my job" (New sim_follower_node) =
    (New sim_follower_node, Ret ("", Some (ErrText "dealer does not exist"))).
Proof.
  pose proof (λ path Hq Hf, proj1 (job_end_to_end (V := string) as_json id map_to_list no_pprof sim_read
    (mkNodeInfo "" "" "" "") no_decode id echo_dealers "10.0.0.2:11000" "10.0.0.1:5555" id (λ _, True)
    (λ b, eq_refl) sim_raw peerB "10.0.0.2" "11000" path ("ID：1" : string) ("" : string)
    (New sim_follower_node) eq_refl eq_refl eq_refl eq_refl eq_refl eq_refl Hq Hf (λ _ _ _ _ _ _, I))) as H.
  split; [exact (H "/echo" eq_refl eq_refl)|]. split; [exact (H "/none" eq_refl eq_refl)|].
  split; [exact (H "/100%" eq_refl eq_refl)|exact (H "/my job" eq_refl eq_refl)].
Defined.
End witnesses.
