(* ===== verification/Logging.v ===== *)
(** * Logging: [logger.go]

    The levels, the logger that writes lines, and the two interfaces of the file,
    [Logger] and [LevelLogger].  The formatting of operands, [fmt.Sprintf], is a
    parameter; so are the clock and [runtime.Caller] of a call, and the [io.Writer]. *)

From Stdlib Require Import Ascii.
From stdpp Require Import prelude gmap strings.
From S2P Require Import Prelude.
From S2P Require Import GoStd.
From S2P Require Import GoTime.

#[local] Open Scope Z_scope.

(** ** Levels *)

Abbreviation LogLevel := Z.
Definition LogLevelDebug : LogLevel := 0.
Definition LogLevelInfo : LogLevel := 1.
Definition LogLevelWarn : LogLevel := 2.
Definition LogLevelError : LogLevel := 3.

Definition ParseLogLevel (l : string) : LogLevel :=
  if decide (l = "debug") then LogLevelDebug
  else if decide (l = "info") then LogLevelInfo
  else if decide (l = "warn") then LogLevelWarn
  else if decide (l = "error") then LogLevelError
  else LogLevelInfo.

Definition LogLevel_String (l : LogLevel) : string :=
  if l =? LogLevelDebug then "debug"
  else if l =? LogLevelInfo then "info"
  else if l =? LogLevelWarn then "warn"
  else if l =? LogLevelError then "error"
  else "unknown".

(** ** StdLogger *)

(** [itoa]: digits go into a buffer of 20 bytes from its end ([bp] is the index
    written next, [acc] the bytes behind it); a negative index panics.  The index
    goes down in every round, so 21 rounds are enough. *)
Fixpoint itoa_loop (fuel : nat) (i wid bp : Z) (acc : string) : outcome string :=
  match fuel with
  | O => Panic "index out of range"
  | S fuel =>
      if bp <? 0 then Panic "index out of range"
      else if (10 <=? i) || (1 <? wid) then
        let q := Z.quot i 10 in
        itoa_loop fuel q (wid - 1) (bp - 1) (String (byte_of (48 + i - q * 10)) acc)
      else Ret (String (byte_of (48 + i)) acc)
  end.
Definition itoa (i wid : Z) : M string unit := λ buf,
  match itoa_loop 21 i wid 19 "" with
  | Ret digits => (buf +:+ digits, Ret tt)
  | Panic msg => (buf, Panic msg)
  end.

Definition append_str (s : string) : M string unit := modify (λ buf, buf +:+ s).

(** The file name without its directories: the loop looks for the last slash and
    stops before the first byte. *)
Definition short_file (file : string) : string :=
  match cut_last slash file with
  | Some (dir, base) => if decide (dir = "") then file else base
  | None => file
  end.

(** [t] is the wall clock, nanoseconds since the epoch with the zone applied. *)
Definition formatHeader (PrintCallerInfo : bool) (t : Z) (file : string) (line : Z) : M string unit :=
  let secs := t / second in
  let sod := secs mod day_seconds in
  let '(year, month, day) := civil (secs / day_seconds) in
  _ ← itoa year 4; _ ← append_str "-"; _ ← itoa month 2; _ ← append_str "-"; _ ← itoa day 2;
  _ ← append_str " ";
  _ ← itoa (sod / 3600) 2; _ ← append_str ":"; _ ← itoa (sod mod 3600 / 60) 2; _ ← append_str ":";
  _ ← itoa (sod mod 60) 2;
  _ ← append_str "."; _ ← itoa ((t mod second) / 1000000) 3;
  _ ← append_str " ";
  if PrintCallerInfo then
    _ ← append_str (short_file file); _ ← append_str ":"; _ ← itoa line (-1); append_str " "
  else mret tt.

(** [path.Base]. *)
Definition path_Base (p : string) : string :=
  if decide (p = "") then "."
  else
    let p := TrimRightPats ["/"] p in
    let p := match cut_last slash p with Some (_, b) => b | None => p end in
    if decide (p = "") then "/" else p.

Definition newline : string := String "010" "".
Fixpoint ends_in_newline (s : string) : bool :=
  match s with
  | EmptyString => false
  | String c "" => bool_decide (c = "010"%char)
  | String _ r => ends_in_newline r
  end.

(** ** The interfaces

    [L] is the state of a logger, [A] the type of the operands ([interface{}]).  An
    [io.Writer] handed out by a logger is its [Write]. *)

Class Logger (L A : Type) : Type := {
  Logger_SetLogLevel : LogLevel → M L unit;
  Logger_GetLogLevel : M L LogLevel;
  Logger_GetIOWriter : string → M L (option error);
  Logger_Logf : LogLevel → string → list A → M L unit
}.

Class LevelLogger (L A : Type) : Type := {
  Level_Printf : string → list A → M L unit;
  Level_Debugf : string → list A → M L unit;
  Level_Infof : string → list A → M L unit;
  Level_Warnf : string → list A → M L unit;
  Level_Errorf : string → list A → M L unit;
  Level_Panicf : string → list A → M L unit
}.

(** What a user of a [Logger] may expect: the level set is the level got; a call below
    the level does nothing, and any other emits the formatted text, as [emit] says,
    without touching the level. *)
Class LoggerContract (L A : Type) `{Logger L A} (Sprintf : string → list A → string)
    (level_of : L → LogLevel) (emit : LogLevel → string → L → L) : Prop := {
  GetLogLevel_spec l : Logger_GetLogLevel l = (l, Ret (level_of l));
  SetLogLevel_spec level l : LogLevelDebug ≤ level ≤ LogLevelError →
    ∃ l', Logger_SetLogLevel level l = (l', Ret tt) ∧ level_of l' = level;
  Logger_Logf_spec level format data l :
    Logger_Logf level format data l =
      (if level_of l <=? level then emit level (Sprintf format data) l else l, Ret tt);
  emit_level level msg l : level_of (emit level msg l) = level_of l
}.

(** [LevelLoggerAdapter]: the second interface from the first. *)
Section adapter.
Context {L A : Type} `{Logger L A} (Sprintf : string → list A → string).
Definition Debugf (format : string) (data : list A) : M L unit := Logger_Logf LogLevelDebug format data.
Definition Printf (format : string) (data : list A) : M L unit := Logger_Logf LogLevelInfo format data.
Definition Infof (format : string) (data : list A) : M L unit := Logger_Logf LogLevelInfo format data.
Definition Warnf (format : string) (data : list A) : M L unit := Logger_Logf LogLevelWarn format data.
Definition Errorf (format : string) (data : list A) : M L unit := Logger_Logf LogLevelError format data.
Definition Panicf (format : string) (data : list A) : M L unit :=
  _ ← Logger_Logf LogLevelError format data; panic (Sprintf format data).

Definition LevelLoggerAdapter : LevelLogger L A := {|
  Level_Printf := Printf; Level_Debugf := Debugf; Level_Infof := Infof; Level_Warnf := Warnf;
  Level_Errorf := Errorf; Level_Panicf := Panicf
|}.
End adapter.

(** ** StdLogger and SLogger *)

(** An [io.Writer]: what a [Write] makes of it, and the error. *)
Class io_Writer (Wr : Type) : Type := { Write : string → Wr → Wr * option error }.

Section slogger.
Context {Wr A : Type} `{io_Writer Wr} (Sprintf : string → list A → string).
(** The instant of a call and the zone, and what [runtime.Caller] says at a depth. *)
Context (now off : Z) (Caller : Z → option (string * Z)).

(** The buffer is emptied by every call, so it is not part of the state. *)
Record StdLogger : Type := mkStdLogger { Out : Wr; CallDepth : Z; PrintCallerInfo : bool }.
(** [viper] is the setting PrintCallerInfo. *)
Definition NewStdLogger (viper : bool) (out : Wr) : StdLogger := mkStdLogger out 4 viper.

Definition Output (s : string) : M StdLogger (option error) := λ l,
  let '(file, line) :=
    if PrintCallerInfo l then
      match Caller (CallDepth l) with Some (f, n) => (path_Base f, n) | None => ("???", 0) end
    else ("", 0) in
  match formatHeader (PrintCallerInfo l) (now + off * second) file line "" with
  | (_, Panic msg) => (l, Panic msg)
  | (buf, Ret _) =>
      let buf := buf +:+ s in
      let buf := if ends_in_newline s then buf else buf +:+ newline in
      let '(out, err) := Write buf (Out l) in
      (mkStdLogger out (CallDepth l) (PrintCallerInfo l), Ret err)
  end.
(** [fmt.Sprint] of one string is the string; the error is dropped. *)
Definition Print (v : string) : M StdLogger unit := _ ← Output v; mret tt.

(** The writer of the lines and the [io.Writer] handed out are both [os.Stdout]. *)
Record SLogger : Type := mkSLogger { Writer : StdLogger; Level : LogLevel }.
Definition NewSLogger (viper : bool) (stdout : Wr) : SLogger :=
  mkSLogger (NewStdLogger viper stdout) LogLevelInfo.
Definition on_writer {B} (f : M StdLogger B) : M SLogger B := λ l,
  let '(w, b) := f (Writer l) in (mkSLogger w (Level l), b).

Definition GetIOWriter (d : string) : M SLogger (option error) := on_writer (λ w,
  let '(out, err) := Write d (Out w) in (mkStdLogger out (CallDepth w) (PrintCallerInfo w), Ret err)).
Definition SetLogLevel (level : LogLevel) : M SLogger unit := modify (λ l, mkSLogger (Writer l) level).
Definition GetLogLevel : M SLogger LogLevel := gets Level.
Definition Logf (level : LogLevel) (format : string) (data : list A) : M SLogger unit := λ l,
  if Level l <=? level
  then on_writer (Print ("[" +:+ LogLevel_String level +:+ "] " +:+ Sprintf format data)) l
  else (l, Ret tt).

#[export] Instance SLogger_Logger : Logger SLogger A := {
  Logger_SetLogLevel := SetLogLevel;
  Logger_GetLogLevel := GetLogLevel;
  Logger_GetIOWriter := GetIOWriter;
  Logger_Logf := Logf
}.
End slogger.
Arguments StdLogger : clear implicits.
Arguments SLogger : clear implicits.

(** ** Properties *)

(** Levels survive their names: parsing the name of a level gives the level back for
    the four levels, and [LogLevelInfo] for every other number; and the name of a
    parsed string is the string itself for the four names and ["info"] for any other. *)
Theorem loglevel_roundtrip l s :
  ParseLogLevel (LogLevel_String l) = (if decide (0 ≤ l ≤ 3) then l else LogLevelInfo) ∧
  LogLevel_String (ParseLogLevel s) =
    (if decide (s ∈ ["debug"; "info"; "warn"; "error"]) then s else "info").
Proof.
  split.
  - unfold LogLevel_String, LogLevelDebug, LogLevelInfo, LogLevelWarn, LogLevelError.
    destruct (Z.eqb_spec l 0); [by subst|]. destruct (Z.eqb_spec l 1); [by subst|].
    destruct (Z.eqb_spec l 2); [by subst|]. destruct (Z.eqb_spec l 3); [by subst|].
    by rewrite decide_False by lia.
  - unfold ParseLogLevel. repeat (case_decide; [subst; done|]).
    rewrite decide_False; [done|]. set_solver.
Qed.

Lemma itoa_loop_pad fuel fuel2 i wid bp acc :
  0 ≤ i < 10 ^ (bp + 1) → wid ≤ bp + 1 → 0 ≤ bp < Z.of_nat fuel →
  i < 10 ^ Z.of_nat fuel2 → wid ≤ Z.of_nat fuel2 → (0 < fuel2)%nat →
  itoa_loop fuel i wid bp acc = Ret (pad_go fuel2 i wid acc).
Proof.
  revert fuel2 i wid bp acc.
  induction fuel as [|fuel IH]; intros fuel2 i wid bp acc Hi Hw Hb Hi2 Hw2 Hf; [lia|].
  destruct fuel2 as [|fuel2]; [lia|]. cbn [itoa_loop pad_go].
  assert ((bp <? 0) = false) as -> by lia.
  destruct ((10 <=? i) || (1 <? wid)) eqn:E.
  - rewrite Z.quot_div_nonneg by lia.
    replace (byte_of (48 + i - i / 10 * 10)) with (digit_char (i mod 10))
      by (unfold digit_char; f_equal; rewrite (Z.mod_eq i 10) by lia; lia).
    assert (1 ≤ bp).
    { destruct (Z.eq_dec bp 0) as [->|]; [|lia]. change (10 ^ (0 + 1)) with 10 in Hi. lia. }
    assert (0 < fuel2)%nat.
    { destruct fuel2; [|lia]. change (10 ^ Z.of_nat 1) with 10 in Hi2. lia. }
    apply IH; [|lia|lia| |lia|done].
    + split; [apply Z.div_pos; lia|]. apply Z.div_lt_upper_bound; [lia|].
      rewrite <-Z.pow_succ_r by lia. replace (Z.succ (bp - 1 + 1)) with (bp + 1) by lia. apply Hi.
    + apply Z.div_lt_upper_bound; [lia|]. rewrite <-Z.pow_succ_r by lia.
      by replace (Z.succ (Z.of_nat fuel2)) with (Z.of_nat (S fuel2)) by lia.
  - apply orb_false_iff in E as [? ?]. done.
Qed.

Lemma itoa_loop_panics fuel i wid bp acc : -1 ≤ bp < Z.of_nat fuel → bp + 1 < wid →
  itoa_loop fuel i wid bp acc = Panic "index out of range".
Proof.
  revert i wid bp acc. induction fuel as [|fuel IH]; intros i wid bp acc Hb Hw; [done|].
  cbn [itoa_loop]. destruct (Z.ltb_spec bp 0); [done|].
  assert ((1 <? wid) = true) as -> by lia. rewrite orb_true_r. apply IH; lia.
Qed.

(** [appendInt] needs at most the digits of the number or the width. *)
Lemma itoa_ok i wid buf : 0 ≤ i ≤ maxInt64 → wid ≤ 20 →
  itoa i wid buf = (buf +:+ appendInt i wid, Ret tt).
Proof.
  unfold maxInt64. intros Hi Hw. unfold itoa, appendInt.
  assert ((i <? 0) = false) as -> by lia. rewrite Z.abs_eq by lia.
  pose proof (dec_fuel_enough i ltac:(lia)) as Hd.
  rewrite (itoa_loop_pad 21 (Z.to_nat wid + dec_fuel i)).
  - done.
  - change (10 ^ (19 + 1)) with 100000000000000000000. lia.
  - lia.
  - lia.
  - eapply Z.lt_le_trans; [exact Hd|]. apply Z.pow_le_mono_r; lia.
  - unfold dec_fuel. lia.
  - unfold dec_fuel. lia.
Qed.

(** The log's own number printer agrees with Go's: for every non-negative int and
    every width up to the 20 bytes of its buffer it appends the decimal digits padded
    with zeros to the width, as [time.Format] prints them; a wider field panics and
    leaves the output as it was. *)
Theorem itoa_spec i wid buf : 0 ≤ i ≤ maxInt64 →
  itoa i wid buf =
    if decide (wid ≤ 20) then (buf +:+ appendInt i wid, Ret tt)
    else (buf, Panic "index out of range").
Proof.
  intros Hi. case_decide; [by apply itoa_ok|]. unfold itoa. by rewrite itoa_loop_panics by lia.
Qed.

#[local] Ltac Zify.zify_post_hook ::= Z.to_euclidean_division_equations.

Lemma civil_ranges days y mo d : civil days = (y, mo, d) → 1 ≤ mo ≤ 12 ∧ 1 ≤ d ≤ 31.
Proof.
  intros E. destruct (civil_spec _ _ _ _ E) as (? & ? & ?).
  pose proof (daysIn_le mo y). lia.
Qed.

#[local] Opaque itoa appendInt civil Z.div Z.modulo.

Lemma formatHeader_ok pci t file line buf :
  0 ≤ wall_year t ≤ maxInt64 → 0 ≤ line ≤ maxInt64 →
  formatHeader pci t file line buf =
    (buf +:+ format_wall t +:+ " " +:+
     (if pci then short_file file +:+ ":" +:+ appendInt line (-1) +:+ " " else ""), Ret tt).
Proof.
  intros Hy Hl. unfold formatHeader, format_wall, wall_year in *.
  destruct (civil (t / second / day_seconds)) as [[y mo] d] eqn:Ec. cbn [fst] in Hy.
  destruct (civil_ranges _ _ _ _ Ec) as [Hmo Hd].
  set (sod := (t / second) mod day_seconds).
  assert (0 ≤ sod < 86400) as Hsod by (apply Z.mod_pos_bound; done).
  assert (0 ≤ sod / 3600 ≤ maxInt64 ∧ 0 ≤ sod mod 3600 / 60 ≤ maxInt64 ∧ 0 ≤ sod mod 60 ≤ maxInt64)
    as (Hh & Hmi & Hs).
  { unfold maxInt64. clearbody sod. lia. }
  assert (0 ≤ (t mod second) / millisecond ≤ maxInt64) as Hms.
  { unfold second, millisecond, maxInt64. clear. lia. }
  assert (0 ≤ mo ≤ maxInt64 ∧ 0 ≤ d ≤ maxInt64) as [Hmo' Hd'] by (unfold maxInt64; lia).
  unfold append_str, modify, mbind, M_bind.
  rewrite !itoa_ok by (done || lia).
  change 1000000 with millisecond.
  destruct pci; [rewrite itoa_ok by (done || lia)|unfold mret, M_ret]; f_equal;
    by autorewrite with str; rewrite ?str_app_nil_r.
Qed.

#[local] Ltac Zify.zify_post_hook ::= idtac.
#[local] Transparent itoa appendInt civil Z.div Z.modulo.

(** ** What a call writes *)

Section written.
Context {Wr A : Type} `{io_Writer Wr} (Sprintf : string → list A → string).
Context (now off : Z) (Caller : Z → option (string * Z)).
Context (Hyear : 0 ≤ wall_year (now + off * second) < 10000).
Context (Hlines : ∀ d f n, Caller d = Some (f, n) → 0 ≤ n ≤ maxInt64).

(** A line of the log: the time as [FormatTime] prints it, the caller, the text. *)
Definition log_line (l : StdLogger Wr) (text : string) : string :=
  FormatTime now off +:+ " " +:+
  (if PrintCallerInfo l then
     let '(f, n) := match Caller (CallDepth l) with Some (f, n) => (path_Base f, n) | None => ("???", 0) end in
     short_file f +:+ ":" +:+ appendInt n (-1) +:+ " "
   else "") +:+ text +:+ (if ends_in_newline text then "" else newline).
Definition set_Out (out : Wr) (l : StdLogger Wr) : StdLogger Wr :=
  mkStdLogger out (CallDepth l) (PrintCallerInfo l).

Lemma Output_run l text :
  Output now off Caller text l =
    (set_Out (Write (log_line l text) (Out l)).1 l, Ret (Write (log_line l text) (Out l)).2).
Proof.
  unfold Output, log_line, FormatTime, set_Out.
  destruct l as [out depth pci]; cbn [Out CallDepth PrintCallerInfo].
  destruct pci; [destruct (Caller depth) as [[f n]|] eqn:E|];
    rewrite formatHeader_ok by first [apply Hlines in E; unfold maxInt64 in *; lia | unfold maxInt64; lia];
    autorewrite with str; destruct (ends_in_newline _); autorewrite with str;
    by destruct (Write _ out).
Qed.

(** The text of a line, and what writing it makes of a logger. *)
Definition tagged (level : LogLevel) (msg : string) : string := "[" +:+ LogLevel_String level +:+ "] " +:+ msg.
Definition emit (level : LogLevel) (msg : string) (l : SLogger Wr) : SLogger Wr :=
  mkSLogger (set_Out (Write (log_line (Writer l) (tagged level msg)) (Out (Writer l))).1 (Writer l)) (Level l).

Lemma Logf_run level format data l :
  Logf Sprintf now off Caller level format data l =
    (if Level l <=? level then emit level (Sprintf format data) l else l, Ret tt).
Proof.
  unfold Logf. destruct (Level l <=? level); [|done].
  unfold on_writer, Print, mbind, M_bind. by rewrite Output_run.
Qed.

#[export] Instance SLogger_contract :
  @LoggerContract (SLogger Wr) A (SLogger_Logger Sprintf now off Caller) Sprintf Level emit.
Proof.
  split; [done| |apply Logf_run|done]. intros level l _. by exists (mkSLogger (Writer l) level).
Qed.

(** C37. What a [Logf] call writes.  Nothing below the logger's level; otherwise one [Write]
    of one line, whose error is dropped: the header the logger puts together by itself
    is the time exactly as [FormatTime] prints it, so it reads back with [ParseTime],
    then the caller if wanted, the level's name and the formatted text, and the line
    ends in one newline more only if the text does not end in one. *)
Theorem Logf_spec level format data l :
  let line := log_line (Writer l) (tagged level (Sprintf format data)) in
  (Level l ≤ level →
     Logf Sprintf now off Caller level format data l =
       (mkSLogger (set_Out (Write line (Out (Writer l))).1 (Writer l)) (Level l), Ret tt)) ∧
  (level < Level l → Logf Sprintf now off Caller level format data l = (l, Ret tt)) ∧
  (∃ rest, line = FormatTime now off +:+ rest) ∧
  ParseTime (FormatTime now off) = Some (now + off * second - (now + off * second) mod millisecond).
Proof.
  intros line. rewrite Logf_run. split_and!.
  - intros Hl. by assert ((Level l <=? level) = true) as -> by lia.
  - intros Hl. by assert ((Level l <=? level) = false) as -> by lia.
  - by eexists.
  - by apply ParseTime_format_wall.
Qed.
End written.

(** The adapter against any logger that keeps the contract: every call is emitted at
    its own level or filtered, and [Panicf] panics with its text whether or not the
    level let the text through. *)
Section level_logger.
Context {L A : Type} `{HL : Logger L A} {Sprintf : string → list A → string}.
Context {level_of : L → LogLevel} {emit : LogLevel → string → L → L}.
Context `{HC : !LoggerContract L A Sprintf level_of emit}.

Definition emitted (level : LogLevel) (msg : string) (l : L) : L :=
  if level_of l <=? level then emit level msg l else l.

Lemma LevelLogger_calls format data l :
  let ll := LevelLoggerAdapter Sprintf in
  Level_Debugf format data l = (emitted LogLevelDebug (Sprintf format data) l, Ret tt) ∧
  Level_Printf format data l = (emitted LogLevelInfo (Sprintf format data) l, Ret tt) ∧
  Level_Infof format data l = (emitted LogLevelInfo (Sprintf format data) l, Ret tt) ∧
  Level_Warnf format data l = (emitted LogLevelWarn (Sprintf format data) l, Ret tt) ∧
  Level_Errorf format data l = (emitted LogLevelError (Sprintf format data) l, Ret tt) ∧
  Level_Panicf format data l = (emitted LogLevelError (Sprintf format data) l, Panic (Sprintf format data)).
Proof.
  split_and!; try apply Logger_Logf_spec. cbn [Level_Panicf LevelLoggerAdapter]. unfold Panicf, mbind, M_bind.
  by rewrite Logger_Logf_spec.
Qed.
End level_logger.

(** ** Witnesses *)

Definition sept_2020 : Z := 1600000000123456789.

Lemma itoa_spec_witness :
  itoa 7 3 ">" = (">007", Ret tt) ∧ itoa 7 21 ">" = (">", Panic "index out of range").
Proof.
  split.
  - exact (itoa_spec 7 3 ">" (conj (Zle_bool_imp_le 0 7 eq_refl) (Zle_bool_imp_le 7 maxInt64 eq_refl))).
  - exact (itoa_spec 7 21 ">" (conj (Zle_bool_imp_le 0 7 eq_refl) (Zle_bool_imp_le 7 maxInt64 eq_refl))).
Defined.

(** A writer that keeps the lines; operands are texts put behind the format. *)
#[export] Instance lines_writer : io_Writer (list string) := { Write d out := (out ++ [d], None) }.
Definition concat_Sprintf (format : string) (data : list string) : string := foldl String.append format data.
Definition no_caller (depth : Z) : option (string * Z) := None.
Definition warn_logger : SLogger (list string) :=
  (SetLogLevel LogLevelWarn (NewSLogger false [])).1.

Lemma sept_2020_year : 0 ≤ wall_year (sept_2020 + 0 * second) < 10000.
Proof. vm_compute. split; congruence. Qed.

Lemma Logf_spec_witness :
  Logf concat_Sprintf sept_2020 0 no_caller LogLevelError "boom " ["1"] warn_logger =
    (mkSLogger (mkStdLogger ["2020-09-13 12:26:40.123 [error] boom 1" +:+ newline] 4 false) LogLevelWarn, Ret tt).
Proof.
  refine (proj1 (Logf_spec concat_Sprintf sept_2020 0 no_caller sept_2020_year _ LogLevelError "boom " ["1"]
    warn_logger) _); [done|]. vm_compute. congruence.
Defined.
