(* ===== verification/LogAdapters.v ===== *)
(** * Adapters of the logger: [stdlog.go], [logrus.go] and the hclog adapter of [store.go]

    raft logs through hclog and through Go's [log.Logger]; both end in a [Logger] of
    the program, and logrus can stand behind that interface.  The adapters are proved
    against the contract of [Logger], which [SLogger] keeps and logrus does not. *)

From Stdlib Require Import Ascii.
From stdpp Require Import prelude gmap strings.
From S2P Require Import Prelude.
From S2P Require Import GoStd.
From S2P Require Import GoTime.
From S2P Require Import Logging.

#[local] Open Scope Z_scope.

(** ** The hclog adapter *)

Inductive hclog_Level : Type :=
| hclog_NoLevel | hclog_Trace | hclog_Debug | hclog_Info | hclog_Warn | hclog_Error | hclog_Other.

Definition convertLevel (level : hclog_Level) : LogLevel :=
  match level with
  | hclog_Trace | hclog_Debug => LogLevelDebug
  | hclog_NoLevel | hclog_Info => LogLevelInfo
  | hclog_Warn => LogLevelWarn
  | hclog_Error => LogLevelError
  | hclog_Other => LogLevelInfo
  end.

(** The logger behind the adapter is the shared state [L]. *)
Record hclogLogger (A : Type) : Type := mkHclog { hc_args : list A; hc_name : string }.
Arguments mkHclog {A}.
Arguments hc_args {A}.
Arguments hc_name {A}.

Definition ImpliedArgs {A} (h : hclogLogger A) : list A := hc_args h.
Definition hclog_Name {A} (h : hclogLogger A) : string := hc_name h.
Definition hclog_With {A} (args : list A) (h : hclogLogger A) : hclogLogger A :=
  mkHclog args (hc_name h).
Definition hclog_Named {A} (name : string) (h : hclogLogger A) : hclogLogger A :=
  mkHclog (hc_args h) (name +:+ hc_name h).
Definition hclog_ResetNamed {A} (name : string) (h : hclogLogger A) : hclogLogger A :=
  mkHclog (hc_args h) name.

Section hclog.
Context {L A : Type} `{Logger L A} `{LevelLogger L A}.

(** [IsTrace], ..., [IsError], by level; the levels without a guard answer as [Info]. *)
Definition hclog_enabled (level : hclog_Level) : M L bool :=
  match level with
  | hclog_Trace => mret false
  | hclog_Debug => l ← Logger_GetLogLevel; mret (l <=? LogLevelDebug)
  | hclog_Warn => l ← Logger_GetLogLevel; mret (l <=? LogLevelWarn)
  | hclog_Error => l ← Logger_GetLogLevel; mret (l <=? LogLevelError)
  | _ => l ← Logger_GetLogLevel; mret (l <=? LogLevelInfo)
  end.

(** [Trace], ..., [Error]; [Trace] does nothing.  [hclog_Log] is the general call. *)
Definition hclog_call (level : hclog_Level) (msg : string) (args : list A) : M L unit :=
  match level with
  | hclog_Trace => mret tt
  | hclog_Debug => Level_Debugf msg args
  | hclog_Warn => Level_Warnf msg args
  | hclog_Error => Level_Errorf msg args
  | _ => Level_Infof msg args
  end.
Definition hclog_Log (level : hclog_Level) (msg : string) (args : list A) : M L unit :=
  Logger_Logf (convertLevel level) msg args.
Definition hclog_SetLevel (level : hclog_Level) : M L unit := Logger_SetLogLevel (convertLevel level).
End hclog.

(** ** The shim behind [log.Logger] *)

(** [str[n:]], trimmed. *)
Definition after (n : nat) (str : string) : outcome string :=
  match slice_from n str with Ret r => Ret (TrimSpace r) | Panic msg => Panic msg end.

Definition pickLevel (str : string) : LogLevel * outcome string :=
  if HasPrefix str "[DEBUG]" then (LogLevelDebug, after 7 str)
  else if HasPrefix str "[TRACE]" then (LogLevelDebug, after 7 str)
  else if HasPrefix str "[INFO]" then (LogLevelInfo, after 6 str)
  else if HasPrefix str "[WARN]" then (LogLevelWarn, after 7 str)
  else if HasPrefix str "[ERROR]" then (LogLevelError, after 7 str)
  else if HasPrefix str "[ERR]" then (LogLevelError, after 5 str)
  else (LogLevelInfo, Ret str).

Section stdlog.
Context {L A : Type} `{Logger L A}.

Record stdlogAdapter : Type := mkStdlogAdapter { inferLevels : bool }.

(** The text of the line is the format of a call without operands. *)
Definition stdlog_Write (s : stdlogAdapter) (data : string) : M L nat :=
  let str := TrimRight_blank data in
  match pickLevel str with
  | (_, Panic msg) => panic msg
  | (level, Ret str) => _ ← Logger_Logf level str ([] : list A); mret (String.length data)
  end.

(** [StandardWriter], and [StandardLogger] on it: a [log.Logger] without prefix and
    flags writes a line with the newline it needs.  Nil options are empty ones. *)
Definition StandardWriter (InferLevels : bool) : stdlogAdapter := mkStdlogAdapter InferLevels.
Definition StandardLogger (opts : option bool) (line : string) : M L nat :=
  stdlog_Write (StandardWriter (default false opts))
    (if ends_in_newline line then line else line +:+ newline).
End stdlog.

(** ** The logrus adapter *)

(** logrus: [ParseLevel], [Level.String], and on a logger its level, [SetLevel], [Logf]
    and the [Write] of [Writer()]. *)
Class Logrus (Lv Lg A : Type) : Type := {
  logrus_ParseLevel : string → option Lv;
  logrus_String : Lv → string;
  logrus_InfoLevel : Lv;
  logrus_Level : Lg → Lv;
  logrus_SetLevel : Lv → Lg → Lg;
  logrus_Logf : Lv → string → list A → Lg → Lg;
  logrus_Write : string → Lg → Lg * option error
}.

Section logrus.
Context {Lv Lg A : Type} `{Logrus Lv Lg A}.

Definition Logrus_level (logLevel : LogLevel) : Lv :=
  match logrus_ParseLevel (LogLevel_String logLevel) with
  | Some level => level
  | None => logrus_InfoLevel
  end.
Definition Logrus_SetLogLevel (logLevel : LogLevel) : M Lg unit :=
  modify (logrus_SetLevel (Logrus_level logLevel)).
Definition Logrus_GetLogLevel : M Lg LogLevel := gets (λ l, ParseLogLevel (logrus_String (logrus_Level l))).
Definition Logrus_GetIOWriter (d : string) : M Lg (option error) := λ l,
  let '(l, err) := logrus_Write d l in (l, Ret err).
Definition Logrus_Logf (logLevel : LogLevel) (format : string) (data : list A) : M Lg unit :=
  modify (logrus_Logf (Logrus_level logLevel) format data).

Definition LogrusAdapter : Logger Lg A := {|
  Logger_SetLogLevel := Logrus_SetLogLevel;
  Logger_GetLogLevel := Logrus_GetLogLevel;
  Logger_GetIOWriter := Logrus_GetIOWriter;
  Logger_Logf := Logrus_Logf
|}.
Definition NewLogrusAdapter (Sprintf : string → list A → string) : LevelLogger Lg A :=
  let _ := LogrusAdapter in LevelLoggerAdapter Sprintf.
End logrus.

(** ** Properties *)

(** *** The hclog adapter, on any logger that keeps the contract *)

Section hclog_contract.
Context {L A : Type} `{HL : Logger L A} {Sprintf : string → list A → string}.
Context {level_of : L → LogLevel} {emit : LogLevel → string → L → L}.
Context `{HC : !LoggerContract L A Sprintf level_of emit}.
#[local] Instance adapter : LevelLogger L A := LevelLoggerAdapter Sprintf.

Lemma hclog_enabled_run level l :
  hclog_enabled level l =
    (l, Ret (match level with hclog_Trace => false | _ => level_of l <=? convertLevel level end)).
Proof. destruct level; try done; unfold hclog_enabled, mbind, M_bind; by rewrite GetLogLevel_spec. Qed.

(** The guards of the hclog adapter tell the truth: a call at any level is emitted, at
    the level it converts to, exactly when its guard says so, and a Trace call never
    is.  [Log] with a level does the same as the call of that name, except for Trace,
    which it emits as a debug message. *)
Theorem hclog_guards level msg args l :
  hclog_call level msg args l =
    (match hclog_enabled level l with
     | (_, Ret true) => emit (convertLevel level) (Sprintf msg args) l
     | _ => l
     end, Ret tt) ∧
  hclog_Log level msg args l =
    match level with hclog_Trace => hclog_call hclog_Debug msg args l | _ => hclog_call level msg args l end.
Proof.
  rewrite hclog_enabled_run. split.
  - destruct level; try done; unfold hclog_call; cbn; unfold Debugf, Infof, Warnf, Errorf;
      rewrite Logger_Logf_spec; by destruct (_ <=? _).
  - by destruct level.
Qed.

(** A level set through hclog decides the guards from then on: a guard is open at the
    levels from the one set upwards, as the four levels the program has order them. *)
Theorem hclog_SetLevel_guards level other l : other ≠ hclog_Trace →
  ∃ l', hclog_SetLevel level l = (l', Ret tt) ∧
    hclog_enabled other l' = (l', Ret (convertLevel level <=? convertLevel other)).
Proof.
  intros Ho. assert (LogLevelDebug ≤ convertLevel level ≤ LogLevelError) as Hr by (by destruct level).
  destruct (SetLogLevel_spec _ l Hr) as (l' & Hs & Hl). exists l'. split; [exact Hs|].
  rewrite hclog_enabled_run, Hl. by destruct other.
Qed.

End hclog_contract.

(** Naming an hclog logger twice: the later name comes first. *)
Lemma hclog_Named_order {A} (a b : string) (h : hclogLogger A) :
  hclog_Name (hclog_Named b (hclog_Named a h)) = b +:+ a +:+ hclog_Name h ∧
  hclog_Name (hclog_ResetNamed b (hclog_Named a h)) = b ∧
  ImpliedArgs (hclog_Named b h) = ImpliedArgs h.
Proof. by split_and!. Qed.

(** *** The shim *)

(** The tags of the standard logger's lines that are cut off as long as they are. *)
Definition level_tags : list (string * LogLevel) :=
  [("[DEBUG]", LogLevelDebug); ("[TRACE]", LogLevelDebug); ("[INFO]", LogLevelInfo);
   ("[ERROR]", LogLevelError); ("[ERR]", LogLevelError)].

Lemma pickLevel_tag tag level rest : (tag, level) ∈ level_tags →
  pickLevel (tag +:+ rest) = (level, Ret (TrimSpace rest)).
Proof.
  unfold level_tags. intros Ht. repeat (apply elem_of_cons in Ht as [[= -> ->]|Ht]; [reflexivity|]). set_solver.
Qed.
Lemma pickLevel_untagged str : HasPrefix str "[" = false → pickLevel str = (LogLevelInfo, Ret str).
Proof.
  intros Hp. unfold pickLevel.
  assert (∀ p, HasPrefix str (String "[" p) = false) as Hno.
  { intros p. destruct (HasPrefix str (String "[" p)) eqn:E; [|done].
    apply HasPrefix_spec in E as [t ->]. by rewrite str_app_cons in Hp. }
  by rewrite (Hno "DEBUG]"), (Hno "TRACE]"), (Hno "INFO]"), (Hno "WARN]"), (Hno "ERROR]"), (Hno "ERR]").
Qed.

(** A tag ends in a bracket, so trimming the line trims what is behind the tag. *)
Lemma TrimRight_tag s rest : TrimRight_blank ((s +:+ "]") +:+ rest) = (s +:+ "]") +:+ TrimRight_blank rest.
Proof.
  rewrite !str_app_assoc, str_app_cons, TrimRight_blank_app by (compute_done || set_solver).
  by rewrite str_app_cons.
Qed.
Lemma level_tags_bracket tag level : (tag, level) ∈ level_tags → ∃ s, tag = s +:+ "]".
Proof.
  unfold level_tags. intros Ht.
  repeat (apply elem_of_cons in Ht as [[= -> ->]|Ht];
    [match goal with |- ∃ s, ?t = _ => exists (String.substring 0 (String.length t - 1) t); reflexivity end|]).
  set_solver.
Qed.
Lemma untagged_trim data : HasPrefix data "[" = false → HasPrefix (TrimRight_blank data) "[" = false.
Proof.
  intros Hd. destruct (HasPrefix (TrimRight_blank data) "[") eqn:E; [|done].
  apply HasPrefix_spec in E as [t Ht]. destruct (TrimRight_blank_prefix data) as [u Hu].
  by rewrite Hu, Ht, str_app_cons in Hd.
Qed.

Section stdlog_contract.
Context {L A : Type} `{HL : Logger L A} {Sprintf : string → list A → string}.
Context {level_of : L → LogLevel} {emit : LogLevel → string → L → L}.
Context `{HC : !LoggerContract L A Sprintf level_of emit}.
#[local] Abbreviation emit_at := (emitted (level_of := level_of) (emit := emit)).

(** A line of Go's logger: its level is picked from the text, the trimmed text is the
    format of a call without operands, and all bytes count as written. *)
Lemma stdlog_Write_run s data l :
  stdlog_Write s data l =
    match pickLevel (TrimRight_blank data) with
    | (_, Panic msg) => (l, Panic msg)
    | (level, Ret str) => (emit_at level (Sprintf str []) l, Ret (String.length data))
    end.
Proof.
  unfold stdlog_Write. destruct (pickLevel _) as [level [str|msg]]; [|done].
  unfold mbind, M_bind. by rewrite Logger_Logf_spec.
Qed.

(** C38. What becomes of a line of Go's own logger, whatever logger of the program is
    behind the shim.  A line with one of five tags is emitted at the level of the tag,
    as the text behind the tag with the blanks around it cut, taken as a format without
    operands; a line without a tag is emitted as an info line.  All bytes of the line
    count as written.  The tag [[WARN]] is cut one byte too long: the first byte of the
    text is lost, and a line with nothing but the tag panics. *)
Theorem stdlog_Write_spec s rest l :
  (∀ tag level, (tag, level) ∈ level_tags →
     stdlog_Write s (tag +:+ rest) l =
       (emit_at level (Sprintf (TrimSpace (TrimRight_blank rest)) []) l,
        Ret (String.length tag + String.length rest)%nat)) ∧
  (∀ c text, TrimRight_blank rest = String c text →
     stdlog_Write s ("[WARN]" +:+ rest) l =
       (emit_at LogLevelWarn (Sprintf (TrimSpace text) []) l, Ret (6 + String.length rest)%nat)) ∧
  (TrimRight_blank rest = "" →
     stdlog_Write s ("[WARN]" +:+ rest) l = (l, Panic "slice bounds out of range")) ∧
  (HasPrefix rest "[" = false →
     stdlog_Write s rest l =
       (emit_at LogLevelInfo (Sprintf (TrimRight_blank rest) []) l, Ret (String.length rest))).
Proof.
  split_and!.
  - intros tag level Ht. rewrite stdlog_Write_run, str_length_app.
    destruct (level_tags_bracket _ _ Ht) as [p Hp]. subst tag.
    by rewrite TrimRight_tag, (pickLevel_tag _ _ _ Ht).
  - intros c text Hr. rewrite stdlog_Write_run. change "[WARN]" with ("[WARN" +:+ "]").
    by rewrite TrimRight_tag, Hr.
  - intros Hr. rewrite stdlog_Write_run. change "[WARN]" with ("[WARN" +:+ "]").
    by rewrite TrimRight_tag, Hr.
  - intros Hp. by rewrite stdlog_Write_run, pickLevel_untagged by by apply untagged_trim.
Qed.
End stdlog_contract.

(** *** logrus *)

(** What logrus documents of its levels: the four names parse, to levels whose own
    names are the same except for warn, which logrus calls [warning]; and a level set
    is the level of the logger. *)
Class LogrusNames (Lv Lg A : Type) `{Logrus Lv Lg A} (debug info warn error : Lv) : Prop := {
  logrus_debug : logrus_ParseLevel "debug" = Some debug ∧ logrus_String debug = "debug";
  logrus_info : logrus_ParseLevel "info" = Some info ∧ logrus_String info = "info";
  logrus_warn : logrus_ParseLevel "warn" = Some warn ∧ logrus_String warn = "warning";
  logrus_error : logrus_ParseLevel "error" = Some error ∧ logrus_String error = "error";
  logrus_set_level lv lg : logrus_Level (logrus_SetLevel lv lg) = lv
}.

Section logrus_names.
Context {Lv Lg A : Type} `{HLr : Logrus Lv Lg A} {debug info warn error : Lv}.
Context `{HN : !LogrusNames Lv Lg A debug info warn error}.

(** The level got after a level was set. *)
Lemma logrus_get_set lv lg :
  (Logrus_GetLogLevel (Logrus_SetLogLevel lv lg).1).2 =
    Ret (ParseLogLevel (logrus_String (Logrus_level lv))).
Proof. unfold Logrus_GetLogLevel, Logrus_SetLogLevel, gets, modify; cbn [fst snd]. by rewrite logrus_set_level. Qed.

(** C39. The warn level does not survive logrus: setting a level and getting it gives the
    level back for debug, info and error, but info for warn.  So the adapter is no
    logger as the other components expect one: no reading of its level and no effect
    of its calls makes it keep the contract of [Logger]. *)
Theorem LogrusAdapter_breaks_contract (lg : Lg) :
  let get_set lv := (Logrus_GetLogLevel (Logrus_SetLogLevel lv lg).1).2 in
  get_set LogLevelDebug = Ret LogLevelDebug ∧ get_set LogLevelInfo = Ret LogLevelInfo ∧
  get_set LogLevelError = Ret LogLevelError ∧ get_set LogLevelWarn = Ret LogLevelInfo ∧
  ∀ Sprintf level_of emit, ¬ @LoggerContract Lg A LogrusAdapter Sprintf level_of emit.
Proof.
  intros get_set.
  assert (∀ lv, get_set lv = Ret (ParseLogLevel (logrus_String (Logrus_level lv)))) as Hget
    by (intros; apply logrus_get_set).
  destruct logrus_debug as [Pd Sd], logrus_info as [Pi Si], logrus_warn as [Pw Sw], logrus_error as [Pe Se].
  assert (get_set LogLevelWarn = Ret LogLevelInfo) as Hw
    by (rewrite Hget; unfold Logrus_level; cbn; by rewrite Pw, Sw).
  split_and!; [| | |exact Hw|].
  1-3: rewrite Hget; unfold Logrus_level; cbn; by rewrite ?Pd, ?Pi, ?Pe, ?Sd, ?Si, ?Se.
  intros Sprintf level_of emit HC.
  destruct (@SetLogLevel_spec _ _ _ _ _ _ HC LogLevelWarn lg) as (l' & Hset & Hlv); [done|].
  cbn in Hset. unfold get_set in Hw. rewrite Hset in Hw. cbn [fst] in Hw.
  pose proof (@GetLogLevel_spec _ _ _ _ _ _ HC l') as Hg. cbn in Hg. by rewrite Hg, Hlv in Hw.
Qed.
End logrus_names.

(** ** Witnesses *)

Section witnesses.
(** The logger of the program, at the warn level, on a writer that keeps lines. *)
#[local] Instance wit_logger : Logger (SLogger (list string)) string :=
  SLogger_Logger concat_Sprintf sept_2020 0 no_caller.
#[local] Instance wit_contract :
  LoggerContract (SLogger (list string)) string concat_Sprintf Level (emit sept_2020 0 no_caller).
Proof. apply SLogger_contract; [exact sept_2020_year|done]. Defined.
#[local] Instance wit_level_logger : LevelLogger (SLogger (list string)) string := LevelLoggerAdapter concat_Sprintf.

Lemma hclog_guards_witness :
  (Out (Writer (hclog_call hclog_Warn "w" [] warn_logger).1)) = ["2020-09-13 12:26:40.123 [warn] w" +:+ newline] ∧
  hclog_call hclog_Info "i" [] warn_logger = (warn_logger, Ret tt).
Proof.
  split.
  - refine (eq_trans (f_equal (λ r, Out (Writer r.1)) (proj1 (hclog_guards hclog_Warn "w" [] warn_logger))) _).
    vm_compute. reflexivity.
  - refine (eq_trans (proj1 (hclog_guards hclog_Info "i" [] warn_logger)) _). vm_compute. reflexivity.
Defined.

(** A line the standard logger writes: an info line without its line end, filtered by
    the level; the bare warn tag panics. *)
Example stdlog_Write_error :
  (λ r, (Out (Writer r.1), r.2)) (StandardLogger None "[ERR] lost" warn_logger) =
    (["2020-09-13 12:26:40.123 [error] lost" +:+ newline], Ret 11%nat).
Proof. vm_compute. reflexivity. Qed.
Example stdlog_Write_info : StandardLogger None "[INFO] started" warn_logger = (warn_logger, Ret 15%nat).
Proof. vm_compute. reflexivity. Qed.
Example stdlog_Write_warn :
  (StandardLogger (Some true) "[WARN]" warn_logger).2 = Panic "slice bounds out of range".
Proof. vm_compute. reflexivity. Qed.

Lemma stdlog_Write_spec_witness :
  (Out (Writer (stdlog_Write (StandardWriter false) ("[ERR]" +:+ " lost" +:+ newline) warn_logger).1) =
    ["2020-09-13 12:26:40.123 [error] lost" +:+ newline]) ∧
  (stdlog_Write (StandardWriter false) ("[WARN]" +:+ newline) warn_logger).2 =
    Panic "slice bounds out of range".
Proof.
  split.
  - rewrite (proj1 (stdlog_Write_spec (StandardWriter false) (" lost" +:+ newline) warn_logger)
      "[ERR]" LogLevelError ltac:(vm_compute; repeat constructor)).
    vm_compute. reflexivity.
  - rewrite (proj1 (proj2 (proj2 (stdlog_Write_spec (StandardWriter false) newline warn_logger))) eq_refl).
    reflexivity.
Defined.

Definition logrus_names : list string := ["panic"; "fatal"; "error"; "warning"; "info"; "debug"; "trace"].
(** A logrus logger as its level and its lines; levels are their names. *)
#[local] Instance logrus_real : Logrus string (string * list string) string := {
  logrus_ParseLevel s :=
    if decide (s = "warn") then Some "warning"
    else if decide (s ∈ logrus_names) then Some s else None;
  logrus_String s := s;
  logrus_InfoLevel := "info";
  logrus_Level l := l.1;
  logrus_SetLevel lv l := (lv, l.2);
  logrus_Logf lv format data l := (l.1, l.2 ++ [lv +:+ ": " +:+ concat_Sprintf format data]);
  logrus_Write d l := ((l.1, l.2 ++ [d]), None)
}.
#[local] Instance logrus_real_names :
  LogrusNames string (string * list string) string "debug" "info" "warning" "error".
Proof. by split. Defined.

Lemma LogrusAdapter_breaks_contract_witness :
  (Logrus_GetLogLevel (Logrus_SetLogLevel LogLevelWarn ("info", [])).1).2 = Ret LogLevelInfo.
Proof. exact (proj1 (proj2 (proj2 (proj2 (LogrusAdapter_breaks_contract ("info", [])))))). Defined.
End witnesses.
