(* ===== verification/Ticker.v ===== *)
(** * The ticker and the leadership loop: [ticker.go], [service_raft.go] (listenLeaderCh),
    [cmd/hraftd/main.go] (leaderChanging)

    Goroutines interleave, so a ticker is a state with a step relation: its
    goroutines, started and not yet looping or looping, and its stop channel, which
    carries nothing and is only ever closed. *)

From stdpp Require Import prelude gmap strings.
From S2P Require Import Prelude.
From S2P Require Import GoStd.
From S2P Require Import Model.

Section ticker.
(** The functions work on the world [W]; [None] is a nil function. *)
Context {W : Type}.
Abbreviation fn := (W → W).

Record Ticker : Type := mkTicker {
  tickerFn : list fn;
  startInstantly : bool;
  stop_closed : bool;
  (* goroutines of [start]: in front of the loop, and in it *)
  starting : nat;
  looping : nat
}.

Definition non_nil (fns : list (option fn)) : list fn := omap id fns.

Definition NewTicker (startInstantly : bool) (tickerFns : list (option fn)) : Ticker :=
  mkTicker (non_nil tickerFns) startInstantly false 0 0.

Definition StartAsync (tickerFns : list (option fn)) : M Ticker unit := λ j,
  let fns := if decide (0 < length tickerFns) then non_nil tickerFns else tickerFn j in
  (mkTicker fns (startInstantly j) (stop_closed j) (S (starting j)) (looping j), Ret tt).

Definition StopAsync : M Ticker unit := λ j,
  if stop_closed j then (j, Panic "close of closed channel")
  else (mkTicker (tickerFn j) (startInstantly j) true (starting j) (looping j), Ret tt).

Definition execFns (fns : list fn) (w : W) : W := foldl (λ w f, f w) w fns.

(** What the goroutines of [start] do: begin, tick, and end when the channel is closed. *)
Inductive start_step : Ticker * W → Ticker * W → Prop :=
| start_begin j n w : starting j = S n →
    start_step (j, w)
      (mkTicker (tickerFn j) (startInstantly j) (stop_closed j) n (S (looping j)),
       if startInstantly j then execFns (tickerFn j) w else w)
| start_tick j n w : looping j = S n → start_step (j, w) (j, execFns (tickerFn j) w)
| start_stop j n w : looping j = S n → stop_closed j = true →
    start_step (j, w)
      (mkTicker (tickerFn j) (startInstantly j) (stop_closed j) (starting j) n, w).

(** ** leaderChanging *)

(** The loop over the leadership events; it returns when the channel is closed. *)
Fixpoint leaderChanging_loop (events : list bool) : M Ticker unit :=
  match events with
  | [] => mret tt
  | leader :: events =>
      _ ← (if (leader : bool) then StartAsync [] else StopAsync);
      leaderChanging_loop events
  end.
Definition leaderChanging (tick : fn) (events : list bool) : Ticker * outcome unit :=
  leaderChanging_loop events (NewTicker true [Some tick]).

(** ** Properties *)

(** The changes a program makes with [StartAsync] and what the goroutines do. *)
Inductive run_step : Ticker * W → Ticker * W → Prop :=
| run_start fns j w : run_step (j, w) ((StartAsync fns j).1, w)
| run_go x y : start_step x y → run_step x y.

(** Nil functions are dropped, [StartAsync] replaces the functions only when it is
    given some, and a tick runs the functions in order: the ticker's next tick runs
    just the non-nil functions last given. *)
Theorem ticker_functions si fns1 fns2 n w j :
  looping j = S n →
  tickerFn (NewTicker si fns1) = omap id fns1 ∧
  tickerFn (StartAsync fns2 j).1 = (if decide (fns2 = []) then tickerFn j else omap id fns2) ∧
  start_step (j, w) (j, foldl (λ w f, f w) w (tickerFn j)).
Proof.
  intros Hl. split_and!; [done| |by eapply start_tick].
  destruct fns2; [done|]. unfold StartAsync. cbn [fst tickerFn].
  rewrite decide_True by (simpl; lia). by rewrite decide_False by done.
Qed.

(** Until it is stopped no goroutine of the ticker ends: in any interleaving of
    starts, beginnings and ticks, every [StartAsync] leaves one goroutine more, so a
    ticker started twice ticks twice. *)
Theorem unstopped_goroutines_stay x y :
  stop_closed x.1 = false → rtc run_step x y →
  stop_closed y.1 = false ∧ starting x.1 + looping x.1 ≤ starting y.1 + looping y.1 ∧
  (∀ fns, starting (StartAsync fns y.1).1 + looping (StartAsync fns y.1).1 =
          S (starting y.1 + looping y.1)).
Proof.
  intros Hx Hr. induction Hr as [x|x y z Hxy _ IH]; [by split_and!; simpl; try lia|].
  assert (stop_closed y.1 = false ∧ starting x.1 + looping x.1 ≤ starting y.1 + looping y.1) as [Hy Hle].
  { destruct Hxy as [fns j w|x y Hs]; [simpl in *; split; [done|lia]|].
    destruct Hs as [j n w Hn|j n w Hn|j n w Hn Hc]; simpl in *; [split; [done|lia]|done|congruence]. }
  destruct (IH Hy) as (? & ? & ?). split_and!; [done|lia|done].
Qed.

(** A stopped ticker can always wind down without another tick, whatever is still
    starting: none of its goroutines is left then, and the functions ran at most once
    for each one that was starting. *)
Theorem stopped_ticker_drains j w : stop_closed j = true →
  ∃ w' k, rtc start_step (j, w)
    (mkTicker (tickerFn j) (startInstantly j) true 0 0, w') ∧
    k ≤ starting j ∧ w' = Nat.iter k (execFns (tickerFn j)) w.
Proof.
  intros Hc. assert (∀ l s si fns v, rtc start_step (mkTicker fns si true s l, v)
    (mkTicker fns si true s 0, v)) as Hloops.
  { intros l. induction l as [|l IH]; intros s si fns v; [done|].
    eapply rtc_l; [by eapply start_stop|]. apply IH. }
  destruct j as [fns si cl s l]. simpl in *. subst cl. revert l w.
  induction s as [|s IH]; intros l w; [by exists w, 0|].
  destruct (IH (S l) (if si then execFns fns w else w)) as (w' & k & Hr & Hk & Hw).
  exists w'. destruct si.
  - exists (S k). split_and!; [|lia|by rewrite Nat.iter_succ_r].
    eapply rtc_l; [by eapply start_begin|exact Hr].
  - exists k. split_and!; [|lia|done]. eapply rtc_l; [by eapply start_begin|exact Hr].
Qed.

(** C40. The demo's leadership loop survives losing the leadership once: it panics, closing
    a closed channel, exactly when the leadership is lost for the second time. *)
Theorem leaderChanging_panics tick events :
  (leaderChanging tick events).2 =
    if decide (2 ≤ length (filter (λ b, b = false) events))
    then Panic "close of closed channel" else Ret tt.
Proof.
  unfold leaderChanging.
  assert (∀ evs j, (leaderChanging_loop evs j).2 =
    if decide ((if stop_closed j then 1 else 2) ≤ length (filter (λ b, b = false) evs))
    then Panic "close of closed channel" else Ret tt) as E; [|apply E].
  intros evs. induction evs as [|[] evs IH]; intros j.
  - by destruct (stop_closed j).
  - cbn [leaderChanging_loop]. unfold mbind, M_bind. rewrite filter_cons_False by done.
    change (StartAsync [] j) with ((StartAsync [] j).1, Ret tt). cbn beta iota. by rewrite IH.
  - cbn [leaderChanging_loop]. unfold mbind, M_bind. rewrite filter_cons_True by done.
    unfold StopAsync at 1. destruct (stop_closed j) eqn:Ej.
    + rewrite decide_True; [done|cbn [length]; lia].
    + rewrite IH. cbn [stop_closed length].
      generalize (length (filter (λ b, b = false) evs)) as k. intros k.
      destruct (decide (1 ≤ k)), (decide (2 ≤ S k)); try done; lia.
Qed.

(** After a stop the ticker does not come back: a goroutine started again runs the
    functions once and may end at once, without a tick. *)
Theorem restart_after_stop tick w :
  ∃ j, leaderChanging tick [true; false; true] = (j, Ret tt) ∧ stop_closed j = true ∧
    rtc start_step (j, w) (mkTicker [tick] true true 0 0, tick (tick w)).
Proof.
  eexists. split; [reflexivity|]. split; [done|].
  eapply rtc_l; [by eapply start_begin|]. eapply rtc_l; [by eapply start_begin|].
  eapply rtc_l; [by eapply start_stop|]. eapply rtc_l; [by eapply start_stop|]. done.
Qed.
End ticker.
Arguments Ticker : clear implicits.

(** ** listenLeaderCh

    Raft's events go into a channel of capacity one, unless it is full; the program
    reads it when it comes to it. *)

Record leader_ch : Type := mkCh { sent : list bool; buffered : option bool; received : list bool }.

Definition try_send (leaderChanged : bool) (c : leader_ch) : leader_ch :=
  mkCh (sent c ++ [leaderChanged])
    (match buffered c with None => Some leaderChanged | Some b => Some b end) (received c).

Inductive ch_step (c : leader_ch) : leader_ch → Prop :=
| ch_listen leaderChanged : ch_step c (try_send leaderChanged c)
| ch_receive b : buffered c = Some b → ch_step c (mkCh (sent c) None (received c ++ [b])).

Definition ch_empty : leader_ch := mkCh [] None [].

(** The program reads raft's leadership events in order, with some left out and none
    made up; and an event is left out only when one was still unread: the first event
    after the channel is empty is always the next one read. *)
Theorem leader_events_sublist c :
  rtc ch_step ch_empty c →
  received c ++ option_list (buffered c) `sublist_of` sent c ∧
  (buffered c = None → ∀ b, buffered (try_send b c) = Some b).
Proof.
  intros Hr. split; [|intros E b; unfold try_send; simpl; by rewrite E].
  remember ch_empty as c0 eqn:E0. assert (received c0 ++ option_list (buffered c0) `sublist_of` sent c0)
    as H0 by (by subst). clear E0. induction Hr as [c|c c1 c2 Hs _ IH]; [done|]. apply IH.
  destruct Hs as [b|b Hb]; simpl.
  - destruct (buffered c) as [b'|]; simpl in *.
    + by apply sublist_inserts_r.
    + rewrite app_nil_r in H0. by apply sublist_app.
  - rewrite Hb in H0. simpl in H0. by rewrite app_nil_r.
Qed.

(** Losing the leadership before the news of winning it is read is never read. *)
Example lost_event : let c := try_send false (try_send true ch_empty) in
  sent c = [true; false] ∧ buffered c = Some true.
Proof. done. Qed.

(** ** Witnesses *)

Definition count_tick (n : nat) : nat := S n.

Lemma ticker_functions_witness :
  tickerFn (NewTicker true [None; Some count_tick]) = [count_tick] ∧
  tickerFn (StartAsync [] (mkTicker [count_tick] true false 0 1)).1 = [count_tick] ∧
  start_step (mkTicker [count_tick] true false 0 1, 5) (mkTicker [count_tick] true false 0 1, 6).
Proof.
  exact (ticker_functions true [None; Some count_tick] [] 0 5 (mkTicker [count_tick] true false 0 1) eq_refl).
Defined.

Lemma unstopped_goroutines_stay_witness :
  let x := (NewTicker true [Some count_tick], 0) in
  let y := ((StartAsync [] (NewTicker true [Some count_tick])).1, 0) in
  stop_closed y.1 = false ∧ starting x.1 + looping x.1 ≤ starting y.1 + looping y.1 ∧
  (∀ fns, starting (StartAsync fns y.1).1 + looping (StartAsync fns y.1).1 =
          S (starting y.1 + looping y.1)).
Proof.
  intros x y. apply (unstopped_goroutines_stay x y); [done|].
  eapply rtc_l; [apply (run_start [])|reflexivity].
Defined.

Lemma stopped_ticker_drains_witness :
  ∃ w' k, rtc start_step (mkTicker [count_tick] true true 2 1, 0)
    (mkTicker [count_tick] true true 0 0, w') ∧
    k ≤ 2 ∧ w' = Nat.iter k (execFns [count_tick]) 0.
Proof. exact (stopped_ticker_drains (mkTicker [count_tick] true true 2 1) 0 eq_refl). Defined.

Lemma leader_events_sublist_witness :
  let c := try_send false (try_send true ch_empty) in
  received c ++ option_list (buffered c) `sublist_of` sent c ∧
  (buffered c = None → ∀ b, buffered (try_send b c) = Some b).
Proof.
  intros c. apply (leader_events_sublist c).
  eapply rtc_l; [apply (ch_listen _ true)|]. eapply rtc_l; [apply (ch_listen _ false)|reflexivity].
Defined.
