(* ===== verification/Start.v ===== *)
(** * Starting the service: [service.go] (Create, StartAll, GoStartHTTP, StartRaft, Close, Addr)

    [Create] opens the store or panics.  [GoStartHTTP] listens and leaves the goroutine
    that serves.  [StartRaft] leaves two goroutines behind,
    the one that reads the leadership events (Ticker.v) and the one that joins, and
    waits for a leader and for the initial logs, whatever comes of either. *)

From stdpp Require Import prelude gmap strings.
From S2P Require Import Prelude.
From S2P Require Import GoStd.
From S2P Require Import Util.
From S2P Require Import Model.
From S2P Require Import Externals.
From S2P Require Import Sim.
From S2P Require Import Dealer.
From S2P Require Import Arg.
From S2P Require Import Client.
From S2P Require Import Fsm.
From S2P Require Import Store.

(** Listening: [net.Listen], the methods of the listener [Ln], and [http.Handle] and
    [Server.Serve], which the serving goroutine calls; [Serve] returns with an error. *)
Class Listening (W Ln : Type) : Type := {
  net_Listen : string → W → W * (Ln + error);
  Ln_Close : Ln → W → W * option error;
  Ln_Addr : Ln → W → string;
  http_Handle : string → M W unit;
  http_Serve : Ln → W → W * error
}.

Section start.
Context {W D V : Type} `{Raft W} `{Network W} `{FileSystem W} `{RaftCreation W}.
Context `{Codec Command} `{Codec RaftCluster} `{Codec (list ConfigEntry)}.
Context `{Codec JoinRequest} `{!Codec (Rsp D)}.
Context `{Host} {Ln : Type} `{Listening W Ln}.
Context (arg : Arg).

(** [Service]: its store, its listener (nil before it is started), its job dealers,
    and the channel of leadership events, which has room for one. *)
Record Service : Type := mkService {
  Svc_Store : RaftStore W;
  Svc_Ln : option Ln;
  Svc_Dealers : DealerMap (RaftStore W) V;
  Svc_LeaderCh : option bool
}.

Definition Create : M W Service := λ w,
  match Open (D := D) arg w with
  | (w, Panic msg) => (w, Panic msg)
  | (w, Ret (Some err)) => (w, Panic ("failed to open Store: " +:+ Error err))
  | (w, Ret None) => (w, Ret (mkService (New w) None MakeDealerMap None))
  end.

(** The joining goroutine: it tries, and after a failure sleeps ten seconds and tries
    again.  [sleeps] are the changes of the world during its sleeps; [None] while it
    still has not joined. *)
Fixpoint join_loop (sleeps : list (W → W)) : M W (option unit) :=
  err ← Arg_Join (D := D) arg;
  match err with
  | None => mret (Some tt)
  | Some _ =>
      match sleeps with
      | [] => mret None
      | sleep :: sleeps => _ ← modify sleep; join_loop sleeps
      end
  end.

Definition waitTimeout : Z := (100 * 1000000000)%Z.

(** The waiting of [StartRaft]: both results are dropped; [None] while it blocks. *)
Definition StartRaft (leader_events : Z → list (leader_event W))
    (applied_events : Z → list (applied_event W)) : M W (option (option error)) :=
  r ← WaitForLeader (D := D) arg waitTimeout leader_events;
  match r with
  | None => mret None
  | Some _ =>
      r ← WaitForApplied waitTimeout applied_events;
      match r with
      | None => mret None
      | Some _ => mret (Some None)
      end
  end.

(** *** The HTTP side *)

Definition set_Ln (ln : option Ln) (s : Service) : Service :=
  mkService (Svc_Store s) ln (Svc_Dealers s) (Svc_LeaderCh s).

(** The call in front of the goroutine; a failing [Listen] gives a nil listener. *)
Definition GoStartHTTP (s : Service) : M W (Service * option error) :=
  r ← ext (net_Listen (ConvertToZeroHost arg (Arg_HTTPAddr arg)));
  match r with
  | inr err => mret (set_Ln None s, Some err)
  | inl ln => mret (set_Ln (Some ln) s, None)
  end.
(** The goroutine; the requests [Serve] gets run [ServeHTTP] of Service.v. *)
Definition serve_goroutine (ln : Ln) : M W unit :=
  _ ← http_Handle "/";
  err ← ext (http_Serve ln);
  panic ("HTTP serve: " +:+ Error err).

Definition nil_deref {A} : M W A := panic "invalid memory address or nil pointer dereference".
Definition Close (s : Service) : M W (option error) :=
  match Svc_Ln s with Some ln => ext (Ln_Close ln) | None => nil_deref end.
Definition Service_Addr (s : Service) : M W string :=
  match Svc_Ln s with Some ln => gets (Ln_Addr ln) | None => nil_deref end.

(** *** Both *)

Definition StartAll (leader_events : Z → list (leader_event W))
    (applied_events : Z → list (applied_event W)) (s : Service) : M W (Service * option (option error)) :=
  '(s, err) ← GoStartHTTP s;
  match err with
  | Some e => mret (s, Some (Some e))
  | None => r ← StartRaft leader_events applied_events; mret (s, r)
  end.

(** ** Properties *)

Lemma Arg_Join_total a w : ∃ w' err, Arg_Join (D := D) a w = (w', Ret err).
Proof.
  unfold Arg_Join. destruct (Bootstrap a); [by do 2 eexists|].
  generalize (JoinAddrSlice a) as l. intros l. revert w. induction l as [|x l IH]; intros w;
    [by do 2 eexists|]. cbn [Arg_Join_loop]. unfold mbind, M_bind.
  destruct (Join_total (D := D) x (Arg_RaftAddr a) (Arg_NodeID a) w) as (w1 & [e|] & ->);
    [apply IH|by do 2 eexists].
Qed.

(** Attempts that all fail, each with the sleep after it. *)
Inductive failed_attempts : list (W → W) → W → W → Prop :=
| failed_nil w : failed_attempts [] w w
| failed_cons sleep sleeps w w1 w2 e :
    Arg_Join (D := D) arg w = (w1, Ret (Some e)) → failed_attempts sleeps (sleep w1) w2 →
    failed_attempts (sleep :: sleeps) w w2.

(** The joining goroutine ends with the first attempt that succeeds, and not before:
    a node whose attempts fail goes on trying. *)
Theorem join_loop_spec sleeps w :
  ∃ w' r, join_loop sleeps w = (w', Ret r) ∧
    match r with
    | Some _ => ∃ before after w1, sleeps = before ++ after ∧ failed_attempts before w w1 ∧
        Arg_Join (D := D) arg w1 = (w', Ret None)
    | None => ∃ w1 e, failed_attempts sleeps w w1 ∧ Arg_Join (D := D) arg w1 = (w', Ret (Some e))
    end.
Proof.
  revert w. induction sleeps as [|sleep sleeps IH]; intros w; cbn [join_loop]; unfold mbind, M_bind;
    destruct (Arg_Join_total arg w) as (w1 & [e|] & E); rewrite E.
  - exists w1, None. split; [done|]. exists w, e. split; [constructor|done].
  - exists w1, (Some tt). split; [done|]. exists [], [], w. split_and!; [done|constructor|done].
  - unfold modify. destruct (IH (sleep w1)) as (w' & r & -> & Hr). exists w', r. split; [done|].
    destruct r as [[]|].
    + destruct Hr as (l1 & l2 & w2 & -> & Hf & Hj). exists (sleep :: l1), l2, w2.
      split_and!; [done|by econstructor|done].
    + destruct Hr as (w2 & e2 & Hf & Hj). exists w2, e2. split; [by econstructor|done].
  - exists w1, (Some tt). split; [done|].
    exists [], (sleep :: sleeps), w. split_and!; [done|constructor|done].
Qed.

(** Creating a service fails with a panic exactly when the store does not open, and
    the new service has an empty map, no job dealers and no leadership event. *)
Theorem Create_spec w :
  match Open (D := D) arg w with
  | (w', Panic msg) => Create w = (w', Panic msg)
  | (w', Ret (Some err)) => Create w = (w', Panic ("failed to open Store: " +:+ Error err))
  | (w', Ret None) => ∃ s, Create w = (w', Ret s) ∧ m (Svc_Store s) = ∅ ∧
      world (Svc_Store s) = w' ∧ Svc_Ln s = None ∧ Dealers (Svc_Dealers s) = ∅ ∧ Svc_LeaderCh s = None
  end.
Proof.
  unfold Create. destruct (Open arg w) as [w' [[e|]|msg]]; [done| |done].
  eexists. by split_and!.
Qed.

(** Events at which nothing gets stuck. *)
Definition comes_back {X} (e : wait_event W X) : Prop :=
  match e with hang _ _ => False | _ => True end.

Lemma WaitForLeader_ends `{!RaftNames W} pre before post w : Forall comes_back pre →
  ∃ w' r, WaitForLeader_loop (D := D) arg (pre ++ tmr before :: post) w = (w', Ret (Some r)).
Proof.
  intros Hpre. revert w. induction Hpre as [|[b|b|] pre Hb _ IH]; intros w; cbn [app WaitForLeader_loop];
    [by do 2 eexists| |by do 2 eexists|done].
  unfold modify, LeaderAddr, gets, mbind, M_bind. case_decide; [by do 2 eexists|].
  destruct (joinNodesFromLeader_total (D := D) arg (b w)) as [w1 ->]. apply IH.
Qed.

Lemma WaitForLeader_stuck `{!RaftNames W} pre before during post w w1 :
  leaderless (D := D) arg pre w w1 → raft_Leader (before w1) = "" →
  WaitForLeader_loop (D := D) arg (pre ++ hang before during :: post) w = (during (before w1), Ret None).
Proof.
  induction 1 as [w|b events w wj w2 Hb Hj _ IH]; intros Hl; cbn [app WaitForLeader_loop];
    unfold modify, LeaderAddr, gets, mbind, M_bind; (rewrite decide_False by auto); [done|].
  rewrite Hj. by apply IH.
Qed.

Lemma WaitForApplied_ends timeout events w before post pre :
  events timeout = pre ++ tmr before :: post →
  ∃ w' r, WaitForApplied timeout events w = (w', Ret (Some r)).
Proof.
  intros E. unfold WaitForApplied, WaitForAppliedIndex. rewrite E. case_match; [by do 2 eexists|].
  unfold gets, mbind, M_bind. generalize (raft_LastIndex w) as idx. intros idx.
  assert (∃ w' r, WaitForAppliedIndex_loop idx (pre ++ tmr before :: post) w = (w', Ret (Some r)))
    as (w' & [e|] & ->); [|by do 2 eexists..].
  revert w. clear E. induction pre as [|[b|b|? []] pre IH]; intros w; cbn [app WaitForAppliedIndex_loop];
    [by do 2 eexists| |by do 2 eexists].
  unfold modify, gets, mbind, M_bind. case_match; [by do 2 eexists|apply IH].
Qed.

(** The waiting is over at the latest when the two timers have fired, with a leader or
    without - unless a search for a leader gets stuck before. *)
Lemma StartRaft_cases `{!RaftNames W} leader_events applied_events w :
  ∃ w' r, StartRaft leader_events applied_events w = (w', Ret r) ∧ (r = Some None ∨ r = None) ∧
    (∀ pre1 b1 post1 pre2 b2 post2,
       leader_events waitTimeout = pre1 ++ tmr b1 :: post1 → Forall comes_back pre1 →
       applied_events waitTimeout = pre2 ++ tmr b2 :: post2 → r = Some None) ∧
    (∀ pre before during post wl,
       leader_events waitTimeout = pre ++ hang before during :: post →
       leaderless (D := D) arg pre w wl → raft_Leader (before wl) = "" →
       r = None ∧ w' = during (before wl)).
Proof.
  unfold StartRaft, WaitForLeader, mbind, M_bind.
  destruct (WaitForLeader_waited (D := D) arg (leader_events waitTimeout) w) as (w1 & r1 & E1 & _).
  assert (∀ pre before during post wl, leader_events waitTimeout = pre ++ hang before during :: post →
    leaderless (D := D) arg pre w wl → raft_Leader (before wl) = "" →
    r1 = None ∧ w1 = during (before wl)) as Hstuck.
  { intros pre before during post wl E Hpre Hl. rewrite E in E1.
    rewrite (WaitForLeader_stuck _ _ _ _ _ _ Hpre Hl) in E1. by injection E1 as <- <-. }
  rewrite E1. destruct r1 as [r1|].
  - destruct (WaitForApplied_spec waitTimeout applied_events w1) as (w2 & r2 & E2 & _).
    rewrite E2. exists w2. exists (match r2 with Some _ => Some None | None => None end).
    split; [by destruct r2|]. split; [destruct r2; auto|]. split.
    + intros pre1 b1 post1 pre2 b2 post2 _ _ E.
      destruct (WaitForApplied_ends waitTimeout applied_events w1 b2 post2 pre2 E) as (w3 & r3 & E3).
      rewrite E2 in E3. by injection E3 as -> ->.
    + intros pre before during post wl E Hpre Hl.
      by destruct (Hstuck pre before during post wl E Hpre Hl) as [[=] _].
  - exists w1, None. split_and!; [done|by right| |intros; split; [done|by eapply Hstuck]].
    intros pre1 b1 post1 pre2 b2 post2 E Hpre _. rewrite E in E1.
    destruct (WaitForLeader_ends pre1 b1 post1 w Hpre) as (w3 & r3 & E3). rewrite E1 in E3. done.
Qed.

(** C32. Starting.  The service binds its HTTP address, the port alone when the host is
    its own.  If that fails, [StartAll] returns that error, without a listener, and has
    neither joined nor waited for anything.  If it works, the listener can be asked for
    its address and closed from then on, and [StartAll] never returns an error: it has
    returned once the two timers have fired, at the latest, whether or not a leader was
    found or the log applied, provided the searches for a leader before the first timer
    come back.  If one at a tick without a leader does not - the client has no timeout -
    [StartAll] never returns, whatever the timers do. *)
Theorem StartAll_returns `{!RaftNames W} leader_events applied_events s w :
  match net_Listen (ConvertToZeroHost arg (Arg_HTTPAddr arg)) w with
  | (w1, inr err) =>
      StartAll leader_events applied_events s w = (w1, Ret (set_Ln None s, Some (Some err)))
  | (w1, inl ln) =>
      ∃ w2 r, StartAll leader_events applied_events s w = (w2, Ret (set_Ln (Some ln) s, r)) ∧
        StartRaft leader_events applied_events w1 = (w2, Ret r) ∧
        Service_Addr (set_Ln (Some ln) s) w2 = (w2, Ret (Ln_Addr ln w2)) ∧
        Close (set_Ln (Some ln) s) w2 = ext (Ln_Close ln) w2 ∧
        (r = Some None ∨ r = None) ∧
        (∀ pre1 b1 post1 pre2 b2 post2,
           leader_events waitTimeout = pre1 ++ tmr b1 :: post1 → Forall comes_back pre1 →
           applied_events waitTimeout = pre2 ++ tmr b2 :: post2 → r = Some None) ∧
        (∀ pre before during post wl,
           leader_events waitTimeout = pre ++ hang before during :: post →
           leaderless (D := D) arg pre w1 wl → raft_Leader (before wl) = "" →
           r = None ∧ w2 = during (before wl))
  end.
Proof.
  unfold StartAll, GoStartHTTP, ext, mbind, M_bind.
  destruct (net_Listen _ w) as [w1 [ln|err]]; [|done]. cbn [mret M_ret].
  destruct (StartRaft_cases leader_events applied_events w1) as (w2 & r & E & Hr).
  exists w2, r. by rewrite E.
Qed.

(** Closing a service brings the process down.  [Serve] never returns without an
    error, also when the listener was closed, and the goroutine panics on whatever
    error it gets. *)
Lemma serve_goroutine_panics ln w : (serve_goroutine ln w).2 ≠ Ret tt.
Proof.
  unfold serve_goroutine, ext, mbind, M_bind. destruct (http_Handle "/" w) as [w1 [[]|msg]]; [|done].
  by destruct (http_Serve ln w1).
Qed.
End start.

(** ** Witness *)

Section witnesses.
Import Wire SimNode.

(** A host that knows no names, and a listener that is its address. *)
#[local] Instance start_host : Host := {
  net_ParseIP _ := true; net_LookupIP h := inl [h]; goip_MainIP _ := "10.0.0.1"; user_HomeDir := None
}.
#[local] Instance start_listening : Listening sim string := {
  net_Listen a w := (w, if decide (a = "") then inr (ErrExt "missing port in address") else inl a);
  Ln_Close _ w := (w, None);
  Ln_Addr a _ := a;
  http_Handle _ := mret tt;
  http_Serve _ w := (w, ErrExt "use of closed network connection")
}.
Definition start_arg : Arg := set_HostIP "10.0.0.1" (set_addrs "10.0.0.1:11000" "10.0.0.1:12000" MakeArg).
Definition sim_service : Service (V := string) (Ln := string) :=
  mkService (New sim_no_leader) None MakeDealerMap None.

Definition started (events : list (leader_event sim)) : sim * outcome (Service * option (option error)) :=
  StartAll (D := string) start_arg (λ _, events) (λ _, [tmr id]) sim_service sim_no_leader.

Lemma StartAll_returns_witness :
  ∃ w2 r, started [tck id; tmr id] = (w2, Ret (set_Ln (Some ":11000") sim_service, r)) ∧ r = Some None.
Proof.
  destruct (StartAll_returns (D := string) start_arg (λ _, [tck id; tmr id]) (λ _, [tmr id]) sim_service
    sim_no_leader) as (w2 & r & E & _ & _ & _ & _ & Hr & _).
  exists w2, r. split; [exact E|]. apply (Hr [tck id] id [] [] id []); [done|by repeat constructor|done].
Defined.

Example StartAll_blocks : (started [hang id id; tmr id]).2 = Ret (set_Ln (Some ":11000") sim_service, None).
Proof. vm_compute. reflexivity. Qed.
End witnesses.
