(* ===== verification/Demo.v ===== *)
(** * The demo command: [cmd/hraftd/main.go]

    What the leading node does at every tick: it makes random configuration items for
    the active peers, puts them into the raft log under one key, and hands ten jobs
    round.  Every node takes the items out of the log with a log dealer and picks its
    own; the jobs run in a job dealer.  [command] is [main], from its flags to the
    service that listens. *)

From stdpp Require Import prelude gmap strings.
From S2P Require Import Prelude.
From S2P Require Import GoStd.
From S2P Require Import GoTime.
From S2P Require Import Util.
From S2P Require Import Model.
From S2P Require Import Externals.
From S2P Require Import Sim.
From S2P Require Import Distribute.
From S2P Require Import Dealer.
From S2P Require Import Arg.
From S2P Require Import Configure.
From S2P Require Import Client.
From S2P Require Import Fsm.
From S2P Require Import Store.
From S2P Require Import Http.
From S2P Require Import Service.
From S2P Require Import Jobs.
From S2P Require Import Start.

(** ** Data *)

Definition rigConf : string := "rigconf".

Record RigConfItem : Type := mkRigConfItem {
  Rig_Time : string; Rig_ID : Z; Rig_Name : string; Rig_NodeID : NodeID
}.
Record JobReq : Type := mkJobReq { Req_ID : string }.
(** [JobRsp] of package main, which is not the one of [peerjob.go]. *)
Record DemoRsp : Type := mkDemoRsp { Demo_OK : string; Demo_Msg : string }.

#[export] Instance DemoRsp_eq_dec : EqDecision DemoRsp.
Proof. solve_decision. Defined.

(** The values that go through the dealers of the command. *)
Inductive go_value : Type :=
| VNil
| VItems (items : list RigConfItem)
| VJobReq (req : JobReq)
| VJobRsp (rsp : DemoRsp)
| VPtr (v : go_value)
| VSlice (t : gotype) (v : go_value).

(** Of the types of the command only the empty interface takes values of another type. *)
#[export] Instance demo_reflect : Reflect go_value := {|
  AssignableTo t u := bool_decide (t = u) || bool_decide (u = any_t); slice_of := VSlice
|}.

Definition items_t : gotype := TSlice (TNamed "RigConfItem").
Definition jobreq_t : gotype := TNamed "JobReq".

Definition myJob (req : JobReq) : DemoRsp * option error :=
  (mkDemoRsp "OK" (Req_ID req +:+ " is processed"), None).

(** A logger that prints a formatted line; [%+v] of a response and of a pointer to one. *)
Class LogSink (W : Type) : Type := { sink : string → M W unit }.
Definition show_rsp (r : DemoRsp) : string := "{OK:" +:+ Demo_OK r +:+ " Msg:" +:+ Demo_Msg r +:+ "}".

(** The generators of random values, and the clock with its zone. *)
Class Generators (W : Type) : Type := {
  random_Uint64Range : Z → Z → W → W * (Z * option error);
  faker_Fake : W → W * RigConfItem;
  demo_Now : W → Z * Z
}.

(** ** Jobs *)

Section jobs.
Context {W : Type} `{Network W} `{LogSink W}.
Context `{!Codec JobReq} `{!Codec DemoRsp} `{!Codec JobRsp}.

Definition job_request_no (i : nat) : JobReq := mkJobReq ("ID：" +:+ fmt_d (Z.of_nat i)).

Definition one_job (activePeers : list Peer) (i : nat) : M W unit :=
  let req := job_request_no i in
  let serverLen := length activePeers in
  if decide (0 < serverLen) then
    match activePeers !! (i mod serverLen) with
    | None => panic "index out of range"
    | Some peer =>
        '(r, err) ← DistributeJob peer "/myjob" req (mkDemoRsp "" "");
        match err with
        | Some e => sink ("distribute job error " +:+ Error e)
        | None => sink ("distribute job successfully, rsp :&" +:+ show_rsp r)
        end
    end
  else
    let '(rsp, err) := myJob req in
    match err with
    | Some e => sink ("process locally error " +:+ Error e)
    | None => sink ("process locally successfully, rsp :" +:+ show_rsp rsp)
    end.

Fixpoint jobs_loop (activePeers : list Peer) (l : list nat) : M W unit :=
  match l with
  | [] => mret tt
  | i :: l => _ ← one_job activePeers i; jobs_loop activePeers l
  end.
Definition demoDistributeJobs (activePeers : list Peer) : M W unit := jobs_loop activePeers (seq 0 10).
End jobs.

(** ** Items *)

Section items.
Context {W : Type} `{Generators W} `{LogSink W} `{!Codec (list RigConfItem)}.

(** A [uint64] as an [int]. *)
Definition to_int (i : Z) : Z := ((i + 2 ^ 63) `mod` 2 ^ 64 - 2 ^ 63)%Z.
Definition RandIntN (n : Z) : M W Z :=
  '(i, _) ← ext (random_Uint64Range 0 n); mret (to_int i).

Definition one_item (peer : Peer) : M W RigConfItem :=
  item ← ext faker_Fake;
  '(now, off) ← gets demo_Now;
  mret (mkRigConfItem (FormatTime now off) (Rig_ID item) (Rig_Name item) (Peer_ID peer)).
Fixpoint items_of (peer : Peer) (n : nat) : M W (list RigConfItem) :=
  match n with
  | O => mret []
  | S n => item ← one_item peer; items ← items_of peer n; mret (item :: items)
  end.
(** The inner loop counts down from [1 + RandIntN(3)] while it is positive. *)
Fixpoint create_items (activePeers : list Peer) : M W (list RigConfItem) :=
  match activePeers with
  | [] => mret []
  | peer :: peers =>
      i ← RandIntN 3;
      items ← items_of peer (Z.to_nat (to_int (1 + i)));
      rest ← create_items peers;
      mret (items ++ rest)
  end.

Definition demoApplyLogs `{StoreI W} (activePeers : list Peer) : M W unit :=
  items ← create_items activePeers;
  _ ← sink ("create items " +:+ Jsonify4Print items);
  err ← Service_Set rigConf (Jsonify items);
  match err with
  | Some e => sink ("fail to set rigConf, error " +:+ Error e)
  | None => mret tt
  end.
End items.

(** ** A tick *)

Section tick.
Context {W : Type} `{StoreI W} `{Network W} `{LogSink W} `{Generators W}.
Context `{!Codec JobReq} `{!Codec DemoRsp} `{!Codec JobRsp} `{!Codec (list RigConfItem)}.

Definition tick (c : RaftCluster) : M W unit :=
  let activePeers := ActivePeers c in
  _ ← demoApplyLogs activePeers;
  demoDistributeJobs activePeers.

(** The function the ticker of [leaderChanging] runs. *)
Definition leader_tick : M W unit :=
  '(cluster, err) ← Service_RaftCluster;
  match err with
  | Some e => sink ("h.Store.Cluster error " +:+ Error e)
  | None => tick cluster
  end.
End tick.

(** ** The dealers of the command *)

Section dealers.
Context {W : Type} `{LogSink W} `{!Codec (list RigConfItem)} `{!Codec JobReq} `{!Codec Command}.

(** jsoniter into a new value of the type of a dealer's parameter. *)
Definition demo_unmarshal (t : gotype) (body : string) : go_value + error :=
  if decide (t = items_t) then
    match Unmarshal ([] : list RigConfItem) body with (items, None) => inl (VItems items) | (_, Some e) => inr e end
  else if decide (t = jobreq_t) then
    match Unmarshal (mkJobReq "") body with (r, None) => inl (VJobReq r) | (_, Some e) => inr e end
  else inr (ErrExt "no such type").

(** The log dealer of [main]: the items of this node are printed. *)
Definition my_items (nodeID : NodeID) (items : list RigConfItem) : list RigConfItem :=
  filter (λ i, Rig_NodeID i = nodeID) items.
Definition rig_dealer (nodeID : NodeID) (items : list RigConfItem) : M W (go_value * option error) :=
  let meItems := my_items nodeID items in
  if decide (length meItems = 0) then mret (VNil, None)
  else _ ← sink ("received config items " +:+ Jsonify4Print meItems); mret (VNil, None).
Definition rig_func (nodeID : NodeID) : dealer_value W go_value :=
  DFunc [items_t] [any_t; error_t]
    (λ v, match v with VItems items => rig_dealer nodeID items | _ => panic call_mismatch end).
Definition myJob_func : dealer_value W go_value :=
  DFunc [TPtr jobreq_t] [TNamed "JobRsp"; error_t]
    (λ v, match v with
          | VPtr (VJobReq req) => let '(rsp, err) := myJob req in mret (VJobRsp rsp, err)
          | _ => panic call_mismatch
          end).

Definition demo_log_dealers (nodeID : NodeID) : DealerMap W go_value :=
  (RegisterLogDealer rigConf (rig_func nodeID) MakeLogDealer).1.
Definition demo_job_dealers : DealerMap W go_value :=
  (RegisterJobDealer "/myjob" myJob_func MakeDealerMap).1.
(** The interceptor of [main] prints every command and takes none. *)
Definition demo_interceptor (l : Log) (cmd : Command) : M W bool :=
  _ ← sink ("received command " +:+ Jsonify4Print cmd); mret false.
End dealers.

(** ** main *)

Section main.
Context {W D : Type} `{Raft W} `{Network W} `{FileSystem W} `{RaftCreation W}.
Context `{Codec Command} `{Codec RaftCluster} `{Codec (list ConfigEntry)}.
Context `{Codec JoinRequest} `{!Codec (Rsp D)}.
Context `{Arg.Host} {Ln : Type} `{Listening W Ln} (arg : Arg).

Definition set_Dealers (d : DealerMap (RaftStore W) go_value)
    (s : Service (W := W) (V := go_value) (Ln := Ln)) : Service :=
  mkService (Svc_Store s) (Svc_Ln s) d (Svc_LeaderCh s).

(** From the arguments, fixed, to the interrupt; [None] while [StartAll] still waits. *)
Definition main (leader_events : Z → list (leader_event W))
    (applied_events : Z → list (applied_event W)) : M W (option Service) :=
  h ← Create (D := D) arg;
  match RegisterJobDealer "/myjob" myJob_func (Svc_Dealers h) with
  | (_, Panic msg) => panic msg
  | (_, Ret (Some err)) => panic ("failed to register /myjob, error " +:+ Error err)
  | (d, Ret None) =>
      '(h, r) ← StartAll (D := D) arg leader_events applied_events (set_Dealers d h);
      match r with
      | Some (Some err) => panic ("failed to start HTTP service: " +:+ Error err)
      | Some None => mret (Some h)
      | None => mret None
      end
  end.

(** The command comes up exactly when its store opens, its address can be listened on
    and the waiting of [StartRaft] ends; then its service has the empty map and the one
    job dealer, and is listening.  Registering the dealer never fails; the two failures
    end the process with their texts. *)
Theorem main_starts `{!RaftNames W} leader_events applied_events w :
  main leader_events applied_events w =
    match Open (D := D) arg w with
    | (w1, Panic msg) => (w1, Panic msg)
    | (w1, Ret (Some err)) => (w1, Panic ("failed to open Store: " +:+ Error err))
    | (w1, Ret None) =>
        match net_Listen (ConvertToZeroHost arg (Arg_HTTPAddr arg)) w1 with
        | (w2, inr err) => (w2, Panic ("failed to start HTTP service: " +:+ Error err))
        | (w2, inl ln) =>
            let '(w3, r) := StartRaft (D := D) arg leader_events applied_events w2 in
            (w3, Ret (match r with
                      | Ret (Some _) => Some (mkService (New w1) (Some ln) demo_job_dealers None)
                      | _ => None
                      end))
        end
    end.
Proof.
  unfold main, Create, mbind, M_bind. destruct (Open arg w) as [w1 [[e|]|msg]]; [done| |done].
  cbn [Svc_Dealers]. unfold RegisterJobDealer at 1. cbn [Dealers MakeDealerMap].
  rewrite lookup_empty. cbn [checkDealerFn checkDealerSig myJob_func]. rewrite decide_True by done.
  unfold StartAll, GoStartHTTP, ext, mbind, M_bind.
  destruct (net_Listen _ w1) as [w2 [ln|err]]; [|done]. cbn [mret M_ret].
  destruct (StartRaft_cases (D := D) arg leader_events applied_events w2)
    as (w3 & r & -> & [-> | ->] & _); done.
Qed.
End main.

(** ** The arguments of main *)

Section command.
Context `{Arg.Host}.
(** [defaults.Set]; what [pflag.Parse] finds on the command line for the flags defined. *)
Context (defaults_Set : FlagNames → FlagNames).
Context (pflag_Parse : list registration → list (flag_field * (bool + string))).

(** The field a flag stands for, assigned. *)
Definition assign (a : Arg) (fv : flag_field * (bool + string)) : Arg :=
  let inMem := match fv with (FInMem, inl b) => b | _ => InMem a end in
  let str f := match fv.2 with inr s => if decide (fv.1 = f) then Some s else None | _ => None end in
  mkArg (Bootstrap a) inMem (default (Arg_RaftAddr a) (str FRaftAddr)) (default (RaftAdv a) (str FRaftAdv))
    (default (RaftNodeDir a) (str FRaftNodeDir)) (Arg_NodeID a) (default (Arg_HTTPAddr a) (str FHTTPAddr))
    (default (HTTPAdv a) (str FHTTPAdv)) (default (JoinAddrs a) (str FJoinAddrs))
    (default (IfaceName a) (str FIfaceName)) (JoinAddrSlice a) (HostIP a).

(** A flag defined has its default at once; the command line is read over that, and the
    arguments are fixed. *)
Definition command_arg : outcome Arg :=
  let '(a, regs) := DefineFlags defaults_Set [] in
  let a := foldl assign a ((λ r, (reg_field r, reg_default r)) <$> regs) in
  let a := foldl assign a (pflag_Parse regs) in
  match Arg_Fix a with (a, Ret _) => Ret a | (_, Panic msg) => Panic msg end.

Definition command {W D : Type} `{Raft W} `{Network W} `{FileSystem W} `{RaftCreation W}
    `{Codec Command} `{Codec RaftCluster} `{Codec (list ConfigEntry)} `{Codec JoinRequest} `{!Codec (Rsp D)}
    {Ln : Type} `{Listening W Ln} (leader_events : Z → list (leader_event W))
    (applied_events : Z → list (applied_event W)) :
    M W (option (Service (W := W) (V := go_value) (Ln := Ln))) :=
  match command_arg with
  | Ret arg => main (D := D) arg leader_events applied_events
  | Panic msg => panic msg
  end.

(** Started with nothing but perhaps an address to join, a command keeps raft in memory
    and comes up on the ports 11000 and 12000 of its host, under the name made of them;
    alone it bootstraps a cluster of its own. *)
Theorem command_arg_defaults (join : option address) :
  defaults_Set (mkFlagNames "" "" "" "" "" "" "" "") = default_tags →
  (∀ regs, pflag_Parse regs = match join with Some hp => [(FJoinAddrs, inr (spell (Some hp)))] | None => [] end) →
  (∀ hp, join = Some hp → clean_address hp) →
  clean (goip_MainIP "") = true → goip_MainIP "" ≠ "" →
  let ip := goip_MainIP "" in
  ∃ a, command_arg = Ret a ∧ well_configured a ∧ InMem a = true ∧
    Arg_HTTPAddr a = joinHP ip "11000" ∧ Arg_RaftAddr a = joinHP ip "12000" ∧
    Arg_NodeID a = mkNodeID ip "11000" "12000" ∧
    JoinAddrSlice a = match join with Some (h, p) => [joinHP (EmptyThen h ip) p] | None => [] end ∧
    (join = None → Bootstrap a = true).
Proof.
  intros Hd Hp Hj Hip Hne ip. unfold command_arg, DefineFlags, createFlagNames. cbn [foldl]. rewrite Hd.
  set (a := foldl assign _ (_ <$> _)). rewrite Hp.
  set (a1 := foldl assign a _). pose (joins := [join]).
  assert (IfaceName a1 = "" ∧ Arg_HTTPAddr a1 = "" ∧ Arg_RaftAddr a1 = "" ∧ InMem a1 = true ∧
    JoinAddrs a1 = join_with "," (spell <$> joins)) as (Ei & Eh & Er & Em & Ej) by by destruct join.
  assert (Forall clean_address (omap id joins)) as Hjs
    by (destruct join; cbn; [constructor; [by apply Hj|constructor]|constructor]).
  pose proof (Fix_run a1 None None joins Eh Er Ej) as Hrun. rewrite Ei in Hrun. fold ip in Hrun.
  destruct Hrun as (Hhp & Hrp & Hrun); [done|done|done|done|]. rewrite Hrun.
  eexists. split; [done|]. split; [by apply configured_well|]. cbn. split_and!; try done.
  - by destruct join as [[h p]|].
  - by intros ->.
Qed.
End command.

(** ** Properties *)

(** Dealing [k] jobs over [n] peers in turn gives the peer at index [j] its share. *)
Lemma jobs_share k n j : j < n →
  Z.of_nat (length (filter (λ i, i `mod` n = j) (seq 0 k))) = quota k n j.
Proof.
  intros Hj. induction k as [|k IH]; [by rewrite quota_0|].
  rewrite seq_S, filter_app, length_app, Nat2Z.inj_add, IH, quota_S by done. f_equal.
  rewrite filter_cons, filter_nil. simpl. by case_decide.
Qed.

Section delivery.
Context {W D : Type} `{Raft W} `{Network W} `{FileSystem W}.
Context `{!Codec Command} `{!Codec (gmap string string)} `{!Codec RaftCluster}.
Context `{!Codec (list ConfigEntry)} `{!Codec JoinRequest} `{!Codec (Rsp D)}.
Context `{!LogSink W} `{!Codec (list RigConfItem)} `{!Codec JobReq}.
(** The leader's state, with its generators. *)
Context {S : Type} `{!Generators S}.

Lemma items_of_run peer n (s : S) : ∃ s' items,
  items_of peer n s = (s', Ret items) ∧ length items = n ∧ Forall (λ i, Rig_NodeID i = Peer_ID peer) items.
Proof.
  revert s. induction n as [|n IH]; intros s; [by eexists s, []|].
  cbn [items_of]. unfold one_item, ext, gets, mbind, M_bind.
  destruct (faker_Fake s) as [s1 item]. destruct (demo_Now s1) as [now off]. cbn [mret M_ret].
  destruct (IH s1) as (s2 & items & -> & Hlen & Hall).
  eexists s2, _. split; [done|]. split; [simpl; lia|]. by constructor.
Qed.

Lemma to_int_small z : (0 ≤ z < 2 ^ 63)%Z → to_int z = z.
Proof. intros Hz. unfold to_int. rewrite Z.mod_small by lia. lia. Qed.

Lemma create_items_run (peers : list Peer) (s : S) :
  (∀ s, 0 ≤ (random_Uint64Range 0 3 s).2.1 ≤ 3)%Z →
  ∃ s' items, create_items peers s = (s', Ret items) ∧
    (∀ i, i ∈ items → Rig_NodeID i ∈ Peer_ID <$> peers) ∧
    (∀ n, n ∈ Peer_ID <$> peers → my_items n items ≠ []).
Proof.
  intros Hr. revert s. induction peers as [|p peers IH]; intros s.
  { eexists s, []. split_and!; [done|set_solver|set_solver]. }
  cbn [create_items]. unfold RandIntN, ext, mbind, M_bind. specialize (Hr s).
  destruct (random_Uint64Range 0 3 s) as [s1 [i err]]. cbn [fst snd mret M_ret] in *.
  rewrite (to_int_small i), to_int_small by lia.
  destruct (items_of_run p (Z.to_nat (1 + i)) s1) as (s2 & l1 & -> & Hlen & Hall).
  destruct (IH s2) as (s3 & l2 & -> & Hin & Hne). eexists s3, _. split; [done|].
  rewrite Forall_forall in Hall. rewrite fmap_cons. split.
  - intros x [Hx|Hx]%elem_of_app; apply elem_of_cons; [left; by apply Hall|right; by apply Hin].
  - unfold my_items in *. intros n [->|Hn]%elem_of_cons; rewrite filter_app.
    + destruct l1 as [|x l1]; [simpl in Hlen; lia|].
      rewrite filter_cons_True; [done|]. apply Hall. constructor.
    + intros [_ E]%app_eq_nil. by apply (Hne n).
Qed.

Definition print (msg : string) (w : W) : W := (sink msg w).1.

(** C22. The items of a tick reach their nodes.  Every item made names an active peer and
    every active peer gets one.  The command that carries them - if JSON can carry it, as
    it can carry valid UTF-8 - applied by any node at any time, whatever its time stamp,
    prints the command and then just the items that name the node, if there are any; it
    is not stored under its key but leaves the map as it was. *)
Theorem rig_items_delivered (peers : list Peer) (s : S)
    (valid : Command → Prop) (valid_items : list RigConfItem → Prop)
    (Hcmd : CodecLaws Command Command0 valid) (Hitems : CodecLaws (list RigConfItem) [] valid_items) :
  (∀ s, 0 ≤ (random_Uint64Range 0 3 s).2.1 ≤ 3)%Z →
  (∀ msg (w : W), sink msg w = (print msg w, Ret tt)) →
  (∀ s' items, create_items peers s = (s', Ret items) → valid_items items) →
  ∃ s' items, create_items peers s = (s', Ret items) ∧
    (∀ i, i ∈ items → Rig_NodeID i ∈ Peer_ID <$> peers) ∧
    (∀ n, n ∈ Peer_ID <$> peers → my_items n items ≠ []) ∧
    ∀ arg n time now (t : RaftStore W),
      let c := mkCommand "set" rigConf (Jsonify items) time in
      valid c →
      Apply (D := D) demo_unmarshal VPtr arg (demo_log_dealers n) (Some demo_interceptor) now
        (mkLog (Marshal c)) t =
      (mkStore (m t)
         (let w := print ("received command " +:+ Jsonify4Print c) (world t) in
          if decide (my_items n items = []) then w
          else print ("received config items " +:+ Jsonify4Print (my_items n items)) w),
       Ret (RValue (Some VNil))).
Proof.
  intros Hr Hsink Hvi. destruct (create_items_run peers s Hr) as (s' & items & E & Hin & Hne).
  specialize (Hvi _ _ E). exists s', items. split_and!; [done..|]. intros arg n time now t c Hvc.
  unfold Apply. cbn [Data]. rewrite (Unmarshal_Marshal (valid := valid)) by exact Hvc.
  unfold mbind at 1, M_bind at 1. rewrite liftW_run.
  unfold Intercept, demo_interceptor, mbind, M_bind. rewrite Hsink. cbn [mret M_ret].
  set (w := print _ (world t)). unfold invoke_dealer, Invoke, mbind, M_bind.
  change (Dealers (demo_log_dealers n) !! Key c) with (Some (mkDealer
    (λ v, match v with VItems items => rig_dealer n items | _ => panic call_mismatch end) items_t) : option (Dealer W go_value)).
  cbn [ReqType items_t Fn]. unfold demo_unmarshal. rewrite decide_True by done.
  change (Value c) with (Marshal items). rewrite (Unmarshal_Marshal (valid := valid_items)) by done.
  cbn beta iota. unfold rig_dealer, mbind, M_bind.
  destruct (my_items n items) as [|x l]; [done|].
  rewrite decide_False by done. by rewrite Hsink, decide_False by done.
Qed.
End delivery.

(** ** Witnesses *)

Section witnesses.
Import Wire SimNode.

Fixpoint rig_items (l : list string) : option (list RigConfItem) :=
  match l with
  | [] => Some []
  | t :: name :: n :: l => (mkRigConfItem t 7 name n ::.) <$> rig_items l
  | _ => None
  end.
(** The ids of the simulated items are all 7. *)
#[local] Instance rig_codec : Codec (list RigConfItem) := {|
  Marshal l := put_all (l ≫= λ i, [Rig_Time i; Rig_Name i; Rig_NodeID i]);
  Unmarshal z s := match take_all s "" ≫= rig_items with Some l => (l, None) | None => (z, Some bad_json) end;
  Decode z s := match take_all s "" ≫= rig_items with Some l => (l, None) | None => (z, Some bad_json) end
|}.
Definition sevens (l : list RigConfItem) : Prop := Forall (λ i, Rig_ID i = 7%Z) l.
#[local] Instance rig_laws : CodecLaws (list RigConfItem) [] sevens.
Proof.
  assert (∀ l, sevens l → rig_items (l ≫= λ i, [Rig_Time i; Rig_Name i; Rig_NodeID i]) = Some l) as E.
  { induction 1 as [|[t i name n] l Hi _ IH]; [done|]. rewrite bind_cons.
    cbn [Rig_Time Rig_Name Rig_NodeID app rig_items]. rewrite IH. simpl in *. by subst. }
  split; intros l Hl; cbn -[take_all put_all rig_items]; rewrite take_all_put_all; cbn [mbind option_bind];
    by rewrite (E l Hl).
Qed.
#[local] Instance jobreq_codec : Codec JobReq := {|
  Marshal r := Req_ID r; Unmarshal _ s := (mkJobReq s, None); Decode _ s := (mkJobReq s, None)
|}.
#[local] Instance sim_sink : LogSink sim := {
  sink msg w := ((raft_Apply msg w).1, Ret tt)
}.
(** The generator counts. *)
#[local] Instance nat_generators : Generators nat := {
  random_Uint64Range _ n s := (S s, (Z.of_nat s mod (n + 1), None))%Z;
  faker_Fake s := (s, mkRigConfItem "" 7 "name" "");
  demo_Now _ := (a_moment, 0%Z)
}.

Definition demo_peers : list Peer :=
  [mkPeer "10.0.0.1:12000" idA "Leader" "Voter"; mkPeer "10.0.0.2:12000" idB "Follower" "Voter"].
Lemma fresh_items s' items : create_items demo_peers 1 = (s', Ret items) → sevens items.
Proof. vm_compute. intros [= _ <-]. by repeat constructor. Qed.

Lemma rig_items_delivered_witness :
  ∃ s' items, create_items demo_peers 1 = (s', Ret items) ∧
    (∀ i, i ∈ items → Rig_NodeID i ∈ Peer_ID <$> demo_peers) ∧
    (∀ n, n ∈ Peer_ID <$> demo_peers → my_items n items ≠ []) ∧
    ∀ arg n time now (t : RaftStore sim),
      let c := mkCommand "set" rigConf (Jsonify items) time in
      True →
      Apply (D := string) demo_unmarshal VPtr arg (demo_log_dealers n) (Some demo_interceptor) now
        (mkLog (Marshal c)) t =
      (mkStore (m t)
         (let w := print ("received command " +:+ Jsonify4Print c) (world t) in
          if decide (my_items n items = []) then w
          else print ("received config items " +:+ Jsonify4Print (my_items n items)) w),
       Ret (RValue (Some VNil))).
Proof.
  apply (rig_items_delivered (D := string) demo_peers 1 (λ _, True) sevens _ _).
  - intros s. cbn [random_Uint64Range nat_generators fst snd].
    pose proof (Z.mod_pos_bound (Z.of_nat s) (3 + 1) eq_refl). lia.
  - done.
  - exact fresh_items.
Defined.

(** Without active peers the ten jobs are done on the spot. *)
#[local] Instance demorsp_codec : Codec DemoRsp := {|
  Marshal r := Demo_Msg r; Unmarshal _ s := (mkDemoRsp "OK" s, None); Decode _ s := (mkDemoRsp "OK" s, None)
|}.
#[local] Instance demo_jobrsp_codec : Codec JobRsp := Fields_codec.
Example jobs_on_the_spot :
  let log := sim_log (demoDistributeJobs [] sim_leader_node).1 in
  length log = 10 ∧
  log !! 9 = Some "process locally successfully, rsp :{OK:OK Msg:ID：9 is processed}".
Proof. vm_compute. done. Qed.
(** And with peers nobody answers for, every job ends in an error line. *)
Example jobs_refused :
  sim_log (demoDistributeJobs demo_peers sim_leader_node).1 =
    replicate 10 "distribute job error connection refused".
Proof. vm_compute. reflexivity. Qed.
End witnesses.
